(* ===== verification/_CoqProject ===== *)
-Q . S2P
Prelude.v
Errors.v
Craftpp.v
Util.v
IntrusiveList.v
Clock.v
Net.v
Crypto.v
StunBase.v
StunCrc.v
StunAttr.v
StunAttrSet.v
Hashing.v
StunMessage.v
StunServer.v
StunRto.v
StunRtx.v
StunClient.v
StunClientCalls.v
Binding.v
StunClientRun.v
Rtp.v
IceCandidate.v
NodeCrypto.v
Napi.v
NodeMessage.v
NodeIce.v
NodeServer.v
NodeClient.v
NodeBinding.v
NodeRun.v
