(* ===== verification/Prelude.v ===== *)
(** * A verification library for freewebrtc

    freewebrtc is a C++ library of WebRTC building blocks: STUN (messages, a stateless
    server, a client over UDP), ICE candidates, RTP packets, and what they need (clock,
    network types, hashes, containers), with bindings that offer some of it to JavaScript.
    This library models the code under src/src and src/node and proves what makes it
    correct. It is a shallow embedding: one Rocq definition per C++ function, composed as
    the code composes them, executable except for its parameters.

    ** Conventions

    - Bytes, strings and views are lists of [Z]; [bytes_ok] says that every element is a
      byte. An unsigned integer of w bits is a [Z]; where the code can wrap around, the
      model writes [u8], [u16], [u32] or [u64]. Durations are unbounded integers of
      microseconds: the signed overflow of std::chrono is not modelled.
    - [Maybe<T>] is [option]; [Result<T>] is [Craftpp.Result]; a function that updates
      statistics and may fail is in the monad [Craftpp.SE], whose state survives an error.
      A function that can meet undefined behaviour, or a loop with fuel, returns an
      [option] on top; the theorems show when [None] is not reached.
    - Views into memory are copied, except where their lifetime matters: the intrusive
      list lives in a store of links, the [message_view] of a [SendData] effect is a
      handle of the transaction that owns the data, and the view that [PadKey::from_key]
      makes of a key over 64 bytes is that of a destroyed digest ([OfTemporary]): reading it
      is undefined behaviour, so every theorem on passwords is about at most 64 bytes.
    - A property is a theorem whose comment starts with its identifier (C1, C2, ...); its
      witness, [<name>_witness], applies it to a concrete input.

    ** Files

    - Prelude.v: byte strings, machine integers, big-endian encodings, automation ([len],
      [zl], [bdestruct], the hint databases [fw], [fwlen], [zlen]).
    - Errors.v: the error enumerations, categories and messages of all components.
    - Craftpp.v: the craftpp library is not in the repository. The class [Craftpp] lists
      the operations the code calls, [CraftppLaws] their documented behaviour, and
      [reference] implements them; theorems that depend on the behaviour take the laws as
      a hypothesis, and their witnesses run [reference].
    - Util.v: util/, abnf/, ice/ice_abnf.hpp, stat/ (strings, token stream, murmur hash,
      the text of an error).
    - IntrusiveList.v: util/util_intrusive_list.hpp, on a store of links.
    - Clock.v: clock/ (serial-number timepoints, the chrono converter).
    - Net.v: net/ (addresses, ports, domain names, endpoints and paths). [inet_pton] and
      [inet_ntop] are the class [Inet].
    - Crypto.v: crypto/, stun/stun_password (hashes, HMAC, the OpenSSL wrapper). A hash
      function is a parameter with [HashLaws]; the EVP functions are the class of
      [EvpLaws], from which the wrapper's [HashLaws] follow.
    - StunBase.v: stun/stun_class, stun_method, stun_header, stun_address,
      stun_transaction_id, stun_parse_stat, and the registries of stun/details.
    - StunCrc.v: stun/details/stun_fingerprint. StunAttr.v: stun/stun_attribute.
      StunAttrSet.v: stun/stun_attribute_set. StunMessage.v: stun/stun_message.
      The order of a std::unordered_map is the class [MapOrder].
    - Hashing.v: util/util_hash_dynamic.hpp and the hash of transaction ids: the static
      choice of an algorithm and its seed, which ids the murmur hash can confuse, and (not a
      model of repository code) a hash table with chains on top of it.
    - StunServer.v: stun/stun_server_stateless, on top of StunMessage.v.
    - StunRto.v: stun/details/stun_client_udp_rto, whose timeline is an intrusive list,
      used through the specification that IntrusiveList.v proves it to implement.
    - StunRtx.v: stun/stun_client_udp_settings.hpp and the retransmission machine of one
      transaction. StunClient.v: stun/stun_client_udp, its effects and handles, on top of
      StunMessage.v, StunRto.v and StunRtx.v. StunClientCalls.v: sequences of calls of the
      client with the effects handed over, and how often they sent a transaction's data.
    - Binding.v: the client and the server together, over the bytes they exchange.
    - StunClientRun.v: the client in the loop of its caller, [run]: what the caller sees of a
      whole transaction, with the time and the data of each effect.
    - Rtp.v: rtp/. IceCandidate.v: ice/candidate.
    - The bindings (src/node). Napi.v: craftnapi, the wrapper of Node's N-API, is not in the
      repository. The inductive type [JS] holds JavaScript values, the class [Craftnapi] the
      operations that the code calls, [CraftnapiLaws] what they do to the values that a
      program observes, and [reference_napi] implements them. NodeCrypto.v: openssl/, on the
      class [Evp] of Crypto.v. NodeMessage.v: node_stun_header, node_stun_message.
      NodeIce.v: node_ice/. NodeServer.v: node_stun_server_stateless. NodeClient.v:
      node_stun_client_udp with its settings, credentials, effects and handles. The native
      object that an instance wraps lives in a store, [Natives]; a method maps a store to a
      store and a result, where an error stands for an exception.
    - NodeBinding.v: the client class and the server class together. NodeRun.v: the client
      class in the event loop of a JavaScript program, [node_run].

    ** What the theorems show

    - Messages: an encoded message is parsed back and its signature verified; every result
      of the parser on any bytes, with its statistics; what the signature check compares,
      by the positions of the MESSAGE-INTEGRITY attributes in the bytes; the layout of an
      encoding, and its length field beyond 64K; the codecs of attributes, message type and
      XOR-ed addresses; the CRC is division by its polynomial.
    - Server: every answer as a function of what the request proves; only a holder of the
      secret gets a signed success; a client reads its own address in the answer.
    - Client and server: the address of a [TransactionOk] is the one the server saw, with
      any repetitions and other transactions in between, and it has a round trip exactly
      when the request was sent once.
    - Client: the invariant of its maps, timeline and queue in every reachable state; every
      operation returns, and [next] reports, sends, or sleeps with nothing due; responses
      are authenticated; the retransmit timeout is that of RFC 6298 on the path's own
      history. Whole runs: a caller that sleeps at least as long as it is told sends an
      unanswered request on the schedule of RFC 8489 and is told of the timeout, whatever its
      lateness; an answer is reported once if it is collected before its copy arrives, and
      twice otherwise; the wait that a 5xx error asks for is not kept. A setting that acts
      opposite to its documentation and a view that dangles are proved as such.
    - Containers and utilities: the pointer program of the intrusive list implements a
      list; the clock's arithmetic and its converter; the grammars of ports, domain names
      and split strings, the one of domain names against RFC 1035; HMAC; the OpenSSL
      wrappers, on failing updates too; the static seed of the murmur hash, and the
      transaction ids that it keeps apart.
    - RTP: the parser accepts exactly the packets of RFC 3550, and padded packets whose
      padding count is zero, and counts every refusal.
    - ICE: the SDP parser accepts exactly the lines of a grammar that is compared with that
      of RFC 8839, and ends on every string; priorities follow RFC 8445.
    - Bindings: the JavaScript value of a message, an effect, an answer or a candidate is a
      function of the C++ value, given as a specification ([js_message], [returns_effect],
      [returns_result], [js_candidate]); a method does what the C++ operation does on the
      wrapped object and throws its errors; the exchange of Binding.v between JavaScript
      programs; the timeout that a program is told to sleep is the shortest sufficient one;
      a program that sets timers sees of an unanswered request what the caller in C++ sees.

    ** Fuel

    Loops that C++ writes with [while] have fuel where the recursion is not structural.
    Each iteration of [split_all_loop], [subdomain_loop] and [scan_loop] consumes input, so
    the callers pass the length plus one. [sdp_loop] reads a token per iteration: the length
    of the line bounds the tokens. [list_clear_loop] and [clear_loop] unlink an element per
    iteration. [next_loop] is bounded by [loop_measure]: each due item of the timeline
    counts for one and for the repetitions left to its transaction; every iteration removes
    the item or puts it back with one repetition less. [allocate_handle] meets at most one used handle per transaction, so it
    needs the number of transactions plus one. The loop of [Address::to_string] doubles its
    buffer until the system accepts it, and that of [ClientUDP::create] draws until an id is
    new: how long they run depends on parameters, and they return [None] without fuel. The
    laws of [Inet] make one iteration of the first enough, so the theorems on the bindings ask
    for a positive [fuel]; [draws] bounds the second. The loops of the callers, [run] and
    [node_run], may go on for ever in C++ and JavaScript; their fuel bounds the calls of [next],
    and the theorems show that two per request, and two more, are enough. [node_next] passes [loop_measure] to
    [next_loop], and [ice_candidate_parse] the length plus one to [sdp_loop].

    ** Not modelled

    - src/examples (two programs of sockets and an event loop), src/tests, the build files.
    - craftpp, craftnapi, OpenSSL, inet_pton and inet_ntop: outside the repository, classes
      with laws. JavaScript code that runs during a property access (getters, proxies), and
      a buffer that a program changes while a method reads it.
    - The texts of OpenSSL's error codes, in both wrappers: an external function.
    - precis/: a string with a tag and its hash. util_result_sugar.hpp, util_tagged_type.hpp,
      util_typed_bool.hpp: wrappers of standard types that leave no behaviour behind.
    - Concurrency: the library has no threads. Memory exhaustion and exceptions. *)

From Stdlib Require Export ZArith Lia.
From stdpp Require Export base gmap sets strings option numbers list.

#[global] Open Scope Z_scope.
#[global] Set Default Goal Selector "!".

(** ** Byte strings

    A [std::string], a [std::vector<uint8_t>] and the memory a
    [util::ConstBinaryView] points to are all lists of 8-bit integers. *)

Abbreviation bytes := (list Z).

Definition is_byte (b : Z) : Prop := 0 <= b < 256.

#[export] Instance is_byte_dec (b : Z) : Decision (is_byte b).
Proof. unfold is_byte. apply _. Defined.

Abbreviation bytes_ok := (Forall is_byte).

(** The length of a list as an integer: a [size_t]. *)
Definition zlen {A} (l : list A) : Z := Z.of_nat (length l).

(** [slice l off n]: the [n] elements of [l] from index [off]. *)
Definition slice {A} (l : list A) (off n : Z) : list A :=
  take (Z.to_nat n) (drop (Z.to_nat off) l).

(** Characters of a literal: the bytes of a C++ string literal. *)
Definition s2b (s : string) : bytes :=
  map (fun a => Z.of_nat (Ascii.nat_of_ascii a)) (String.list_ascii_of_string s).

(** ** Machine integers: a w-bit unsigned integer is a [Z] below [2^w] *)

Definition wrap (w z : Z) : Z := z mod 2 ^ w.
Abbreviation u8 := (wrap 8).
Abbreviation u16 := (wrap 16).
Abbreviation u32 := (wrap 32).
Abbreviation u64 := (wrap 64).

Definition fits (w z : Z) : Prop := 0 <= z < 2 ^ w.

(** Conversion of a 64-bit pattern to a signed integer. *)
Definition to_signed (w z : Z) : Z :=
  let r := wrap w z in if r <? 2 ^ (w - 1) then r else r - 2 ^ w.

Definition bool2Z (b : bool) : Z := if b then 1 else 0.

(** ** Big-endian encoding of integers *)

Fixpoint be_val (l : bytes) : Z :=
  match l with
  | [] => 0
  | b :: l' => b * 256 ^ zlen l' + be_val l'
  end.

Fixpoint be_bytes (n : nat) (v : Z) : bytes :=
  match n with
  | O => []
  | S n' => (v / 256 ^ Z.of_nat n') mod 256 :: be_bytes n' v
  end.

(** ** Automation *)

Create HintDb fw.
Create Rewrite HintDb fwlen.
Create Rewrite HintDb zlen.
#[global] Hint Rewrite @length_app @length_take @length_drop @length_replicate
  @length_map @length_fmap : fwlen.

(** Normalise list lengths to arithmetic. *)
Ltac len := unfold zlen in *; autorewrite with fwlen in *; cbn [length] in *.
Ltac lenlia := len; lia.

(** Case analysis on the boolean tests of a goal. *)
Ltac bdestruct_one :=
  match goal with
  | |- context [Z.eqb ?a ?b] => destruct (Z.eqb_spec a b)
  | |- context [Z.ltb ?a ?b] => destruct (Z.ltb_spec a b)
  | |- context [Z.leb ?a ?b] => destruct (Z.leb_spec a b)
  | H : context [Z.eqb ?a ?b] |- _ => destruct (Z.eqb_spec a b)
  | H : context [Z.ltb ?a ?b] |- _ => destruct (Z.ltb_spec a b)
  | H : context [Z.leb ?a ?b] |- _ => destruct (Z.leb_spec a b)
  end.
Ltac bdestruct := repeat bdestruct_one.

(** ** Lemmas on lengths and slices *)

Lemma zlen_nonneg {A} (l : list A) : 0 <= zlen l.
Proof. unfold zlen; lia. Qed.
#[export] Hint Resolve zlen_nonneg : fw.

Lemma zlen_nil {A} : zlen (@nil A) = 0.
Proof. reflexivity. Qed.

Lemma zlen_cons {A} (x : A) l : zlen (x :: l) = 1 + zlen l.
Proof. lenlia. Qed.

Lemma zlen_app {A} (l k : list A) : zlen (l ++ k) = zlen l + zlen k.
Proof. lenlia. Qed.

Lemma zlen_map {A B} (f : A -> B) l : zlen (map f l) = zlen l.
Proof. lenlia. Qed.

Lemma zlen_replicate {A} n (x : A) : zlen (replicate n x) = Z.of_nat n.
Proof. lenlia. Qed.

Lemma zlen_0 {A} (l : list A) : zlen l = 0 <-> l = [].
Proof. destruct l; split; intros H; try done; unfold zlen in *; cbn in *; lia. Qed.

#[global] Hint Rewrite @zlen_nil @zlen_cons @zlen_app @zlen_map @zlen_replicate : zlen.
Ltac zl := autorewrite with zlen in *.

Lemma zlen_slice {A} (l : list A) off n :
  0 <= off -> 0 <= n -> off + n <= zlen l -> zlen (slice l off n) = n.
Proof. unfold slice. intros. lenlia. Qed.

Lemma slice_all {A} (l : list A) : slice l 0 (zlen l) = l.
Proof. unfold slice, zlen. rewrite Nat2Z.id. cbn. apply firstn_all. Qed.

Lemma slice_0 {A} (l : list A) off : slice l off 0 = [].
Proof. reflexivity. Qed.

(** Adjacent slices. *)
Lemma slice_split {A} (l : list A) off n m : 0 <= off -> 0 <= n -> 0 <= m ->
  slice l off (n + m) = slice l off n ++ slice l (off + n) m.
Proof.
  intros. unfold slice. rewrite !Z2Nat.inj_add by lia.
  rewrite <- drop_drop. by rewrite take_take_drop.
Qed.

(** A slice that lies in the middle part of a concatenation. *)
Lemma slice_app {A} (pre mid post : list A) off n :
  off = zlen pre -> n = zlen mid -> slice (pre ++ mid ++ post) off n = mid.
Proof.
  intros -> ->. unfold slice, zlen. rewrite !Nat2Z.id, drop_app_length, take_app_length.
  reflexivity.
Qed.

Lemma slice_prefix {A} (pre post : list A) n :
  n = zlen pre -> slice (pre ++ post) 0 n = pre.
Proof. intros ->. apply (slice_app [] pre post); [reflexivity|done]. Qed.

Lemma slice_app_l {A} (l k : list A) off n :
  0 <= off -> 0 <= n -> off + n <= zlen l -> slice (l ++ k) off n = slice l off n.
Proof.
  intros. unfold slice, zlen in *.
  rewrite drop_app_le by lia. rewrite take_app_le; [done|]. rewrite length_drop. lia.
Qed.

Lemma slice_app_r {A} (l k : list A) off n :
  zlen l <= off -> slice (l ++ k) off n = slice k (off - zlen l) n.
Proof.
  intros. unfold slice, zlen in *. rewrite drop_app_ge by lia. do 2 f_equal. lia.
Qed.

Lemma slice_nth {A} (l : list A) off d :
  0 <= off -> off + 1 <= zlen l -> slice l off 1 = [nth (Z.to_nat off) l d].
Proof.
  intros H1 H2. unfold slice, zlen in *. change (Z.to_nat 1) with 1%nat.
  rewrite <- (take_drop (Z.to_nat off) l) at 2.
  rewrite app_nth2; rewrite length_take; [|lia].
  replace (Z.to_nat off - Z.to_nat off `min` length l)%nat with 0%nat by lia.
  destruct (drop (Z.to_nat off) l) eqn:E; [|reflexivity].
  apply (f_equal length) in E. rewrite length_drop in E. cbn in E. lia.
Qed.

Lemma Forall_slice {A} (P : A -> Prop) l off n : Forall P l -> Forall P (slice l off n).
Proof. intros. unfold slice. by apply Forall_take, Forall_drop. Qed.
#[export] Hint Resolve Forall_slice : fw.

Lemma s2b_ok s : bytes_ok (s2b s).
Proof.
  unfold s2b. apply Forall_forall. intros x Hx%list_elem_of_In.
  apply in_map_iff in Hx as (a & <- & _).
  pose proof (Ascii.nat_ascii_bounded a). unfold is_byte. lia.
Qed.
#[export] Hint Resolve s2b_ok : fw.

(** ** Lemmas on machine integers *)

Lemma wrap_small w z : fits w z -> wrap w z = z.
Proof. apply Z.mod_small. Qed.

Lemma wrap_fits w z : 0 <= w -> fits w (wrap w z).
Proof. intros. apply Z.mod_pos_bound. lia. Qed.

Lemma pow2_8 n : 256 ^ Z.of_nat n = 2 ^ (8 * Z.of_nat n).
Proof. rewrite Z.pow_mul_r by lia. reflexivity. Qed.

(** ** Lemmas on big-endian encodings *)

Lemma pow256_pos n : 0 <= n -> 0 < 256 ^ n.
Proof. intros. apply Z.pow_pos_nonneg; lia. Qed.

Lemma zlen_be_bytes n v : zlen (be_bytes n v) = Z.of_nat n.
Proof. induction n as [|n IH]; cbn [be_bytes]; [done|]. rewrite zlen_cons, IH. lia. Qed.
#[global] Hint Rewrite zlen_be_bytes : zlen.

Lemma length_be_bytes n v : length (be_bytes n v) = n.
Proof. pose proof (zlen_be_bytes n v). unfold zlen in *. lia. Qed.

Lemma be_bytes_ok n v : bytes_ok (be_bytes n v).
Proof.
  induction n; cbn [be_bytes]; constructor; [|done].
  unfold is_byte. apply Z.mod_pos_bound. lia.
Qed.
#[export] Hint Resolve be_bytes_ok : fw.

Lemma be_val_bounds l : bytes_ok l -> 0 <= be_val l < 256 ^ zlen l.
Proof.
  induction 1 as [|b l Hb _ IH]; cbn [be_val]; [change (zlen (@nil Z)) with 0; lia|].
  pose proof (zlen_nonneg l). pose proof (pow256_pos (zlen l)).
  rewrite zlen_cons, Z.pow_add_r by lia. unfold is_byte in Hb. change (256 ^ 1) with 256. nia.
Qed.

Lemma be_val_be_bytes n v : be_val (be_bytes n v) = v mod 256 ^ Z.of_nat n.
Proof.
  induction n as [|n IH]; cbn [be_bytes be_val]; [by rewrite Z.mod_1_r|].
  pose proof (pow256_pos (Z.of_nat n)).
  rewrite zlen_be_bytes, IH, Nat2Z.inj_succ, Z.pow_succ_r by lia.
  rewrite (Z.mul_comm 256), Z.rem_mul_r by lia. ring.
Qed.

Lemma be_val_be_bytes_small n v : 0 <= v < 256 ^ Z.of_nat n -> be_val (be_bytes n v) = v.
Proof. intros. rewrite be_val_be_bytes. by apply Z.mod_small. Qed.

Lemma be_bytes_mod n v : be_bytes n (v mod 256 ^ Z.of_nat n) = be_bytes n v.
Proof.
  assert (forall m, (n <= m)%nat -> be_bytes n (v mod 256 ^ Z.of_nat m) = be_bytes n v) as H;
    [|by apply H].
  induction n as [|n IH]; intros m Hm; cbn [be_bytes]; [done|].
  rewrite IH by lia. f_equal.
  replace (Z.of_nat m) with (Z.of_nat n + (1 + Z.of_nat (m - n - 1))) by lia.
  pose proof (pow256_pos (Z.of_nat n)). pose proof (pow256_pos (Z.of_nat (m - n - 1))).
  rewrite Z.pow_add_r, Z.pow_add_r by lia. change (256 ^ 1) with 256.
  rewrite (Z.rem_mul_r v) by lia.
  rewrite (Z.mul_comm (256 ^ Z.of_nat n)), Z.div_add by lia.
  rewrite Z.div_small by (apply Z.mod_pos_bound; lia). rewrite Z.add_0_l.
  rewrite Z.rem_mul_r by lia.
  rewrite (Z.mul_comm 256), Z.mod_add by lia. by rewrite Z.mod_mod.
Qed.

Lemma be_bytes_be_val l : bytes_ok l -> be_bytes (length l) (be_val l) = l.
Proof.
  induction 1 as [|b l Hb Hl IH]; cbn [be_bytes be_val length]; [done|].
  pose proof (be_val_bounds l Hl) as Hv. pose proof (pow256_pos (zlen l)).
  unfold zlen in *. unfold is_byte in Hb. f_equal.
  - rewrite Z.add_comm, Z.div_add by lia. rewrite (Z.div_small (be_val l)) by lia.
    apply Z.mod_small. lia.
  - rewrite <- be_bytes_mod, Z.add_comm, Z.mod_add, Z.mod_small, IH by lia. done.
Qed.

Lemma be_val_inj l k : bytes_ok l -> bytes_ok k -> length l = length k ->
  be_val l = be_val k -> l = k.
Proof.
  intros Hl Hk Hlen E. rewrite <- (be_bytes_be_val l Hl), <- (be_bytes_be_val k Hk).
  congruence.
Qed.

(** Exclusive-or acts byte by byte. *)
Lemma be_bytes_lxor n a b :
  be_bytes n (Z.lxor a b) = zip_with Z.lxor (be_bytes n a) (be_bytes n b).
Proof.
  induction n as [|n IH]; cbn [be_bytes zip_with]; [done|]. rewrite IH. f_equal.
  rewrite pow2_8. change 256 with (2 ^ 8).
  rewrite <- !Z.shiftr_div_pow2, <- !Z.land_ones, Z.shiftr_lxor by lia.
  apply Z.bits_inj'. intros i Hi. rewrite !Z.land_spec, !Z.lxor_spec, !Z.land_spec.
  destruct (Z.testbit (Z.ones 8) i); rewrite ?andb_false_r, ?andb_true_r; done.
Qed.

Lemma is_byte_lxor a b : is_byte a -> is_byte b -> is_byte (Z.lxor a b).
Proof.
  unfold is_byte. intros Ha Hb. change 256 with (2 ^ 8) in *.
  assert (0 <= Z.lxor a b) by (apply Z.lxor_nonneg; lia). split; [done|].
  destruct (Z.eq_dec (Z.lxor a b) 0) as [->|]; [lia|].
  apply Z.log2_lt_pow2; [lia|]. eapply Z.le_lt_trans; [apply Z.log2_lxor; lia|].
  apply Z.max_lub_lt.
  - destruct (Z.eq_dec a 0) as [->|]; [done|]. apply Z.log2_lt_pow2; lia.
  - destruct (Z.eq_dec b 0) as [->|]; [done|]. apply Z.log2_lt_pow2; lia.
Qed.

Lemma lxor_fits w a b : 0 <= w -> fits w a -> fits w b -> fits w (Z.lxor a b).
Proof.
  unfold fits. intros Hw Ha Hb.
  assert (0 <= Z.lxor a b) as H0 by (apply Z.lxor_nonneg; lia). split; [done|].
  rewrite <- (Z.mod_small a (2 ^ w)), <- (Z.mod_small b (2 ^ w)) by lia.
  rewrite <- !Z.land_ones by lia.
  replace (Z.lxor (Z.land a (Z.ones w)) (Z.land b (Z.ones w)))
    with (Z.land (Z.lxor a b) (Z.ones w)).
  - rewrite Z.land_ones by lia. apply Z.mod_pos_bound. lia.
  - apply Z.bits_inj'. intros i Hi. rewrite !Z.land_spec, !Z.lxor_spec, !Z.land_spec.
    destruct (Z.testbit (Z.ones w) i); rewrite ?andb_false_r, ?andb_true_r; done.
Qed.

(** A shifted high part and a small low part are disjoint: their [lor] and [lxor] is an
    addition. *)
Lemma land_shiftl_0 hi lo k : 0 <= k -> 0 <= lo < 2 ^ k -> Z.land (Z.shiftl hi k) lo = 0.
Proof.
  intros Hk Hlo. apply Z.bits_inj'. intros i Hi. rewrite Z.land_spec, Z.bits_0. destruct (Z.ltb_spec i k).
  - rewrite Z.shiftl_spec_low by lia. done.
  - rewrite <- (Z.mod_small lo (2 ^ k)) by done. rewrite Z.mod_pow2_bits_high by lia. apply andb_false_r.
Qed.

Lemma lxor_shiftl_add hi lo k : 0 <= k -> 0 <= lo < 2 ^ k -> Z.lxor (Z.shiftl hi k) lo = hi * 2 ^ k + lo.
Proof.
  intros Hk Hlo. rewrite <- Z.shiftl_mul_pow2 by done. symmetry. by apply Z.add_nocarry_lxor, land_shiftl_0.
Qed.

Lemma lor_shiftl_add hi lo k : 0 <= k -> 0 <= lo < 2 ^ k ->
  Z.lor (Z.shiftl hi k) lo = hi * 2 ^ k + lo.
Proof. intros Hk Hlo. by rewrite <- Z.lxor_lor, lxor_shiftl_add by (try apply land_shiftl_0; done). Qed.

(** ** Generic lemmas on options and folds *)

Lemma option_bind_Some {A B} (m : option A) (f : A -> option B) b :
  m ≫= f = Some b -> exists a, m = Some a /\ f a = Some b.
Proof. destruct m; cbn; eauto; done. Qed.

Lemma Permutation_NoDup_fst {A B} (l k : list (A * B)) :
  l ≡ₚ k -> NoDup l.*1 -> NoDup k.*1.
Proof. intros E. by rewrite E. Qed.

(** ** Exhaustive checks over the bytes *)

Definition all_bytes : bytes := map Z.of_nat (seq 0 256).

Lemma forall_bytes (P : Z -> bool) : forallb P all_bytes = true -> forall b, is_byte b -> P b = true.
Proof.
  unfold is_byte. intros H b Hb. rewrite forallb_forall in H. apply H.
  apply in_map_iff. exists (Z.to_nat b). split; [lia|]. apply in_seq. lia.
Qed.

(** The byte at an index, 0 outside the list. *)
Definition byte_at (l : bytes) (i : Z) : Z := nth (Z.to_nat i) l 0.

Lemma be_val_slice_1 l i : 0 <= i -> i + 1 <= zlen l -> be_val (slice l i 1) = byte_at l i.
Proof. intros. rewrite (slice_nth l i 0) by done. cbn [be_val].
  change (zlen (@nil Z)) with 0. unfold byte_at. lia. Qed.

Lemma byte_at_ok l i : bytes_ok l -> is_byte (byte_at l i).
Proof.
  intros H. unfold byte_at. destruct (nth_in_or_default (Z.to_nat i) l 0) as [Hin| ->]; [|done].
  rewrite Forall_forall in H. apply H. by apply list_elem_of_In.
Qed.
#[export] Hint Resolve byte_at_ok : fw.
