(* ===== verification/Errors.v ===== *)
(** * Error codes

    The error enumerations of the components, the [std::error_code] each is turned
    into by its [make_error_code], the message tables of the categories, and
    [freewebrtc::Error] (an error code with a context), as [src/util/util_error.cpp]
    sees it. *)

From S2P Require Import Prelude.
From stdpp Require Import pretty.
#[local] Open Scope Z_scope.

(** ** stun/stun_error.hpp *)

Inductive ParseError : Set :=
| pe_ok | pe_invalid_message_size | pe_not_padded_attributes | pe_invalid_message_len
| pe_invalid_magic_cookie | pe_invalid_attr_size | pe_invalid_mapped_addr
| pe_invalid_xor_mapped_addr | pe_invalid_ipv4_address_size | pe_invalid_ipv6_address_size
| pe_integrity_digest_size | pe_fingerprint_crc_size | pe_fingerprint_is_not_last
| pe_fingerprint_not_valid | pe_priority_attribute_size | pe_ice_controlled_size
| pe_ice_controlling_size | pe_use_candidate_size | pe_error_code_attribute_size
| pe_unknown_attributes_attribute_size | pe_unknown_addr_family.

Inductive ClientError : Set :=
| ce_ok | ce_no_integrity_attribute_in_response | ce_digest_is_not_valid
| ce_transaction_not_found | ce_no_address_in_response | ce_no_error_code_in_response
| ce_no_alternate_server_in_response.

(** ** net/net_error.hpp *)

Inductive NetError : Set :=
| ne_ok | ne_invalid_address_size | ne_ip_address_parse_error
| ne_fqdn_invalid_label_expect_letter | ne_fqdn_not_fully_parsed | ne_invalid_port_value.

(** ** ice/candidate/ice_candidate_error.hpp *)

Inductive IceError : Set :=
| ie_ok | ie_invalid_attr_prefix | ie_invalid_candidate_parts_number
| ie_candidate_type_absent | ie_unknown_candidate_type | ie_invalid_foundation_length
| ie_invalid_foundation_char | ie_invalid_component_id_length
| ie_invalid_component_id_char | ie_invalid_component_id_value
| ie_unknown_transport_type | ie_invalid_priority_length | ie_invalid_priority_value
| ie_invalid_type_preference_value | ie_invalid_component_preference_value
| ie_invalid_local_preference_value.

(** ** rtp/rtp_error.hpp *)

Inductive RtpError : Set :=
| re_ok | re_packet_is_too_short | re_unknown_packet_version | re_invalid_payload_type
| re_unknown_rtp_clock | re_invalid_extension_length | re_invalid_packet_padding.

(** ** util/util_token_stream.hpp *)

Inductive TokenError : Set := te_ok | te_no_required_token | te_expected_token_missed.

(** ** util/util_error_code.hpp *)

Inductive UtilError : Set := ue_ok | ue_value_required_in_maybe.

(** ** node/node_stun/node_stun_error.hpp *)

Inductive NodeStunError : Set :=
| nse_ok | nse_unknown_stun_method | nse_unknown_stun_class | nse_invalid_ip_address
| nse_invalid_port_number.

#[export] Instance ParseError_eq_dec : EqDecision ParseError.
Proof. solve_decision. Defined.
#[export] Instance ClientError_eq_dec : EqDecision ClientError.
Proof. solve_decision. Defined.
#[export] Instance NetError_eq_dec : EqDecision NetError.
Proof. solve_decision. Defined.
#[export] Instance IceError_eq_dec : EqDecision IceError.
Proof. solve_decision. Defined.
#[export] Instance RtpError_eq_dec : EqDecision RtpError.
Proof. solve_decision. Defined.
#[export] Instance TokenError_eq_dec : EqDecision TokenError.
Proof. solve_decision. Defined.
#[export] Instance UtilError_eq_dec : EqDecision UtilError.
Proof. solve_decision. Defined.
#[export] Instance NodeStunError_eq_dec : EqDecision NodeStunError.
Proof. solve_decision. Defined.

(** ** [(int)ec]: the position of the enumerator *)

Definition ParseError_all : list ParseError :=
  [pe_ok; pe_invalid_message_size; pe_not_padded_attributes; pe_invalid_message_len;
   pe_invalid_magic_cookie; pe_invalid_attr_size; pe_invalid_mapped_addr;
   pe_invalid_xor_mapped_addr; pe_invalid_ipv4_address_size; pe_invalid_ipv6_address_size;
   pe_integrity_digest_size; pe_fingerprint_crc_size; pe_fingerprint_is_not_last;
   pe_fingerprint_not_valid; pe_priority_attribute_size; pe_ice_controlled_size;
   pe_ice_controlling_size; pe_use_candidate_size; pe_error_code_attribute_size;
   pe_unknown_attributes_attribute_size; pe_unknown_addr_family].
Definition ClientError_all : list ClientError :=
  [ce_ok; ce_no_integrity_attribute_in_response; ce_digest_is_not_valid;
   ce_transaction_not_found; ce_no_address_in_response; ce_no_error_code_in_response;
   ce_no_alternate_server_in_response].
Definition NetError_all : list NetError :=
  [ne_ok; ne_invalid_address_size; ne_ip_address_parse_error;
   ne_fqdn_invalid_label_expect_letter; ne_fqdn_not_fully_parsed; ne_invalid_port_value].
Definition IceError_all : list IceError :=
  [ie_ok; ie_invalid_attr_prefix; ie_invalid_candidate_parts_number;
   ie_candidate_type_absent; ie_unknown_candidate_type; ie_invalid_foundation_length;
   ie_invalid_foundation_char; ie_invalid_component_id_length;
   ie_invalid_component_id_char; ie_invalid_component_id_value;
   ie_unknown_transport_type; ie_invalid_priority_length; ie_invalid_priority_value;
   ie_invalid_type_preference_value; ie_invalid_component_preference_value;
   ie_invalid_local_preference_value].
Definition RtpError_all : list RtpError :=
  [re_ok; re_packet_is_too_short; re_unknown_packet_version; re_invalid_payload_type;
   re_unknown_rtp_clock; re_invalid_extension_length; re_invalid_packet_padding].
Definition TokenError_all : list TokenError :=
  [te_ok; te_no_required_token; te_expected_token_missed].
Definition UtilError_all : list UtilError := [ue_ok; ue_value_required_in_maybe].
Definition NodeStunError_all : list NodeStunError :=
  [nse_ok; nse_unknown_stun_method; nse_unknown_stun_class; nse_invalid_ip_address;
   nse_invalid_port_number].

(** The index of [x] in an enumeration: its integer value, as C++ numbers the
    enumerators from 0. *)
Fixpoint enum_index {A} `{EqDecision A} (x : A) (l : list A) : Z :=
  match l with
  | [] => 0
  | y :: l' => if decide (x = y) then 0 else 1 + enum_index x l'
  end.

(** ** std::error_code: a value and a category *)

Inductive error_category : Set :=
| cat_stun_parse | cat_stun_client | cat_net | cat_ice | cat_rtp | cat_token_stream | cat_util
| cat_generic          (* std::generic_category: an errno *)
| cat_openssl          (* crypto/openssl/openssl_error.cpp *)
| cat_node_stun        (* node/node_stun/node_stun_error.cpp *)
| cat_node_openssl     (* node/openssl/node_openssl_error.cpp *)
| cat_external (n : Z) (* a category of a library outside the repository *).

#[export] Instance error_category_eq_dec : EqDecision error_category.
Proof. solve_decision. Defined.

Record error_code : Set := mk_error_code { ec_value : Z; ec_category : error_category }.

#[export] Instance error_code_eq_dec : EqDecision error_code.
Proof. solve_decision. Defined.

Definition make_parse_error_code (e : ParseError) : error_code :=
  mk_error_code (enum_index e ParseError_all) cat_stun_parse.
Definition make_client_error_code (e : ClientError) : error_code :=
  mk_error_code (enum_index e ClientError_all) cat_stun_client.
Definition make_net_error_code (e : NetError) : error_code :=
  mk_error_code (enum_index e NetError_all) cat_net.
Definition make_ice_error_code (e : IceError) : error_code :=
  mk_error_code (enum_index e IceError_all) cat_ice.
Definition make_rtp_error_code (e : RtpError) : error_code :=
  mk_error_code (enum_index e RtpError_all) cat_rtp.
Definition make_token_error_code (e : TokenError) : error_code :=
  mk_error_code (enum_index e TokenError_all) cat_token_stream.
Definition make_util_error_code (e : UtilError) : error_code :=
  mk_error_code (enum_index e UtilError_all) cat_util.
Definition make_node_stun_error_code (e : NodeStunError) : error_code :=
  mk_error_code (enum_index e NodeStunError_all) cat_node_stun.

(** ** freewebrtc::Error *)

(** [m_code] and [m_context] are the members [Error::message] reads. *)
Record Error : Set := mk_Error { m_code : error_code; m_context : list bytes }.

(** A [std::error_code] converts to an [Error] with no context. *)
Definition error_of (c : error_code) : Error := mk_Error c [].

(** [error == make_error_code(...)]: compares the codes. *)
Definition error_is (e : Error) (c : error_code) : bool := bool_decide (m_code e = c).

Definition parse_error (e : ParseError) : Error := error_of (make_parse_error_code e).
Definition client_error (e : ClientError) : Error := error_of (make_client_error_code e).
Definition net_error (e : NetError) : Error := error_of (make_net_error_code e).
Definition ice_error (e : IceError) : Error := error_of (make_ice_error_code e).
Definition rtp_error (e : RtpError) : Error := error_of (make_rtp_error_code e).
Definition token_error (e : TokenError) : Error := error_of (make_token_error_code e).
Definition node_stun_error (e : NodeStunError) : Error := error_of (make_node_stun_error_code e).

(** ** std::error_category::message *)

(** The switch of a [message(int)]: the text of the enumerator with that value, the
    default text for any other value. *)
Definition message_of (texts : list string) (default : Z -> string) (code : Z) : string :=
  if (0 <=? code) then List.nth (Z.to_nat code) texts (default code) else default code.

Definition stun_parse_error_message : Z -> string :=
  message_of
    ["success"; "invalid message size"; "not padded attributes"; "invalid message length";
     "invalid magic cookie"; "invalid attr size"; "invalid mapped address";
     "invalid xor mapped address"; "invalid ipv4 address size"; "invalid ipv6 address size";
     "invalid integrity digest size"; "invalid fingerprint crc size";
     "fingerprint attribute is not the last"; "fingerprint is not valid";
     "priority attribute size"; "invalid ice controlled attribute size";
     "invalid ice controlling attribute size"; "invalid use candidate size";
     "invalid error code attribute size"; "invalid unknown attributes attribute size";
     "unknown addr family"]%string (fun _ => "unknown stun error"%string).

Definition stun_client_error_message : Z -> string :=
  message_of
    ["success"; "no expect integrity attribute in response";
     "digest is not valid in response"; "transaction of response is not found";
     "bad response: no address in response";
     "bad response: no error code attribute in response";
     "bad response: no alternate server in 300 response"]%string
    (fun _ => "unknown stun client error"%string).

Definition net_error_message : Z -> string :=
  message_of
    ["success"; "invalid data size to initialize address"; "cannot parse IP address";
     "invalid FQDN label: expect letter"; "FQDN is not fully parsed";
     "invalid port value"]%string (fun _ => "unknown stun error"%string).

Definition ice_error_message : Z -> string :=
  message_of
    ["Success"; "Invalid attribute prefix"; "Invalid candidate string number of tokens";
     "Candidate type is absent in candidate string"; "Candidate type is unknown";
     "Invalid length of foundation string"; "Invalid char in foundation string";
     "Invalid length of component id"; "Invalid char in component id";
     "Invalid value of component id"; "Transport type is unknown";
     "Invalid candidate priority length"; "Invalid candidate priority value";
     "Invalid candidate type preference value"; "Invalid component preference value";
     "Invalid local preference value"]%string (fun code => "Unknown ice candidate error: " +:+ pretty code).

Definition rtp_error_message : Z -> string :=
  message_of
    ["success"; "rtp packet is too short"; "rtp packet version is unknown";
     "rtp packet with invalid payload type"; "unknown rtp clock rate";
     "invalid extension length"; "invalid packet padding"]%string (fun _ => "unknown rtp error"%string).

Definition token_stream_error_message : Z -> string :=
  message_of ["Success"; "No required token"; "Expected token is missed"]%string
    (fun code => "Unknown token stream error: " +:+ pretty code).

Definition util_error_message : Z -> string :=
  message_of ["success"; "value required"]%string (fun _ => "unknown util error"%string).

Definition node_stun_error_message : Z -> string :=
  message_of
    ["Success"; "Unknown stun method"; "Unknown stun class"; "Invalid IP address";
     "Invalid port number"]%string (fun code => "Unknown node stun code: " +:+ pretty code).

(** ** Lemmas *)

Lemma enum_index_nonneg {A} `{EqDecision A} (x : A) l : 0 <= enum_index x l.
Proof. induction l; cbn; [lia|]. case_decide; lia. Qed.

Lemma enum_index_inj {A} `{EqDecision A} (x y : A) l :
  x ∈ l -> y ∈ l -> enum_index x l = enum_index y l -> x = y.
Proof.
  induction l as [|z l IH]; cbn; intros Hx Hy E; [by apply elem_of_nil in Hx|].
  pose proof (enum_index_nonneg x l). pose proof (enum_index_nonneg y l).
  repeat case_decide; subst; try done; try lia.
  apply elem_of_cons in Hx as [?|Hx]; [done|]. apply elem_of_cons in Hy as [?|Hy]; [done|].
  apply IH; [done..|lia].
Qed.

Ltac all_listed := intros x; destruct x; cbn; set_solver.

Lemma ParseError_listed : forall x, x ∈ ParseError_all. Proof. all_listed. Qed.
Lemma ClientError_listed : forall x, x ∈ ClientError_all. Proof. all_listed. Qed.
Lemma NetError_listed : forall x, x ∈ NetError_all. Proof. all_listed. Qed.
Lemma IceError_listed : forall x, x ∈ IceError_all. Proof. all_listed. Qed.
Lemma RtpError_listed : forall x, x ∈ RtpError_all. Proof. all_listed. Qed.

#[export] Instance parse_error_inj : Inj (=) (=) parse_error.
Proof. intros x y [= E]. eapply enum_index_inj; [apply ParseError_listed..|done]. Qed.
#[export] Instance client_error_inj : Inj (=) (=) client_error.
Proof. intros x y [= E]. eapply enum_index_inj; [apply ClientError_listed..|done]. Qed.
#[export] Instance net_error_inj : Inj (=) (=) net_error.
Proof. intros x y [= E]. eapply enum_index_inj; [apply NetError_listed..|done]. Qed.
#[export] Instance ice_error_inj : Inj (=) (=) ice_error.
Proof. intros x y [= E]. eapply enum_index_inj; [apply IceError_listed..|done]. Qed.
#[export] Instance rtp_error_inj : Inj (=) (=) rtp_error.
Proof. intros x y [= E]. eapply enum_index_inj; [apply RtpError_listed..|done]. Qed.

Lemma error_is_spec e c : error_is e c = true <-> m_code e = c.
Proof. apply bool_decide_eq_true. Qed.
