(* ===== verification/Craftpp.v ===== *)
(** * The interface to code outside the repository

    freewebrtc is built on the craftpp library ([craftpp::maybe::Maybe],
    [craftpp::result::Result], [craftpp::binary::ConstView], the endian helpers and
    [reduce]), which is not part of the repository. The class [Craftpp] lists the
    operations the sources call, [CraftppLaws] the documented behaviour they rely on,
    and [reference] is an implementation of the interface on byte lists, which the
    witnesses run. *)

From S2P Require Import Prelude Errors.

(** ** Maybe and Result

    [Maybe<T>] is [option T]; [Result<T>] is a value or an [Error];
    [MaybeError] is [Result<Unit>]. *)

Inductive Result (A : Type) : Type := Ok (a : A) | Err (e : Error).
Arguments Ok {A} a.
Arguments Err {A} e.

Abbreviation MaybeError := (Result unit).

Definition success : MaybeError := Ok tt.

#[export] Instance result_ret : MRet Result := @Ok.
#[export] Instance result_bind : MBind Result := fun A B f r =>
  match r with Ok a => f a | Err e => Err e end.
#[export] Instance result_fmap : FMap Result := fun A B f r =>
  match r with Ok a => Ok (f a) | Err e => Err e end.

Definition is_ok {A} (r : Result A) : bool := match r with Ok _ => true | Err _ => false end.
Definition is_err {A} (r : Result A) : bool := negb (is_ok r).

Definition bind_err {A} (r : Result A) (f : Error -> Result A) : Result A :=
  match r with Ok a => Ok a | Err e => f e end.

Definition map_err {A} (f : Error -> Error) (r : Result A) : Result A :=
  match r with Ok a => Ok a | Err e => Err (f e) end.

Definition unwrap_or {A} (r : Result A) (d : A) : A :=
  match r with Ok a => a | Err _ => d end.

(** The errors among some results, in order. *)
Definition err_list {A} (r : Result A) : list Error :=
  match r with Ok _ => [] | Err e => [e] end.

(** ** Computations that update a state and may fail

    The functions that take a statistics object by reference and return a [Result]:
    the state is updated on the error path too. *)

Definition SE (S A : Type) : Type := S -> S * Result A.

Section SEMonad.
Context {S : Type}.

#[export] Instance se_ret : MRet (SE S) := fun A a s => (s, Ok a).
#[export] Instance se_bind : MBind (SE S) := fun A B f m s =>
  match m s with
  | (s', Ok a) => f a s'
  | (s', Err e) => (s', Err e)
  end.
#[export] Instance se_fmap : FMap (SE S) := fun A B f m s =>
  match m s with
  | (s', Ok a) => (s', Ok (f a))
  | (s', Err e) => (s', Err e)
  end.

Definition lift {A} (r : Result A) : SE S A := fun s => (s, r).

(** Change the state, then fail with [e]. *)
Definition fail_with {A} (f : S -> S) (e : Error) : SE S A := fun s => (f s, Err e).

(** Change the state, then return [a]. *)
Definition ok_with {A} (f : S -> S) (a : A) : SE S A := fun s => (f s, Ok a).

(** [m.bind_err(h)] where [h] updates the state and returns an error. *)
Definition on_err {A} (m : SE S A) (f : S -> S) (h : Error -> Error) : SE S A := fun s =>
  match m s with
  | (s', Ok a) => (s', Ok a)
  | (s', Err e) => (f s', Err (h e))
  end.

Lemma se_bind_ok {A B} (m : SE S A) (f : A -> SE S B) s s' a :
  m s = (s', Ok a) -> (m ≫= f) s = f a s'.
Proof. intros E. unfold mbind, se_bind. by rewrite E. Qed.

Lemma se_bind_err {A B} (m : SE S A) (f : A -> SE S B) s s' e :
  m s = (s', Err e) -> (m ≫= f) s = (s', Err e).
Proof. intros E. unfold mbind, se_bind. by rewrite E. Qed.

End SEMonad.

(** ** craftpp::binary::ConstView::Interval *)

Record Interval : Set := mk_Interval { iv_offset : Z; iv_count : Z }.

#[export] Instance Interval_eq_dec : EqDecision Interval.
Proof. solve_decision. Defined.

(** ** The operations *)

Class Craftpp : Type := {
  (** ConstView *)
  read_u8 : bytes -> Z -> option Z;
  read_u16be : bytes -> Z -> option Z;
  read_u32be : bytes -> Z -> option Z;
  read_u64be : bytes -> Z -> option Z;
  assured_read_u8 : bytes -> Z -> Z;
  assured_read_u16be : bytes -> Z -> Z;
  assured_read_u32be : bytes -> Z -> Z;
  assured_subview : bytes -> Z -> Z -> bytes;
  subview : bytes -> Z -> Z -> option bytes;         (* subview(offset, count) *)
  subview_from : bytes -> Z -> option bytes;         (* subview(offset) *)
  subview_interval : bytes -> Interval -> option bytes;
  contains : bytes -> Interval -> bool;
  (** endian.hpp, and the byte order of the machine *)
  host_is_big_endian : bool;
  host_to_network_u16 : Z -> Z;
  host_to_network_u32 : Z -> Z;
  host_to_network_u64 : Z -> Z;
  (** Maybe::require() on none, combine and any_is_err with several errors,
      Result::add_context *)
  require_error : Error;
  pick_error : list Error -> Error;
  add_context_error : list bytes -> Error -> Error;
  (** reduce *)
  reduce : forall (S A B : Type), (B -> A -> SE S B) -> list A -> B -> SE S B
}.
Arguments reduce {_ S A B} f l b.

Section Derived.
Context `{Craftpp}.

(** The [n] bytes of an unsigned integer object in memory:
    [ConstBinaryView(&v, sizeof(v))]. *)
Definition mem_bytes (n : nat) (v : Z) : bytes :=
  if host_is_big_endian then be_bytes n v else rev (be_bytes n v).

(** [Maybe::require]. *)
Definition require {A} (m : option A) : Result A :=
  match m with Some a => Ok a | None => Err require_error end.

Definition combine2 {A B C} (f : A -> B -> Result C) (a : Result A) (b : Result B) : Result C :=
  match a, b with
  | Ok x, Ok y => f x y
  | _, _ => Err (pick_error (err_list a ++ err_list b))
  end.

Definition combine3 {A B C D} (f : A -> B -> C -> Result D)
    (a : Result A) (b : Result B) (c : Result C) : Result D :=
  match a, b, c with
  | Ok x, Ok y, Ok z => f x y z
  | _, _, _ => Err (pick_error (err_list a ++ err_list b ++ err_list c))
  end.

(** [combine] with a function that updates a state. *)
Definition combine2_se {S A B C} (f : A -> B -> SE S C) (a : Result A) (b : Result B) : SE S C := fun s =>
  match a, b with
  | Ok x, Ok y => f x y s
  | _, _ => (s, Err (pick_error (err_list a ++ err_list b)))
  end.

Definition combine3_se {S A B C D} (f : A -> B -> C -> SE S D)
    (a : Result A) (b : Result B) (c : Result C) : SE S D := fun s =>
  match a, b, c with
  | Ok x, Ok y, Ok z => f x y z s
  | _, _, _ => (s, Err (pick_error (err_list a ++ err_list b ++ err_list c)))
  end.

Definition any_is_err3 {A B C} (a : Result A) (b : Result B) (c : Result C) : MaybeError :=
  match err_list a ++ err_list b ++ err_list c with
  | [] => success
  | es => Err (pick_error es)
  end.

Definition add_context {A} (ctx : list bytes) (r : Result A) : Result A :=
  map_err (add_context_error ctx) r.

End Derived.

(** ** The documented behaviour *)

(** A bounds-checked big-endian read of [n] bytes. *)
Definition checked_read (n : Z) (v : bytes) (off : Z) : option Z :=
  if off + n <=? zlen v then Some (be_val (slice v off n)) else None.

Class CraftppLaws `(C : Craftpp) : Prop := {
  read_u8_spec v off : 0 <= off -> read_u8 v off = checked_read 1 v off;
  read_u16be_spec v off : 0 <= off -> read_u16be v off = checked_read 2 v off;
  read_u32be_spec v off : 0 <= off -> read_u32be v off = checked_read 4 v off;
  read_u64be_spec v off : 0 <= off -> read_u64be v off = checked_read 8 v off;
  assured_read_u8_spec v off : 0 <= off -> off + 1 <= zlen v ->
    assured_read_u8 v off = be_val (slice v off 1);
  assured_read_u16be_spec v off : 0 <= off -> off + 2 <= zlen v ->
    assured_read_u16be v off = be_val (slice v off 2);
  assured_read_u32be_spec v off : 0 <= off -> off + 4 <= zlen v ->
    assured_read_u32be v off = be_val (slice v off 4);
  assured_subview_spec v off n : 0 <= off -> 0 <= n -> off + n <= zlen v ->
    assured_subview v off n = slice v off n;
  subview_spec v off n : 0 <= off -> 0 <= n ->
    subview v off n = if off + n <=? zlen v then Some (slice v off n) else None;
  subview_from_in v off : 0 <= off -> off < zlen v ->
    subview_from v off = Some (slice v off (zlen v - off));
  subview_from_end v : subview_from v (zlen v) = None \/ subview_from v (zlen v) = Some [];
  subview_from_out v off : zlen v < off -> subview_from v off = None;
  contains_spec v iv : 0 <= iv_offset iv -> 0 <= iv_count iv ->
    contains v iv = (iv_offset iv + iv_count iv <=? zlen v);
  subview_interval_spec v iv : 0 <= iv_offset iv -> 0 <= iv_count iv ->
    subview_interval v iv = subview v (iv_offset iv) (iv_count iv);
  host_to_network_u16_spec v : fits 16 v -> mem_bytes 2 (host_to_network_u16 v) = be_bytes 2 v;
  host_to_network_u32_spec v : fits 32 v -> mem_bytes 4 (host_to_network_u32 v) = be_bytes 4 v;
  host_to_network_u64_spec v : fits 64 v -> mem_bytes 8 (host_to_network_u64 v) = be_bytes 8 v;
  pick_error_spec es : es <> [] -> pick_error es ∈ es;
  add_context_code ctx e : m_code (add_context_error ctx e) = m_code e;
  reduce_nil {S A B} (f : B -> A -> SE S B) b s : reduce f [] b s = (s, Ok b);
  reduce_cons {S A B} (f : B -> A -> SE S B) a l b s :
    reduce f (a :: l) b s =
      match f b a s with
      | (s', Ok b') => reduce f l b' s'
      | (s', Err e) => (s', Err e)
      end
}.

(** ** A reference implementation of the interface *)

Fixpoint reduce_ref {S A B} (f : B -> A -> SE S B) (l : list A) (b : B) : SE S B := fun s =>
  match l with
  | [] => (s, Ok b)
  | a :: l' =>
      match f b a s with
      | (s', Ok b') => reduce_ref f l' b' s'
      | (s', Err e) => (s', Err e)
      end
  end.

(** Reverse the bytes of an n-byte integer: network order on a little-endian host. *)
Definition bswap (n : nat) (v : Z) : Z := be_val (rev (be_bytes n v)).

Definition reference : Craftpp := {|
  read_u8 := checked_read 1;
  read_u16be := checked_read 2;
  read_u32be := checked_read 4;
  read_u64be := checked_read 8;
  assured_read_u8 v off := be_val (slice v off 1);
  assured_read_u16be v off := be_val (slice v off 2);
  assured_read_u32be v off := be_val (slice v off 4);
  assured_subview v off n := slice v off n;
  subview v off n := if off + n <=? zlen v then Some (slice v off n) else None;
  subview_from v off := if off <=? zlen v then Some (slice v off (zlen v - off)) else None;
  subview_interval v iv :=
    if iv_offset iv + iv_count iv <=? zlen v
    then Some (slice v (iv_offset iv) (iv_count iv)) else None;
  contains v iv := iv_offset iv + iv_count iv <=? zlen v;
  host_is_big_endian := false;
  host_to_network_u16 := bswap 2;
  host_to_network_u32 := bswap 4;
  host_to_network_u64 := bswap 8;
  require_error := error_of (mk_error_code 1 (cat_external 0));
  pick_error es := match es with e :: _ => e | [] => error_of (mk_error_code 0 (cat_external 0)) end;
  add_context_error ctx e := mk_Error (m_code e) (m_context e ++ ctx);
  reduce := @reduce_ref
|}.

Lemma bytes_ok_rev l : bytes_ok l -> bytes_ok (rev l).
Proof.
  rewrite !Forall_forall. intros H x Hx%list_elem_of_In. apply H. apply list_elem_of_In. by apply in_rev.
Qed.

Lemma bswap_mem n v : rev (be_bytes n (bswap n v)) = be_bytes n v.
Proof.
  unfold bswap. set (l := rev (be_bytes n v)).
  assert (length l = n) as E by (unfold l; by rewrite length_rev, length_be_bytes).
  rewrite <- E at 1. rewrite be_bytes_be_val.
  - unfold l. apply rev_involutive.
  - apply bytes_ok_rev, be_bytes_ok.
Qed.

#[export] Instance reference_laws : CraftppLaws reference.
Proof.
  split; cbn; intros; try done.
  - bdestruct; try lia. done.
  - rewrite Z.leb_refl, Z.sub_diag. by right.
  - bdestruct; [lia|done].
  - apply (bswap_mem 2).
  - apply (bswap_mem 4).
  - apply (bswap_mem 8).
  - destruct es; [done|]. set_solver.
Qed.

(** ** Lemmas shared by the components *)

Section Lemmas.
Context `{CL : CraftppLaws}.

Lemma length_mem_bytes n v : length (mem_bytes n v) = n.
Proof. unfold mem_bytes. case_match; rewrite ?length_rev; apply length_be_bytes. Qed.

Lemma mem_bytes_ok n v : bytes_ok (mem_bytes n v).
Proof. unfold mem_bytes. case_match; auto using be_bytes_ok, bytes_ok_rev. Qed.

Lemma mem_bytes_lxor n a b :
  mem_bytes n (Z.lxor a b) = zip_with Z.lxor (mem_bytes n a) (mem_bytes n b).
Proof.
  unfold mem_bytes. case_match; rewrite be_bytes_lxor; [done|].
  assert (length (be_bytes n a) = length (be_bytes n b)) as E by by rewrite !length_be_bytes.
  revert E. generalize (be_bytes n a), (be_bytes n b). clear -n.
  induction l as [|x l IH]; intros [|y k] E; cbn in *; try done.
  rewrite IH by lia. rewrite zip_with_app by (rewrite !length_rev; lia). done.
Qed.

Lemma checked_read_in n v off :
  off + n <= zlen v -> checked_read n v off = Some (be_val (slice v off n)).
Proof. unfold checked_read. intros. bdestruct; [done|lia]. Qed.

Lemma checked_read_out n v off : zlen v < off + n -> checked_read n v off = None.
Proof. unfold checked_read. intros. bdestruct; [lia|done]. Qed.

Lemma pick_error_one e : pick_error [e] = e.
Proof. pose proof (pick_error_spec [e] ltac:(done)) as Hin.
  by apply list_elem_of_singleton in Hin. Qed.

Lemma add_context_ok `{Craftpp} {A} ctx (r : Result A) a : add_context ctx r = Ok a <-> r = Ok a.
Proof. by destruct r. Qed.

Lemma is_err_add_context `{Craftpp} {A} ctx (r : Result A) : is_err (add_context ctx r) = is_err r.
Proof. by destruct r. Qed.

Lemma is_ok_combine2 {A B D} (f : A -> B -> Result D) a b :
  is_ok (combine2 f a b) = true ->
  exists x y, a = Ok x /\ b = Ok y /\ is_ok (f x y) = true.
Proof. destruct a, b; cbn; try done. eauto. Qed.

End Lemmas.
#[export] Hint Resolve mem_bytes_ok : fw.
