(* ===== verification/Util.v ===== *)
(** * util/, abnf/, ice/ice_abnf.hpp and stat/

    Counters, view concatenation, string splitting and joining
    ([util_string_view.hpp]), the token stream, the ABNF character classes and the
    murmur hash. *)

From S2P Require Import Prelude Errors Craftpp.

(** ** stat/stat_counter.hpp *)

(** A counter is an [unsigned]; [inc] wraps around. *)
Definition counter_inc (v : Z) : Z := u32 (v + 1).

(** ** util_binary_view.cpp, util_flat.hpp *)

(** [ConstBinaryView::concat]: the total size first, then one copy per view. *)
Definition concat_size (views : list bytes) : Z :=
  fold_left (fun acc v => acc + zlen v) views 0.

(** [std::copy] of [v] into [result] at position [pos], and the position after it. *)
Definition copy_to (result : bytes) (pos : Z) (v : bytes) : bytes * Z :=
  (take (Z.to_nat pos) result ++ v ++ drop (Z.to_nat (pos + zlen v)) result, pos + zlen v).

Definition concat_views (views : list bytes) : bytes :=
  fst (fold_left (fun '(result, pos) v => copy_to result pos v) views
         (replicate (Z.to_nat (concat_size views)) 0, 0)).

(** [flat_vec]: append every container to the result. *)
Definition flat_vec {A} (v : list (list A)) : list A := fold_left app v [].

(** ** util_string_view.hpp *)

(** [std::string_view::find] of a character. *)
Fixpoint find_char (sv : bytes) (sep : Z) : option Z :=
  match sv with
  | [] => None
  | c :: sv' => if c =? sep then Some 0 else fmap (fun p => p + 1) (find_char sv' sep)
  end.

Definition remove_prefix (sv : bytes) (sz : Z) : option bytes :=
  if zlen sv <? sz then None else Some (drop (Z.to_nat sz) sv).

Definition split (sv : bytes) (sep : Z) : option (bytes * bytes) :=
  match find_char sv sep with
  | Some pos =>
      let first := take (Z.to_nat pos) sv in
      (fun second => (first, second)) <$> remove_prefix sv (pos + 1)
  | None => None
  end.

(** The loop of [split_all]; the fuel bounds the number of iterations. *)
Fixpoint split_all_loop (fuel : nat) (sv : bytes) (sep : Z) (result : list bytes) : list bytes :=
  match fuel with
  | O => result
  | S fuel' =>
      match sv with
      | [] => result
      | _ =>
          match split sv sep with
          | Some (first, second) => split_all_loop fuel' second sep (result ++ [first])
          | None => split_all_loop fuel' [] sep (result ++ [sv])
          end
      end
  end.

(** Every iteration consumes at least one character. *)
Definition split_all (sv : bytes) (sep : Z) : list bytes :=
  split_all_loop (S (length sv)) sv sep [].

(** [join]: the separator before every element but the first. *)
Definition join (c : list bytes) (sep : bytes) : bytes :=
  snd (fold_left (fun '(is_first, out) s => (false, out ++ (if is_first : bool then [] else sep) ++ s))
         c (true, [])).

(** ** util_error.cpp *)

Section ErrorMessage.

(** [std::error_code::message] for the categories of libraries outside the repository. *)
Context (external_message : error_code -> bytes).

Definition code_message (c : error_code) : bytes :=
  match ec_category c with
  | cat_stun_parse => s2b (stun_parse_error_message (ec_value c))
  | cat_stun_client => s2b (stun_client_error_message (ec_value c))
  | cat_net => s2b (net_error_message (ec_value c))
  | cat_ice => s2b (ice_error_message (ec_value c))
  | cat_rtp => s2b (rtp_error_message (ec_value c))
  | cat_token_stream => s2b (token_stream_error_message (ec_value c))
  | cat_util => s2b (util_error_message (ec_value c))
  | cat_node_stun => s2b (node_stun_error_message (ec_value c))
  | cat_generic | cat_openssl | cat_node_openssl | cat_external _ => external_message c
  end.

(** [Error::message]: the context, last entry first, then the text of the code. *)
Definition error_message (e : Error) : bytes :=
  join (rev (m_context e) ++ [code_message (m_code e)]) (s2b ": ").

End ErrorMessage.

(** ** abnf/abnf.hpp, ice/ice_abnf.hpp *)

Definition is_ALPHA (c : Z) : bool :=
  ((0x41 <=? c) && (c <=? 0x5a)) || ((0x61 <=? c) && (c <=? 0x7a)).

Definition is_DIGIT (c : Z) : bool := (0x30 <=? c) && (c <=? 0x39).

(** [std::tolower] in the C locale. *)
Definition tolower (c : Z) : Z := if (0x41 <=? c) && (c <=? 0x5a) then c + 32 else c.

(** The loop of [eq_string] over the common length. *)
Fixpoint eq_string_loop (v1 v2 : bytes) : bool :=
  match v1, v2 with
  | c1 :: v1', c2 :: v2' =>
      if negb (tolower c1 =? tolower c2) then false else eq_string_loop v1' v2'
  | _, _ => true
  end.

Definition eq_string (v1 v2 : bytes) : bool :=
  if negb (zlen v1 =? zlen v2) then false else eq_string_loop v1 v2.

Definition is_ice_char (c : Z) : bool :=
  is_ALPHA c || is_DIGIT c || (c =? 0x2b) || (c =? 0x2f).

(** ** util_token_stream.hpp, util_token_stream.cpp *)

(** The tokens and the iterator [m_pos], as an index. *)
Record TokenStream : Type := mk_TokenStream { ts_data : list bytes; ts_pos : nat }.

Definition token_stream (d : list bytes) : TokenStream := mk_TokenStream d 0.

Section TokenStream.
Context `{Craftpp}.

Definition ts_optional (t : TokenStream) : TokenStream * option bytes :=
  match ts_data t !! ts_pos t with
  | None => (t, None)
  | Some tok => (mk_TokenStream (ts_data t) (S (ts_pos t)), Some tok)
  end.

Definition ts_required : SE TokenStream bytes := fun t =>
  match ts_data t !! ts_pos t with
  | None => (t, Err (token_error te_no_required_token))
  | Some tok => (mk_TokenStream (ts_data t) (S (ts_pos t)), Ok tok)
  end.

Definition ts_required_bind {A} (f : bytes -> Result A) : SE TokenStream A :=
  tok ← ts_required; lift (f tok).

Definition ts_required_token (expected : bytes) : SE TokenStream unit :=
  ts_required_bind (fun v =>
    if bool_decide (v = expected) then success
    else add_context [s2b "expected"; expected; s2b "received"; v]
           (Err (token_error te_expected_token_missed))).

End TokenStream.

(** ** util_hash_murmur.cpp *)

Section Murmur.
Context `{Craftpp}.

Definition murmur_m : Z := 0xc6a4a7935bd1e995.
Definition murmur_r : Z := 47.

(** Reading a [uint64_t] object from memory. *)
Definition load_u64 (l : bytes) : Z :=
  if host_is_big_endian then be_val l else be_val (rev l).

Definition murmur_mix (v : Z) : Z :=
  let v := u64 (v * murmur_m) in
  let v := Z.lxor v (Z.shiftr v murmur_r) in
  u64 (v * murmur_m).

(** The [while] loop over whole 8-byte words. *)
Fixpoint murmur_words (n : nat) (data : bytes) (h : Z) : Z * bytes :=
  match n with
  | O => (h, data)
  | S n' =>
      let v := load_u64 (take 8 data) in
      murmur_words n' (drop 8 data) (u64 (Z.lxor h (murmur_mix v) * murmur_m))
  end.

(** The [switch] with fall-through: the remaining bytes from the last one down, then the
    multiplication. *)
Definition murmur_tail (h : Z) (data2 : bytes) (rest : Z) : Z :=
  let step := fun (i h : Z) =>
    if i <? rest then Z.lxor h (Z.shiftl (nth (Z.to_nat i) data2 0) (8 * i)) else h in
  if rest =? 0 then h
  else u64 (step 0 (step 1 (step 2 (step 3 (step 4 (step 5 (step 6 h)))))) * murmur_m).

Definition murmur_final (h : Z) : Z :=
  let h := Z.lxor h (Z.shiftr h murmur_r) in
  let h := u64 (h * murmur_m) in
  Z.lxor h (Z.shiftr h murmur_r).

Definition murmur64 (view : bytes) (seed : Z) : Z :=
  let h := Z.lxor seed (u64 (zlen view * murmur_m)) in
  let '(h, data2) := murmur_words (Z.to_nat (zlen view / 8)) view h in
  murmur_final (murmur_tail h data2 (Z.land (zlen view) 7)).

(** [murmur] over an array of views chains the seed. *)
Definition murmur_views (views : list bytes) (seed : Z) : Z :=
  fold_left (fun seed v => murmur64 v seed) views seed.

End Murmur.

(** ** Lemmas: concatenation and joining *)

Lemma concat_size_acc (views : list bytes) acc :
  fold_left (fun acc v => acc + zlen v) views acc = acc + zlen (List.concat views).
Proof.
  revert acc. induction views as [|v l IH]; intros acc; cbn; [lenlia|].
  rewrite IH, zlen_app. lia.
Qed.

Lemma concat_size_eq views : concat_size views = zlen (List.concat views).
Proof. apply concat_size_acc. Qed.

Lemma copy_to_zeros pre v m :
  copy_to (pre ++ replicate (length v + m) 0) (zlen pre) v =
  ((pre ++ v) ++ replicate m 0, zlen (pre ++ v)).
Proof.
  unfold copy_to. rewrite zlen_app. f_equal. unfold zlen.
  rewrite Nat2Z.id, take_app_length, <- Nat2Z.inj_add, Nat2Z.id.
  rewrite drop_app_ge by lia. rewrite Nat.add_sub_swap, Nat.sub_diag by lia. cbn.
  rewrite drop_replicate, Nat.add_sub_swap, Nat.sub_diag by lia. by rewrite <- app_assoc.
Qed.

(** [ConstBinaryView::concat] returns the bytes of the views one after the other: its
    pre-sized buffer is exactly filled. *)
Lemma concat_views_concat views : concat_views views = List.concat views.
Proof.
  unfold concat_views. rewrite concat_size_eq.
  assert (forall pre : bytes, fold_left (fun '(result, pos) v => copy_to result pos v) views
      (pre ++ replicate (length (List.concat views)) 0, zlen pre)
    = (pre ++ List.concat views, zlen (pre ++ List.concat views))) as H.
  - induction views as [|v l IH]; intros pre; cbn [fold_left List.concat]; [cbn; by rewrite app_nil_r|].
    rewrite length_app, copy_to_zeros, IH, <- app_assoc. done.
  - unfold zlen at 1. rewrite Nat2Z.id. specialize (H []). cbn [app] in H.
    change (zlen (@nil Z)) with 0 in H. by rewrite H.
Qed.

Lemma flat_vec_concat {A} (v : list (list A)) : flat_vec v = List.concat v.
Proof.
  unfold flat_vec. assert (forall acc, fold_left app v acc = acc ++ List.concat v) as H; [|apply H].
  induction v as [|x v IH]; intros acc; cbn; [by rewrite app_nil_r|].
  by rewrite IH, app_assoc.
Qed.

Lemma join_loop (c : list bytes) sep out :
  snd (fold_left (fun '(is_first, out) s => (false, out ++ (if is_first : bool then [] else sep) ++ s))
         c (false, out)) = out ++ List.concat (map (fun s => sep ++ s) c).
Proof.
  revert out. induction c as [|s c IH]; intros out; cbn; [by rewrite app_nil_r|].
  rewrite IH, <- !app_assoc. done.
Qed.

Lemma join_cons s c sep : join (s :: c) sep = s ++ List.concat (map (fun s => sep ++ s) c).
Proof. unfold join. cbn. by rewrite join_loop. Qed.

Lemma join_cons_cons s t c sep : join (s :: t :: c) sep = s ++ sep ++ join (t :: c) sep.
Proof. rewrite !join_cons. cbn. by rewrite <- app_assoc. Qed.

(** ** Lemmas: splitting *)

Lemma find_char_spec sv sep :
  match find_char sv sep with
  | Some p => (exists a b, sv = a ++ sep :: b /\ sep ∉ a /\ p = zlen a)
  | None => sep ∉ sv
  end.
Proof.
  induction sv as [|c sv IH]; cbn; [apply not_elem_of_nil|].
  destruct (Z.eqb_spec c sep) as [->|Hc].
  - exists [], sv. split_and!; [done|apply not_elem_of_nil|done].
  - destruct (find_char sv sep) as [p|]; cbn.
    + destruct IH as (a & b & -> & Ha & ->). exists (c :: a), b.
      split_and!; [done| |rewrite zlen_cons; lia].
      rewrite not_elem_of_cons. done.
    + rewrite not_elem_of_cons. done.
Qed.

Lemma split_spec sv sep :
  match split sv sep with
  | Some (a, b) => sv = a ++ sep :: b /\ sep ∉ a
  | None => sep ∉ sv
  end.
Proof.
  unfold split. pose proof (find_char_spec sv sep) as H.
  destruct (find_char sv sep) as [p|]; [|done].
  destruct H as (a & b & -> & Ha & ->). unfold remove_prefix.
  rewrite zlen_app, zlen_cons. pose proof (zlen_nonneg b).
  destruct (Z.ltb_spec (zlen a + (1 + zlen b)) (zlen a + 1)); [lia|]. cbn.
  unfold zlen. rewrite Nat2Z.id, take_app_length. split; [|done]. f_equal.
  replace (Z.to_nat (Z.of_nat (length a) + 1)) with (length a + 1)%nat by lia.
  by rewrite drop_app_add.
Qed.

Lemma split_all_loop_acc fuel sv sep acc :
  split_all_loop fuel sv sep acc = acc ++ split_all_loop fuel sv sep [].
Proof.
  revert sv acc. induction fuel as [|n IH]; intros sv acc; cbn [split_all_loop];
    [by rewrite app_nil_r|].
  destruct sv; [by rewrite app_nil_r|].
  destruct (split _ _) as [[a b]|]; cbn [app];
    rewrite IH; rewrite (IH _ [_]); by rewrite <- app_assoc.
Qed.

Lemma split_all_loop_nil fuel sep acc : split_all_loop fuel [] sep acc = acc.
Proof. by destruct fuel. Qed.

(** What [split_all] returns, whatever the fuel above the length. *)
Inductive split_result (sep : Z) : bytes -> list bytes -> Prop :=
| split_empty : split_result sep [] []
| split_last sv : sv <> [] -> sep ∉ sv -> split_result sep sv [sv]
| split_more a b l : sep ∉ a -> split_result sep b l -> split_result sep (a ++ sep :: b) (a :: l).

Lemma split_all_loop_spec fuel sv sep :
  (length sv < fuel)%nat -> split_result sep sv (split_all_loop fuel sv sep []).
Proof.
  revert sv. induction fuel as [|n IH]; intros sv Hf; [lia|]. cbn [split_all_loop].
  destruct sv as [|c sv']; [constructor|].
  pose proof (split_spec (c :: sv') sep) as H. destruct (split (c :: sv') sep) as [[a b]|].
  - destruct H as [E Ha]. rewrite split_all_loop_acc, E. constructor; [done|].
    apply IH. apply (f_equal length) in E. rewrite length_app in E. cbn in *. lia.
  - rewrite split_all_loop_nil. by constructor.
Qed.

Lemma split_all_spec sv sep : split_result sep sv (split_all sv sep).
Proof. apply split_all_loop_spec. lia. Qed.

Lemma app_sep_inj (sep : Z) a : forall a' b b' : bytes, sep ∉ a -> sep ∉ a' ->
  a ++ sep :: b = a' ++ sep :: b' -> a = a' /\ b = b'.
Proof.
  induction a as [|x a IH]; intros [|y a'] b b'; rewrite ?not_elem_of_cons; cbn.
  - by intros _ _ [= ->].
  - intros _ [Hn _] [= <- _]. done.
  - intros [Hn _] _ [= <- _]. done.
  - intros [_ Ha] [_ Ha'] [= <- E]. by destruct (IH a' b b' Ha Ha' E) as [-> ->].
Qed.

Lemma split_result_unique sep sv l l' : split_result sep sv l -> split_result sep sv l' -> l = l'.
Proof.
  intros H. revert l'. induction H as [|sv Hne Hs|a b l Ha Hb IH]; intros l' H'.
  - inversion H' as [| |a b k Ha Hb E]; subst; try done. by destruct a.
  - inversion H' as [|? ? Hs'|a b k Ha Hb]; subst; [done..|]. exfalso. apply Hs. set_solver.
  - remember (a ++ sep :: b) as sv eqn:E. destruct H' as [|sv Hne Hs|a' b' k Ha' Hb'].
    + by destruct a.
    + exfalso. apply Hs. subst. set_solver.
    + apply app_sep_inj in E as [-> ->]; [|done..]. f_equal. by apply IH.
Qed.

Lemma split_all_iff sv sep l : split_all sv sep = l <-> split_result sep sv l.
Proof.
  split; [intros <-; apply split_all_spec|]. intros H.
  eapply split_result_unique; [apply split_all_spec|done].
Qed.

(** The pieces of a text in terms of [join]: a separator at the very end is not counted. *)
Definition separated (sep : Z) (l : list bytes) (sv : bytes) : Prop :=
  Forall (fun piece => sep ∉ piece) l /\
  ((sv = join l [sep] /\ last l <> Some []) \/ (l <> [] /\ sv = join l [sep] ++ [sep])).

Lemma split_result_separated sep sv l : split_result sep sv l <-> separated sep l sv.
Proof.
  split.
  - induction 1 as [|sv Hne Hs|a b l Ha Hb [IHf IH]].
    + split; [constructor|]. left. by split.
    + split; [by repeat constructor|]. left. rewrite join_cons. cbn. rewrite app_nil_r. split; [done|congruence].
    + split; [by constructor|]. destruct l as [|t l].
      * right. split; [done|]. rewrite join_cons. cbn. rewrite app_nil_r.
        destruct IH as [[-> _]|[? _]]; done.
      * rewrite join_cons_cons. destruct IH as [[-> Hl]|[_ ->]]; [left|right]; rewrite <- ?app_assoc; done.
  - intros [Hf H]. revert sv H. induction Hf as [|a l Ha Hf IH]; intros sv H.
    + destruct H as [[-> _]|[? _]]; [constructor|done].
    + destruct l as [|t l].
      * rewrite join_cons in H. cbn in H. rewrite app_nil_r in H. destruct H as [[-> Hl]|[_ ->]].
        -- apply split_last; [congruence|done].
        -- apply split_more; [done|constructor].
      * rewrite join_cons_cons in H. destruct H as [[-> Hl]|[_ ->]].
        -- apply split_more; [done|]. apply IH. by left.
        -- rewrite <- !app_assoc. apply split_more; [done|]. apply IH. by right.
Qed.

Lemma split_all_separated sv sep l : split_all sv sep = l <-> separated sep l sv.
Proof. rewrite split_all_iff. apply split_result_separated. Qed.

(** [split_all] loses nothing and cuts everywhere: no piece contains the separator,
    and joining the pieces with the separator gives the text back, up to one separator
    at its very end. *)
Theorem split_all_join sv sep :
  Forall (fun piece => sep ∉ piece) (split_all sv sep) /\
  (sv = join (split_all sv sep) [sep] \/ sv = join (split_all sv sep) [sep] ++ [sep]).
Proof.
  destruct (proj1 (split_all_separated sv sep _) eq_refl) as [Hf [[E _]|[_ E]]]; (split; [done|]); [by left|by right].
Qed.

(** ** Lemmas: ABNF *)

Lemma eq_string_loop_spec a b : length a = length b ->
  eq_string_loop a b = bool_decide (map tolower a = map tolower b).
Proof.
  revert b. induction a as [|x a IH]; intros [|y b] E; cbn in *; try done.
  rewrite IH by lia. destruct (Z.eqb_spec (tolower x) (tolower y)); cbn.
  - apply bool_decide_ext. split; congruence.
  - symmetry. apply bool_decide_eq_false. congruence.
Qed.

(** [eq_string] is equality up to ASCII case. *)
Lemma eq_string_spec a b : eq_string a b = bool_decide (map tolower a = map tolower b).
Proof.
  unfold eq_string. destruct (Z.eqb_spec (zlen a) (zlen b)) as [E|E]; cbn.
  - apply eq_string_loop_spec. unfold zlen in E. lia.
  - symmetry. apply bool_decide_eq_false. intros H. apply (f_equal length) in H.
    rewrite !length_map in H. unfold zlen in E. lia.
Qed.

(** ** Lemmas: murmur *)

(** The inverse of the multiplier modulo 2^64. *)
Definition murmur_m_inv : Z := 0x5f7a0ea7e59b19bd.

Lemma murmur_m_inv_spec : (murmur_m * murmur_m_inv) mod 2 ^ 64 = 1.
Proof. reflexivity. Qed.

Lemma mul_m_inj x y : fits 64 x -> fits 64 y -> u64 (x * murmur_m) = u64 (y * murmur_m) -> x = y.
Proof.
  unfold fits, wrap. intros Hx Hy E.
  apply (f_equal (fun z => (z * murmur_m_inv) mod 2 ^ 64)) in E.
  rewrite !Z.mul_mod_idemp_l, <- !Z.mul_assoc in E by lia.
  rewrite <- (Z.mul_mod_idemp_r x), <- (Z.mul_mod_idemp_r y), murmur_m_inv_spec in E by lia.
  rewrite !Z.mul_1_r, !Z.mod_small in E by lia. done.
Qed.

(** [x ^ (x >> 47)] is its own inverse on 64 bits. *)
Lemma xorshift_inv x : fits 64 x ->
  let y := Z.lxor x (Z.shiftr x murmur_r) in Z.lxor y (Z.shiftr y murmur_r) = x.
Proof.
  unfold fits, murmur_r. intros Hx. cbv zeta.
  rewrite Z.shiftr_lxor, Z.shiftr_shiftr by lia.
  assert (Z.shiftr x (47 + 47) = 0) as ->.
  { rewrite Z.shiftr_div_pow2 by lia. apply Z.div_small. split; [lia|].
    eapply Z.lt_trans; [apply Hx|]. reflexivity. }
  by rewrite Z.lxor_0_r, Z.lxor_assoc, Z.lxor_nilpotent, Z.lxor_0_r.
Qed.

Lemma xorshift_inj x y : fits 64 x -> fits 64 y ->
  Z.lxor x (Z.shiftr x murmur_r) = Z.lxor y (Z.shiftr y murmur_r) -> x = y.
Proof.
  intros Hx Hy E. rewrite <- (xorshift_inv x Hx), <- (xorshift_inv y Hy). cbv zeta. by rewrite E.
Qed.

Lemma shiftr_fits w x k : 0 <= k -> fits w x -> fits w (Z.shiftr x k).
Proof.
  unfold fits. intros Hk [H1 H2]. rewrite Z.shiftr_div_pow2 by lia.
  assert (0 < 2 ^ k) by lia. split; [apply Z.div_pos; lia|].
  apply Z.div_lt_upper_bound; [lia|]. nia.
Qed.

Lemma xorshift_fits x : fits 64 x -> fits 64 (Z.lxor x (Z.shiftr x murmur_r)).
Proof. intros. apply lxor_fits; [lia|done|]. apply shiftr_fits; [unfold murmur_r; lia|done]. Qed.

Lemma murmur_mix_fits v : fits 64 (murmur_mix v).
Proof. apply wrap_fits. lia. Qed.

Lemma murmur_mix_inj x y : fits 64 x -> fits 64 y -> murmur_mix x = murmur_mix y -> x = y.
Proof.
  intros Hx Hy E. unfold murmur_mix in E.
  apply mul_m_inj in E; [|apply xorshift_fits, wrap_fits; lia..].
  apply xorshift_inj in E; [|apply wrap_fits; lia..]. by apply mul_m_inj in E.
Qed.

Lemma murmur_final_inj x y : fits 64 x -> fits 64 y -> murmur_final x = murmur_final y -> x = y.
Proof.
  intros Hx Hy E. unfold murmur_final in E.
  apply xorshift_inj in E; [|apply wrap_fits; lia..].
  apply mul_m_inj in E; [|by apply xorshift_fits..]. by apply xorshift_inj in E.
Qed.

Section MurmurLemmas.
Context `{Craftpp}.

Lemma load_u64_fits l : bytes_ok l -> length l = 8%nat -> fits 64 (load_u64 l).
Proof.
  intros Hok Hl. unfold load_u64, fits. change (2 ^ 64) with (256 ^ 8).
  case_match.
  - pose proof (be_val_bounds l Hok) as B. unfold zlen in B. rewrite Hl in B. exact B.
  - pose proof (be_val_bounds (rev l) (bytes_ok_rev _ Hok)) as B.
    unfold zlen in B. rewrite length_rev, Hl in B. exact B.
Qed.

Lemma load_u64_inj l k : bytes_ok l -> bytes_ok k -> length l = 8%nat -> length k = 8%nat ->
  load_u64 l = load_u64 k -> l = k.
Proof.
  intros Hl Hk El Ek. unfold load_u64. case_match.
  - apply be_val_inj; congruence.
  - intros E. apply be_val_inj in E; [|by apply bytes_ok_rev..|rewrite !length_rev; congruence].
    by rewrite <- (rev_involutive l), E, rev_involutive.
Qed.

Lemma murmur_step_fits h v : fits 64 (u64 (Z.lxor h (murmur_mix v) * murmur_m)).
Proof. apply wrap_fits. lia. Qed.

Lemma murmur_step_inj_h h h' v : fits 64 h -> fits 64 h' ->
  u64 (Z.lxor h (murmur_mix v) * murmur_m) = u64 (Z.lxor h' (murmur_mix v) * murmur_m) -> h = h'.
Proof.
  intros Hh Hh' E. apply mul_m_inj in E;
    [|apply lxor_fits; [lia|done|apply murmur_mix_fits]..].
  apply (f_equal (fun z => Z.lxor z (murmur_mix v))) in E.
  by rewrite !Z.lxor_assoc, !Z.lxor_nilpotent, !Z.lxor_0_r in E.
Qed.

Lemma murmur_step_inj_v h v v' : fits 64 h -> fits 64 v -> fits 64 v' ->
  u64 (Z.lxor h (murmur_mix v) * murmur_m) = u64 (Z.lxor h (murmur_mix v') * murmur_m) -> v = v'.
Proof.
  intros Hh Hv Hv' E. apply mul_m_inj in E;
    [|apply lxor_fits; [lia|done|apply murmur_mix_fits]..].
  apply (f_equal (Z.lxor h)) in E.
  rewrite <- !Z.lxor_assoc, !Z.lxor_nilpotent, !Z.lxor_0_l in E. by apply murmur_mix_inj.
Qed.

(** The keys of a word and a half that transaction ids are: a word, and a tail of four bytes. *)
Lemma murmur_tail_4 h t : bytes_ok t -> length t = 4%nat -> murmur_tail h t 4 = u64 (Z.lxor h (be_val (rev t)) * murmur_m).
Proof.
  intros Ht Hl. destruct t as [|b0 [|b1 [|b2 [|b3 [|? ?]]]]]; try done. unfold murmur_tail.
  rewrite !Forall_cons in Ht. unfold is_byte in Ht. destruct Ht as (H0 & H1 & H2 & H3 & _).
  change (4 =? 0) with false. change (0 <? 4) with true. change (1 <? 4) with true. change (2 <? 4) with true. change (3 <? 4) with true.
  change (4 <? 4) with false. change (5 <? 4) with false. change (6 <? 4) with false. cbv iota.
  change (nth (Z.to_nat 0) [b0; b1; b2; b3] 0) with b0. change (nth (Z.to_nat 1) [b0; b1; b2; b3] 0) with b1.
  change (nth (Z.to_nat 2) [b0; b1; b2; b3] 0) with b2. change (nth (Z.to_nat 3) [b0; b1; b2; b3] 0) with b3.
  do 2 f_equal. rewrite !Z.lxor_assoc. f_equal. rewrite Z.shiftl_0_r.
  rewrite (lxor_shiftl_add b1), (lxor_shiftl_add b2), (lxor_shiftl_add b3) by lia.
  cbn [rev app be_val]. unfold zlen. cbn [length]. lia.
Qed.

Lemma murmur64_12 w t seed : length w = 8%nat -> length t = 4%nat -> bytes_ok t ->
  murmur64 (w ++ t) seed = murmur_final (u64 (Z.lxor
    (u64 (Z.lxor (Z.lxor seed (u64 (12 * murmur_m))) (murmur_mix (load_u64 w)) * murmur_m)) (be_val (rev t)) * murmur_m)).
Proof.
  intros Lw Lt Ht. unfold murmur64. assert (zlen (w ++ t) = 12) as -> by (unfold zlen; rewrite length_app; lia).
  change (Z.to_nat (12 / 8)) with 1%nat. change (Z.land 12 7) with 4. cbn [murmur_words].
  rewrite <- Lw at 1 2. rewrite take_app_length, drop_app_length. by rewrite murmur_tail_4.
Qed.

Lemma murmur_tail_fits t : bytes_ok t -> length t = 4%nat -> fits 64 (be_val (rev t)).
Proof.
  intros Ht Lt. pose proof (be_val_bounds (rev t) (bytes_ok_rev _ Ht)) as B. unfold zlen in B. rewrite length_rev, Lt in B.
  unfold fits. change (256 ^ Z.of_nat 4) with (2 ^ 32) in B. lia.
Qed.

Lemma lxor_inj_l a x y : Z.lxor a x = Z.lxor a y -> x = y.
Proof. intros E. apply (f_equal (Z.lxor a)) in E. by rewrite <- !Z.lxor_assoc, !Z.lxor_nilpotent, !Z.lxor_0_l in E. Qed.

(** Each of the three inputs of the hash determines it injectively, given the other two. *)
Lemma murmur64_12_inj w w' t t' seed seed' : length w = 8%nat -> length w' = 8%nat -> length t = 4%nat -> length t' = 4%nat ->
  bytes_ok w -> bytes_ok w' -> bytes_ok t -> bytes_ok t' -> fits 64 seed -> fits 64 seed' ->
  murmur64 (w ++ t) seed = murmur64 (w' ++ t') seed' ->
  (w = w' -> seed = seed' -> t = t') /\ (t = t' -> seed = seed' -> w = w') /\ (w = w' -> t = t' -> seed = seed').
Proof.
  intros Lw Lw' Lt Lt' Hw Hw' Ht Ht' Hs Hs' E. rewrite !murmur64_12 in E by done.
  assert (fits 64 (u64 (12 * murmur_m))) as Hc by (apply wrap_fits; lia).
  apply murmur_final_inj in E; [|apply wrap_fits; lia..].
  apply mul_m_inj in E; [|apply lxor_fits; [lia|apply murmur_step_fits|by apply murmur_tail_fits]..].
  split; [|split].
  - intros <- <-. apply lxor_inj_l in E. apply be_val_inj in E; [|by apply bytes_ok_rev..|rewrite !length_rev; congruence].
    by rewrite <- (rev_involutive t), E, rev_involutive.
  - intros <- <-. rewrite !(Z.lxor_comm _ (be_val (rev t))) in E. apply lxor_inj_l in E.
    apply murmur_step_inj_v in E; [by apply load_u64_inj in E|by apply lxor_fits|by apply load_u64_fits..].
  - intros <- <-. rewrite !(Z.lxor_comm _ (be_val (rev t))) in E. apply lxor_inj_l in E.
    apply murmur_step_inj_h in E; [|by apply lxor_fits..]. rewrite !(Z.lxor_comm _ (u64 _)) in E. by apply lxor_inj_l in E.
Qed.

End MurmurLemmas.

(** The murmur hash of the repository has no collisions between two keys of one machine
    word under the same seed: every step of it is a bijection of the 64-bit integers. *)
Theorem murmur64_word_injective `{C : Craftpp} (a b : bytes) (seed : Z) :
  bytes_ok a -> bytes_ok b -> length a = 8%nat -> length b = 8%nat -> fits 64 seed ->
  murmur64 a seed = murmur64 b seed -> a = b.
Proof.
  intros Ha Hb La Lb Hs. unfold murmur64, zlen. rewrite La, Lb.
  change (Z.to_nat (Z.of_nat 8 / 8)) with 1%nat. cbn [murmur_words].
  change (Z.land (Z.of_nat 8) 7) with 0. unfold murmur_tail. cbn [Z.eqb].
  rewrite !take_ge by lia. intros E.
  apply murmur_final_inj in E; [|apply murmur_step_fits..].
  apply murmur_step_inj_v in E;
    [| apply lxor_fits; [lia|done|apply wrap_fits; lia]
     | by apply load_u64_fits | by apply load_u64_fits].
  by apply load_u64_inj in E.
Qed.

Lemma murmur64_word_injective_witness :
  murmur64 (H := reference) [1;2;3;4;5;6;7;8] 7 <> murmur64 (H := reference) [1;2;3;4;5;6;7;9] 7.
Proof.
  intros E. apply (murmur64_word_injective (C := reference)) in E;
    [discriminate|..]; try (repeat constructor; unfold is_byte; lia); reflexivity.
Defined.
