(* ===== verification/IntrusiveList.v ===== *)
(** * util/util_intrusive_list.hpp

    A doubly linked list whose links are members of the listed objects. The links live
    in a shared store, so pushing an object that is already listed moves it, and an
    object can take itself out. The refinement theorem shows that the pointer program
    implements a plain list of links. *)

From S2P Require Import Prelude.

(** ** The store *)

(** The address of a [Link] member (or of a list's sentinel link). *)
Abbreviation loc := positive.

(** [m_owner] is the object the link belongs to, none for a sentinel. *)
Record Link : Set := mk_Link { m_owner : option Z; m_next : option loc; m_prev : option loc }.

Abbreviation heap := (gmap loc Link).

(** A computation on the store ends normally, calls [std::abort], or dereferences a link
    that no longer exists. *)
Inductive outcome (A : Type) : Type := Done (a : A) | Aborted | Dangling.
Arguments Done {A} a.
Arguments Aborted {A}.
Arguments Dangling {A}.

Definition HM (A : Type) : Type := heap -> outcome (heap * A).

#[export] Instance hm_ret : MRet HM := fun A a h => Done (h, a).
#[export] Instance hm_bind : MBind HM := fun A B f m h =>
  match m h with
  | Done (h', a) => f a h'
  | Aborted => Aborted
  | Dangling => Dangling
  end.

Definition abort {A} : HM A := fun _ => Aborted.

Definition deref (l : loc) : HM Link := fun h =>
  match h !! l with Some k => Done (h, k) | None => Dangling end.

Definition set_next (v : option loc) (k : Link) : Link := mk_Link (m_owner k) v (m_prev k).
Definition set_prev (v : option loc) (k : Link) : Link := mk_Link (m_owner k) (m_next k) v.

Definition write_next (l : loc) (v : option loc) : HM unit := fun h =>
  match h !! l with Some k => Done (<[l := set_next v k]> h, tt) | None => Dangling end.

Definition write_prev (l : loc) (v : option loc) : HM unit := fun h =>
  match h !! l with Some k => Done (<[l := set_prev v k]> h, tt) | None => Dangling end.

(** [m.fmap(f)] on an optional link reference. *)
Definition with_link (m : option loc) (f : loc -> HM unit) : HM unit :=
  match m with Some l => f l | None => mret tt end.

(** ** Link *)

Definition link_remove (l : loc) : HM unit :=
  k ← deref l;
  with_link (m_prev k) (fun prev => write_next prev (m_next k)) ≫= fun _ =>
  k ← deref l;
  with_link (m_next k) (fun next => write_prev next (m_prev k)) ≫= fun _ =>
  write_prev l None ≫= fun _ =>
  write_next l None.

Definition link_place_after (this t : loc) : HM unit :=
  link_remove this ≫= fun _ =>
  kt ← deref t;
  write_next this (m_next kt) ≫= fun _ =>
  write_next t (Some this) ≫= fun _ =>
  write_prev this (Some t) ≫= fun _ =>
  k ← deref this;
  with_link (m_next k) (fun next => write_prev next (Some this)).

Definition link_place_before (this t : loc) : HM unit :=
  link_remove this ≫= fun _ =>
  write_next this (Some t) ≫= fun _ =>
  kt ← deref t;
  write_prev this (m_prev kt) ≫= fun _ =>
  write_prev t (Some this) ≫= fun _ =>
  k ← deref this;
  with_link (m_prev k) (fun prev => write_next prev (Some this)).

Definition link_in_list (l : loc) : HM bool :=
  k ← deref l; mret (bool_decide (is_Some (m_next k)) && bool_decide (is_Some (m_prev k))).

(** [Link::get]: aborts when there is no owner. *)
Definition link_get (l : loc) : HM Z :=
  k ← deref l; match m_owner k with Some t => mret t | None => abort end.

(** [Link(T& t, Link&& other)]: the link [this] takes the place of [other]. *)
Definition link_move (this : loc) (t : Z) (other : loc) : HM unit :=
  ko ← deref other;
  (fun h => Done (<[this := mk_Link (Some t) (m_next ko) (m_prev ko)]> h, tt)) ≫= fun _ =>
  with_link (m_prev ko) (fun prev => write_next prev (Some this)) ≫= fun _ =>
  with_link (m_next ko) (fun next => write_prev next (Some this)) ≫= fun _ =>
  write_next other None ≫= fun _ =>
  write_prev other None.

(** ** IntrusiveList *)

(** The sentinels [m_head] and [m_tail] are links of the list object. *)
Record IntrusiveList : Set := mk_IntrusiveList { m_head : loc; m_tail : loc }.

(** The constructor, on sentinels that were just created. *)
Definition list_create (L : IntrusiveList) : HM unit := fun h =>
  link_place_after (m_tail L) (m_head L)
    (<[m_tail L := mk_Link None None None]> (<[m_head L := mk_Link None None None]> h)).

Definition list_push_back (L : IntrusiveList) (t : loc) : HM unit :=
  link_place_before t (m_tail L).

Definition list_push_front (L : IntrusiveList) (t : loc) : HM unit :=
  link_place_after t (m_head L).

Definition list_empty (L : IntrusiveList) : HM bool :=
  k ← deref (m_head L);
  match m_next k with
  | Some next => mret (bool_decide (next = m_tail L))
  | None => abort
  end.

Definition list_pop_front (L : IntrusiveList) : HM unit :=
  e ← list_empty L;
  if (e : bool) then abort else
  k ← deref (m_head L); with_link (m_next k) link_remove.

Definition list_pop_back (L : IntrusiveList) : HM unit :=
  e ← list_empty L;
  if (e : bool) then abort else
  k ← deref (m_tail L); with_link (m_prev k) link_remove.

Definition list_front (L : IntrusiveList) : HM (option Z) :=
  e ← list_empty L;
  if (e : bool) then mret None else
  k ← deref (m_head L);
  match m_next k with Some next => t ← link_get next; mret (Some t) | None => mret None end.

Definition list_back (L : IntrusiveList) : HM (option Z) :=
  e ← list_empty L;
  if (e : bool) then mret None else
  k ← deref (m_tail L);
  match m_prev k with Some prev => t ← link_get prev; mret (Some t) | None => mret None end.

(** The loop of [clear]: [while (!empty()) pop_front();]. The fuel bounds the number of
    iterations. *)
Fixpoint list_clear_loop (fuel : nat) (L : IntrusiveList) : HM unit :=
  match fuel with
  | O => mret tt
  | S fuel' =>
      e ← list_empty L;
      if (e : bool) then mret tt else list_pop_front L ≫= fun _ => list_clear_loop fuel' L
  end.

(** Every link of a list is a different key of the store. *)
Definition list_clear (L : IntrusiveList) : HM unit := fun h => list_clear_loop (S (size h)) L h.

Definition list_do_move (L other : IntrusiveList) : HM unit :=
  ko ← deref (m_head other);
  write_next (m_head L) (m_next ko) ≫= fun _ =>
  with_link (m_next ko) (fun next => write_prev next (Some (m_head L))) ≫= fun _ =>
  kt ← deref (m_tail other);
  write_prev (m_tail L) (m_prev kt) ≫= fun _ =>
  with_link (m_prev kt) (fun prev => write_next prev (Some (m_tail L))) ≫= fun _ =>
  write_next (m_head other) None ≫= fun _ =>
  write_prev (m_tail other) None ≫= fun _ =>
  link_place_after (m_tail other) (m_head other).

(** The move constructor, on sentinels that were just created. *)
Definition list_move_construct (L other : IntrusiveList) : HM unit := fun h =>
  (e ← list_empty other;
   if (e : bool) then link_place_after (m_tail L) (m_head L) else list_do_move L other)
    (<[m_tail L := mk_Link None None None]> (<[m_head L := mk_Link None None None]> h)).

(** [operator=(IntrusiveList&&)]. *)
Definition list_move_assign (L other : IntrusiveList) : HM unit :=
  if bool_decide (m_head L = m_head other) then mret tt (* self assignment *) else
  list_clear L ≫= fun _ =>
  e ← list_empty other;
  if (e : bool) then mret tt else list_do_move L other.

(** ** The list a pointer structure represents *)

Definition next_of (h : heap) (a : loc) : option loc := h !! a ≫= m_next.
Definition prev_of (h : heap) (a : loc) : option loc := h !! a ≫= m_prev.

(** Neighbours in [l] point at each other. *)
Fixpoint path (h : heap) (l : list loc) : Prop :=
  match l with
  | a :: ((b :: _) as l') => next_of h a = Some b /\ prev_of h b = Some a /\ path h l'
  | _ => True
  end.

(** The list object [L] holds the links [xs], in this order. *)
Definition repr (h : heap) (L : IntrusiveList) (xs : list loc) : Prop :=
  NoDup (m_head L :: xs ++ [m_tail L]) /\ path h (m_head L :: xs ++ [m_tail L]) /\
  prev_of h (m_head L) = None /\ next_of h (m_tail L) = None.

Definition unlinked (h : heap) (t : loc) : Prop :=
  is_Some (h !! t) /\ next_of h t = None /\ prev_of h t = None.

(** ** The specification: a list of links *)

Inductive list_op : Set :=
| op_push_back (t : loc) | op_push_front (t : loc) | op_pop_back | op_pop_front
| op_remove (t : loc) | op_clear.

Definition without (t : loc) (xs : list loc) : list loc := filter (fun x => x <> t) xs.

(** [None] stands for the call of [std::abort]. *)
Definition spec_op (o : list_op) (xs : list loc) : option (list loc) :=
  match o with
  | op_push_back t => Some (without t xs ++ [t])
  | op_push_front t => Some (t :: without t xs)
  | op_pop_back => match xs with [] => None | _ => Some (removelast xs) end
  | op_pop_front => match xs with [] => None | _ :: xs' => Some xs' end
  | op_remove t => Some (without t xs)
  | op_clear => Some []
  end.

Definition run_op (L : IntrusiveList) (o : list_op) : HM unit :=
  match o with
  | op_push_back t => list_push_back L t
  | op_push_front t => list_push_front L t
  | op_pop_back => list_pop_back L
  | op_pop_front => list_pop_front L
  | op_remove t => link_remove t
  | op_clear => list_clear L
  end.

Definition op_link (o : list_op) : option loc :=
  match o with op_push_back t | op_push_front t | op_remove t => Some t | _ => None end.

Fixpoint spec_ops (os : list list_op) (xs : list loc) : option (list loc) :=
  match os with
  | [] => Some xs
  | o :: os' => spec_op o xs ≫= spec_ops os'
  end.

Fixpoint run_ops (L : IntrusiveList) (os : list list_op) : HM unit :=
  match os with
  | [] => mret tt
  | o :: os' => run_op L o ≫= fun _ => run_ops L os'
  end.

(** The store invariant of one list and the objects [items] that may be put on it: the
    list is [xs], and every other object's link is unlinked. *)
Definition list_inv (h : heap) (L : IntrusiveList) (items : gset loc) (xs : list loc) : Prop :=
  repr h L xs /\ m_head L ∉ items /\ m_tail L ∉ items /\ (forall x, x ∈ xs -> x ∈ items) /\
  (forall t, t ∈ items -> t ∉ xs -> unlinked h t).

(** ** Lemmas: updates of the store *)

Definition upd_next (l : loc) (v : option loc) (h : heap) : heap := alter (set_next v) l h.
Definition upd_prev (l : loc) (v : option loc) (h : heap) : heap := alter (set_prev v) l h.

Lemma write_next_spec l v h : is_Some (h !! l) -> write_next l v h = Done (upd_next l v h, tt).
Proof.
  intros [k Hk]. unfold write_next, upd_next. rewrite Hk. do 2 f_equal.
  apply map_eq. intros i. rewrite lookup_alter, lookup_insert. case_decide; [by subst; rewrite Hk|done].
Qed.

Lemma write_prev_spec l v h : is_Some (h !! l) -> write_prev l v h = Done (upd_prev l v h, tt).
Proof.
  intros [k Hk]. unfold write_prev, upd_prev. rewrite Hk. do 2 f_equal.
  apply map_eq. intros i. rewrite lookup_alter, lookup_insert. case_decide; [by subst; rewrite Hk|done].
Qed.

Lemma present_upd_next l v h a : is_Some (upd_next l v h !! a) <-> is_Some (h !! a).
Proof. unfold upd_next. by rewrite lookup_alter_is_Some. Qed.

Lemma present_upd_prev l v h a : is_Some (upd_prev l v h !! a) <-> is_Some (h !! a).
Proof. unfold upd_prev. by rewrite lookup_alter_is_Some. Qed.

Lemma next_upd_next l v h a : is_Some (h !! l) ->
  next_of (upd_next l v h) a = if decide (a = l) then v else next_of h a.
Proof.
  intros [k Hk]. unfold next_of, upd_next. rewrite lookup_alter.
  repeat case_decide; subst; try done. by rewrite Hk.
Qed.

Lemma prev_upd_prev l v h a : is_Some (h !! l) ->
  prev_of (upd_prev l v h) a = if decide (a = l) then v else prev_of h a.
Proof.
  intros [k Hk]. unfold prev_of, upd_prev. rewrite lookup_alter.
  repeat case_decide; subst; try done. by rewrite Hk.
Qed.

Lemma next_upd_prev l v h a : next_of (upd_prev l v h) a = next_of h a.
Proof.
  unfold next_of, upd_prev. rewrite lookup_alter. case_decide; [|done]. by subst; destruct (h !! a).
Qed.

Lemma prev_upd_next l v h a : prev_of (upd_next l v h) a = prev_of h a.
Proof.
  unfold prev_of, upd_next. rewrite lookup_alter. case_decide; [|done]. by subst; destruct (h !! a).
Qed.

Lemma upd_next_prev a v b w h : upd_next a v (upd_prev b w h) = upd_prev b w (upd_next a v h).
Proof.
  apply map_eq. intros i. unfold upd_next, upd_prev. rewrite !lookup_alter.
  repeat case_decide; subst; try done. by destruct (h !! i).
Qed.

Lemma upd_next_same l v h : next_of h l = v -> upd_next l v h = h.
Proof.
  intros <-.  apply map_eq. intros i. unfold upd_next, next_of. rewrite lookup_alter.
  case_decide; [|done]. subst. destruct (h !! i) as [[]|]; done.
Qed.

Lemma upd_prev_same l v h : prev_of h l = v -> upd_prev l v h = h.
Proof.
  intros <-.  apply map_eq. intros i. unfold upd_prev, prev_of. rewrite lookup_alter.
  case_decide; [|done]. subst. destruct (h !! i) as [[]|]; done.
Qed.

Lemma next_of_present h a b : next_of h a = Some b -> is_Some (h !! a).
Proof. unfold next_of. destruct (h !! a); [eauto|done]. Qed.

Lemma prev_of_present h a b : prev_of h a = Some b -> is_Some (h !! a).
Proof. unfold prev_of. destruct (h !! a); [eauto|done]. Qed.

Lemma deref_spec h l : is_Some (h !! l) ->
  exists k, deref l h = Done (h, k) /\ m_next k = next_of h l /\ m_prev k = prev_of h l /\
            h !! l = Some k.
Proof.
  intros [k Hk]. exists k. unfold deref, next_of, prev_of. by rewrite Hk.
Qed.

(** Run the next instruction of a link program. *)
Ltac present :=
  repeat first [rewrite present_upd_next | rewrite present_upd_prev];
  eauto using next_of_present, prev_of_present; fail.
Ltac hstep :=
  match goal with
  | |- context [deref ?l ?h] =>
      let k := fresh "k" in let E := fresh "E" in
      let En := fresh "En" in let Ep := fresh "Ep" in
      destruct (deref_spec h l) as (k & E & En & Ep & ?); [by present|];
      rewrite E; clear E; rewrite ?En, ?Ep
  | |- context [write_next ?l ?v ?h] => rewrite (write_next_spec l v h) by present
  | |- context [write_prev ?l ?v ?h] => rewrite (write_prev_spec l v h) by present
  end.
Ltac hlook :=
  repeat first
    [ rewrite next_upd_prev | rewrite prev_upd_next
    | rewrite next_upd_next by present | rewrite prev_upd_prev by present ];
  repeat case_decide; simplify_eq.

(** ** Lemmas: paths *)

Lemma path_cons h a b l :
  path h (a :: b :: l) <-> next_of h a = Some b /\ prev_of h b = Some a /\ path h (b :: l).
Proof. reflexivity. Qed.

Lemma path_app h l x k : path h (l ++ x :: k) <-> path h (l ++ [x]) /\ path h (x :: k).
Proof.
  induction l as [|a [|b l] IH].
  - cbn. tauto.
  - cbn [app]. rewrite !path_cons. cbn. tauto.
  - cbn [app] in *. rewrite !path_cons, IH. tauto.
Qed.

Lemma path_frame_l h h' l p :
  (forall a, a ∈ l -> next_of h' a = next_of h a) ->
  (forall b, b ∈ l ++ [p] -> prev_of h' b = prev_of h b) ->
  path h (l ++ [p]) -> path h' (l ++ [p]).
Proof.
  induction l as [|a [|b l] IH]; intros Hn Hp; [done| |]; cbn [app]; rewrite !path_cons.
  - intros (H1 & H2 & _). rewrite Hn, Hp by set_solver. done.
  - intros (H1 & H2 & H3). rewrite Hn, Hp by set_solver. split_and!; [done..|].
    apply IH; [set_solver..|done].
Qed.

Lemma path_frame_r h h' x k :
  (forall a, a ∈ x :: k -> next_of h' a = next_of h a) ->
  (forall b, b ∈ k -> prev_of h' b = prev_of h b) ->
  path h (x :: k) -> path h' (x :: k).
Proof.
  revert x. induction k as [|b k IH]; intros x Hn Hp; [done|]. rewrite !path_cons.
  intros (H1 & H2 & H3). rewrite Hn, Hp by set_solver. split_and!; [done..|].
  apply IH; [set_solver..|done].
Qed.

Lemma path_present h l x : path h l -> (2 <= length l)%nat -> x ∈ l -> is_Some (h !! x).
Proof.
  induction l as [|a [|b l] IH]; cbn [length]; [lia..|]. rewrite path_cons.
  intros (H1 & H2 & H3) _ [->|Hx]%elem_of_cons; [by eapply next_of_present|].
  destruct l as [|c l].
  - apply list_elem_of_singleton in Hx as ->. by eapply prev_of_present.
  - apply IH; [done|cbn; lia|done].
Qed.

(** ** Lemmas: taking a link out and putting it in *)

(** The store after [t], between [p] and [n], was removed. *)
Definition unlink (t p n : loc) (h : heap) : heap :=
  upd_next t None (upd_prev t None (upd_prev n (Some p) (upd_next p (Some n) h))).

(** The store after the unlinked [t] was put between [p] and [q]. *)
Definition link_in (t p q : loc) (h : heap) : heap :=
  upd_prev q (Some t) (upd_prev t (Some p) (upd_next p (Some t) (upd_next t (Some q) h))).

Lemma link_remove_spec h t p n :
  next_of h t = Some n -> prev_of h t = Some p -> p <> t -> n <> t ->
  is_Some (h !! p) -> is_Some (h !! n) ->
  link_remove t h = Done (unlink t p n h, tt).
Proof.
  intros Hn Hp Hpt Hnt Ip In. unfold link_remove, mbind, hm_bind.
  hstep. rewrite Hn, Hp. cbn [with_link]. hstep. hstep.
  rewrite next_upd_next, prev_upd_next, decide_False, Hn, Hp by (done || present).
  cbn [with_link]. hstep. hstep. hstep. done.
Qed.

Lemma link_remove_unlinked h t : unlinked h t -> link_remove t h = Done (h, tt).
Proof.
  intros (It & Hn & Hp). unfold link_remove, mbind, hm_bind.
  hstep. rewrite Hp. cbn [with_link]. unfold mret, hm_ret. hstep. rewrite Hn. cbn [with_link].
  unfold mret, hm_ret. hstep. hstep.
  by rewrite upd_prev_same, upd_next_same.
Qed.

Lemma link_place_after_spec h t p q :
  unlinked h t -> next_of h p = Some q -> is_Some (h !! q) -> p <> t ->
  link_place_after t p h = Done (link_in t p q h, tt).
Proof.
  intros Hu Hn Iq Hpt. pose proof Hu as (It & _ & _).
  unfold link_place_after, mbind, hm_bind. rewrite link_remove_unlinked by done.
  hstep. rewrite Hn. hstep. hstep. hstep. hstep.
  rewrite next_upd_prev, next_upd_next, decide_False, next_upd_next, decide_True by (done || present).
  cbn [with_link]. hstep. done.
Qed.

Lemma link_place_before_spec h t p q :
  unlinked h t -> prev_of h q = Some p -> is_Some (h !! p) -> q <> t ->
  link_place_before t q h = Done (link_in t p q h, tt).
Proof.
  intros Hu Hp Ip Hqt. pose proof Hu as (It & _ & _).
  unfold link_place_before, mbind, hm_bind. rewrite link_remove_unlinked by done.
  hstep. hstep. rewrite prev_upd_next, Hp. hstep. hstep. hstep.
  rewrite prev_upd_prev, decide_False, prev_upd_prev, decide_True by (done || present).
  cbn [with_link]. hstep. unfold link_in. do 2 f_equal.
  by rewrite !upd_next_prev.
Qed.

Lemma unlink_path h l p t n k :
  NoDup (l ++ p :: t :: n :: k) -> path h (l ++ p :: t :: n :: k) ->
  path (unlink t p n h) (l ++ p :: n :: k).
Proof.
  intros Hnd Hpath. apply path_app in Hpath as [Hl Hpath].
  rewrite !path_cons in Hpath. destruct Hpath as (H1 & H2 & H3 & H4 & Hk).
  assert (is_Some (h !! p) /\ is_Some (h !! t) /\ is_Some (h !! n)) as (Ip & It & In)
    by (split_and!; eauto using next_of_present, prev_of_present).
  apply NoDup_app in Hnd as (Hndl & Hlk & Hnd). rewrite !NoDup_cons in Hnd.
  apply path_app. split; [|rewrite path_cons; split_and!].
  - apply path_frame_l with h; [..|done]; intros a Ha; unfold unlink; hlook; set_solver.
  - unfold unlink. hlook; set_solver.
  - unfold unlink. hlook; set_solver.
  - apply path_frame_r with h; [..|done]; intros a Ha; unfold unlink; hlook; set_solver.
Qed.

Lemma unlink_unlinked h t p n : is_Some (h !! p) -> is_Some (h !! t) -> is_Some (h !! n) ->
  unlinked (unlink t p n h) t.
Proof. intros. unfold unlinked, unlink. split; [present|]. split; hlook; done. Qed.

(** Removal changes no other link than the two neighbours, and keeps the ends. *)
Lemma unlink_frame h t p n a : is_Some (h !! p) -> is_Some (h !! t) -> is_Some (h !! n) ->
  a <> t -> a <> p -> a <> n -> unlink t p n h !! a = h !! a.
Proof.
  intros. unfold unlink, upd_next, upd_prev. rewrite !lookup_alter.
  by repeat (rewrite decide_False by done).
Qed.

Lemma link_in_path h l p t q k :
  NoDup (l ++ p :: q :: k) -> t ∉ l ++ p :: q :: k -> is_Some (h !! t) ->
  path h (l ++ p :: q :: k) -> path (link_in t p q h) (l ++ p :: t :: q :: k).
Proof.
  intros Hnd Ht It Hpath. apply path_app in Hpath as [Hl Hpath].
  rewrite !path_cons in Hpath. destruct Hpath as (H1 & H2 & Hk).
  assert (is_Some (h !! p) /\ is_Some (h !! q)) as (Ip & Iq)
    by (split_and!; eauto using next_of_present, prev_of_present).
  apply NoDup_app in Hnd as (Hndl & Hlk & Hnd). rewrite !NoDup_cons in Hnd.
  apply path_app. split; [|rewrite !path_cons; split_and!].
  - apply path_frame_l with h; [..|done]; intros a Ha; unfold link_in; hlook; set_solver.
  - unfold link_in. hlook; set_solver.
  - unfold link_in. hlook; set_solver.
  - unfold link_in. hlook; set_solver.
  - unfold link_in. hlook; set_solver.
  - apply path_frame_r with h; [..|done]; intros a Ha; unfold link_in; hlook; set_solver.
Qed.

Lemma link_in_frame h t p q a : a <> t -> a <> p -> a <> q -> link_in t p q h !! a = h !! a.
Proof.
  intros. unfold link_in, upd_next, upd_prev. rewrite !lookup_alter.
  by repeat (rewrite decide_False by done).
Qed.

(** ** Lemmas: operations on a represented list *)

(** Same links present, and the same contents outside [dirty]. *)
Definition heap_frame (dirty : list loc) (h h' : heap) : Prop :=
  (forall a, is_Some (h' !! a) <-> is_Some (h !! a)) /\ (forall a, a ∉ dirty -> h' !! a = h !! a).

Lemma heap_frame_refl d h : heap_frame d h h.
Proof. split; done. Qed.

Lemma heap_frame_trans d h1 h2 h3 : heap_frame d h1 h2 -> heap_frame d h2 h3 -> heap_frame d h1 h3.
Proof.
  intros [A1 B1] [A2 B2]. split; intros a; [by rewrite A2, A1|].
  intros Ha. by rewrite B2, B1.
Qed.

Lemma unlinked_frame d h h' t : heap_frame d h h' -> t ∉ d -> unlinked h t -> unlinked h' t.
Proof.
  intros [_ Hf] Ht. unfold unlinked, next_of, prev_of. by rewrite (Hf t Ht).
Qed.

(** The members of the list object, sentinels included. *)
Abbreviation members L xs := (m_head L :: xs ++ [m_tail L]).

Lemma repr_split L xs1 xs2 :
  exists l p q k, m_head L :: xs1 = l ++ [p] /\ xs2 ++ [m_tail L] = q :: k /\
    members L (xs1 ++ xs2) = l ++ p :: q :: k /\
    forall t, members L (xs1 ++ t :: xs2) = l ++ p :: t :: q :: k.
Proof.
  destruct (@exists_last _ (m_head L :: xs1)) as (l & p & E1); [done|].
  destruct (xs2 ++ [m_tail L]) as [|q k] eqn:E2; [by destruct xs2|].
  exists l, p, q, k. split_and!; [done..| |intros t].
  - rewrite <- app_assoc, E2.
    change (m_head L :: xs1 ++ q :: k) with ((m_head L :: xs1) ++ q :: k).
    by rewrite E1, <- app_assoc.
  - rewrite <- app_assoc. cbn [app]. rewrite E2.
    change (m_head L :: xs1 ++ t :: q :: k) with ((m_head L :: xs1) ++ t :: q :: k).
    by rewrite E1, <- app_assoc.
Qed.

Lemma path_mid h l p q k : path h (l ++ p :: q :: k) ->
  next_of h p = Some q /\ prev_of h q = Some p.
Proof. rewrite path_app, path_cons. tauto. Qed.

Lemma repr_present h L xs x : repr h L xs -> x ∈ members L xs -> is_Some (h !! x).
Proof.
  intros (_ & Hp & _). apply path_present; [done|]. cbn. rewrite length_app. cbn. lia.
Qed.

Lemma repr_remove h L xs1 t xs2 : repr h L (xs1 ++ t :: xs2) ->
  exists h', link_remove t h = Done (h', tt) /\ repr h' L (xs1 ++ xs2) /\ unlinked h' t /\
    heap_frame (members L (xs1 ++ t :: xs2)) h h'.
Proof.
  intros Hr. pose proof (repr_present _ _ _ t Hr ltac:(set_solver)) as It.
  destruct Hr as (Hnd & Hp & Hh & Ht).
  destruct (repr_split L xs1 xs2) as (l & p & q & k & E1 & E2 & E3 & E4).
  unfold repr in *. rewrite E4 in *. rewrite E3 in *. exists (unlink t p q h).
  assert (m_head L ∈ l ++ [p]) as Hin1 by (rewrite <- E1; set_solver).
  assert (m_tail L ∈ q :: k) as Hin2 by (rewrite <- E2; set_solver).
  pose proof Hp as Hp'. rewrite path_app, !path_cons in Hp'.
  destruct Hp' as (_ & N1 & P1 & N2 & P2 & _).
  assert (is_Some (h !! p) /\ is_Some (h !! q)) as [Ip Iq]
    by (split_and!; eauto using next_of_present, prev_of_present).
  pose proof (unlink_path _ _ _ _ _ _ Hnd Hp) as Hpath.
  apply NoDup_app in Hnd as (Hndl & Hlk & Hnd). rewrite !NoDup_cons in Hnd.
  split_and!; try done.
  - apply link_remove_spec; try done; set_solver.
  - apply NoDup_app. rewrite !NoDup_cons. set_solver.
  - unfold unlink. hlook; set_solver.
  - unfold unlink. hlook; set_solver.
  - by apply unlink_unlinked.
  - split; intros a; [unfold unlink, upd_next, upd_prev; by rewrite !lookup_alter_is_Some|].
    intros Ha. apply unlink_frame; set_solver.
Qed.

Lemma repr_insert h L xs1 t xs2 : repr h L (xs1 ++ xs2) -> unlinked h t ->
  t ∉ members L (xs1 ++ xs2) ->
  exists l p q k, m_head L :: xs1 = l ++ [p] /\ xs2 ++ [m_tail L] = q :: k /\
    next_of h p = Some q /\ prev_of h q = Some p /\
    repr (link_in t p q h) L (xs1 ++ t :: xs2) /\
    heap_frame (members L (xs1 ++ t :: xs2)) h (link_in t p q h).
Proof.
  intros (Hnd & Hp & Hh & Ht) (It & _ & _) Hnin.
  destruct (repr_split L xs1 xs2) as (l & p & q & k & E1 & E2 & E3 & E4).
  exists l, p, q, k. unfold repr in *. rewrite E4. rewrite E3 in *.
  assert (m_head L ∈ l ++ [p]) as Hin1 by (rewrite <- E1; set_solver).
  assert (m_tail L ∈ q :: k) as Hin2 by (rewrite <- E2; set_solver).
  destruct (path_mid _ _ _ _ _ Hp) as [N1 P1].
  assert (is_Some (h !! p) /\ is_Some (h !! q)) as [Ip Iq]
    by (split_and!; eauto using next_of_present, prev_of_present).
  pose proof (link_in_path _ _ _ _ _ _ Hnd Hnin It Hp) as Hpath.
  apply NoDup_app in Hnd as (Hndl & Hlk & Hnd). rewrite !NoDup_cons in Hnd.
  split_and!; try done.
  - apply NoDup_app. rewrite !NoDup_cons. set_solver.
  - unfold link_in. hlook; set_solver.
  - unfold link_in. hlook; set_solver.
  - split; intros a; [unfold link_in, upd_next, upd_prev; by rewrite !lookup_alter_is_Some|].
    intros Ha. apply link_in_frame; set_solver.
Qed.

Lemma list_empty_spec h L xs : repr h L xs -> list_empty L h = Done (h, bool_decide (xs = [])).
Proof.
  intros Hr. pose proof (repr_present _ _ _ (m_head L) Hr ltac:(set_solver)) as Ih.
  destruct Hr as (Hnd & Hp & _). unfold list_empty, mbind, hm_bind. hstep.
  destruct xs as [|x xs]; cbn [app] in *; rewrite path_cons in Hp; destruct Hp as (-> & _).
  - by rewrite bool_decide_true.
  - rewrite bool_decide_false; [done|]. intros ->. rewrite NoDup_cons, NoDup_cons in Hnd. set_solver.
Qed.

Lemma list_pop_front_spec h L x xs : repr h L (x :: xs) -> list_pop_front L h = link_remove x h.
Proof.
  intros Hr. pose proof (repr_present _ _ _ (m_head L) Hr ltac:(set_solver)) as Ih.
  unfold list_pop_front, mbind, hm_bind. rewrite (list_empty_spec _ _ _ Hr). cbn [bool_decide].
  rewrite bool_decide_false by done. hstep. destruct Hr as (_ & Hp & _).
  cbn [app] in Hp. rewrite path_cons in Hp. destruct Hp as (-> & _). done.
Qed.

Lemma list_pop_back_spec h L xs x : repr h L (xs ++ [x]) -> list_pop_back L h = link_remove x h.
Proof.
  intros Hr. pose proof (repr_present _ _ _ (m_tail L) Hr ltac:(set_solver)) as Ih.
  unfold list_pop_back, mbind, hm_bind. rewrite (list_empty_spec _ _ _ Hr).
  rewrite bool_decide_false by (by destruct xs). hstep. destruct Hr as (_ & Hp & _).
  rewrite <- app_assoc, app_comm_cons in Hp. cbn [app] in Hp.
  destruct (path_mid h (m_head L :: xs) x (m_tail L) [] Hp) as [_ ->]. done.
Qed.

(** Removing first makes no difference to an insertion. *)
Lemma place_before_remove h h1 t q : link_remove t h = Done (h1, tt) -> unlinked h1 t ->
  link_place_before t q h = link_place_before t q h1.
Proof.
  intros E Hu. unfold link_place_before, mbind, hm_bind. by rewrite E, link_remove_unlinked.
Qed.

Lemma place_after_remove h h1 t p : link_remove t h = Done (h1, tt) -> unlinked h1 t ->
  link_place_after t p h = link_place_after t p h1.
Proof.
  intros E Hu. unfold link_place_after, mbind, hm_bind. by rewrite E, link_remove_unlinked.
Qed.

Lemma without_not_in t xs : t ∉ xs -> without t xs = xs.
Proof.
  intros Ht. unfold without. induction xs as [|x xs IH]; [done|].
  rewrite filter_cons_True, IH by set_solver. done.
Qed.

Lemma without_split t xs1 xs2 : t ∉ xs1 -> t ∉ xs2 -> without t (xs1 ++ t :: xs2) = xs1 ++ xs2.
Proof.
  intros H1 H2. apply without_not_in in H1 as E1, H2 as E2. unfold without in *.
  rewrite filter_app, filter_cons_False; [by rewrite E1, E2|]. intros Hne. by apply Hne.
Qed.

Lemma elem_of_without t x xs : x ∈ without t xs <-> x <> t /\ x ∈ xs.
Proof. unfold without. by rewrite list_elem_of_filter. Qed.

Lemma repr_not_member h L xs1 t xs2 : repr h L (xs1 ++ t :: xs2) ->
  t ∉ xs1 /\ t ∉ xs2 /\ t <> m_head L /\ t <> m_tail L.
Proof.
  intros (Hnd & _). rewrite NoDup_cons, NoDup_app, NoDup_app, NoDup_cons in Hnd. set_solver.
Qed.

(** Taking an object out, whether or not it is on the list. *)
Lemma inv_remove h L items xs t : list_inv h L items xs -> t ∈ items ->
  exists h', link_remove t h = Done (h', tt) /\ list_inv h' L items (without t xs) /\
             unlinked h' t /\ heap_frame (members L xs) h h'.
Proof.
  intros (Hr & Hh & Ht & Hsub & Hun) Hin.
  destruct (decide (t ∈ xs)) as [Hx|Hx].
  - apply list_elem_of_split in Hx as (xs1 & xs2 & ->).
    destruct (repr_not_member _ _ _ _ _ Hr) as (N1 & N2 & _).
    destruct (repr_remove _ _ _ _ _ Hr) as (h' & E & Hr' & Hu & Hf).
    exists h'. rewrite without_split by done. split_and!; try done; unfold list_inv; split_and!; try done.
    + set_solver.
    + intros a Ha Hna. destruct (decide (a = t)) as [->|]; [done|].
      apply (unlinked_frame _ _ _ _ Hf); [set_solver|]. apply Hun; set_solver.
  - exists h. rewrite without_not_in by done.
    split_and!; try done; [apply link_remove_unlinked|]; by apply Hun.
Qed.

(** Pushing onto either end. *)
Lemma inv_push h1 L items xs1 xs2 t : unlinked h1 t -> list_inv h1 L items (xs1 ++ xs2) ->
  t ∈ items -> t ∉ xs1 ++ xs2 ->
  exists p q, next_of h1 p = Some q /\ prev_of h1 q = Some p /\ p <> t /\ q <> t /\
    (xs1 = [] -> p = m_head L) /\ (xs2 = [] -> q = m_tail L) /\
    list_inv (link_in t p q h1) L items (xs1 ++ t :: xs2).
Proof.
  intros Hu (Hr & Hh & Ht & Hsub & Hun) Hin Hnin.
  destruct (repr_insert h1 L xs1 t xs2 Hr Hu) as (l & p & q & k & E1 & E2 & N & P & Hr' & Hf);
    [set_solver|].
  exists p, q. assert (p ∈ members L (xs1 ++ t :: xs2) /\ q ∈ members L (xs1 ++ t :: xs2)) as [].
  { assert (p ∈ m_head L :: xs1) by (rewrite E1; set_solver).
    assert (q ∈ xs2 ++ [m_tail L]) by (rewrite E2; set_solver). set_solver. }
  assert (p <> t /\ q <> t) as [].
  { assert (p ∈ m_head L :: xs1) by (rewrite E1; set_solver).
    assert (q ∈ xs2 ++ [m_tail L]) by (rewrite E2; set_solver). set_solver. }
  split_and!; try done.
  - intros ->. by destruct l as [|? []]; simplify_list_eq.
  - intros ->. by simplify_list_eq.
  - split_and!; try done; [clear -Hsub Hin; intros x; rewrite !elem_of_app, elem_of_cons; naive_solver set_solver|].
    intros a Ha Hna. apply (unlinked_frame _ _ _ _ Hf); [set_solver|]. apply Hun; set_solver.
Qed.

Lemma inv_push_back h L items xs t : list_inv h L items xs -> t ∈ items ->
  exists h', list_push_back L t h = Done (h', tt) /\ list_inv h' L items (without t xs ++ [t]).
Proof.
  intros Hinv Hin. destruct (inv_remove _ _ _ _ _ Hinv Hin) as (h1 & E1 & Hinv1 & Hu & _).
  rewrite <- (app_nil_r (without t xs)) in Hinv1.
  destruct (inv_push h1 L items (without t xs) [] t Hu Hinv1 Hin) as (p & q & N & P & Np & Nq & _ & Hq & Hi);
    [rewrite app_nil_r, elem_of_without; naive_solver|].
  rewrite Hq in * by done. exists (link_in t p (m_tail L) h1). split; [|done].
  unfold list_push_back. rewrite (place_before_remove h h1) by done.
  apply link_place_before_spec; eauto using next_of_present.
Qed.

Lemma inv_push_front h L items xs t : list_inv h L items xs -> t ∈ items ->
  exists h', list_push_front L t h = Done (h', tt) /\ list_inv h' L items (t :: without t xs).
Proof.
  intros Hinv Hin. destruct (inv_remove _ _ _ _ _ Hinv Hin) as (h1 & E1 & Hinv1 & Hu & _).
  destruct (inv_push h1 L items [] (without t xs) t Hu Hinv1 Hin) as (p & q & N & P & Np & Nq & Hp & _ & Hi);
    [cbn; rewrite elem_of_without; naive_solver|].
  rewrite Hp in * by done. exists (link_in t (m_head L) q h1). split; [|done].
  unfold list_push_front. rewrite (place_after_remove h h1) by done.
  apply link_place_after_spec; eauto using prev_of_present.
Qed.

Lemma inv_pop_front h L items x xs : list_inv h L items (x :: xs) ->
  exists h', list_pop_front L h = Done (h', tt) /\ list_inv h' L items xs.
Proof.
  intros Hinv. pose proof Hinv as (Hr & _ & _ & Hsub & _).
  destruct (inv_remove _ _ _ _ x Hinv (Hsub x ltac:(set_solver))) as (h1 & E1 & Hinv1 & _).
  destruct (repr_not_member _ _ [] _ _ Hr) as (_ & Hx & _).
  exists h1. rewrite (list_pop_front_spec _ _ _ _ Hr). split; [done|].
  pose proof (without_split x [] xs ltac:(set_solver) Hx) as E2. cbn [app] in E2. by rewrite E2 in Hinv1.
Qed.

Lemma inv_pop_back h L items x xs : list_inv h L items (xs ++ [x]) ->
  exists h', list_pop_back L h = Done (h', tt) /\ list_inv h' L items xs.
Proof.
  intros Hinv. pose proof Hinv as (Hr & _ & _ & Hsub & _).
  destruct (inv_remove _ _ _ _ x Hinv (Hsub x ltac:(set_solver))) as (h1 & E1 & Hinv1 & _).
  destruct (repr_not_member _ _ _ _ _ Hr) as (Hx & _).
  exists h1. rewrite (list_pop_back_spec _ _ _ _ Hr). split; [done|].
  by rewrite (without_split x xs []), app_nil_r in Hinv1 by set_solver.
Qed.

Lemma repr_size h L xs : repr h L xs -> (length xs <= size h)%nat.
Proof.
  intros Hr. pose proof Hr as (Hnd & _).
  rewrite NoDup_cons, NoDup_app in Hnd. destruct Hnd as (_ & Hnd & _ & _).
  rewrite <- size_dom, <- (size_list_to_set (C := gset loc) xs) by done.
  apply subseteq_size. intros x Hx%elem_of_list_to_set. apply elem_of_dom.
  eapply repr_present; [done|set_solver].
Qed.

Lemma inv_clear_loop fuel L items xs : forall h, (length xs < fuel)%nat -> list_inv h L items xs ->
  exists h', list_clear_loop fuel L h = Done (h', tt) /\ list_inv h' L items [].
Proof.
  revert xs. induction fuel as [|fuel IH]; intros xs h Hf Hinv; [lia|].
  cbn [list_clear_loop]. unfold mbind, hm_bind. rewrite (list_empty_spec h L xs) by apply Hinv.
  destruct xs as [|x xs]; [rewrite bool_decide_true by done; by exists h|].
  rewrite bool_decide_false by done.
  destruct (inv_pop_front _ _ _ _ _ Hinv) as (h1 & -> & Hinv1).
  apply (IH xs); [cbn in Hf; lia|done].
Qed.

Lemma pop_empty h L items : list_inv h L items [] ->
  list_pop_front L h = Aborted /\ list_pop_back L h = Aborted.
Proof.
  intros [Hr _]. unfold list_pop_front, list_pop_back, mbind, hm_bind.
  rewrite (list_empty_spec _ _ _ Hr). done.
Qed.

Lemma run_op_spec h L items xs o : list_inv h L items xs ->
  (forall t, op_link o = Some t -> t ∈ items) ->
  match spec_op o xs with
  | Some xs' => exists h', run_op L o h = Done (h', tt) /\ list_inv h' L items xs'
  | None => run_op L o h = Aborted
  end.
Proof.
  intros Hinv Hin. destruct o as [t|t| | |t|]; cbn [spec_op run_op].
  - apply inv_push_back; [done|by apply Hin].
  - apply inv_push_front; [done|by apply Hin].
  - destruct xs as [|x xs _] using rev_ind; [by apply (pop_empty _ _ _ Hinv)|].
    rewrite removelast_last. destruct (xs ++ [x]) eqn:E; [by destruct xs|]. rewrite <- E in Hinv.
    eapply inv_pop_back, Hinv.
  - destruct xs as [|x xs]; [by apply (pop_empty _ _ _ Hinv)|]. by eapply inv_pop_front.
  - destruct (inv_remove h L items xs t Hinv) as (h' & E & Hi & _); [by apply Hin|eauto].
  - pose proof (repr_size h L xs (proj1 Hinv)) as Hsz.
    exact (inv_clear_loop _ L items xs h (proj2 (Nat.lt_succ_r _ _) Hsz) Hinv).
Qed.

Lemma list_create_inv h L (items : gset loc) : m_head L <> m_tail L -> m_head L ∉ items ->
  m_tail L ∉ items -> (forall t, t ∈ items -> unlinked h t) ->
  exists h', list_create L h = Done (h', tt) /\ list_inv h' L items [].
Proof.
  intros Hne Hh Ht Hun. unfold list_create.
  set (h0 := <[m_tail L := mk_Link None None None]> (<[m_head L := mk_Link None None None]> h)).
  assert (h0 !! m_tail L = Some (mk_Link None None None)) as Et
    by (unfold h0; by rewrite lookup_insert_eq).
  assert (h0 !! m_head L = Some (mk_Link None None None)) as Eh
    by (unfold h0; by rewrite lookup_insert_ne, lookup_insert_eq).
  assert (unlinked h0 (m_tail L) /\ unlinked h0 (m_head L)) as [Ut Uh].
  { unfold unlinked, next_of, prev_of. rewrite Et, Eh. cbn. split_and!; eauto. }
  pose proof Ut as (It & Nt & Pt). pose proof Uh as (Ih & Nh & Ph).
  exists (upd_prev (m_tail L) (Some (m_head L)) (upd_next (m_head L) (Some (m_tail L)) h0)).
  assert (m_tail L <> m_head L) as Hne' by done.
  split.
  - unfold link_place_after, mbind, hm_bind. rewrite link_remove_unlinked by done.
    hstep. rewrite Nh. hstep. hstep. hstep. hstep.
    rewrite (upd_next_same (m_tail L) None h0 Nt), next_upd_prev, next_upd_next by present.
    rewrite decide_False by done. rewrite Nt. reflexivity.
  - assert (forall t, t ∈ items -> t <> m_head L /\ t <> m_tail L) as Hdis by set_solver.
    unfold list_inv, repr. cbn [app]. rewrite path_cons. split_and!; try done.
    + rewrite !NoDup_cons, NoDup_nil. set_solver.
    + hlook; done.
    + hlook; done.
    + hlook; done.
    + hlook; done.
    + set_solver.
    + intros t Hin _. destruct (Hdis t Hin) as [D1 D2]. destruct (Hun t Hin) as (I1 & I2 & I3).
      assert (h0 !! t = h !! t) as E0 by (unfold h0; by rewrite !lookup_insert_ne).
      split; [rewrite present_upd_prev, present_upd_next, E0; done|].
      split; hlook; unfold next_of, prev_of in *; by rewrite E0.
Qed.

(** ** The list object implements the list of links *)

Lemma hm_bind_done {A B} (m : HM A) (f : A -> HM B) h h' a :
  m h = Done (h', a) -> (m ≫= f) h = f a h'.
Proof. intros E. unfold mbind, hm_bind. by rewrite E. Qed.

Lemma run_ops_spec L items os : forall h xs, list_inv h L items xs ->
  (forall o t, o ∈ os -> op_link o = Some t -> t ∈ items) ->
  match spec_ops os xs with
  | Some xs' => exists h', run_ops L os h = Done (h', tt) /\ list_inv h' L items xs'
  | None => run_ops L os h = Aborted
  end.
Proof.
  induction os as [|o os IH]; intros h xs Hinv Hin; cbn [spec_ops run_ops].
  { by exists h. }
  pose proof (run_op_spec h L items xs o Hinv ltac:(intros; eapply Hin; [by left|done])) as Ho.
  destruct (spec_op o xs) as [xs1|]; cbn.
  - destruct Ho as (h1 & E & Hi). unfold mbind, hm_bind. rewrite E.
    apply (IH _ _ Hi). intros; eapply Hin; [by right|done].
  - unfold mbind, hm_bind. by rewrite Ho.
Qed.

(** C17. The intrusive list implements a list of links: after the constructor and any
    sequence of [push_back], [push_front], [pop_back], [pop_front], [Link::remove] and
    [clear] over a set of unlinked objects, the pointers represent exactly the list
    that the same operations build on a plain list (pushing a listed object moves it),
    every object that is not listed is unlinked, [empty] answers whether the list is
    empty, and no link outside the store is dereferenced; the run calls [std::abort]
    exactly when the plain list would be popped empty. *)
Theorem intrusive_list_refines h L (items : gset loc) os
  (Hne : m_head L <> m_tail L) (Hh : m_head L ∉ items) (Ht : m_tail L ∉ items)
  (Hun : forall t, t ∈ items -> unlinked h t)
  (Hos : forall o t, o ∈ os -> op_link o = Some t -> t ∈ items) :
  match spec_ops os [] with
  | Some xs =>
      exists h', (list_create L ≫= fun _ => run_ops L os) h = Done (h', tt) /\
        list_inv h' L items xs /\ list_empty L h' = Done (h', bool_decide (xs = []))
  | None => (list_create L ≫= fun _ => run_ops L os) h = Aborted
  end.
Proof.
  destruct (list_create_inv h L items Hne Hh Ht Hun) as (h1 & E & Hi).
  rewrite (hm_bind_done _ _ _ _ _ E).
  pose proof (run_ops_spec L items os h1 [] Hi Hos) as Hr.
  destruct (spec_ops os []) as [xs|]; [|done].
  destruct Hr as (h' & E' & Hi'). exists h'. split_and!; [done|done|].
  apply list_empty_spec, Hi'.
Qed.

Definition sample_heap : heap :=
  {[ 3%positive := mk_Link (Some 30) None None; 4%positive := mk_Link (Some 40) None None ]}.
Definition sample_list : IntrusiveList := mk_IntrusiveList 1 2.

Lemma sample_unlinked t : t ∈ ({[3; 4]} : gset loc)%positive -> unlinked sample_heap t.
Proof.
  rewrite elem_of_union, !elem_of_singleton. intros [->| ->];
    (split; [eexists; vm_compute; reflexivity|split; vm_compute; reflexivity]).
Qed.

Lemma intrusive_list_refines_witness :
  exists h', (list_create sample_list ≫= fun _ =>
    run_ops sample_list [op_push_back 3; op_push_front 4; op_push_front 3]%positive) sample_heap
    = Done (h', tt) /\ list_inv h' sample_list {[3; 4]}%positive [3; 4]%positive /\
    list_empty sample_list h' = Done (h', false).
Proof.
  pose proof (intrusive_list_refines sample_heap sample_list {[3; 4]}%positive
    [op_push_back 3; op_push_front 4; op_push_front 3]%positive
    ltac:(done) ltac:(set_solver) ltac:(set_solver) sample_unlinked) as H.
  vm_compute spec_ops in H. apply H. intros o t Ho Ht.
  repeat (apply elem_of_cons in Ho as [-> |Ho]; [injection Ht as <-; set_solver|]).
  by apply elem_of_nil in Ho.
Defined.

(** The owners of the first and the last object. *)
Definition owner_of (h : heap) (a : loc) : option Z := h !! a ≫= m_owner.

(** On a represented list whose links have owners, [front] and [back] return the
    owners of the first and last link, and none exactly when the list is empty. *)
Theorem intrusive_list_front_back h L xs (Hr : repr h L xs)
  (Hown : forall x, x ∈ xs -> is_Some (owner_of h x)) :
  list_front L h = Done (h, head xs ≫= owner_of h) /\
  list_back L h = Done (h, last xs ≫= owner_of h).
Proof.
  pose proof (repr_present _ _ _ (m_head L) Hr ltac:(set_solver)) as Ih.
  pose proof (repr_present _ _ _ (m_tail L) Hr ltac:(set_solver)) as It.
  assert (forall x, x ∈ xs -> (t ← link_get x; mret (Some t)) h = Done (h, owner_of h x)) as Hget.
  { intros x Hx. destruct (Hown x Hx) as [t E]. rewrite E. unfold owner_of in E.
    destruct (h !! x) as [k|] eqn:Ek; [|done]. cbn in E.
    unfold mbind, hm_bind, link_get, deref, mbind, hm_bind, mret, hm_ret. by rewrite Ek, E. }
  unfold list_front, list_back. rewrite !(hm_bind_done _ _ _ _ _ (list_empty_spec _ _ _ Hr)).
  destruct xs as [|x xs _] using rev_ind; [done|].
  rewrite bool_decide_false by (by destruct xs). rewrite last_snoc. cbn [mbind option_bind].
  split.
  - unfold mbind at 1, hm_bind at 1. hstep. destruct Hr as (_ & Hp & _).
    destruct xs as [|y xs]; cbn [app] in Hp; rewrite path_cons in Hp; destruct Hp as (-> & _);
      cbn [app head mbind option_bind]; apply Hget; set_solver.
  - unfold mbind at 1, hm_bind at 1. hstep. destruct Hr as (_ & Hp & _).
    rewrite <- app_assoc, app_comm_cons in Hp. cbn [app] in Hp.
    destruct (path_mid h (m_head L :: xs) x (m_tail L) [] Hp) as [_ ->]. apply Hget; set_solver.
Qed.

Definition sample_listed : heap :=
  {[ 1%positive := mk_Link None (Some 3%positive) None;
     3%positive := mk_Link (Some 30) (Some 4%positive) (Some 1%positive);
     4%positive := mk_Link (Some 40) (Some 2%positive) (Some 3%positive);
     2%positive := mk_Link None None (Some 4%positive) ]}.

Lemma intrusive_list_front_back_witness :
  list_front sample_list sample_listed = Done (sample_listed, Some 30) /\
  list_back sample_list sample_listed = Done (sample_listed, Some 40).
Proof.
  refine (intrusive_list_front_back sample_listed sample_list [3; 4]%positive _ _).
  - split; [|vm_compute; tauto]. cbn. rewrite !NoDup_cons, NoDup_nil. set_solver.
  - intros x Hx. repeat (apply elem_of_cons in Hx as [-> |Hx]; [vm_compute; eauto|]).
    by apply elem_of_nil in Hx.
Defined.
