(* ===== verification/Clock.v ===== *)
(** * clock/clock_timepoint.hpp and clock/clock_std.hpp

    [Timepoint] is a 64-bit microsecond counter that wraps around, compared by serial
    number arithmetic; [ChronoClockConverter] turns the samples of a chrono clock into
    timepoints, carrying the sub-microsecond remainder over. *)

From Stdlib Require Import Sorted.
From S2P Require Import Prelude.

(** ** Timepoint *)

(** [m_value.count()]: a [uint64_t] number of microseconds. *)
Record Timepoint : Set := mk_Timepoint { tp_value : Z }.

#[export] Instance Timepoint_eq_dec : EqDecision Timepoint.
Proof. solve_decision. Defined.

(** A [std::chrono::duration<int64_t, std::micro>]: [NativeDuration]. *)
Abbreviation Duration := Z.

Definition epoch : Timepoint := mk_Timepoint 0.

(** [std::numeric_limits<Base>::max() / 2] *)
Definition half_range : Z := (2 ^ 64 - 1) / 2.

Definition is_after (a b : Timepoint) : bool := half_range <? u64 (tp_value b - tp_value a).
Definition is_before (a b : Timepoint) : bool := half_range <? u64 (tp_value a - tp_value b).

(** The ratio of a chrono duration's tick to a microsecond, [num/den] in lowest terms:
    milliseconds are [1000/1], nanoseconds [1/1000]. *)
Record Ratio : Set := mk_Ratio { r_num : Z; r_den : Z }.
Definition micro : Ratio := mk_Ratio 1 1.
Definition milli : Ratio := mk_Ratio 1000 1.
Definition nano : Ratio := mk_Ratio 1 1000.

(** [duration_cast<UnderlyingDuration>] of [c] ticks held in a signed 64-bit integer: the
    common representation of [uint64_t], [int64_t] and [intmax_t] is [uint64_t]. *)
Definition cast_to_underlying (r : Ratio) (c : Z) : Z := u64 (u64 c * r_num r) / r_den r.

(** [duration_cast<ChronoDuration>] of [c] unsigned microseconds. *)
Definition cast_from_underlying (r : Ratio) (c : Z) : Z :=
  to_signed 64 (u64 (c * r_den r) / r_num r).

(** [advance_from]: the advanced timepoint and what is left in the parameter. *)
Definition advance_from (r : Ratio) (tp : Timepoint) (duration : Z) : Timepoint * Z :=
  let advance := cast_to_underlying r duration in
  let duration' := to_signed 64 (duration - cast_from_underlying r advance) in
  (mk_Timepoint (u64 (tp_value tp + advance)), duration').

(** [advance] accepts only durations of whole microseconds (its [static_assert]):
    [r_den r] is 1. *)
Definition advance_by (r : Ratio) (tp : Timepoint) (duration : Z) : Timepoint :=
  mk_Timepoint (u64 (tp_value tp + cast_to_underlying r duration)).

(** [advance] of a [NativeDuration]. *)
Definition advance (tp : Timepoint) (duration : Duration) : Timepoint :=
  advance_by micro tp duration.

(** [operator-]: the unsigned difference, or its negation, converted to [Duration]. *)
Definition tp_sub (a b : Timepoint) : Duration :=
  if is_after a b
  then to_signed 64 (u64 (tp_value a - tp_value b))
  else to_signed 64 (u64 (- u64 (tp_value b - tp_value a))).

(** ** ChronoClockConverter *)

(** [m_prev] is the last sample, in ticks since the clock's epoch. *)
Record ClockConverter : Set :=
  mk_ClockConverter { cc_prev : Z; cc_reminder : Z; cc_now : Timepoint }.

(** The constructor, given the first sample of [ChronoClock::now()]. *)
Definition converter_init (r : Ratio) (sample : Z) : ClockConverter :=
  let '(now, reminder) := advance_from r epoch sample in
  mk_ClockConverter sample reminder now.

(** [now()], given the next sample. *)
Definition converter_now (r : Ratio) (c : ClockConverter) (sample : Z) : ClockConverter :=
  let reminder := to_signed 64 (cc_reminder c + to_signed 64 (sample - cc_prev c)) in
  let '(now, reminder') := advance_from r (cc_now c) reminder in
  mk_ClockConverter sample reminder' now.

(** The converter after a sequence of samples. *)
Definition converter_run (r : Ratio) (first : Z) (samples : list Z) : ClockConverter :=
  fold_left (converter_now r) samples (converter_init r first).

(** ** Lemmas *)

Definition tp_wf (t : Timepoint) : Prop := fits 64 (tp_value t).

(** Solve the well-formedness of a concrete timepoint. *)
Ltac tp_bounds := unfold tp_wf, fits; cbn [tp_value epoch]; lia.

Lemma half_range_eq : half_range = 2 ^ 63 - 1.
Proof. reflexivity. Qed.

Lemma to_signed_mod_eq w x y : x mod 2 ^ w = y mod 2 ^ w -> to_signed w x = to_signed w y.
Proof. unfold to_signed, wrap. by intros ->. Qed.

Lemma to_signed_wrap w z : to_signed w (wrap w z) = to_signed w z.
Proof. unfold to_signed, wrap. by rewrite Z.mod_mod_divide by apply Z.divide_refl. Qed.

Lemma to_signed_64_small z : - 2 ^ 63 <= z < 2 ^ 63 -> to_signed 64 z = z.
Proof.
  intros. unfold to_signed, wrap. cbv zeta. change (2 ^ (64 - 1)) with (2 ^ 63).
  destruct (Z_lt_le_dec z 0).
  - replace (z mod 2 ^ 64) with (z + 2 ^ 64).
    + bdestruct; lia.
    + symmetry. rewrite <- (Z.mod_add z 1) by lia. apply Z.mod_small. lia.
  - rewrite Z.mod_small by lia. bdestruct; lia.
Qed.

Lemma to_signed_64_range z : - 2 ^ 63 <= to_signed 64 z < 2 ^ 63.
Proof.
  unfold to_signed, wrap. cbv zeta. change (2 ^ (64 - 1)) with (2 ^ 63).
  pose proof (Z.mod_pos_bound z (2 ^ 64) ltac:(lia)). bdestruct; lia.
Qed.

Lemma cast_micro d : cast_to_underlying micro d = u64 d.
Proof.
  unfold cast_to_underlying, wrap. cbn [r_num r_den micro].
  by rewrite Z.div_1_r, Z.mul_1_r, Z.mod_mod.
Qed.

Lemma advance_value tp d : tp_value (advance tp d) = u64 (tp_value tp + d).
Proof.
  unfold advance, advance_by. rewrite cast_micro. cbn [tp_value]. unfold wrap.
  by rewrite Z.add_mod_idemp_r.
Qed.

Lemma advance_wf tp d : tp_wf (advance tp d).
Proof. unfold tp_wf. rewrite advance_value. by apply wrap_fits. Qed.

(** Subtraction is the signed 64-bit difference on both branches. *)
Lemma tp_sub_eq a b : tp_sub a b = to_signed 64 (tp_value a - tp_value b).
Proof.
  unfold tp_sub. case_match; rewrite to_signed_wrap; [done|].
  apply to_signed_mod_eq. unfold wrap.
  rewrite <- (Z.sub_0_l (_ mod _)), Zminus_mod_idemp_r. f_equal; lia.
Qed.

(** Comparison in terms of the wrapped difference. *)
Lemma is_after_iff a b : tp_wf a -> tp_wf b ->
  is_after a b = true <-> 2 ^ 63 <= u64 (tp_value b - tp_value a).
Proof. intros. unfold is_after. rewrite Z.ltb_lt, half_range_eq. lia. Qed.

Lemma is_before_after a b : is_before a b = is_after b a.
Proof. reflexivity. Qed.

(** [is_after] is the sign of the difference, except between two opposite points. *)
Lemma is_after_sub a b : tp_wf a -> tp_wf b -> u64 (tp_value a - tp_value b) <> 2 ^ 63 ->
  is_after a b = (0 <? tp_sub a b).
Proof.
  unfold tp_wf, fits. intros Ha Hb Hopp. rewrite tp_sub_eq. unfold is_after.
  rewrite half_range_eq. unfold to_signed, wrap in *. cbv zeta. change (2 ^ (64 - 1)) with (2 ^ 63).
  assert (forall x y, 0 <= x < 2 ^ 64 -> 0 <= y < 2 ^ 64 ->
    (x - y) mod 2 ^ 64 = if y <=? x then x - y else x - y + 2 ^ 64) as Hmod.
  { intros x y Hx Hy. bdestruct; [apply Z.mod_small; lia|].
    rewrite <- (Z.mod_add _ 1) by lia. apply Z.mod_small. lia. }
  rewrite !Hmod in * by done. bdestruct; lia.
Qed.

Lemma wrap_sub_cases x y : fits 64 x -> fits 64 y ->
  u64 (x - y) = if y <=? x then x - y else x - y + 2 ^ 64.
Proof.
  unfold fits, wrap. intros Hx Hy. bdestruct; [apply Z.mod_small; lia|].
  rewrite <- (Z.mod_add _ 1) by lia. apply Z.mod_small. lia.
Qed.

Lemma last_in {A} (y : A) l d : List.In (List.last (y :: l) d) (y :: l).
Proof.
  revert y. induction l as [|z l IH]; intros y; [by left|]. right. apply (IH z).
Qed.

Lemma last_cons_eq {A} (x : A) l d : List.last (x :: l) d = List.last l x.
Proof.
  revert x d. induction l as [|y l IH]; intros x d; [done|].
  transitivity (List.last (y :: l) d); [done|]. by rewrite !IH.
Qed.

Lemma last_sorted_ge x l : StronglySorted Z.le (x :: l) -> x <= List.last l x.
Proof.
  intros H. inv H as [|? ? _ Hx]. destruct l as [|y l]; [cbn; lia|].
  rewrite Forall_forall in Hx. apply Hx, list_elem_of_In, last_in.
Qed.

Lemma is_after_irrefl a : is_after a a = false.
Proof. unfold is_after. by rewrite Z.sub_diag. Qed.

Lemma advance_from_nano tp d : 0 <= d < 2 ^ 63 ->
  advance_from nano tp d = (mk_Timepoint (u64 (tp_value tp + d / 1000)), d mod 1000).
Proof.
  intros Hd. unfold advance_from, cast_to_underlying, cast_from_underlying, wrap.
  cbn [r_num r_den nano]. rewrite Z.mul_1_r, Z.mod_mod, Z.div_1_r by lia.
  rewrite (Z.mod_small d) by lia.
  pose proof (Z.div_mod d 1000 ltac:(lia)). pose proof (Z.mod_pos_bound d 1000 ltac:(lia)).
  rewrite (Z.mod_small (d / 1000 * 1000)) by lia.
  rewrite !to_signed_64_small by (rewrite ?to_signed_64_small; lia).
  repeat f_equal. lia.
Qed.

(** What the converter holds after the sample [s] of a nanosecond clock. *)
Definition converter_at (c : ClockConverter) (s : Z) : Prop :=
  cc_prev c = s /\ cc_now c = mk_Timepoint (s / 1000) /\ cc_reminder c = s mod 1000.

Lemma converter_init_at s : 0 <= s < 2 ^ 63 -> converter_at (converter_init nano s) s.
Proof.
  intros Hs. unfold converter_init. rewrite advance_from_nano by done.
  repeat split. cbn [cc_now epoch tp_value]. f_equal. unfold wrap. rewrite Z.add_0_l.
  apply Z.mod_small. pose proof (Z.div_mod s 1000 ltac:(lia)).
  pose proof (Z.mod_pos_bound s 1000 ltac:(lia)). lia.
Qed.

Lemma converter_now_at c s s' : converter_at c s -> 0 <= s <= s' -> s' < 2 ^ 63 ->
  converter_at (converter_now nano c s') s'.
Proof.
  intros (Hp & Hn & Hr) Hs Hs'. unfold converter_now. rewrite Hp, Hn, Hr.
  pose proof (Z.div_mod s 1000 ltac:(lia)). pose proof (Z.mod_pos_bound s 1000 ltac:(lia)).
  rewrite (to_signed_64_small (s' - s)), to_signed_64_small by lia.
  rewrite advance_from_nano by lia. cbn [tp_value].
  replace (s mod 1000 + (s' - s)) with (s' + - (s / 1000) * 1000) by lia.
  rewrite Z.div_add, Z.mod_add by lia.
  pose proof (Z.div_mod s' 1000 ltac:(lia)). pose proof (Z.mod_pos_bound s' 1000 ltac:(lia)).
  repeat split. cbn [cc_now]. f_equal. unfold wrap. rewrite Z.mod_small by lia. lia.
Qed.

(** ** Properties *)

(** Subtraction inverts [advance]: advancing a timepoint by any duration [d] of the
    native type and subtracting the old timepoint gives [d] back, whether or not the
    counter wrapped around. *)
Theorem advance_sub_roundtrip tp d : tp_wf tp -> - 2 ^ 63 <= d < 2 ^ 63 ->
  tp_sub (advance tp d) tp = d.
Proof.
  intros Hw Hd. rewrite tp_sub_eq, advance_value.
  transitivity (to_signed 64 d); [|by apply to_signed_64_small].
  apply to_signed_mod_eq. unfold wrap. rewrite Zminus_mod_idemp_l. f_equal. lia.
Qed.

Lemma advance_sub_roundtrip_witness :
  tp_sub (advance (mk_Timepoint (2 ^ 64 - 1)) 5) (mk_Timepoint (2 ^ 64 - 1)) = 5.
Proof. apply advance_sub_roundtrip; [tp_bounds|lia]. Defined.

(** The timeline order is a trichotomy up to the half-way point: of two different
    timepoints that are not exactly half the range apart, exactly one is after the
    other, and this is the sign of their difference; equal timepoints are neither after
    nor before each other; and two points exactly half the range apart are each after
    the other. *)
Theorem is_after_trichotomy a b : tp_wf a -> tp_wf b ->
  (a = b -> is_after a b = false /\ is_before a b = false) /\
  (a <> b -> u64 (tp_value a - tp_value b) <> 2 ^ 63 ->
     is_after a b = negb (is_before a b) /\ is_after a b = (0 <? tp_sub a b)) /\
  (u64 (tp_value a - tp_value b) = 2 ^ 63 -> is_after a b = true /\ is_before a b = true).
Proof.
  intros Ha Hb. split_and!.
  - intros ->. rewrite is_before_after, is_after_irrefl. done.
  - intros Hne Hopp. split; [|by apply is_after_sub].
    unfold is_after, is_before. rewrite half_range_eq.
    rewrite (wrap_sub_cases (tp_value a)), (wrap_sub_cases (tp_value b)) in * by done.
    assert (tp_value a <> tp_value b) by (destruct a, b; cbn in *; congruence).
    bdestruct; cbn; lia.
  - intros Hopp. unfold is_after, is_before. rewrite half_range_eq.
    rewrite (wrap_sub_cases (tp_value a)), (wrap_sub_cases (tp_value b)) in * by done.
    bdestruct; cbn; lia.
Qed.

Lemma is_after_trichotomy_witness :
  is_after (mk_Timepoint 3) (mk_Timepoint (2 ^ 64 - 4)) =
  negb (is_before (mk_Timepoint 3) (mk_Timepoint (2 ^ 64 - 4))).
Proof.
  destruct (is_after_trichotomy (mk_Timepoint 3) (mk_Timepoint (2 ^ 64 - 4)))
    as (_ & H & _); [tp_bounds..|]. by apply H.
Defined.

(** C38. The clock converter never drifts: fed with non-decreasing samples of a nanosecond
    clock below 2^63, its timepoint is always the last sample divided by 1000 and its
    remainder the rest, however the samples were spaced. *)
Theorem converter_run_exact first samples :
  0 <= first -> StronglySorted Z.le (first :: samples) ->
  List.last samples first < 2 ^ 63 ->
  converter_at (converter_run nano first samples) (List.last samples first).
Proof.
  intros H0 Hsort Hlast. unfold converter_run.
  assert (forall c s, converter_at c s -> 0 <= s -> StronglySorted Z.le (s :: samples) ->
    List.last samples s < 2 ^ 63 ->
    converter_at (fold_left (converter_now nano) samples c) (List.last samples s)) as Hrun.
  { clear. induction samples as [|x l IH]; cbn [fold_left]; intros c s Hc Hs Hsort Hlast; [done|].
    inv Hsort as [|? ? Hl Hx]. inv Hx.
    assert (List.last (x :: l) s = List.last l x) as E by apply last_cons_eq.
    rewrite E in *. apply IH; [|lia|done|done].
    apply converter_now_at with s; [done|lia|].
    pose proof (last_sorted_ge x l Hl). lia. }
  apply Hrun; [|done..]. apply converter_init_at. split; [done|].
  pose proof (last_sorted_ge first samples Hsort). lia.
Qed.

Lemma converter_run_exact_witness :
  converter_at (converter_run nano 1700 [1900; 2500; 9999]) 9999.
Proof. apply (converter_run_exact 1700 [1900; 2500; 9999]); [lia|repeat constructor; lia|cbn; lia]. Defined.

(** [advance_from] with a negative duration shorter than a tick goes the wrong way: the
    cast to the unsigned representation happens before the division, so a timepoint
    "advanced" by -1 to -999 nanoseconds lands (2^64 + d) / 1000 microseconds (more than
    584 years) after the starting point. *)
Theorem advance_from_negative_nano tp d : tp_wf tp -> - 1000 < d < 0 ->
  tp_value (fst (advance_from nano tp d)) = u64 (tp_value tp + (2 ^ 64 + d) / 1000) /\
  is_after (fst (advance_from nano tp d)) tp = true.
Proof.
  intros Hw Hd.
  assert (cast_to_underlying nano d = (2 ^ 64 + d) / 1000) as Hcast.
  { unfold cast_to_underlying, wrap. cbn [r_num r_den nano].
    rewrite Z.mul_1_r, Z.mod_mod by lia.
    rewrite <- (Z.mod_add d 1), Z.mod_small by lia. f_equal. lia. }
  pose proof (Z.div_mod (2 ^ 64 + d) 1000 ltac:(lia)).
  pose proof (Z.mod_pos_bound (2 ^ 64 + d) 1000 ltac:(lia)).
  unfold advance_from. rewrite Hcast. cbn [fst tp_value]. split; [done|].
  unfold is_after. cbn [tp_value]. apply Z.ltb_lt. rewrite half_range_eq.
  unfold wrap. rewrite Zminus_mod_idemp_r.
  replace (tp_value tp - (tp_value tp + (2 ^ 64 + d) / 1000))
    with (- ((2 ^ 64 + d) / 1000)) by lia.
  rewrite <- (Z.mod_add _ 1), Z.mod_small; lia.
Qed.

Lemma advance_from_negative_nano_witness :
  is_after (fst (advance_from nano epoch (-100))) epoch = true.
Proof. apply advance_from_negative_nano; [tp_bounds|lia]. Defined.
