(* ===== verification/Net.v ===== *)
(** * net/: addresses, endpoints, paths, ports and domain names

    IP addresses are the bytes of their [std::array], in network order. [inet_pton] and
    [inet_ntop] belong to the operating system and are the class [Inet]. The theorems
    characterise [Port::from_string] and show which names [Fqdn::from_string] accepts, against
    the grammar of RFC 1035 that net_fqdn.cpp quotes. *)

From S2P Require Import Prelude Errors Craftpp Util.

(** ** net/ip/details/ip_address_tpl.hpp, ip_address.hpp *)

Definition address_size (v : bytes) (size : Z) : bool := zlen v =? size.

(** [details::Address<SIZE>::from_view]. *)
Definition address_tpl_from_view (size : Z) (vv : bytes) : Result bytes :=
  if negb (address_size vv size) then Err (net_error ne_invalid_address_size) else Ok vv.

(** [AddressV4] has SIZE 4 and [AddressV6] has SIZE 16. *)
Definition address_v4_from_view : bytes -> Result bytes := address_tpl_from_view 4.
Definition address_v6_from_view : bytes -> Result bytes := address_tpl_from_view 16.

(** [ip::Address::Value]. *)
Inductive Address : Set := AddressV4 (v : bytes) | AddressV6 (v : bytes).

#[export] Instance Address_eq_dec : EqDecision Address.
Proof. solve_decision. Defined.

Definition address_view (a : Address) : bytes :=
  match a with AddressV4 v => v | AddressV6 v => v end.

(** The arrays have their size. *)
Definition address_wf (a : Address) : Prop :=
  match a with
  | AddressV4 v => zlen v = 4 /\ bytes_ok v
  | AddressV6 v => zlen v = 16 /\ bytes_ok v
  end.

(** *** net/ip/ip_address.cpp *)

Inductive AddressFamily : Set := AF_INET | AF_INET6.

Definition ENOSPC : Z := 28.
Definition INET6_ADDRSTRLEN : Z := 46.

(** [inet_pton] returns its result code, the memory it wrote and [errno]; [inet_ntop] the
    text or null, and [errno]. *)
Class Inet : Type := {
  inet_pton : AddressFamily -> bytes -> Z * bytes * Z;
  inet_ntop : AddressFamily -> bytes -> Z -> option bytes * Z
}.

(** [std::string::c_str] as a C string: up to the first zero byte. *)
Fixpoint c_str (s : bytes) : bytes :=
  match s with [] => [] | c :: s' => if c =? 0 then [] else c :: c_str s' end.

Section AddressStrings.
Context `{Inet}.

Definition inet_pton_adapter (from_view : bytes -> Result bytes) (family : AddressFamily)
    (v : bytes) : Result bytes :=
  let '(rc, ip_addr, errno) := inet_pton family (c_str v) in
  if 0 <? rc then from_view ip_addr
  else if rc =? 0 then Err (net_error ne_ip_address_parse_error)
  else Err (error_of (mk_error_code errno cat_generic)).

Definition from_string_v4 (v : bytes) : Result bytes :=
  inet_pton_adapter address_v4_from_view AF_INET v.
Definition from_string_v6 (v : bytes) : Result bytes :=
  inet_pton_adapter address_v6_from_view AF_INET6 v.

Definition address_from_string (v : bytes) : Result Address :=
  bind_err (AddressV4 <$> from_string_v4 v) (fun _ => AddressV6 <$> from_string_v6 v).

(** The [while] loop of [Address::to_string] with a buffer of [size] characters; the fuel
    bounds the number of iterations. *)
Fixpoint to_string_loop (fuel : nat) (family : AddressFamily) (v : bytes) (size : Z)
    : option (Result bytes) :=
  match fuel with
  | O => None
  | S fuel' =>
      match inet_ntop family v size with
      | (Some result, _) => Some (Ok result)
      | (None, errno) =>
          if negb (errno =? ENOSPC) then Some (Err (error_of (mk_error_code errno cat_generic)))
          else to_string_loop fuel' family v (size * 2)
      end
  end.

Definition address_to_string (fuel : nat) (a : Address) : option (Result bytes) :=
  let p := match a with AddressV4 v => (v, AF_INET) | AddressV6 v => (v, AF_INET6) end in
  to_string_loop fuel p.2 p.1 INET6_ADDRSTRLEN.

End AddressStrings.

(** ** net_port.hpp, net_port.cpp *)

(** A [Port] is its [m_value], a [uint16_t]. *)
Fixpoint port_digits (v : bytes) (result : Z) : Result Z :=
  match v with
  | [] => Ok result
  | c :: v' =>
      if negb (is_DIGIT c) then Err (net_error ne_invalid_port_value)
      else port_digits v' (u32 (10 * result + c - 0x30))
  end.

Definition port_from_string (v : bytes) : Result Z :=
  if (zlen v =? 0) || (5 <? zlen v) then Err (net_error ne_invalid_port_value) else
  result ← port_digits v 0;
  if 0xFFFF <? result then Err (net_error ne_invalid_port_value) else Ok (u16 result).

(** ** net_endpoint.hpp, net_path.hpp *)

Inductive Endpoint : Set := UdpEndpoint (a : Address) (p : Z) | TcpEndpoint (a : Address) (p : Z).

Definition is_udp (e : Endpoint) : bool :=
  match e with UdpEndpoint _ _ => true | TcpEndpoint _ _ => false end.

Definition endpoint_address (e : Endpoint) : Address :=
  match e with UdpEndpoint a _ => a | TcpEndpoint a _ => a end.

Definition endpoint_port (e : Endpoint) : Z :=
  match e with UdpEndpoint _ p => p | TcpEndpoint _ p => p end.

Record Path : Set := mk_Path { path_source : Address; path_target : Address }.

#[export] Instance Path_eq_dec : EqDecision Path.
Proof. solve_decision. Defined.

(** *** net/ip/ip_address_hash.cpp, net_path_hash.hpp *)

Section Hashes.
Context `{Craftpp}.

(** The v4 branch copies at most [sizeof(size_t)] bytes into a zero [size_t]. *)
Definition address_hash (a : Address) : Z :=
  match a with
  | AddressV4 v => load_u64 (take 8 v ++ replicate (8 - length v) 0)
  | AddressV6 v => murmur64 v 0
  end.

Definition path_hash (p : Path) : Z :=
  murmur_views [address_view (path_source p); address_view (path_target p)] 0.

End Hashes.

(** ** net_fqdn.cpp *)

(** [util/util_parse_result.hpp] *)
Record ParseSuccess (A : Type) : Type := mk_ParseSuccess { ps_value : A; ps_rest : bytes }.
Arguments mk_ParseSuccess {A}.
Arguments ps_value {A}.
Arguments ps_rest {A}.

Definition fqdn_is_letter (c : Z) : bool :=
  ((0x41 <=? c) && (c <=? 0x5a)) || ((0x61 <=? c) && (c <=? 0x7a)) || (c =? 0x5f).

Definition fqdn_is_digit (c : Z) : bool := (0x30 <=? c) && (c <=? 0x39).

(** The scan of [parse_label]: [pos] is the position of the first character of [v], and
    the result is the last [last_let_dig]. *)
Fixpoint label_scan (v : bytes) (pos last_let_dig : nat) : nat :=
  match v with
  | [] => last_let_dig
  | c :: v' =>
      if fqdn_is_letter c || fqdn_is_digit c then label_scan v' (S pos) pos
      else if negb (c =? 0x2d) then last_let_dig
      else label_scan v' (S pos) last_let_dig
  end.

Definition parse_label (v : bytes) : Result (ParseSuccess bytes) :=
  match v with
  | [] => Err (net_error ne_fqdn_invalid_label_expect_letter)
  | c :: v' =>
      if negb (fqdn_is_letter c) && negb (fqdn_is_digit c)
      then Err (net_error ne_fqdn_invalid_label_expect_letter)
      else let label_size := S (label_scan v' 1 0) in
           Ok (mk_ParseSuccess (take label_size v) (drop label_size v))
  end.

(** The [while (true)] loop of [parse_subdomain]: [sz] characters of [v] are accepted and
    [rest] is what follows. Every iteration shortens [rest]. *)
Fixpoint subdomain_loop (fuel : nat) (v : bytes) (sz : nat) (rest : bytes)
    : Result (ParseSuccess bytes) :=
  match fuel with
  | O => Ok (mk_ParseSuccess (take sz v) (drop sz v))
  | S fuel' =>
      match parse_label rest with
      | Err e => if Nat.eqb sz 0 then Err e else Ok (mk_ParseSuccess (take sz v) (drop sz v))
      | Ok p =>
          let sz1 := (sz + length (ps_value p))%nat in
          match ps_rest p with
          | [] => Ok (mk_ParseSuccess (take sz1 v) (drop sz1 v))
          | c :: rest' =>
              if negb (c =? 0x2e) then Ok (mk_ParseSuccess (take sz1 v) (drop sz1 v))
              else subdomain_loop fuel' v (S sz1) rest'
          end
      end
  end.

Definition parse_subdomain (v : bytes) : Result (ParseSuccess bytes) :=
  subdomain_loop (S (length v)) v 0 v.

(** An [Fqdn] is its [m_value]. *)
Definition fqdn_parse (v : bytes) : Result (ParseSuccess bytes) :=
  p ← parse_subdomain v; Ok (mk_ParseSuccess (ps_value p) (ps_rest p)).

Definition fqdn_from_string (v : bytes) : Result bytes :=
  p ← fqdn_parse v;
  match ps_rest p with
  | [] => Ok (ps_value p)
  | _ => Err (net_error ne_fqdn_not_fully_parsed)
  end.

(** ** The names that the code accepts *)

Definition let_dig (c : Z) : bool := fqdn_is_letter c || fqdn_is_digit c.
Definition let_dig_hyp (c : Z) : bool := let_dig c || (c =? 0x2d).

(** <label> ::= <let-dig> [ [ <ldh-str> ] <let-dig> ] *)
Inductive fqdn_label : bytes -> Prop :=
| label_one c : let_dig c = true -> fqdn_label [c]
| label_more c m d : let_dig c = true -> let_dig d = true ->
    Forall (fun x => let_dig_hyp x = true) m -> fqdn_label (c :: m ++ [d]).

(** <subdomain> ::= <label> | <label> "." <subdomain>, and a final dot is accepted. *)
Inductive fqdn_domain : bytes -> Prop :=
| domain_label l : fqdn_label l -> fqdn_domain l
| domain_root l : fqdn_label l -> fqdn_domain (l ++ [0x2e])
| domain_dot l d : fqdn_label l -> fqdn_domain d -> fqdn_domain (l ++ 0x2e :: d).

(** ** The grammar of RFC 1035, as net_fqdn.cpp quotes it *)

Definition rfc1035_letter (c : Z) : bool :=
  ((0x41 <=? c) && (c <=? 0x5a)) || ((0x61 <=? c) && (c <=? 0x7a)).
Definition rfc1035_let_dig (c : Z) : bool := rfc1035_letter c || fqdn_is_digit c.
Definition rfc1035_let_dig_hyp (c : Z) : bool := rfc1035_let_dig c || (c =? 0x2d).

(** [<label> ::= <letter> [ [ <ldh-str> ] <let-dig> ]]. *)
Inductive rfc1035_label : bytes -> Prop :=
| rfc_label_one c : rfc1035_letter c = true -> rfc1035_label [c]
| rfc_label_many c m d : rfc1035_letter c = true -> rfc1035_let_dig d = true ->
    Forall (fun x => rfc1035_let_dig_hyp x = true) m -> rfc1035_label (c :: m ++ [d]).

(** [<subdomain> ::= <label> | <subdomain> "." <label>]. *)
Inductive rfc1035_subdomain : bytes -> Prop :=
| rfc_label l : rfc1035_label l -> rfc1035_subdomain l
| rfc_dot s l : rfc1035_subdomain s -> rfc1035_label l -> rfc1035_subdomain (s ++ 0x2e :: l).

(** [<domain> ::= <subdomain> | " "]. *)
Definition rfc1035_domain (v : bytes) : Prop := v = [0x20] \/ rfc1035_subdomain v.

(** ** Lemmas: labels *)

Lemma let_dig_not_hyphen c : let_dig c = false -> let_dig_hyp c = (c =? 0x2d).
Proof. unfold let_dig_hyp. by intros ->. Qed.

Lemma dot_not_ldh : let_dig_hyp 0x2e = false.
Proof. reflexivity. Qed.

Lemma label_scan_cons c v pos n :
  label_scan (c :: v) pos n =
    if let_dig c then label_scan v (S pos) pos
    else if let_dig_hyp c then label_scan v (S pos) n else n.
Proof.
  cbn [label_scan]. change (fqdn_is_letter c || fqdn_is_digit c) with (let_dig c).
  destruct (let_dig c) eqn:E; [done|]. rewrite let_dig_not_hyphen by done. by destruct (c =? 0x2d).
Qed.

(** Either no letter or digit was met, or the scan stops after the last one. *)
Lemma label_scan_sound v : forall pos n,
  label_scan v pos n = n \/
  exists m d rest, v = m ++ d :: rest /\ Forall (fun x => let_dig_hyp x = true) m /\
    let_dig d = true /\ label_scan v pos n = (pos + length m)%nat.
Proof.
  induction v as [|c v IH]; intros pos n; [by left|]. rewrite label_scan_cons.
  destruct (let_dig c) eqn:E; [|destruct (let_dig_hyp c) eqn:E2; [|by left]].
  - right. destruct (IH (S pos) pos) as [->|(m & d & rest & -> & Hm & Hd & ->)].
    + exists [], c, v. cbn. rewrite Nat.add_0_r. done.
    + exists (c :: m), d, rest. cbn. split_and!; [done| |done|lia].
      constructor; [by unfold let_dig_hyp; rewrite E|done].
  - destruct (IH (S pos) n) as [->|(m & d & rest & -> & Hm & Hd & ->)]; [by left|].
    right. exists (c :: m), d, rest. cbn. split_and!; [done| |done|lia]. by constructor.
Qed.

Lemma label_scan_stop rest pos n : (rest = [] \/ exists r, rest = 0x2e :: r) ->
  label_scan rest pos n = n.
Proof. intros [->|[r ->]]; [done|]. by rewrite label_scan_cons. Qed.

Lemma label_scan_complete m d rest : forall pos n, Forall (fun x => let_dig_hyp x = true) m ->
  let_dig d = true -> (rest = [] \/ exists r, rest = 0x2e :: r) ->
  label_scan (m ++ d :: rest) pos n = (pos + length m)%nat.
Proof.
  induction m as [|c m IH]; intros pos n Hm Hd Hr; cbn [app length]; rewrite label_scan_cons.
  - by rewrite Hd, label_scan_stop, Nat.add_0_r by done.
  - apply Forall_cons in Hm as [Hc Hm]. rewrite Hc. destruct (let_dig c); rewrite IH by done; lia.
Qed.

Lemma parse_label_sound v p : parse_label v = Ok p -> v = ps_value p ++ ps_rest p /\ fqdn_label (ps_value p).
Proof.
  unfold parse_label. destruct v as [|c v]; [done|].
  destruct (negb (fqdn_is_letter c) && negb (fqdn_is_digit c)) eqn:E; [done|].
  rewrite <- negb_orb in E. apply negb_false_iff in E. intros [= <-]. cbn [ps_value ps_rest].
  split; [apply (eq_sym (take_drop (S _) (c :: v)))|]. cbn [take].
  destruct (label_scan_sound v 1 0) as [->|(m & d & rest & -> & Hm & Hd & ->)].
  - rewrite take_0. by constructor.
  - cbn [Nat.add]. rewrite cons_middle, app_assoc, take_app_length'; [by constructor|].
    rewrite length_app. cbn. lia.
Qed.

Lemma parse_label_complete l rest : fqdn_label l -> (rest = [] \/ exists r, rest = 0x2e :: r) ->
  parse_label (l ++ rest) = Ok (mk_ParseSuccess l rest).
Proof.
  intros Hl Hr. unfold parse_label. destruct Hl as [c Hc|c m d Hc Hd Hm]; cbn [app];
    rewrite <- negb_orb; change (fqdn_is_letter c || fqdn_is_digit c) with (let_dig c); rewrite Hc;
    cbn [negb].
  - rewrite label_scan_stop by done. cbn. by rewrite take_0, drop_0.
  - rewrite <- (app_assoc m). cbn [app]. rewrite label_scan_complete by done.
    rewrite (cons_middle d), !app_assoc. cbn [take drop Nat.add].
    rewrite take_app_length', drop_app_length'; [done|rewrite length_app; cbn; lia..].
Qed.

Lemma fqdn_label_cons l : fqdn_label l -> exists c l', l = c :: l'.
Proof. intros []; eauto. Qed.

Lemma subdomain_loop_sound fuel : forall v sz rest p, (length rest < fuel)%nat ->
  v = take sz v ++ rest -> subdomain_loop fuel v sz rest = Ok p ->
  v = ps_value p ++ ps_rest p /\
  (ps_rest p = [] -> fqdn_domain rest \/ (rest = [] /\ sz <> 0%nat)).
Proof.
  induction fuel as [|fuel IH]; intros v sz rest p Hf Hv; [lia|]. cbn [subdomain_loop].
  destruct (parse_label rest) as [q|e] eqn:El.
  - destruct (parse_label_sound _ _ El) as [Hq Hl]. destruct q as [l r]. cbn [ps_value ps_rest] in *.
    assert (length (take sz v) = sz \/ v = take sz v) as Hlen.
    { destruct (Nat.le_gt_cases sz (length v)); [left; rewrite length_take; lia|right].
      by rewrite take_ge by lia. }
    assert (length (take sz v) = sz) as Hsz.
    { destruct Hlen as [|E]; [done|]. rewrite <- E in Hv. subst rest.
      destruct (fqdn_label_cons _ Hl) as (c & l' & ->).
      apply (f_equal length) in Hv. rewrite length_app in Hv. cbn in Hv. lia. }
    destruct r as [|c r]; [|destruct (negb (c =? 0x2e)) eqn:Ec].
    + intros [= <-]. cbn. rewrite take_drop. split; [done|]. rewrite app_nil_r in Hq. subst.
      intros _. left. by constructor.
    + intros [= <-]. cbn. rewrite take_drop. split; [done|]. intros Hd.
      apply (f_equal length) in Hd. apply (f_equal length) in Hv. subst rest.
      rewrite length_drop in Hd. rewrite !length_app in Hv. cbn in *. lia.
    + intros E. apply negb_false_iff, Z.eqb_eq in Ec. subst c.
      destruct (IH v (S (sz + length l)) r p) as [H1 H2]; [|clear IH|done|].
      * subst rest. rewrite length_app in Hf. cbn in Hf. lia.
      * assert (v = (take sz v ++ l ++ [0x2e]) ++ r) as Hv2
          by (rewrite <- !app_assoc; cbn; by rewrite <- Hq).
        rewrite Hv2 at 2. rewrite take_app_length'; [done|]. rewrite !length_app, Hsz. cbn. lia.
      * split; [done|]. intros Hnil. left. subst rest. destruct (H2 Hnil) as [Hd|[-> _]].
        -- by apply domain_dot.
        -- by apply domain_root.
  - destruct (Nat.eqb_spec sz 0) as [->|Hsz]; [done|]. intros [= <-]. cbn. rewrite take_drop.
    split; [done|]. intros Hd. right. split; [|done].
    rewrite <- (take_drop sz v) in Hv at 1. rewrite Hd in Hv. by apply app_inv_head in Hv.
Qed.

Lemma subdomain_loop_complete rest : fqdn_domain rest -> forall fuel v sz, (length rest < fuel)%nat ->
  v = take sz v ++ rest -> length (take sz v) = sz ->
  subdomain_loop fuel v sz rest = Ok (mk_ParseSuccess v []).
Proof.
  induction 1 as [l Hl|l Hl|l d Hl Hd IH]; intros [|fuel] v sz Hf Hv Hsz; try lia; cbn [subdomain_loop].
  - rewrite <- (app_nil_r l) at 1. rewrite parse_label_complete by (try done; by left).
    cbn. rewrite take_ge, drop_ge; [done|..]; rewrite Hv, length_app, Hsz; lia.
  - rewrite parse_label_complete by (try done; right; eauto). cbn.
    destruct fuel as [|fuel]; [rewrite length_app in Hf; cbn in Hf; lia|]. cbn.
    rewrite take_ge, drop_ge; [done|..]; rewrite Hv, !length_app, Hsz; cbn; lia.
  - rewrite parse_label_complete by (try done; right; eauto). cbn [ps_value ps_rest].
    change (negb (0x2e =? 0x2e)) with false. cbv iota.
    assert (v = (take sz v ++ l ++ [0x2e]) ++ d) as Hv2 by (rewrite <- !app_assoc; cbn; done).
    assert (take (S (sz + length l)) v = take sz v ++ l ++ [0x2e]) as Ht.
    { rewrite Hv2 at 1. rewrite take_app_length'; [done|]. rewrite !length_app, Hsz. cbn. lia. }
    apply IH.
    + rewrite length_app in Hf. cbn in Hf. lia.
    + by rewrite Ht.
    + rewrite Ht, !length_app, Hsz. cbn. lia.
Qed.

Lemma fqdn_from_string_iff v r : fqdn_from_string v = Ok r <-> r = v /\ fqdn_domain v.
Proof.
  unfold fqdn_from_string, fqdn_parse, parse_subdomain. split.
  - destruct (subdomain_loop (S (length v)) v 0 v) as [p|e] eqn:E; [|done].
    destruct (subdomain_loop_sound _ v 0 v p (Nat.lt_succ_diag_r _) ltac:(by rewrite take_0) E) as [Hv Hd].
    cbn. destruct p as [a b]. cbn in *. destruct b; [|done]. intros [= <-].
    rewrite app_nil_r in Hv. split; [done|]. destruct (Hd eq_refl) as [|[]]; done.
  - intros [-> Hd]. by rewrite (subdomain_loop_complete v Hd (S (length v)) v 0) by (rewrite ?take_0; cbn; lia || done).
Qed.

(** Every name of the RFC is one of the code's, but for the blank domain. *)
Lemma rfc1035_label_fqdn l : rfc1035_label l -> fqdn_label l.
Proof.
  assert (forall c, rfc1035_letter c = true -> let_dig c = true) as Hl.
  { intros c Hc. unfold let_dig, fqdn_is_letter. unfold rfc1035_letter in Hc. by rewrite Hc. }
  assert (forall c, rfc1035_let_dig c = true -> let_dig c = true) as Hd.
  { intros c [Hc|Hc]%orb_true_iff; [by apply Hl|]. unfold let_dig. by rewrite Hc, orb_true_r. }
  intros [c Hc|c m d Hc Hdd Hm]; [apply label_one; by apply Hl|apply label_more; auto].
  eapply Forall_impl; [exact Hm|]. intros x [Hx|Hx]%orb_true_iff; unfold let_dig_hyp; [by rewrite Hd|by rewrite Hx, orb_true_r].
Qed.

Lemma rfc1035_subdomain_fqdn v : rfc1035_subdomain v ->
  forall tail, tail = [] \/ (exists d, tail = 0x2e :: d /\ fqdn_domain d) -> fqdn_domain (v ++ tail).
Proof.
  assert (forall l tail, rfc1035_label l -> tail = [] \/ (exists d, tail = 0x2e :: d /\ fqdn_domain d) ->
    fqdn_domain (l ++ tail)) as Hl.
  { intros l tail Hl%rfc1035_label_fqdn [->|(d & -> & Hd)]; [rewrite app_nil_r; by constructor|by apply domain_dot]. }
  induction 1 as [l Hv|s l Hs IH Hv]; intros tail Ht; [by apply Hl|].
  rewrite <- app_assoc. apply IH. right. exists (l ++ tail). split; [done|by apply Hl].
Qed.



(** ** Ports *)

(** The decimal value of a digit string. *)
Definition decimal (v : bytes) : Z := fold_left (fun r c => 10 * r + (c - 0x30)) v 0.

Lemma decimal_bounds v : Forall (fun c => is_DIGIT c = true) v ->
  forall r, 0 <= r -> r * 10 ^ zlen v <= fold_left (fun r c => 10 * r + (c - 0x30)) v r
                     < (r + 1) * 10 ^ zlen v.
Proof.
  induction 1 as [|c v Hc Hv IH]; intros r Hr; cbn [fold_left].
  - change (zlen (@nil Z)) with 0. lia.
  - rewrite zlen_cons, Z.pow_add_r, Z.pow_1_r by lenlia. unfold is_DIGIT in Hc. zl.
    specialize (IH (10 * r + (c - 0x30)) ltac:(lia)).
    assert (0 < 10 ^ zlen v) by (apply Z.pow_pos_nonneg; lenlia). nia.
Qed.

Lemma port_digits_spec v : forall r, 0 <= r -> (r + 1) * 10 ^ zlen v <= 10 ^ 9 ->
  port_digits v r = if forallb is_DIGIT v then Ok (fold_left (fun r c => 10 * r + (c - 0x30)) v r)
                    else Err (net_error ne_invalid_port_value).
Proof.
  induction v as [|c v IH]; intros r Hr Hb; [done|]. cbn [port_digits forallb fold_left].
  destruct (is_DIGIT c) eqn:Hc; [|done]. cbn [negb andb]. unfold is_DIGIT in Hc.
  rewrite zlen_cons, Z.pow_add_r, Z.pow_1_r in Hb by lenlia. zl.
  assert (0 < 10 ^ zlen v) by (apply Z.pow_pos_nonneg; lenlia).
  rewrite wrap_small by (unfold fits; nia).
  rewrite IH by nia. by replace (10 * r + c - 48) with (10 * r + (c - 48)) by lia.
Qed.

Lemma forallb_digits v : forallb is_DIGIT v = true -> Forall (fun c => is_DIGIT c = true) v.
Proof. induction v as [|c v IH]; cbn; [constructor|]. intros [? ?]%andb_true_iff. auto. Qed.

Definition valid_port (v : bytes) : bool :=
  (1 <=? zlen v) && (zlen v <=? 5) && forallb is_DIGIT v && (decimal v <=? 0xFFFF).

Lemma port_from_string_eq v :
  port_from_string v = if valid_port v then Ok (decimal v) else Err (net_error ne_invalid_port_value).
Proof.
  unfold port_from_string, valid_port. pose proof (zlen_nonneg v).
  destruct (Z.eqb_spec (zlen v) 0) as [->|Hz]; [done|]. destruct (Z.ltb_spec 5 (zlen v)) as [Hl|Hl].
  { rewrite (proj2 (Z.leb_gt (zlen v) 5)) by lia. by rewrite andb_false_r. }
  rewrite !(proj2 (Z.leb_le _ _)) by lia. cbn [orb andb].
  assert (10 ^ zlen v <= 10 ^ 5) by (apply Z.pow_le_mono_r; lia).
  rewrite port_digits_spec by lia. destruct (forallb is_DIGIT v) eqn:Hd; [|done]. cbn [andb mbind result_bind].
  pose proof (decimal_bounds v (forallb_digits v Hd) 0 ltac:(lia)) as Hb.
  fold (decimal v) in *. bdestruct; try lia; [done|]. by rewrite wrap_small by (unfold fits; lia).
Qed.

(** [Port::from_string] returns the decimal value of a string of one to five digits
    when it fits in 16 bits (the 32-bit accumulator never wraps), and the error
    [invalid_port_value] for every other string. *)
Theorem port_from_string_spec v :
  port_from_string v = if valid_port v then Ok (decimal v) else Err (net_error ne_invalid_port_value).
Proof. apply port_from_string_eq. Qed.

(** ** Addresses as strings

    The documented behaviour of the system functions on well-formed addresses: [inet_ntop]
    writes the text of an address into any buffer of [INET6_ADDRSTRLEN] characters, and
    [inet_pton] of the same family reads it back; the text of an IPv6 address is not an
    IPv4 address. The text is printable ASCII. *)

Definition ascii_text (s : bytes) : Prop := Forall (fun c => 0 < c < 128) s.

Class InetLaws `(I : Inet) (text : Address -> bytes) : Prop := {
  text_ascii a : address_wf a -> ascii_text (text a);
  ntop_v4 v : address_wf (AddressV4 v) -> exists errno,
    inet_ntop AF_INET v INET6_ADDRSTRLEN = (Some (text (AddressV4 v)), errno);
  ntop_v6 v : address_wf (AddressV6 v) -> exists errno,
    inet_ntop AF_INET6 v INET6_ADDRSTRLEN = (Some (text (AddressV6 v)), errno);
  pton_v4 v : address_wf (AddressV4 v) -> exists errno,
    inet_pton AF_INET (text (AddressV4 v)) = (1, v, errno);
  pton_v6 v : address_wf (AddressV6 v) -> exists errno,
    inet_pton AF_INET6 (text (AddressV6 v)) = (1, v, errno);
  pton_not_v4 v : address_wf (AddressV6 v) -> (inet_pton AF_INET (text (AddressV6 v))).1.1 <= 0;
  pton_bytes family s : 0 < (inet_pton family s).1.1 -> bytes_ok (inet_pton family s).1.2
}.

Lemma c_str_ascii s : ascii_text s -> c_str s = s.
Proof. induction 1 as [|c s Hc _ IH]; [done|]. cbn [c_str]. rewrite IH. bdestruct; [lia|done]. Qed.

Section Strings.
Context `{I : Inet} (text : Address -> bytes) `{IL : !InetLaws I text}.

Lemma address_to_string_text fuel a : address_wf a -> (0 < fuel)%nat ->
  address_to_string fuel a = Some (Ok (text a)).
Proof.
  intros Ha Hf. destruct fuel as [|fuel]; [lia|]. unfold address_to_string.
  destruct a as [v|v]; cbn [fst snd to_string_loop];
    [destruct (ntop_v4 v Ha) as [errno ->]|destruct (ntop_v6 v Ha) as [errno ->]]; done.
Qed.

Lemma address_from_string_text a : address_wf a -> address_from_string (text a) = Ok a.
Proof.
  intros Ha. pose proof (c_str_ascii _ (text_ascii a Ha)) as Hc.
  unfold address_from_string, from_string_v4, from_string_v6, inet_pton_adapter. rewrite Hc.
  destruct a as [v|v]; pose proof Ha as [Hl _].
  - destruct (pton_v4 v Ha) as [errno ->].
    unfold address_v4_from_view, address_tpl_from_view, address_size. by rewrite Hl.
  - pose proof (pton_not_v4 v Ha) as Hn. destruct (pton_v6 v Ha) as [errno ->].
    destruct (inet_pton AF_INET (text (AddressV6 v))) as [[rc m] e4]. cbn [fst] in Hn.
    rewrite (proj2 (Z.ltb_ge 0 rc)) by lia.
    unfold address_v6_from_view, address_tpl_from_view, address_size. rewrite Hl. by destruct (rc =? 0).
Qed.

(** What [from_string] accepts is an address. *)
Lemma address_from_string_wf s a : address_from_string s = Ok a -> address_wf a.
Proof.
  assert (forall size family, inet_pton_adapter (address_tpl_from_view size) family s = Ok (address_view a) ->
    zlen (address_view a) = size /\ bytes_ok (address_view a)) as Hw.
  { intros size family. unfold inet_pton_adapter. pose proof (pton_bytes family (c_str s)) as Hb.
    destruct (inet_pton family (c_str s)) as [[rc m] errno]. cbn [fst snd] in Hb. destruct (Z.ltb_spec 0 rc); [|by destruct (rc =? 0)].
    unfold address_tpl_from_view, address_size. destruct (Z.eqb_spec (zlen m) size); [|done]. cbn [negb]. intros [= <-]. auto. }
  unfold address_from_string. destruct (from_string_v4 s) as [v|e] eqn:E4.
  - intros [= <-]. by apply (Hw 4 AF_INET).
  - cbn [fmap result_fmap bind_err]. destruct (from_string_v6 s) as [v|e'] eqn:E6; [|done]. intros [= <-]. by apply (Hw 16 AF_INET6).
Qed.

End Strings.

(** An address is read back from its text: [Address::to_string] ends after one call of
    the system with the buffer it starts with, and [Address::from_string] of the text is the
    same address, of the same family: an IPv6 address is never taken for an IPv4 one,
    although that family is tried first. *)
Theorem address_string_roundtrip `(I : Inet) (text : Address -> bytes) (IL : InetLaws I text) (a : Address)
  (Ha : address_wf a) (fuel : nat) (Hf : (0 < fuel)%nat) :
  exists s, address_to_string fuel a = Some (Ok s) /\ address_from_string s = Ok a.
Proof.
  exists (text a). split; [by apply address_to_string_text|by apply address_from_string_text].
Qed.

(** Two digits for each byte, for the witnesses. *)
Definition hex_text (v : bytes) : bytes := flat_map (fun b => [48 + b / 16; 48 + b mod 16]) v.
Fixpoint hex_read (s : bytes) : bytes :=
  match s with a :: b :: s' => 16 * (a - 48) + (b - 48) :: hex_read s' | _ => [] end.
Definition hex_inet : Inet := {|
  inet_pton family s :=
    let v := hex_read s in
    if (zlen v =? match family with AF_INET => 4 | AF_INET6 => 16 end) && bool_decide (bytes_ok v)
    then (1, v, 0) else (0, [], 0);
  inet_ntop _ v _ := (Some (hex_text v), 0)
|}.
Definition address_hex_text (a : Address) : bytes := hex_text (address_view a).

Lemma hex_read_text v : hex_read (hex_text v) = v.
Proof.
  induction v as [|b v IH]; [done|]. cbn [hex_text flat_map app hex_read]. unfold hex_text in IH. rewrite IH.
  f_equal. pose proof (Z_div_mod_eq_full b 16). lia.
Qed.

#[export] Instance hex_inet_laws : InetLaws hex_inet address_hex_text.
Proof.
  split; cbn [inet_pton inet_ntop hex_inet address_hex_text address_view address_wf].
  - intros a Ha. assert (bytes_ok (address_view a)) as Hok by (by destruct a, Ha).
    unfold address_hex_text. induction Hok as [|b v Hb _ IH]; [constructor|].
    unfold is_byte in Hb. pose proof (Z.mod_pos_bound b 16). pose proof (Z.div_lt_upper_bound b 16 16).
    pose proof (Z.div_pos b 16). cbn [hex_text flat_map app]. do 2 (constructor; [lia|]). exact IH.
  - by eexists.
  - by eexists.
  - intros v [Hl Hok]. unfold address_hex_text. cbn [address_view].
    rewrite hex_read_text, Hl, bool_decide_true by done. by eexists.
  - intros v [Hl Hok]. unfold address_hex_text. cbn [address_view].
    rewrite hex_read_text, Hl, bool_decide_true by done. by eexists.
  - intros v [Hl _]. unfold address_hex_text. cbn [address_view]. by rewrite hex_read_text, Hl.
  - intros family s. destruct (_ =? _); [|done]. by case_bool_decide.
Qed.

Lemma address_string_roundtrip_witness :
  exists s, address_to_string (H := hex_inet) 1 (AddressV6 (replicate 16 5)) = Some (Ok s) /\
    address_from_string (H := hex_inet) s = Ok (AddressV6 (replicate 16 5)).
Proof.
  apply (address_string_roundtrip hex_inet address_hex_text hex_inet_laws).
  - split; [reflexivity|]. repeat constructor; unfold is_byte; lia.
  - lia.
Defined.
