(* ===== verification/Crypto.v ===== *)
(** * crypto/ and stun/stun_password: hashes, HMAC and passwords

    A hash function of the repository ([Hash::Func]) takes a list of views and returns a
    digest or an error. [HashLaws] is what the HMAC code and the STUN integrity code rely
    on; the OpenSSL wrapper [MessageDigest] of openssl_hash.cpp is shown to provide it,
    given the documented behaviour of the EVP functions ([EvpLaws]). *)

From S2P Require Import Prelude Errors Craftpp.

(** ** crypto_hash.hpp *)

(** [Hash::Func]; a [Hash<Tag, SIZE>] is the bytes of its array. *)
Abbreviation HashFunc := (list bytes -> Result bytes).

Definition MD5_SIZE : Z := 16.
Definition SHA1_SIZE : Z := 20.
Definition SHA256_SIZE : Z := 32.

Definition hash_from_view (size : Z) (vv : bytes) : option bytes :=
  if negb (zlen vv =? size) then None else Some vv.

(** What a client expects of a hash function with digests of [size] bytes: it is computed
    over the concatenation of the views by [H], and never fails. *)
Class HashLaws (size : Z) (h : HashFunc) (H : bytes -> bytes) : Prop := {
  hash_concat views : h views = Ok (H (List.concat views));
  hash_size b : zlen (H b) = size;
  hash_bytes b : bytes_ok (H b)
}.

(** ** crypto_hmac.hpp *)

Definition PAD_B : nat := 64.

(** The constructor of [PadKey<xorv>]. *)
Definition pad_key (xorv : Z) (d : bytes) : bytes := map (fun v => Z.lxor v xorv) d.

(** [std::copy] of [v] into the zeroed array. *)
Definition pad_data (v : bytes) : bytes := v ++ replicate (PAD_B - length v) 0.

(** The view that the first lambda of [from_key] returns: of the key, or of the array of a
    [Hash] that is destroyed when the lambda returns. *)
Inductive KeyView : Set := OfKey (v : bytes) | OfTemporary.

(** [None] when the array is filled through the view of the temporary: undefined behaviour. *)
Definition pad_key_from_key (xorv : Z) (view : bytes) (h : HashFunc) : option (Result bytes) :=
  let view_rv : Result KeyView :=
    v ← Ok view; if Z.of_nat PAD_B <? zlen v then (fun _ => OfTemporary) <$> h [v] else Ok (OfKey v) in
  match view_rv with
  | Ok (OfKey v) => Some (Ok (pad_key xorv (pad_data v)))
  | Ok OfTemporary => None
  | Err e => Some (Err e)
  end.

Definition IPAD_XOR : Z := 0x36.
Definition OPAD_XOR : Z := 0x5C.

Definition hmac_digest (data : list bytes) (opad ipad : bytes) (h : HashFunc) : Result bytes :=
  inner ← h (ipad :: data); h [opad; inner].

(** ** stun_password.hpp, stun_password.cpp, stun_integrity.hpp *)

Record Password : Set := mk_Password { m_ipad : bytes; m_opad : bytes }.

Record IntegrityData : Type := mk_IntegrityData { id_password : Password; id_hash : HashFunc }.

Section Password.
Context `{Craftpp}.

(** [Password::short_term]; an [OpaqueString] is its characters. *)
Definition short_term (password : bytes) (h : HashFunc) : option (Result Password) :=
  ipad_rv ← pad_key_from_key IPAD_XOR password h;
  opad_rv ← pad_key_from_key OPAD_XOR password h;
  Some (combine2 (fun ipad opad => Ok (mk_Password ipad opad)) ipad_rv opad_rv).

(** [Result::bind] to a function that may meet undefined behaviour. *)
Definition bind_ub {A B} (rv : Result A) (f : A -> option (Result B)) : option (Result B) :=
  match rv with Ok a => f a | Err e => Some (Err e) end.

End Password.

(** ** openssl_hash.cpp *)

(** The functions of OpenSSL that the wrapper calls. A call returns its result code and
    the error that [ERR_get_error] reports after it. *)
Class Evp : Type := {
  EVP_MD_CTX : Type;
  EVP_MD : Type;
  EVP_sha1 : EVP_MD;
  EVP_md5 : EVP_MD;
  EVP_MD_CTX_new : option EVP_MD_CTX;
  EVP_DigestInit_ex : EVP_MD_CTX -> EVP_MD -> EVP_MD_CTX * Z * Z;
  EVP_DigestUpdate : EVP_MD_CTX -> bytes -> EVP_MD_CTX * Z * Z;
  EVP_DigestFinal_ex : EVP_MD_CTX -> EVP_MD_CTX * Z * Z * bytes
}.

Section OpenSSL.
Context `{Craftpp} `{Evp}.

(** [std::make_error_code(std::errc::not_enough_memory)]. *)
Definition ENOMEM : Z := 12.

(** [crypto::openssl::make_error_code]. *)
Definition openssl_error (code : Z) : Error := error_of (mk_error_code code cat_openssl).

(** The state of a [MessageDigest] is [m_ctx] and [m_md]. *)
Definition MD_State : Type := option EVP_MD_CTX * EVP_MD.

Definition md_init : SE MD_State unit := fun '(m_ctx, md) =>
  match m_ctx with
  | None => ((m_ctx, md), Err (error_of (mk_error_code ENOMEM cat_generic)))
  | Some ctx =>
      let '(ctx', rc, err) := EVP_DigestInit_ex ctx md in
      ((Some ctx', md), if negb (rc =? 1) then Err (openssl_error err) else success)
  end.

Definition md_update (view : bytes) : SE MD_State unit := fun '(m_ctx, md) =>
  match m_ctx with
  | None => ((m_ctx, md), Err (error_of (mk_error_code ENOMEM cat_generic))) (* not reached *)
  | Some ctx =>
      let '(ctx', rc, err) := EVP_DigestUpdate ctx view in
      ((Some ctx', md), if negb (rc =? 1) then Err (openssl_error err) else success)
  end.

Definition md_finalize : SE MD_State bytes := fun '(m_ctx, md) =>
  match m_ctx with
  | None => ((m_ctx, md), Err (error_of (mk_error_code ENOMEM cat_generic))) (* not reached *)
  | Some ctx =>
      let '(ctx', rc, err, v) := EVP_DigestFinal_ex ctx in
      ((Some ctx', md), if negb (rc =? 1) then Err (openssl_error err) else Ok v)
  end.

Definition md_calc (input : list bytes) : SE MD_State bytes :=
  md_init ≫= fun _ =>
  reduce (fun _ next => md_update next) input tt ≫= fun _ =>
  md_finalize.

Definition sha1 (input : list bytes) : Result bytes := (md_calc input (EVP_MD_CTX_new, EVP_sha1)).2.
Definition md5 (input : list bytes) : Result bytes := (md_calc input (EVP_MD_CTX_new, EVP_md5)).2.

(** The documented behaviour of the digest functions: a context absorbs data, and the
    final call returns the digest [D md] of all that was absorbed since the last init.
    [absorbed ctx md b] says that [ctx] was started with [md] and given [b]. *)
Class EvpLaws (D : EVP_MD -> bytes -> bytes)
    (absorbed : EVP_MD_CTX -> EVP_MD -> bytes -> Prop) : Prop := {
  evp_new : is_Some EVP_MD_CTX_new;
  evp_init ctx md : exists ctx' err, EVP_DigestInit_ex ctx md = (ctx', 1, err) /\ absorbed ctx' md [];
  evp_update ctx md b v : absorbed ctx md b ->
    exists ctx' err, EVP_DigestUpdate ctx v = (ctx', 1, err) /\ absorbed ctx' md (b ++ v);
  evp_final ctx md b : absorbed ctx md b ->
    exists ctx' err, EVP_DigestFinal_ex ctx = (ctx', 1, err, D md b)
}.

End OpenSSL.

(** ** The specification of HMAC (RFC 2104) *)

Section Spec.
Context (H : bytes -> bytes).

(** Keys longer than a block are hashed first; the key is filled with zeros. *)
Definition rfc2104_key (K : bytes) : bytes :=
  pad_data (if 64 <? zlen K then H K else K).

(** H(K XOR opad, H(K XOR ipad, text)). *)
Definition rfc2104_hmac (K text : bytes) : bytes :=
  let xor c := map (fun v => Z.lxor v c) (rfc2104_key K) in
  H (xor 0x5C ++ H (xor 0x36 ++ text)).

End Spec.

(** ** Lemmas *)

Section HmacLemmas.
Context `{CL : CraftppLaws} (h : HashFunc) (H : bytes -> bytes) {size : Z} {HL : HashLaws size h H}.

Lemma pad_key_from_key_eq xorv K :
  pad_key_from_key xorv K h = if zlen K <=? 64 then Some (Ok (pad_key xorv (rfc2104_key H K))) else None.
Proof.
  unfold pad_key_from_key, rfc2104_key. change (Z.of_nat PAD_B) with 64. cbn [mbind result_bind].
  rewrite Z.leb_antisym. destruct (64 <? zlen K); [|done]. by rewrite hash_concat.
Qed.

(** The password a [short_term] call makes from a key. *)
Definition password_of (K : bytes) : Password :=
  mk_Password (pad_key IPAD_XOR (rfc2104_key H K)) (pad_key OPAD_XOR (rfc2104_key H K)).

Lemma short_term_eq K : short_term K h = if zlen K <=? 64 then Some (Ok (password_of K)) else None.
Proof. unfold short_term. rewrite !pad_key_from_key_eq. by destruct (zlen K <=? 64). Qed.

Lemma short_term_ok K : zlen K <= 64 -> short_term K h = Some (Ok (password_of K)).
Proof. intros HK. by rewrite short_term_eq, (proj2 (Z.leb_le _ _)). Qed.

Lemma hmac_digest_ok data K :
  hmac_digest data (m_opad (password_of K)) (m_ipad (password_of K)) h
  = Ok (rfc2104_hmac H K (List.concat data)).
Proof.
  unfold hmac_digest. rewrite hash_concat. cbn [mbind result_bind List.concat]. rewrite hash_concat.
  cbn [List.concat]. by rewrite app_nil_r.
Qed.

(** A digest does not depend on how the data is cut into views. *)
Lemma hmac_digest_concat data1 data2 opad ipad : List.concat data1 = List.concat data2 ->
  hmac_digest data1 opad ipad h = hmac_digest data2 opad ipad h.
Proof. intros E. unfold hmac_digest. rewrite !hash_concat. cbn [List.concat]. by rewrite E. Qed.

Lemma hmac_digest_some data opad ipad :
  exists d, hmac_digest data opad ipad h = Ok d /\ zlen d = size /\ bytes_ok d.
Proof.
  unfold hmac_digest. rewrite hash_concat. cbn [mbind result_bind]. rewrite hash_concat.
  eexists. split; [done|]. by split; [apply hash_size|apply hash_bytes].
Qed.

End HmacLemmas.

(** A hash for the witnesses: twenty bytes of a polynomial of the input. *)
Definition sample_H (b : bytes) : bytes :=
  be_bytes 20 (fold_left (fun a c => (a * 257 + c + 1) mod 2 ^ 160) b 7).
Definition sample_hash (views : list bytes) : Result bytes := Ok (sample_H (List.concat views)).

#[export] Instance sample_hash_laws : HashLaws 20 sample_hash sample_H.
Proof. split; intros; [done|apply (zlen_be_bytes 20)|apply be_bytes_ok]. Qed.

(** C37. The HMAC of the repository is the HMAC of RFC 2104 for keys of at most a block of
    64 bytes: with the pads that [PadKey::from_key] makes of the key, [hmac::digest] over
    some views is H(K^opad, H(K^ipad, text)) of the concatenated text, however it is cut into
    views. A longer key has no result: [from_key] fills the pad through a view of a digest
    that was destroyed, which is undefined behaviour. *)
Theorem hmac_is_rfc2104 `{CL : CraftppLaws} (h : HashFunc) (H : bytes -> bytes) (size : Z)
  (HL : HashLaws size h H) (K : bytes) (data : list bytes) :
  (p_rv ← short_term K h; Some (p ← p_rv; hmac_digest data (m_opad p) (m_ipad p) h))
  = if zlen K <=? 64 then Some (Ok (rfc2104_hmac H K (List.concat data))) else None.
Proof.
  rewrite (short_term_eq h H K). destruct (zlen K <=? 64); [|done]. cbn [mbind option_bind result_bind].
  by rewrite (hmac_digest_ok h H).
Qed.

(** A key that fills the block. *)
Lemma hmac_is_rfc2104_witness :
  (p_rv ← @short_term reference (replicate 64 1) sample_hash;
   Some (p ← p_rv; hmac_digest [[1]; [2; 3]] (m_opad p) (m_ipad p) sample_hash))
  = Some (Ok (rfc2104_hmac sample_H (replicate 64 1) [1; 2; 3])).
Proof. exact (hmac_is_rfc2104 sample_hash sample_H 20 _ (replicate 64 1) [[1]; [2; 3]]). Defined.

(** ** The OpenSSL wrapper provides the hash interface *)

Section OpenSSLLemmas.
Context `{CL : CraftppLaws} `{E : Evp} (D : EVP_MD -> bytes -> bytes)
  (absorbed : EVP_MD_CTX -> EVP_MD -> bytes -> Prop) `{EL : !EvpLaws D absorbed}.

Lemma md_reduce_ok input : forall ctx md b, absorbed ctx md b ->
  exists ctx', reduce (fun (_ : unit) next => md_update next) input tt (Some ctx, md)
               = ((Some ctx', md), Ok tt) /\ absorbed ctx' md (b ++ List.concat input).
Proof.
  induction input as [|v input IH]; intros ctx md b Hb.
  - rewrite reduce_nil, app_nil_r. eauto.
  - rewrite reduce_cons. destruct (evp_update ctx md b v Hb) as (ctx1 & err & E1 & Hb1).
    unfold md_update at 1. rewrite E1. cbn [Z.eqb Pos.eqb negb].
    destruct (IH ctx1 md (b ++ v) Hb1) as (ctx' & E2 & Hb2). unfold success. rewrite E2.
    eexists. split; [done|]. cbn [List.concat]. by rewrite app_assoc.
Qed.

Lemma md_calc_ok input md : (md_calc input (EVP_MD_CTX_new, md)).2 = Ok (D md (List.concat input)).
Proof.
  destruct evp_new as [ctx ->]. unfold md_calc, mbind, se_bind, md_init.
  destruct (evp_init ctx md) as (ctx1 & err & -> & Hb). rewrite Z.eqb_refl. cbn [negb success].
  unfold success. destruct (md_reduce_ok input ctx1 md [] Hb) as (ctx2 & -> & Hb2).
  unfold md_finalize. destruct (evp_final ctx2 md _ Hb2) as (ctx3 & err3 & ->).
  by rewrite Z.eqb_refl.
Qed.

End OpenSSLLemmas.

(** A digest object for the witness: the context is what was absorbed. *)
Definition sample_evp : Evp := {|
  EVP_MD_CTX := bytes; EVP_MD := unit; EVP_sha1 := tt; EVP_md5 := tt; EVP_MD_CTX_new := Some [];
  EVP_DigestInit_ex _ _ := ([], 1, 0);
  EVP_DigestUpdate ctx v := (ctx ++ v, 1, 0);
  EVP_DigestFinal_ex ctx := ([], 1, 0, sample_H ctx)
|}.

#[export] Instance sample_evp_laws : @EvpLaws sample_evp (fun _ => sample_H) (fun ctx _ b => ctx = b).
Proof. split; cbn; eauto; intros; subst; eauto. Qed.

(** C40. [openssl::sha1] provides the hash interface that the HMAC and the STUN code are
    verified against: over any list of views it succeeds with the SHA-1 digest of their
    concatenation, of 20 bytes, given the documented behaviour of OpenSSL's incremental
    digest functions. *)
Theorem openssl_sha1_hash_laws `{CL : CraftppLaws} `{E : Evp} (D : EVP_MD -> bytes -> bytes)
  (absorbed : EVP_MD_CTX -> EVP_MD -> bytes -> Prop) (EL : EvpLaws D absorbed)
  (Hsize : forall b, zlen (D EVP_sha1 b) = SHA1_SIZE /\ bytes_ok (D EVP_sha1 b)) :
  HashLaws SHA1_SIZE sha1 (D EVP_sha1).
Proof. split; intros; [apply (md_calc_ok D absorbed)|apply Hsize|apply Hsize]. Qed.

Lemma openssl_sha1_hash_laws_witness : HashLaws 20 (@sha1 reference sample_evp) sample_H.
Proof.
  apply (openssl_sha1_hash_laws (E := sample_evp) (fun _ => sample_H) _ _).
  intros b. split; [apply (zlen_be_bytes 20)|apply be_bytes_ok].
Defined.
