(* ===== verification/StunBase.v ===== *)
(** * stun/: registries, class and method, transaction ids, headers, addresses, statistics

    The constants of details/, the bit layout of the message type, the header encoder and
    the XOR encoding of addresses. The theorems are the round trips of the message type,
    the layout of the header and the XOR-MAPPED-ADDRESS rule of RFC 8489. *)

From S2P Require Import Prelude Errors Craftpp Util Net.

(** ** details/stun_attr_registry.hpp *)

Definition MAPPED_ADDRESS : Z := 0x0001.
Definition USERNAME : Z := 0x0006.
Definition MESSAGE_INTEGRITY : Z := 0x0008.
Definition ERROR_CODE : Z := 0x0009.
Definition UNKNOWN_ATTRIBUTES : Z := 0x000A.
Definition REALM : Z := 0x0014.
Definition NONCE : Z := 0x0016.
Definition XOR_MAPPED_ADDRESS : Z := 0x0020.
Definition PRIORITY : Z := 0x24.
Definition USE_CANDIDATE : Z := 0x25.
Definition COMPREHANENSION_OPTIONAL : Z := 0x8000.
Definition SOFTWARE : Z := 0x8022.
Definition ALTERNATE_SERVER : Z := 0x8023.
Definition FINGERPRINT : Z := 0x8028.
Definition ICE_CONTROLLED : Z := 0x8029.
Definition ICE_CONTROLLING : Z := 0x802A.
Definition FAMILY_IPV4 : Z := 0x01.
Definition FAMILY_IPV6 : Z := 0x02.

(** ** details/stun_constants.hpp *)

Definition MAGIC_COOKIE : Z := 0x2112A442.
Definition TRANSACTION_ID_SIZE : Z := 96 / 8.
Definition TRANSACTION_ID_SIZE_RFC3489 : Z := 128 / 8.
Definition STUN_HEADER_SIZE : Z := 20.
Definition STUN_ATTR_HEADER_SIZE : Z := 4.
Definition FINGERPRINT_CRC_SIZE : Z := 4.

(** ** stun_class.hpp *)

Inductive Class : Set := REQUEST | INDICATION | SUCCESS_RESPONSE | ERROR_RESPONSE.

#[export] Instance Class_eq_dec : EqDecision Class.
Proof. solve_decision. Defined.

Definition class_value (c : Class) : Z :=
  match c with REQUEST => 0 | INDICATION => 1 | SUCCESS_RESPONSE => 2 | ERROR_RESPONSE => 3 end.

Definition class_from_msg_type (v : Z) : Class :=
  let c0 := Z.land (Z.shiftr v 4) 1 in
  let c1 := Z.land (Z.shiftr v 8) 1 in
  match Z.lor c0 (Z.shiftl c1 1) with
  | 0 => REQUEST
  | 1 => INDICATION
  | 2 => SUCCESS_RESPONSE
  | 3 => ERROR_RESPONSE
  | _ => ERROR_RESPONSE
  end.

Definition class_to_msg_type (c : Class) : Z :=
  u16 (Z.lor (Z.shiftl (Z.land (class_value c) 1) 4) (Z.shiftl (Z.shiftr (class_value c) 1) 8)).

(** ** stun_method.hpp, stun_method.cpp: a [Method] is its [m_value], an [unsigned] *)

Definition BINDING : Z := 0x001.

Definition method_from_msg_type (v : Z) : Z :=
  let m0_3 := Z.land v 0xF in
  let m4_6 := Z.land (Z.shiftr v 5) 0x7 in
  let m7_11 := Z.shiftr v 9 in
  Z.lor (Z.lor m0_3 (Z.shiftl m4_6 4)) (Z.shiftl m7_11 7).

Definition method_to_msg_type (m_value : Z) : Z :=
  u16 (Z.lor (Z.lor (Z.land m_value 0xF) (Z.shiftl (Z.land (Z.shiftr m_value 4) 0x7) 5))
             (Z.shiftl (Z.shiftr m_value 7) 9)).

Definition method_binding : Z := BINDING.

(** ** stun_attribute_type.hpp: an [AttributeType] is its [m_value], a [uint16_t] *)

Definition is_comprehension_required (t : Z) : bool := t <=? 0x7FFF.

(** ** stun_parse_stat.hpp: one counter per field *)

Inductive ParseCounter : Set :=
| ps_success | ps_error | ps_invalid_size | ps_not_padded | ps_message_length_error
| ps_magic_cookie_error | ps_invalid_attr_size | ps_fingerprint_not_last
| ps_invalid_fingerprint | ps_invalid_fingerprint_size | ps_invalid_message_integrity
| ps_invalid_mapped_address | ps_invalid_xor_mapped_address | ps_invalid_ip_address
| ps_invalid_priority_size | ps_invalid_ice_controlling_size | ps_invalid_ice_controlled_size
| ps_invalid_use_candidate_size | ps_invalid_error_code_size
| ps_invalid_unknown_attributes_attr_size | ps_unknown_comprehension_required_attr.

#[export] Instance ParseCounter_eq_dec : EqDecision ParseCounter.
Proof. solve_decision. Defined.

Definition ParseStat : Type := ParseCounter -> Z.

Definition parse_stat_zero : ParseStat := fun _ => 0.

(** [stat.c.inc()]. *)
Definition stat_inc (c : ParseCounter) (st : ParseStat) : ParseStat :=
  fun c' => if bool_decide (c' = c) then counter_inc (st c') else st c'.

(** The pair of increments on an error path: [stat.error.inc(); stat.c.inc();]. *)
Definition stat_error (c : ParseCounter) (st : ParseStat) : ParseStat :=
  stat_inc c (stat_inc ps_error st).

Section Encoding.
Context `{Craftpp}.

(** ** stun_transaction_id.hpp, stun_transaction_id_hash.hpp: the bytes of [m_value] *)

(** The loop [for (auto& v : value) v = r();] over [n] words. *)
Fixpoint random_words {G} (r : G -> G * Z) (n : nat) (g : G) : G * bytes :=
  match n with
  | O => (g, [])
  | S n' =>
      let '(g1, v) := r g in
      let '(g2, rest) := random_words r n' g1 in
      (g2, mem_bytes 4 (u32 v) ++ rest)
  end.

Definition tid_generate {G} (r : G -> G * Z) (g : G) : G * bytes :=
  random_words r (Z.to_nat (TRANSACTION_ID_SIZE / 4)) g.

Definition tid_generate_rfc3489 {G} (r : G -> G * Z) (g : G) : G * bytes :=
  random_words r (Z.to_nat (TRANSACTION_ID_SIZE_RFC3489 / 4)) g.

Definition tid_hash (m_seed : Z) (id : bytes) : Z := murmur64 id m_seed.

(** ** stun_header.hpp, stun_header.cpp *)

Record Header : Set := mk_Header { h_cls : Class; h_method : Z; h_transaction_id : bytes }.

Definition header_build (hd : Header) (len : Z) : bytes :=
  let msg_type := host_to_network_u16 (Z.lor (class_to_msg_type (h_cls hd)) (method_to_msg_type (h_method hd))) in
  let msg_size := host_to_network_u16 (u16 len) in
  if zlen (h_transaction_id hd) =? TRANSACTION_ID_SIZE then
    let magic_cookie := host_to_network_u32 MAGIC_COOKIE in
    concat_views [mem_bytes 2 msg_type; mem_bytes 2 msg_size; mem_bytes 4 magic_cookie;
                  h_transaction_id hd]
  else
    concat_views [mem_bytes 2 msg_type; mem_bytes 2 msg_size; h_transaction_id hd].

(** ** stun_address.hpp, stun_address.cpp *)

Inductive Family : Set := IPv4 | IPv6.

Definition family_from_uint8 (v : Z) : Result Family :=
  if v =? FAMILY_IPV4 then Ok IPv4
  else if v =? FAMILY_IPV6 then Ok IPv6
  else Err (parse_error pe_unknown_addr_family).

Definition family_to_uint8 (f : Family) : Z :=
  match f with IPv4 => FAMILY_IPV4 | IPv6 => FAMILY_IPV6 end.

Inductive XoredAddress : Set := V4Holder (v : bytes) | V6Holder (v : bytes).

Definition xaddr_from_view (f : Family) (vv : bytes) : Result XoredAddress :=
  match f with
  | IPv4 => if negb (zlen vv =? 4) then Err (parse_error pe_invalid_ipv4_address_size)
            else Ok (V4Holder vv)
  | IPv6 => if negb (zlen vv =? 16) then Err (parse_error pe_invalid_ipv6_address_size)
            else Ok (V6Holder vv)
  end.

Definition net_magic : Z := host_to_network_u32 MAGIC_COOKIE.

(** Reading a [uint32_t] object from memory. *)
Definition load_u32 (l : bytes) : Z :=
  if host_is_big_endian then be_val l else be_val (rev l).

(** [vvu32 ^= net_magic] on the first four bytes of the holder. *)
Definition xor_magic (v : bytes) : bytes :=
  mem_bytes 4 (Z.lxor (load_u32 (take 4 v)) net_magic) ++ drop 4 v.

(** The loop over [i < tidv.size() && i < vv.size() - 4]: [v] starts at index [i + 4]. *)
Fixpoint xor_tid (v tidv : bytes) : bytes :=
  match v, tidv with
  | b :: v', t :: tidv' => Z.lxor b t :: xor_tid v' tidv'
  | _, _ => v
  end.

Definition xor_v6 (v tid : bytes) : bytes :=
  let v1 := xor_magic v in take 4 v1 ++ xor_tid (drop 4 v1) tid.

Definition xaddr_from_address (addr : Address) (tid : bytes) : XoredAddress :=
  match addr with
  | AddressV4 v4 => V4Holder (xor_magic v4)
  | AddressV6 v6 => V6Holder (xor_v6 v6 tid)
  end.

Definition xaddr_to_address (x : XoredAddress) (tid : bytes) : Address :=
  match x with
  | V4Holder v => AddressV4 (xor_magic v)
  | V6Holder v => AddressV6 (xor_v6 v tid)
  end.

Definition xaddr_family (x : XoredAddress) : Family :=
  match x with V4Holder _ => IPv4 | V6Holder _ => IPv6 end.

Definition xaddr_view (x : XoredAddress) : bytes :=
  match x with V4Holder v => v | V6Holder v => v end.

(** The arrays have their size. *)
Definition xaddr_wf (x : XoredAddress) : Prop :=
  match x with
  | V4Holder v => zlen v = 4 /\ bytes_ok v
  | V6Holder v => zlen v = 16 /\ bytes_ok v
  end.

End Encoding.

(** ** Lemmas: the message type *)

(** Two numbers below [2^n] with the same [n] low bits are equal. *)
Lemma bits_eq w a b : 0 <= w -> fits w a -> fits w b ->
  (forall i, 0 <= i < w -> Z.testbit a i = Z.testbit b i) -> a = b.
Proof.
  intros Hw Ha Hb H. rewrite <- (wrap_small w a), <- (wrap_small w b) by done.
  unfold wrap. apply Z.bits_inj'. intros i Hi. destruct (Z.lt_ge_cases i w).
  - rewrite !Z.mod_pow2_bits_low by lia. apply H. lia.
  - by rewrite !Z.mod_pow2_bits_high by lia.
Qed.

Lemma wrap_testbit w z i : 0 <= i < w -> Z.testbit (wrap w z) i = Z.testbit z i.
Proof. intros. apply Z.mod_pow2_bits_low. lia. Qed.

Lemma testbit_high w z i : 0 <= w -> fits w z -> w <= i -> Z.testbit z i = false.
Proof.
  intros Hw Hz Hi. rewrite <- (wrap_small w z) by done. by apply Z.mod_pow2_bits_high.
Qed.

(** Work out one concrete bit of an expression of shifts and masks. *)
Ltac bit_step :=
  rewrite ?wrap_testbit by lia;
  repeat first
    [ rewrite Z.lor_spec | rewrite Z.land_spec | rewrite Z.shiftl_spec by lia
    | rewrite Z.shiftr_spec by lia ].

(** Split [0 <= i < n] for a small literal [n] into its cases. *)
Lemma below_split n (P : Z -> Prop) : (forall k, (k < n)%nat -> P (Z.of_nat k)) ->
  forall i, 0 <= i < Z.of_nat n -> P i.
Proof. intros H i Hi. rewrite <- (Z2Nat.id i) by lia. apply H. lia. Qed.

Lemma land1_testbit v i : 0 <= i -> Z.land (Z.shiftr v i) 1 = Z.b2z (Z.testbit v i).
Proof.
  intros. change 1 with (Z.ones 1). rewrite Z.land_ones, Z.shiftr_div_pow2, Z.testbit_spec' by lia. done.
Qed.

Lemma class_from_bits v : class_from_msg_type v =
  match Z.testbit v 4, Z.testbit v 8 with
  | false, false => REQUEST | true, false => INDICATION
  | false, true => SUCCESS_RESPONSE | true, true => ERROR_RESPONSE
  end.
Proof.
  unfold class_from_msg_type. rewrite !land1_testbit by lia.
  by destruct (Z.testbit v 4), (Z.testbit v 8).
Qed.

Lemma class_to_bits c i : 0 <= i < 16 -> Z.testbit (class_to_msg_type c) i =
  match c with
  | REQUEST => false | INDICATION => i =? 4 | SUCCESS_RESPONSE => i =? 8
  | ERROR_RESPONSE => (i =? 4) || (i =? 8)
  end.
Proof.
  intros Hi. revert i Hi. apply (below_split 16). intros k Hk.
  do 16 (destruct k as [|k]; [by destruct c|]). lia.
Qed.

Ltac method_bit :=
 cbn [Z.of_nat Pos.of_succ_nat Pos.succ]; bit_step; cbn;
  rewrite ?andb_true_r, ?andb_false_r, ?orb_false_r; try reflexivity.

Lemma method_to_bits m i : fits 14 m -> 0 <= i < 16 -> Z.testbit (method_to_msg_type m) i =
  if i <? 4 then Z.testbit m i
  else if i =? 4 then false
  else if i <? 8 then Z.testbit m (i - 1)
  else if i =? 8 then false
  else Z.testbit m (i - 2).
Proof.
  intros Hm Hi. unfold method_to_msg_type. revert i Hi. apply (below_split 16). intros k Hk.
  do 16 (destruct k as [|k]; [clear Hk; method_bit|]). lia.
Qed.

Lemma fits_of_bits w z : 0 <= w -> 0 <= z -> (forall i, w <= i -> Z.testbit z i = false) -> fits w z.
Proof.
  intros Hw Hz H. assert (z mod 2 ^ w = z) as <-.
  - apply Z.bits_inj'. intros i Hi. destruct (Z.lt_ge_cases i w).
    + apply Z.mod_pow2_bits_low. lia.
    + by rewrite Z.mod_pow2_bits_high, H by lia.
  - apply (wrap_fits w z Hw).
Qed.

Lemma lor_fits w a b : 0 <= w -> fits w a -> fits w b -> fits w (Z.lor a b).
Proof.
  intros Hw Ha Hb. apply fits_of_bits; [done|apply Z.lor_nonneg; unfold fits in *; lia|].
  intros i Hi. by rewrite Z.lor_spec, !(testbit_high w).
Qed.

Lemma method_from_fits v : fits 16 v -> fits 14 (method_from_msg_type v).
Proof.
  intros Hv. apply fits_of_bits; [lia|unfold method_from_msg_type|intros i Hi; unfold method_from_msg_type].
  - rewrite !Z.lor_nonneg, !Z.shiftl_nonneg, !Z.land_nonneg, !Z.shiftr_nonneg. unfold fits in Hv. lia.
  - bit_step. rewrite (testbit_high 4 15), (testbit_high 16 v (i - 7 + 9)) by (unfold fits in *; lia).
    rewrite (testbit_high 3 7) by (unfold fits; lia). by rewrite !andb_false_r.
Qed.

Lemma method_from_bits v i : fits 16 v -> 0 <= i < 14 -> Z.testbit (method_from_msg_type v) i =
  if i <? 4 then Z.testbit v i
  else if i <? 7 then Z.testbit v (i + 1)
  else Z.testbit v (i + 2).
Proof.
  intros Hv Hi. unfold method_from_msg_type. revert i Hi. apply (below_split 14). intros k Hk.
  do 14 (destruct k as [|k]; [clear Hk; method_bit|]). lia.
Qed.

Lemma class_to_fits c : fits 16 (class_to_msg_type c).
Proof. by destruct c. Qed.

Lemma method_to_fits m : fits 16 (method_to_msg_type m).
Proof. apply wrap_fits. lia. Qed.

(** The STUN message type of a class and a method. *)
Definition msg_type (c : Class) (m : Z) : Z := Z.lor (class_to_msg_type c) (method_to_msg_type m).

Lemma msg_type_fits c m : fits 16 (msg_type c m).
Proof. apply lor_fits; [lia|apply class_to_fits|apply method_to_fits]. Qed.

Lemma msg_type_bits c m i : fits 14 m -> 0 <= i < 16 -> Z.testbit (msg_type c m) i =
  if i <? 4 then Z.testbit m i
  else if i =? 4 then match c with INDICATION | ERROR_RESPONSE => true | _ => false end
  else if i <? 8 then Z.testbit m (i - 1)
  else if i =? 8 then match c with SUCCESS_RESPONSE | ERROR_RESPONSE => true | _ => false end
  else Z.testbit m (i - 2).
Proof.
  intros Hm Hi. unfold msg_type. rewrite Z.lor_spec, method_to_bits, class_to_bits by done.
  destruct c; bdestruct; try lia; done.
Qed.

Lemma class_from_msg_type_eq c m : fits 14 m -> class_from_msg_type (msg_type c m) = c.
Proof. intros. rewrite class_from_bits, !msg_type_bits by (done || lia). by destruct c. Qed.

Lemma method_from_msg_type_eq c m : fits 14 m -> method_from_msg_type (msg_type c m) = m.
Proof.
  intros Hm. apply (bits_eq 14); [lia|apply method_from_fits, msg_type_fits|done|]. intros i Hi.
  rewrite method_from_bits by (done || apply msg_type_fits).
  destruct (Z.ltb_spec i 4); [|destruct (Z.ltb_spec i 7)]; rewrite msg_type_bits by (done || lia);
    bdestruct; try lia; f_equal; lia.
Qed.

Lemma msg_type_of_parts v : fits 16 v -> msg_type (class_from_msg_type v) (method_from_msg_type v) = v.
Proof.
  intros Hv. apply (bits_eq 16); [lia|apply msg_type_fits|done|]. intros i Hi.
  rewrite msg_type_bits, class_from_bits by (done || by apply method_from_fits).
  bdestruct; try lia; subst; try (rewrite method_from_bits by (done || lia); bdestruct; try lia; f_equal; lia);
    by destruct (Z.testbit v 4), (Z.testbit v 8).
Qed.

(** The 16-bit message type is a faithful encoding: [Class::from_msg_type] and
    [Method::from_msg_type] recover exactly the class and the method that
    [to_msg_type] interleaved (for every method the field can hold, 14 bits), and every
    16-bit value is the encoding of the class and method read from it. *)
Theorem msg_type_roundtrip :
  (forall c m, 0 <= m < 2 ^ 14 ->
     class_from_msg_type (Z.lor (class_to_msg_type c) (method_to_msg_type m)) = c /\
     method_from_msg_type (Z.lor (class_to_msg_type c) (method_to_msg_type m)) = m) /\
  (forall v, 0 <= v < 2 ^ 16 ->
     Z.lor (class_to_msg_type (class_from_msg_type v)) (method_to_msg_type (method_from_msg_type v)) = v).
Proof.
  split; [intros c m Hm|intros v Hv].
  - by split; [apply class_from_msg_type_eq|apply method_from_msg_type_eq].
  - by apply msg_type_of_parts.
Qed.

Lemma msg_type_roundtrip_witness :
  class_from_msg_type (Z.lor (class_to_msg_type ERROR_RESPONSE) (method_to_msg_type 0x3abc)) = ERROR_RESPONSE /\
  method_from_msg_type (Z.lor (class_to_msg_type ERROR_RESPONSE) (method_to_msg_type 0x3abc)) = 0x3abc /\
  Z.lor (class_to_msg_type (class_from_msg_type 0x0111)) (method_to_msg_type (method_from_msg_type 0x0111)) = 0x0111.
Proof.
  destruct msg_type_roundtrip as [H1 H2]. split; [|split].
  - apply (H1 ERROR_RESPONSE 0x3abc). lia.
  - apply (H1 ERROR_RESPONSE 0x3abc). lia.
  - apply H2. lia.
Defined.

(** ** Lemmas: headers *)

Lemma be_bytes_app n m v : be_bytes (n + m) v = be_bytes n (v / 256 ^ Z.of_nat m) ++ be_bytes m v.
Proof.
  induction n as [|n IH]; [done|]. cbn [Nat.add be_bytes app]. rewrite IH. do 2 f_equal.
  rewrite Nat2Z.inj_add, Z.add_comm, Z.pow_add_r by lia. rewrite Z.div_div; [done| |];
    pose proof (pow256_pos (Z.of_nat n)); pose proof (pow256_pos (Z.of_nat m)); lia.
Qed.

Section HeaderLemmas.
Context `{CL : CraftppLaws}.

(** The header that the RFC prescribes. *)
Definition header_bytes (hd : Header) (len : Z) : bytes :=
  be_bytes 2 (msg_type (h_cls hd) (h_method hd)) ++ be_bytes 2 (u16 len) ++
  (if zlen (h_transaction_id hd) =? 12 then be_bytes 4 MAGIC_COOKIE else []) ++ h_transaction_id hd.

Lemma header_build_bytes hd len : header_build hd len = header_bytes hd len.
Proof.
  unfold header_build, header_bytes. fold (msg_type (h_cls hd) (h_method hd)).
  change TRANSACTION_ID_SIZE with 12.
  assert (fits 16 (u16 len)) by (apply wrap_fits; lia).
  destruct (zlen (h_transaction_id hd) =? 12);
    rewrite concat_views_concat; cbn [List.concat];
    rewrite !host_to_network_u16_spec by (done || apply msg_type_fits);
    rewrite ?host_to_network_u32_spec by done; by rewrite app_nil_r.
Qed.

(** Well-formed headers: a method the field can hold, and a transaction id of the RFC. *)
Definition header_wf (hd : Header) : Prop :=
  fits 14 (h_method hd) /\ bytes_ok (h_transaction_id hd) /\
  (zlen (h_transaction_id hd) = 12 \/ zlen (h_transaction_id hd) = 16).

Lemma zlen_header_build hd len : header_wf hd -> zlen (header_build hd len) = 20.
Proof.
  intros (_ & _ & [E|E]); rewrite header_build_bytes; unfold header_bytes; rewrite E;
    rewrite !zlen_app, !zlen_be_bytes; cbn [Z.eqb Pos.eqb]; rewrite E; done.
Qed.

Lemma header_build_ok hd len : header_wf hd -> bytes_ok (header_build hd len).
Proof.
  intros (_ & ? & _). rewrite header_build_bytes. unfold header_bytes.
  repeat apply Forall_app_2; auto with fw. case_match; auto with fw.
Qed.

End HeaderLemmas.

(** ** Lemmas: XOR-ed addresses *)

Section XorLemmas.
Context `{CL : CraftppLaws}.

Lemma mem_load_u32 l : bytes_ok l -> length l = 4%nat -> mem_bytes 4 (load_u32 l) = l.
Proof.
  intros Hok Hl. unfold mem_bytes, load_u32. case_match.
  - rewrite <- Hl. by apply be_bytes_be_val.
  - replace 4%nat with (length (rev l)) by (by rewrite length_rev).
    rewrite be_bytes_be_val by (by apply bytes_ok_rev). apply rev_involutive.
Qed.

Definition cookie_bytes : bytes := [0x21; 0x12; 0xA4; 0x42].

Lemma net_magic_bytes : mem_bytes 4 net_magic = cookie_bytes.
Proof. unfold net_magic. by rewrite host_to_network_u32_spec. Qed.

Lemma xor_magic_spec v : bytes_ok v -> (4 <= length v)%nat ->
  xor_magic v = zip_with Z.lxor (take 4 v) cookie_bytes ++ drop 4 v.
Proof.
  intros Hok Hl. unfold xor_magic. rewrite mem_bytes_lxor, net_magic_bytes, mem_load_u32; [done| |].
  - by apply Forall_take.
  - rewrite length_take. lia.
Qed.

Lemma xor_tid_spec v : forall t, (length v <= length t)%nat -> xor_tid v t = zip_with Z.lxor v t.
Proof.
  induction v as [|b v IH]; intros [|x t] H; cbn in *; try done; [lia|]. rewrite IH by lia. done.
Qed.

Lemma xor_tid_length v : forall t, length (xor_tid v t) = length v.
Proof. induction v; intros []; cbn; auto. Qed.

Lemma xor_tid_inv v : forall t, xor_tid (xor_tid v t) t = v.
Proof.
  induction v as [|b v IH]; intros [|x t]; cbn; try done.
  by rewrite IH, Z.lxor_assoc, Z.lxor_nilpotent, Z.lxor_0_r.
Qed.

Lemma xor_tid_ok v : forall t, bytes_ok v -> bytes_ok t -> bytes_ok (xor_tid v t).
Proof.
  induction v as [|b v IH]; intros [|x t] Hv Ht; cbn; auto.
  apply Forall_cons in Hv as [], Ht as []. constructor; [by apply is_byte_lxor|by apply IH].
Qed.

Lemma zip_lxor_inv (a b : bytes) : (length a <= length b)%nat ->
  zip_with Z.lxor (zip_with Z.lxor a b) b = a.
Proof.
  revert b. induction a as [|x a IH]; intros [|y b] H; cbn in *; try done; [lia|].
  by rewrite IH, Z.lxor_assoc, Z.lxor_nilpotent, Z.lxor_0_r by lia.
Qed.

Lemma zip_lxor_ok a b : bytes_ok a -> bytes_ok b -> bytes_ok (zip_with Z.lxor a b).
Proof.
  intros Ha. revert b. induction Ha as [|x a Hx Ha IH]; intros b Hb; [constructor|].
  destruct Hb as [|y b Hy Hb]; cbn; constructor; [by apply is_byte_lxor|by apply IH].
Qed.

Lemma xor_magic_length v : (4 <= length v)%nat -> length (xor_magic v) = length v.
Proof. intros. unfold xor_magic. rewrite length_app, length_mem_bytes, length_drop. lia. Qed.

Lemma xor_magic_ok v : bytes_ok v -> bytes_ok (xor_magic v).
Proof. intros. unfold xor_magic. apply Forall_app_2; [apply mem_bytes_ok|by apply Forall_drop]. Qed.

Lemma xor_magic_take_drop v : (4 <= length v)%nat ->
  take 4 (xor_magic v) = mem_bytes 4 (Z.lxor (load_u32 (take 4 v)) net_magic) /\
  drop 4 (xor_magic v) = drop 4 v.
Proof.
  intros. unfold xor_magic. rewrite take_app_length', drop_app_length' by (by rewrite length_mem_bytes). done.
Qed.

Lemma xor_magic_inv v : bytes_ok v -> (4 <= length v)%nat -> xor_magic (xor_magic v) = v.
Proof.
  intros Hok Hl. rewrite (xor_magic_spec (xor_magic v)); [|by apply xor_magic_ok|by rewrite xor_magic_length].
  destruct (xor_magic_take_drop v Hl) as [_ ->].
  rewrite xor_magic_spec by done. rewrite take_app_length'.
  - rewrite zip_lxor_inv; [apply take_drop|]. rewrite length_take. cbn [length cookie_bytes]. lia.
  - rewrite length_zip_with, length_take. cbn [length cookie_bytes]. lia.
Qed.

Lemma xor_v6_inv v t : bytes_ok v -> (4 <= length v)%nat -> xor_v6 (xor_v6 v t) t = v.
Proof.
  intros Hok Hl. unfold xor_v6.
  assert (forall a b : bytes, length a = 4%nat -> xor_magic (a ++ b) = xor_magic a ++ b) as Happ.
  { intros a b Ha. unfold xor_magic. rewrite take_app_length', drop_app_length' by done.
    rewrite (take_ge a), (drop_ge a) by lia. by rewrite app_nil_r. }
  pose proof (xor_magic_length v Hl) as Hlen.
  assert (length (take 4 (xor_magic v)) = 4%nat) as H4 by (rewrite length_take; lia).
  rewrite Happ by done.
  assert (length (xor_magic (take 4 (xor_magic v))) = 4%nat) as H4' by (rewrite xor_magic_length; lia).
  rewrite take_app_length', drop_app_length' by done. rewrite xor_tid_inv, <- Happ, take_drop by done.
  by apply xor_magic_inv.
Qed.

Lemma xor_v6_ok v t : bytes_ok v -> bytes_ok t -> bytes_ok (xor_v6 v t).
Proof.
  intros Hv Ht. pose proof (xor_magic_ok v Hv). unfold xor_v6.
  apply Forall_app_2; [by apply Forall_take|]. apply xor_tid_ok; [by apply Forall_drop|done].
Qed.

Lemma xor_v6_length v t : (4 <= length v)%nat -> length (xor_v6 v t) = length v.
Proof.
  intros H. unfold xor_v6. pose proof (xor_magic_length v H).
  rewrite length_app, xor_tid_length, length_take, length_drop. lia.
Qed.

Lemma xaddr_wf_address a t : address_wf a -> bytes_ok t -> xaddr_wf (xaddr_from_address a t).
Proof.
  unfold address_wf, xaddr_wf, xaddr_from_address, zlen. intros H Ht. destruct a as [v|v]; destruct H as [Hl Hok].
  - rewrite xor_magic_length by lia. auto using xor_magic_ok.
  - rewrite xor_v6_length by lia. auto using xor_v6_ok.
Qed.

End XorLemmas.

(** C35. XOR-MAPPED-ADDRESS of RFC 8489: the encoded bytes are the address bytes XOR-ed
    with the magic cookie (IPv4) or with the cookie followed by the 96-bit transaction id
    (IPv6), on hosts of either byte order, and [to_address] with the same transaction id
    gives the address back. *)
Theorem xored_address_rfc8489 `{C : Craftpp} (CL : CraftppLaws C) (a : Address) (tid : bytes)
  (Ha : address_wf a) (Ht : bytes_ok tid) (Hlen : zlen tid = 12 \/ zlen tid = 16) :
  xaddr_view (xaddr_from_address a tid) = zip_with Z.lxor (address_view a) (cookie_bytes ++ tid) /\
  xaddr_to_address (xaddr_from_address a tid) tid = a.
Proof.
  unfold zlen in Hlen. destruct a as [v|v]; destruct Ha as [Hv Hok]; unfold zlen in Hv;
    cbn [xaddr_from_address xaddr_view address_view xaddr_to_address].
  - rewrite xor_magic_inv by (done || lia). split; [|done].
    rewrite xor_magic_spec by (done || lia). rewrite <- (take_drop 4 v) at 3.
    rewrite zip_with_app by (rewrite length_take; cbn [length cookie_bytes]; lia). f_equal.
    rewrite (drop_ge v) by lia. done.
  - rewrite xor_v6_inv by (done || lia). split; [|done]. unfold xor_v6.
    destruct (xor_magic_take_drop v ltac:(lia)) as [_ ->].
    rewrite xor_tid_spec by (rewrite length_drop; lia). rewrite <- (take_drop 4 v) at 3.
    rewrite zip_with_app by (rewrite length_take; cbn [length cookie_bytes]; lia). f_equal.
    rewrite xor_magic_spec, take_app_length' by (try done; rewrite ?length_zip_with, ?length_take; cbn [length cookie_bytes]; lia).
    done.
Qed.

Lemma xored_address_rfc8489_witness :
  let a := AddressV4 [192; 0; 2; 1] in let tid := replicate 12 7 in
  xaddr_view (xaddr_from_address (H := reference) a tid) = [0xE1; 0x12; 0xA6; 0x43] /\
  xaddr_to_address (H := reference) (xaddr_from_address (H := reference) a tid) tid = a.
Proof.
  apply (xored_address_rfc8489 reference_laws (AddressV4 [192; 0; 2; 1]) (replicate 12 7)).
  - split; [done|]. repeat constructor; unfold is_byte; lia.
  - repeat constructor; unfold is_byte; lia.
  - by left.
Defined.
