(* ===== verification/StunCrc.v ===== *)
(** * stun/details/stun_fingerprint.cpp: the CRC of the FINGERPRINT attribute

    The table-driven CRC-32 is equal to the bit-by-bit division by the polynomial
    0xEDB88320, does not depend on how a message is cut into views, and tells apart two
    messages that differ in one byte. *)

From S2P Require Import Prelude StunBase.

Definition FINGERPRINT_XOR : Z := 0x5354554e.

Definition CRC32_TABLE : list Z :=
  [
   0x00000000; 0x77073096; 0xee0e612c; 0x990951ba; 0x076dc419; 0x706af48f;
   0xe963a535; 0x9e6495a3; 0x0edb8832; 0x79dcb8a4; 0xe0d5e91e; 0x97d2d988;
   0x09b64c2b; 0x7eb17cbd; 0xe7b82d07; 0x90bf1d91; 0x1db71064; 0x6ab020f2;
   0xf3b97148; 0x84be41de; 0x1adad47d; 0x6ddde4eb; 0xf4d4b551; 0x83d385c7;
   0x136c9856; 0x646ba8c0; 0xfd62f97a; 0x8a65c9ec; 0x14015c4f; 0x63066cd9;
   0xfa0f3d63; 0x8d080df5; 0x3b6e20c8; 0x4c69105e; 0xd56041e4; 0xa2677172;
   0x3c03e4d1; 0x4b04d447; 0xd20d85fd; 0xa50ab56b; 0x35b5a8fa; 0x42b2986c;
   0xdbbbc9d6; 0xacbcf940; 0x32d86ce3; 0x45df5c75; 0xdcd60dcf; 0xabd13d59;
   0x26d930ac; 0x51de003a; 0xc8d75180; 0xbfd06116; 0x21b4f4b5; 0x56b3c423;
   0xcfba9599; 0xb8bda50f; 0x2802b89e; 0x5f058808; 0xc60cd9b2; 0xb10be924;
   0x2f6f7c87; 0x58684c11; 0xc1611dab; 0xb6662d3d; 0x76dc4190; 0x01db7106;
   0x98d220bc; 0xefd5102a; 0x71b18589; 0x06b6b51f; 0x9fbfe4a5; 0xe8b8d433;
   0x7807c9a2; 0x0f00f934; 0x9609a88e; 0xe10e9818; 0x7f6a0dbb; 0x086d3d2d;
   0x91646c97; 0xe6635c01; 0x6b6b51f4; 0x1c6c6162; 0x856530d8; 0xf262004e;
   0x6c0695ed; 0x1b01a57b; 0x8208f4c1; 0xf50fc457; 0x65b0d9c6; 0x12b7e950;
   0x8bbeb8ea; 0xfcb9887c; 0x62dd1ddf; 0x15da2d49; 0x8cd37cf3; 0xfbd44c65;
   0x4db26158; 0x3ab551ce; 0xa3bc0074; 0xd4bb30e2; 0x4adfa541; 0x3dd895d7;
   0xa4d1c46d; 0xd3d6f4fb; 0x4369e96a; 0x346ed9fc; 0xad678846; 0xda60b8d0;
   0x44042d73; 0x33031de5; 0xaa0a4c5f; 0xdd0d7cc9; 0x5005713c; 0x270241aa;
   0xbe0b1010; 0xc90c2086; 0x5768b525; 0x206f85b3; 0xb966d409; 0xce61e49f;
   0x5edef90e; 0x29d9c998; 0xb0d09822; 0xc7d7a8b4; 0x59b33d17; 0x2eb40d81;
   0xb7bd5c3b; 0xc0ba6cad; 0xedb88320; 0x9abfb3b6; 0x03b6e20c; 0x74b1d29a;
   0xead54739; 0x9dd277af; 0x04db2615; 0x73dc1683; 0xe3630b12; 0x94643b84;
   0x0d6d6a3e; 0x7a6a5aa8; 0xe40ecf0b; 0x9309ff9d; 0x0a00ae27; 0x7d079eb1;
   0xf00f9344; 0x8708a3d2; 0x1e01f268; 0x6906c2fe; 0xf762575d; 0x806567cb;
   0x196c3671; 0x6e6b06e7; 0xfed41b76; 0x89d32be0; 0x10da7a5a; 0x67dd4acc;
   0xf9b9df6f; 0x8ebeeff9; 0x17b7be43; 0x60b08ed5; 0xd6d6a3e8; 0xa1d1937e;
   0x38d8c2c4; 0x4fdff252; 0xd1bb67f1; 0xa6bc5767; 0x3fb506dd; 0x48b2364b;
   0xd80d2bda; 0xaf0a1b4c; 0x36034af6; 0x41047a60; 0xdf60efc3; 0xa867df55;
   0x316e8eef; 0x4669be79; 0xcb61b38c; 0xbc66831a; 0x256fd2a0; 0x5268e236;
   0xcc0c7795; 0xbb0b4703; 0x220216b9; 0x5505262f; 0xc5ba3bbe; 0xb2bd0b28;
   0x2bb45a92; 0x5cb36a04; 0xc2d7ffa7; 0xb5d0cf31; 0x2cd99e8b; 0x5bdeae1d;
   0x9b64c2b0; 0xec63f226; 0x756aa39c; 0x026d930a; 0x9c0906a9; 0xeb0e363f;
   0x72076785; 0x05005713; 0x95bf4a82; 0xe2b87a14; 0x7bb12bae; 0x0cb61b38;
   0x92d28e9b; 0xe5d5be0d; 0x7cdcefb7; 0x0bdbdf21; 0x86d3d2d4; 0xf1d4e242;
   0x68ddb3f8; 0x1fda836e; 0x81be16cd; 0xf6b9265b; 0x6fb077e1; 0x18b74777;
   0x88085ae6; 0xff0f6a70; 0x66063bca; 0x11010b5c; 0x8f659eff; 0xf862ae69;
   0x616bffd3; 0x166ccf45; 0xa00ae278; 0xd70dd2ee; 0x4e048354; 0x3903b3c2;
   0xa7672661; 0xd06016f7; 0x4969474d; 0x3e6e77db; 0xaed16a4a; 0xd9d65adc;
   0x40df0b66; 0x37d83bf0; 0xa9bcae53; 0xdebb9ec5; 0x47b2cf7f; 0x30b5ffe9;
   0xbdbdf21c; 0xcabac28a; 0x53b39330; 0x24b4a3a6; 0xbad03605; 0xcdd70693;
   0x54de5729; 0x23d967bf; 0xb3667a2e; 0xc4614ab8; 0x5d681b02; 0x2a6f2b94;
   0xb40bbe37; 0xc30c8ea1; 0x5a05df1b; 0x2d02ef8d
  ].

(** [CRC32_TABLE[i]] of a valid index. *)
Definition crc32_table (i : Z) : Z := nth (Z.to_nat i) CRC32_TABLE 0.

Definition crc32_step (crc v : Z) : Z :=
  Z.lxor (crc32_table (Z.land (Z.lxor crc v) 0xff)) (Z.shiftr crc 8).

Definition crc32_helper (vv : bytes) (start : Z) : Z := fold_left crc32_step vv start.

(** [~] on a [uint32_t]. *)
Definition not_u32 (v : Z) : Z := u32 (Z.lnot v).

Definition crc32 (vv : bytes) : Z := not_u32 (crc32_helper vv 0xffffffff).

Definition crc32_views (vvv : list bytes) : Z :=
  not_u32 (fold_left (fun crc vv => crc32_helper vv crc) vvv 0xffffffff).

(** ** The specification: division by the polynomial, bit by bit *)

Definition CRC_POLY : Z := 0xEDB88320.

Definition crc_bit (c : Z) : Z :=
  if Z.odd c then Z.lxor (Z.shiftr c 1) CRC_POLY else Z.shiftr c 1.

Definition crc_bits (n : nat) (c : Z) : Z := Nat.iter n crc_bit c.

Definition crc32_spec (message : bytes) : Z :=
  not_u32 (fold_left (fun crc v => crc_bits 8 (Z.lxor crc v)) message 0xffffffff).

(** ** Lemmas *)

Lemma crc_bit_lxor a b : crc_bit (Z.lxor a b) = Z.lxor (crc_bit a) (crc_bit b).
Proof.
  unfold crc_bit. rewrite <- !Z.bit0_odd, Z.lxor_spec, Z.shiftr_lxor.
  destruct (Z.testbit a 0), (Z.testbit b 0); cbn [xorb]; apply Z.bits_inj'; intros i Hi;
    rewrite ?Z.lxor_spec; destruct (Z.testbit (Z.shiftr a 1) i), (Z.testbit (Z.shiftr b 1) i),
      (Z.testbit CRC_POLY i); done.
Qed.

Lemma crc_bits_S n c : crc_bits (S n) c = crc_bit (crc_bits n c).
Proof. reflexivity. Qed.

Lemma crc_bits_lxor n a b : crc_bits n (Z.lxor a b) = Z.lxor (crc_bits n a) (crc_bits n b).
Proof. induction n as [|n IH]; [done|]. by rewrite !crc_bits_S, IH, crc_bit_lxor. Qed.

Lemma crc_bits_shift n h : crc_bits n (Z.shiftl h (Z.of_nat n)) = h.
Proof.
  induction n as [|n IH] in h |- *; [apply Z.shiftl_0_r|].
  replace (Z.of_nat (S n)) with (1 + Z.of_nat n) by lia. rewrite <- Z.shiftl_shiftl by lia.
  rewrite crc_bits_S, IH.
  unfold crc_bit. rewrite <- Z.bit0_odd, Z.shiftl_spec_low by lia.
  rewrite Z.shiftr_shiftl_l by lia. apply Z.shiftl_0_r.
Qed.

Lemma crc32_table_bits i : 0 <= i < 256 -> crc32_table i = crc_bits 8 i.
Proof.
  assert (forallb (fun k => crc32_table (Z.of_nat k) =? crc_bits 8 (Z.of_nat k)) (seq 0 256) = true) as H
    by reflexivity.
  intros Hi. rewrite forallb_forall in H. specialize (H (Z.to_nat i)).
  rewrite Z2Nat.id in H by lia. apply Z.eqb_eq, H, in_seq. lia.
Qed.

Lemma crc32_step_bits crc v : is_byte v -> crc32_step crc v = crc_bits 8 (Z.lxor crc v).
Proof.
  intros Hv. unfold crc32_step. set (x := Z.lxor crc v).
  assert (Z.land x 0xff = wrap 8 x) as E by (change 0xff with (Z.ones 8); apply Z.land_ones; lia).
  rewrite crc32_table_bits by (rewrite E; apply (wrap_fits 8); lia).
  assert (x = Z.lxor (Z.land x 0xff) (Z.shiftl (Z.shiftr crc 8) (Z.of_nat 8))) as Hx.
  { rewrite E. unfold wrap. apply Z.bits_inj'. intros i Hi. rewrite Z.lxor_spec, Z.shiftl_spec by lia.
    change (Z.of_nat 8) with 8. destruct (Z.ltb_spec i 8).
    - rewrite Z.mod_pow2_bits_low, (Z.testbit_neg_r _ (i - 8)) by lia. by rewrite xorb_false_r.
    - rewrite Z.mod_pow2_bits_high, Z.shiftr_spec by lia. rewrite Z.sub_add. unfold x.
      rewrite Z.lxor_spec, (testbit_high 8 v) by (done || lia). by rewrite xorb_false_r. }
  rewrite Hx at 2. by rewrite crc_bits_lxor, crc_bits_shift.
Qed.

Lemma crc_fold_bits m : bytes_ok m -> forall c,
  crc32_helper m c = fold_left (fun crc v => crc_bits 8 (Z.lxor crc v)) m c.
Proof.
  unfold crc32_helper. induction 1 as [|v m Hv Hm IH]; intros c; [done|]. cbn [fold_left].
  by rewrite crc32_step_bits, IH.
Qed.

Lemma crc32_views_fold vvv c :
  fold_left (fun crc vv => crc32_helper vv crc) vvv c = crc32_helper (List.concat vvv) c.
Proof.
  induction vvv as [|v vvv IH] in c |- *; [done|]. cbn. rewrite IH. unfold crc32_helper.
  by rewrite fold_left_app.
Qed.

Lemma crc32_views_concat vvv : crc32_views vvv = crc32 (List.concat vvv).
Proof. unfold crc32_views, crc32. by rewrite crc32_views_fold. Qed.

Lemma not_u32_fits v : fits 32 (not_u32 v).
Proof. apply wrap_fits. lia. Qed.

Lemma crc32_fits m : fits 32 (crc32 m).
Proof. apply not_u32_fits. Qed.

(** C28. The fingerprint code computes CRC-32: over any message the table-driven
    [crc32], and [crc32] over the message cut into any views, is the complement of the
    remainder of the bit-by-bit division by the polynomial 0xEDB88320 started from all
    ones, and is a 32-bit number. *)
Theorem crc32_is_polynomial_division (views : list bytes) (H : bytes_ok (List.concat views)) :
  crc32 (List.concat views) = crc32_spec (List.concat views) /\
  crc32_views views = crc32_spec (List.concat views) /\
  0 <= crc32_views views < 2 ^ 32.
Proof.
  assert (crc32 (List.concat views) = crc32_spec (List.concat views)) as E
    by (unfold crc32, crc32_spec; by rewrite crc_fold_bits).
  rewrite crc32_views_concat. split_and!; [done..|apply crc32_fits|apply crc32_fits].
Qed.

(** The check value of CRC-32: the digits 1 to 9. *)
Lemma crc32_is_polynomial_division_witness :
  crc32_views [[49; 50; 51; 52]; [53; 54; 55; 56; 57]] = 0xCBF43926 /\
  crc32_views [[49; 50; 51; 52]; [53; 54; 55; 56; 57]] = crc32_spec [49; 50; 51; 52; 53; 54; 55; 56; 57].
Proof.
  split; [reflexivity|].
  apply (crc32_is_polynomial_division [[49; 50; 51; 52]; [53; 54; 55; 56; 57]]).
  repeat constructor; unfold is_byte; lia.
Defined.

(** ** A changed byte changes the CRC *)

Lemma crc_bit_fits c : fits 32 c -> fits 32 (crc_bit c).
Proof.
  intros H. assert (fits 32 (Z.shiftr c 1)) as Hs.
  { unfold fits in *. rewrite Z.shiftr_div_pow2 by lia. split; [apply Z.div_pos; lia|].
    eapply Z.le_lt_trans; [apply Z.div_le_upper_bound with (q := c)|]; lia. }
  unfold crc_bit. destruct (Z.odd c); [|done]. apply lxor_fits; [lia|done|]. done.
Qed.

Lemma crc_bit_inj a b : fits 32 a -> fits 32 b -> crc_bit a = crc_bit b -> a = b.
Proof.
  intros Ha Hb E.
  assert (forall c, fits 32 c -> Z.testbit (crc_bit c) 31 = Z.odd c) as Htop.
  { intros c Hc. unfold crc_bit. pose proof (testbit_high 32 c 32 ltac:(lia) Hc ltac:(lia)) as Hh.
    destruct (Z.odd c); rewrite ?Z.lxor_spec, Z.shiftr_spec by lia; change (31 + 1) with 32; by rewrite Hh. }
  pose proof (Htop a Ha) as Ta. rewrite E, (Htop b Hb) in Ta.
  unfold crc_bit in E. rewrite <- Ta in E.
  assert (Z.shiftr a 1 = Z.shiftr b 1) as Es.
  { destruct (Z.odd b); [|done]. apply (f_equal (fun x => Z.lxor x CRC_POLY)) in E.
    by rewrite !Z.lxor_assoc, Z.lxor_nilpotent, !Z.lxor_0_r in E. }
  rewrite <- !Z.div2_spec in Es. rewrite (Z.div2_odd a), (Z.div2_odd b). by rewrite Es, Ta.
Qed.

Lemma crc_bits_fits n c : fits 32 c -> fits 32 (crc_bits n c).
Proof. intros H. induction n; [done|]. by apply crc_bit_fits. Qed.

Lemma crc_bits_inj n a b : fits 32 a -> fits 32 b -> crc_bits n a = crc_bits n b -> a = b.
Proof.
  intros Ha Hb. induction n as [|n IH]; [done|]. intros E.
  apply IH, crc_bit_inj; [by apply crc_bits_fits..|exact E].
Qed.

Lemma byte_fits v : is_byte v -> fits 32 v.
Proof. unfold is_byte, fits. lia. Qed.

Lemma crc32_helper_fits m c : bytes_ok m -> fits 32 c -> fits 32 (crc32_helper m c).
Proof.
  intros Hm. rewrite crc_fold_bits by done. revert c.
  induction Hm as [|v m Hv Hm IH]; intros c Hc; [done|]. cbn [fold_left].
  apply IH, crc_bits_fits, lxor_fits; [lia|done|by apply byte_fits].
Qed.

Lemma crc32_helper_inj m a b : bytes_ok m -> fits 32 a -> fits 32 b ->
  crc32_helper m a = crc32_helper m b -> a = b.
Proof.
  intros Hm. rewrite !crc_fold_bits by done. revert a b.
  induction Hm as [|v m Hv Hm IH]; intros a b Ha Hb; [done|]. cbn [fold_left]. intros E.
  assert (fits 32 v) by by apply byte_fits.
  apply IH in E; [|apply crc_bits_fits, lxor_fits; (done || lia)..].
  apply crc_bits_inj in E; [|apply lxor_fits; (done || lia)..].
  apply (f_equal (fun x => Z.lxor x v)) in E.
  by rewrite !Z.lxor_assoc, Z.lxor_nilpotent, !Z.lxor_0_r in E.
Qed.

Lemma not_u32_inj a b : fits 32 a -> fits 32 b -> not_u32 a = not_u32 b -> a = b.
Proof.
  intros Ha Hb E. apply (bits_eq 32); [lia|done..|]. intros i Hi.
  apply (f_equal (fun x => Z.testbit x i)) in E. unfold not_u32 in E.
  rewrite !wrap_testbit, !Z.lnot_spec in E by lia. by destruct (Z.testbit a i), (Z.testbit b i).
Qed.

(** The FINGERPRINT CRC detects any damage within one byte: two messages that differ
    in exactly one byte never have the same [crc32]. *)
Theorem crc32_detects_changed_byte (pre post : bytes) (a b : Z)
  (Hpre : bytes_ok pre) (Hpost : bytes_ok post) (Ha : is_byte a) (Hb : is_byte b) (Hne : a <> b) :
  crc32 (pre ++ a :: post) <> crc32 (pre ++ b :: post).
Proof.
  unfold crc32. intros E. assert (fits 32 0xffffffff) as H0 by done.
  assert (forall x, is_byte x -> fits 32 (crc32_helper (pre ++ x :: post) 0xffffffff)) as Hf.
  { intros x Hx. apply crc32_helper_fits; [|done]. apply Forall_app_2; [done|by constructor]. }
  apply not_u32_inj in E; [|by apply Hf..]. unfold crc32_helper in E. rewrite !fold_left_app in E.
  cbn [fold_left] in E. fold (crc32_helper pre 0xffffffff) in E.
  pose proof (crc32_helper_fits pre _ Hpre H0) as Hp. revert E. generalize dependent (crc32_helper pre 0xffffffff).
  intros c Hc E. rewrite !crc32_step_bits in E by done.
  assert (fits 32 a /\ fits 32 b) as [] by by split; apply byte_fits.
  apply (crc32_helper_inj post) in E; [|done|apply crc_bits_fits, lxor_fits; (done || lia)..].
  apply crc_bits_inj in E; [|apply lxor_fits; (done || lia)..].
  apply (f_equal (Z.lxor c)) in E. rewrite <- !Z.lxor_assoc, Z.lxor_nilpotent, !Z.lxor_0_l in E. done.
Qed.

Lemma crc32_detects_changed_byte_witness : crc32 [1; 2; 3] <> crc32 [1; 9; 3].
Proof.
  apply (crc32_detects_changed_byte [1] [3] 2 9); [..|done]; repeat constructor; unfold is_byte; lia.
Defined.
