(* ===== verification/StunAttr.v ===== *)
(** * stun/stun_attribute: the attributes and their codecs

    One constructor per alternative of [Attribute::Value], one parser per attribute
    class, and the encoders. The theorems are the round trip of the codecs, and the
    failure of the MAPPED-ADDRESS encoder, which loses the address family. *)

From S2P Require Import Prelude Errors Craftpp Util Net Crypto StunBase StunCrc.

(** ** Data *)

(** [Attribute::Value]. *)
Inductive AttributeValue : Set :=
| XorMappedAddressAttribute (addr : XoredAddress) (port : Z)
| MappedAddressAttribute (addr : Address) (port : Z)
| UsernameAttribute (name : bytes)
| SoftwareAttribute (name : bytes)
| MessageIntegityAttribute (digest : bytes)
| FingerprintAttribute (crc32 : Z)
| PriorityAttribute (priority : Z)
| IceControllingAttribute (tiebreaker : Z)
| IceControlledAttribute (tiebreaker : Z)
| UseCandidateAttribute
| UnknownAttributesAttribute (types : list Z)
| ErrorCodeAttribute (code : Z) (reason_phrase : option bytes)
| AlternateServerAttribute (addr : Address) (port : Z).

Record Attribute : Set := mk_Attribute { a_type : Z; a_value : AttributeValue }.

Record UnknownAttribute : Set := mk_UnknownAttribute { ua_type : Z; ua_data : bytes }.

(** [Attribute::ParseResult]. *)
Inductive AttrParseResult : Set :=
| pr_attribute (a : Attribute)
| pr_unknown (u : UnknownAttribute).

(** [ErrorCodeAttribute::Code]. *)
Definition TryAlternate : Z := 300.
Definition BadRequest : Z := 400.
Definition Unauthorized : Z := 401.
Definition UnknownAttributeCode : Z := 420.
Definition StaleNonce : Z := 438.
Definition ServerError : Z := 500.

Definition error_code_eq (c1 c2 : Z * option bytes) : bool := c1.1 =? c2.1.

Section Codecs.
Context `{Craftpp}.

(** ** Parsers *)

Definition mapped_address (family : Z) (addr_view : bytes) : Result Address :=
  if family =? FAMILY_IPV4 then AddressV4 <$> address_v4_from_view addr_view
  else if family =? FAMILY_IPV6 then AddressV6 <$> address_v6_from_view addr_view
  else Err (parse_error pe_unknown_addr_family).

(** The address and the port of [MappedAddressAttribute::parse]. *)
Definition mapped_parse (vv : bytes) : SE ParseStat (Address * Z) :=
  let family_rv := require (read_u8 vv 1) in
  let port_rv := require (read_u16be vv 2) in
  let addr_view_rv := require (subview_from vv 4) in
  combine3_se (fun family port addr_view =>
      addr ← on_err (lift (mapped_address family addr_view)) (stat_error ps_invalid_ip_address) (fun err => err);
      mret (addr, port))
    family_rv port_rv addr_view_rv.

Definition xor_mapped_parse (vv : bytes) : SE ParseStat AttributeValue :=
  let family_rv := f ← require (read_u8 vv 1); family_from_uint8 f in
  xport ← on_err (lift (require (read_u16be vv 2))) (stat_error ps_invalid_xor_mapped_address) (fun err => err);
  let port := u16 (Z.lxor xport (Z.shiftr MAGIC_COOKIE 16)) in
  let xaddr_view_rv := require (subview_from vv 4) in
  xaddr ← on_err (lift (combine2 xaddr_from_view family_rv xaddr_view_rv))
                 (stat_error ps_invalid_ip_address) (fun err => err);
  mret (XorMappedAddressAttribute xaddr port).

Definition software_parse (vv : bytes) : SE ParseStat AttributeValue := mret (SoftwareAttribute vv).

Definition username_parse (vv : bytes) : SE ParseStat AttributeValue := mret (UsernameAttribute vv).

Definition integrity_parse (vv : bytes) : SE ParseStat AttributeValue :=
  digest ← on_err (lift (require (hash_from_view SHA1_SIZE vv)))
                  (stat_error ps_invalid_message_integrity) (fun _ => parse_error pe_integrity_digest_size);
  mret (MessageIntegityAttribute digest).

Definition fingerprint_parse (vv : bytes) : SE ParseStat AttributeValue :=
  crc32 ← on_err (lift (require (read_u32be vv 0)))
                 (stat_error ps_invalid_fingerprint_size) (fun _ => parse_error pe_fingerprint_crc_size);
  mret (FingerprintAttribute (Z.lxor crc32 FINGERPRINT_XOR)).

Definition priority_parse (vv : bytes) : SE ParseStat AttributeValue :=
  priority ← on_err (lift (require (read_u32be vv 0)))
                    (stat_error ps_invalid_priority_size) (fun _ => parse_error pe_priority_attribute_size);
  mret (PriorityAttribute priority).

Definition ice_controlling_parse (vv : bytes) : SE ParseStat AttributeValue :=
  tiebreaker ← on_err (lift (require (read_u64be vv 0)))
                      (stat_error ps_invalid_ice_controlling_size) (fun _ => parse_error pe_ice_controlling_size);
  mret (IceControllingAttribute tiebreaker).

Definition ice_controlled_parse (vv : bytes) : SE ParseStat AttributeValue :=
  tiebreaker ← on_err (lift (require (read_u64be vv 0)))
                      (stat_error ps_invalid_ice_controlled_size) (fun _ => parse_error pe_ice_controlled_size);
  mret (IceControlledAttribute tiebreaker).

Definition use_candidate_parse (vv : bytes) : SE ParseStat AttributeValue :=
  if negb (zlen vv =? 0)
  then fail_with (stat_error ps_invalid_use_candidate_size) (parse_error pe_use_candidate_size)
  else mret UseCandidateAttribute.

(** The loop over [i < num] of [UnknownAttributesAttribute::parse]. *)
Definition unknown_attributes_types (vv : bytes) (num : nat) : list Z :=
  map (fun i => assured_read_u16be vv (u32 (Z.of_nat i * 2))) (seq 0 num).

Definition unknown_attributes_parse (vv : bytes) : SE ParseStat AttributeValue :=
  if negb (zlen vv mod 2 =? 0)
  then fail_with (stat_error ps_invalid_unknown_attributes_attr_size)
                 (parse_error pe_unknown_attributes_attribute_size)
  else
    let num := Z.to_nat (u32 (zlen vv / 2)) in
    mret (UnknownAttributesAttribute (unknown_attributes_types vv num)).

Definition error_code_parse (v : bytes) : SE ParseStat AttributeValue :=
  let maybe_reason := subview_from v 4 in
  first_word ← on_err (lift (require (read_u32be v 0)))
                      (stat_error ps_invalid_error_code_size) (fun _ => parse_error pe_error_code_attribute_size);
  mret (ErrorCodeAttribute (u32 (Z.shiftr first_word 8 * 100 + Z.land first_word 0xFF)) maybe_reason).

Definition mapped_attr_parse (vv : bytes) : SE ParseStat AttributeValue :=
  ap ← mapped_parse vv; mret (MappedAddressAttribute ap.1 ap.2).

Definition alternate_server_parse (view : bytes) : SE ParseStat AttributeValue :=
  ap ← mapped_parse view; mret (AlternateServerAttribute ap.1 ap.2).

(** [Attribute::parse]: the [switch] on the type; every known attribute is wrapped by
    [create_attr_fun]. *)
Definition attribute_parser (type : Z) : option (bytes -> SE ParseStat AttributeValue) :=
  if type =? MAPPED_ADDRESS then Some mapped_attr_parse
  else if type =? XOR_MAPPED_ADDRESS then Some xor_mapped_parse
  else if type =? USERNAME then Some username_parse
  else if type =? SOFTWARE then Some software_parse
  else if type =? MESSAGE_INTEGRITY then Some integrity_parse
  else if type =? FINGERPRINT then Some fingerprint_parse
  else if type =? PRIORITY then Some priority_parse
  else if type =? ICE_CONTROLLING then Some ice_controlling_parse
  else if type =? ICE_CONTROLLED then Some ice_controlled_parse
  else if type =? USE_CANDIDATE then Some use_candidate_parse
  else if type =? ERROR_CODE then Some error_code_parse
  else if type =? ALTERNATE_SERVER then Some alternate_server_parse
  else if type =? UNKNOWN_ATTRIBUTES then Some unknown_attributes_parse
  else None.

Definition attribute_parse (vv : bytes) (type : Z) : SE ParseStat AttrParseResult :=
  match attribute_parser type with
  | Some parse => attr ← parse vv; mret (pr_attribute (mk_Attribute type attr))
  | None => mret (pr_unknown (mk_UnknownAttribute type vv))
  end.

(** ** Encoders *)

(** [family >> 16] shifts the 8-bit family out: see [mapped_build_not_parsed]. *)
Definition mapped_build (addr : Address) (port : Z) : bytes :=
  let '(family, view) := match addr with
                         | AddressV4 a => (FAMILY_IPV4, a)
                         | AddressV6 a => (FAMILY_IPV6, a)
                         end in
  let first_word := host_to_network_u32 (Z.lor port (Z.shiftr family 16)) in
  concat_views [mem_bytes 4 first_word; view].

Definition xor_mapped_build (addr : XoredAddress) (port : Z) : bytes :=
  let xport := u16 (Z.lxor port (Z.shiftr MAGIC_COOKIE 16)) in
  let family := family_to_uint8 (xaddr_family addr) in
  let first_word := host_to_network_u32 (u32 (Z.lor xport (Z.shiftl family 16))) in
  concat_views [mem_bytes 4 first_word; xaddr_view addr].

(** The loop writes one 16-bit object after the other. *)
Definition unknown_attributes_build (types : list Z) : bytes :=
  flat_map (fun t => mem_bytes 2 (host_to_network_u16 t)) types.

Definition error_code_build (code : Z) (reason_phrase : option bytes) : bytes :=
  let first_word := host_to_network_u32 (u32 (Z.lor (Z.shiftl (code / 100) 8) (code mod 100))) in
  concat_views [mem_bytes 4 first_word; match reason_phrase with Some r => r | None => [] end].

Definition alternate_server_build (addr : Address) (port : Z) : bytes := mapped_build addr port.

End Codecs.

(** [Attribute::create]. *)
Definition attribute_value_type (v : AttributeValue) : Z :=
  match v with
  | XorMappedAddressAttribute _ _ => XOR_MAPPED_ADDRESS
  | MappedAddressAttribute _ _ => MAPPED_ADDRESS
  | UsernameAttribute _ => USERNAME
  | SoftwareAttribute _ => SOFTWARE
  | MessageIntegityAttribute _ => MESSAGE_INTEGRITY
  | FingerprintAttribute _ => FINGERPRINT
  | PriorityAttribute _ => PRIORITY
  | IceControllingAttribute _ => ICE_CONTROLLING
  | IceControlledAttribute _ => ICE_CONTROLLED
  | UseCandidateAttribute => USE_CANDIDATE
  | UnknownAttributesAttribute _ => UNKNOWN_ATTRIBUTES
  | ErrorCodeAttribute _ _ => ERROR_CODE
  | AlternateServerAttribute _ _ => ALTERNATE_SERVER
  end.

Definition attribute_create (v : AttributeValue) : Attribute := mk_Attribute (attribute_value_type v) v.

Section View.
Context `{Craftpp}.

(** The view of an attribute's value that [AttributeSet::build] writes; the integrity and
    fingerprint attributes are computed at the end of the message instead. *)
Definition attribute_view (v : AttributeValue) : option bytes :=
  match v with
  | UsernameAttribute name => Some name
  | SoftwareAttribute name => Some name
  | XorMappedAddressAttribute addr port => Some (xor_mapped_build addr port)
  | MappedAddressAttribute addr port => Some (mapped_build addr port)
  | PriorityAttribute priority => Some (mem_bytes 4 (host_to_network_u32 priority))
  | IceControllingAttribute tiebreaker => Some (mem_bytes 8 (host_to_network_u64 tiebreaker))
  | IceControlledAttribute tiebreaker => Some (mem_bytes 8 (host_to_network_u64 tiebreaker))
  | UseCandidateAttribute => Some []
  | ErrorCodeAttribute code reason => Some (error_code_build code reason)
  | UnknownAttributesAttribute types => Some (unknown_attributes_build types)
  | AlternateServerAttribute addr port => Some (alternate_server_build addr port)
  | MessageIntegityAttribute _ => None
  | FingerprintAttribute _ => None
  end.

End View.

(** ** Well-formed values *)

Definition attribute_value_wf (v : AttributeValue) : Prop :=
  match v with
  | XorMappedAddressAttribute addr port => xaddr_wf addr /\ fits 16 port
  | MappedAddressAttribute addr port | AlternateServerAttribute addr port => address_wf addr /\ fits 16 port
  | UsernameAttribute name | SoftwareAttribute name => bytes_ok name
  | MessageIntegityAttribute digest => zlen digest = 20 /\ bytes_ok digest
  | FingerprintAttribute c => fits 32 c
  | PriorityAttribute priority => fits 32 priority
  | IceControllingAttribute t | IceControlledAttribute t => fits 64 t
  | UseCandidateAttribute => True
  | UnknownAttributesAttribute types => Forall (fits 16) types
  | ErrorCodeAttribute code reason => fits 32 code /\ (forall r, reason = Some r -> bytes_ok r)
  end.

(** A value that its encoding can represent: the 24 bits of the error class, as many unknown
    types as the 32-bit index of the parser can reach, and not a plain address (see
    [mapped_build_not_parsed]). *)
Definition attribute_encodable (v : AttributeValue) : Prop :=
  match v with
  | ErrorCodeAttribute code _ => code < 100 * 2 ^ 24
  | UnknownAttributesAttribute types => Z.of_nat (length types) <= 2 ^ 31
  | MappedAddressAttribute _ _ | AlternateServerAttribute _ _ => False
  | _ => True
  end.

(** Equality up to the reason phrase being absent or empty, which have one encoding. *)
Definition attribute_value_equiv (v w : AttributeValue) : Prop :=
  match v, w with
  | ErrorCodeAttribute c r, ErrorCodeAttribute c' r' =>
      c = c' /\ match r with Some x => x | None => [] end = match r' with Some x => x | None => [] end
  | _, _ => v = w
  end.

#[export] Instance attribute_value_equiv_equivalence : Equivalence attribute_value_equiv.
Proof.
  split.
  - intros []; done.
  - intros [] []; cbn; try done. intros []; done.
  - intros [] [] []; cbn; try done; try congruence. intros [] []. split; congruence.
Qed.

(** The types that [Attribute::parse] knows. *)
Definition known_types : list Z :=
  [MAPPED_ADDRESS; XOR_MAPPED_ADDRESS; USERNAME; SOFTWARE; MESSAGE_INTEGRITY; FINGERPRINT; PRIORITY;
   ICE_CONTROLLING; ICE_CONTROLLED; USE_CANDIDATE; ERROR_CODE; ALTERNATE_SERVER; UNKNOWN_ATTRIBUTES].

Lemma attribute_parser_unknown `{Craftpp} t : attribute_parser t = None <-> t ∉ known_types.
Proof.
  unfold known_types. rewrite !not_elem_of_cons. unfold attribute_parser.
  split.
  - intros E. repeat (case_match; [done|]). rewrite !Z.eqb_neq in *. split_and!; try done. apply not_elem_of_nil.
  - intros. destruct_and!. repeat (rewrite (proj2 (Z.eqb_neq _ _)) by done). done.
Qed.

(** ** Lemmas: reading back what was written *)

Lemma be_val_one b : be_val [b] = b.
Proof. cbn [be_val]. change (256 ^ zlen (@nil Z)) with 1. lia. Qed.

Section ReadLemmas.
Context `{CL : CraftppLaws}.

Lemma checked_read_prefix n x rest : 0 <= x < 256 ^ Z.of_nat n ->
  checked_read (Z.of_nat n) (be_bytes n x ++ rest) 0 = Some x.
Proof.
  intros Hx. rewrite checked_read_in by (rewrite zlen_app, zlen_be_bytes; pose proof (zlen_nonneg rest); lia).
  rewrite slice_prefix by (by rewrite zlen_be_bytes). by rewrite be_val_be_bytes_small.
Qed.

Lemma be_val_fits v off n w : bytes_ok v -> 0 <= off -> 0 <= n -> off + n <= zlen v -> w = 8 * n ->
  fits w (be_val (slice v off n)).
Proof.
  intros Hv Ho Hn Hl ->. pose proof (be_val_bounds (slice v off n) (Forall_slice _ _ _ _ Hv)) as B.
  rewrite zlen_slice in B by done. unfold fits. by rewrite Z.pow_mul_r by lia.
Qed.

Lemma checked_read_fits v off n w x : bytes_ok v -> 0 <= off -> 0 <= n -> w = 8 * n ->
  checked_read n v off = Some x -> fits w x.
Proof.
  unfold checked_read. intros Hv Ho Hn -> . destruct (Z.leb_spec (off + n) (zlen v)); [|done].
  intros [= <-]. by apply be_val_fits.
Qed.

Lemma subview_from_ok v off r : bytes_ok v -> 0 <= off -> subview_from v off = Some r ->
  bytes_ok r /\ zlen r = zlen v - off.
Proof.
  intros Hv Ho E. destruct (Z.lt_trichotomy off (zlen v)) as [Hl|[->|Hl]].
  - rewrite subview_from_in in E by lia. injection E as <-. split; [by apply Forall_slice|].
    apply zlen_slice; lia.
  - destruct (subview_from_end v) as [E'|E']; rewrite E' in E; [done|]. injection E as <-.
    split; [constructor|]. change (zlen (@nil Z)) with 0. lia.
  - by rewrite subview_from_out in E.
Qed.

Lemma subview_from_app a b : b <> [] -> subview_from (a ++ b) (zlen a) = Some b.
Proof.
  intros Hb. assert (0 < zlen b) by (destruct b; [done|rewrite zlen_cons; pose proof (zlen_nonneg b); lia]).
  rewrite subview_from_in by (rewrite ?zlen_app; pose proof (zlen_nonneg a); lia).
  f_equal. rewrite slice_app_r by lia. rewrite Z.sub_diag, zlen_app.
  replace (zlen a + zlen b - zlen a) with (zlen b) by lia. apply slice_all.
Qed.

End ReadLemmas.

(** ** Lemmas: codecs *)

Section CodecLemmas.
Context `{CL : CraftppLaws}.

Lemma bytes4_word w view : fits 32 w -> concat_views [mem_bytes 4 (host_to_network_u32 w); view] = be_bytes 4 w ++ view.
Proof.
  intros. rewrite concat_views_concat. cbn. by rewrite host_to_network_u32_spec, app_nil_r.
Qed.

(** The big-endian bytes of a 32-bit word made of two bytes and a 16-bit half. *)
Lemma be_bytes_4_split b w : is_byte b -> fits 16 w ->
  be_bytes 4 (Z.lor w (Z.shiftl b 16)) = [0; b] ++ be_bytes 2 w.
Proof.
  unfold is_byte, fits. intros Hb Hw. rewrite Z.lor_comm, lor_shiftl_add by lia.
  cbn [be_bytes app]. change (256 ^ Z.of_nat 3) with 16777216. change (256 ^ Z.of_nat 2) with 65536.
  change (256 ^ Z.of_nat 1) with 256. change (256 ^ Z.of_nat 0) with 1. rewrite !Z.div_1_r.
  f_equal; [|f_equal; [|f_equal; [|f_equal]]].
  - rewrite Z.div_small; [done|lia].
  - rewrite Z.add_comm, Z.div_add, Z.div_small by lia. rewrite Z.add_0_l. apply Z.mod_small. lia.
  - replace (b * 2 ^ 16 + w) with (w + (b * 256) * 256) by lia.
    rewrite Z.div_add by lia. by rewrite Z.mod_add by lia.
  - replace (b * 2 ^ 16 + w) with (w + (b * 256) * 256) by lia. by rewrite Z.mod_add by lia.
Qed.

Lemma xport_fits p : fits 16 p -> fits 16 (Z.lxor p (Z.shiftr MAGIC_COOKIE 16)).
Proof. intros. by apply lxor_fits. Qed.

Lemma xport_inv p : fits 16 p ->
  u16 (Z.lxor (u16 (Z.lxor p (Z.shiftr MAGIC_COOKIE 16))) (Z.shiftr MAGIC_COOKIE 16)) = p.
Proof.
  intros Hp. rewrite (wrap_small 16 (Z.lxor p _)) by by apply xport_fits.
  rewrite Z.lxor_assoc, Z.lxor_nilpotent, Z.lxor_0_r. by apply wrap_small.
Qed.

Lemma address_word_reads b w view : is_byte b -> fits 16 w -> view <> [] ->
  let l := concat_views [mem_bytes 4 (host_to_network_u32 (u32 (Z.lor w (Z.shiftl b 16)))); view] in
  read_u8 l 1 = Some b /\ read_u16be l 2 = Some w /\ subview_from l 4 = Some view.
Proof.
  intros Hb Hw Hv. pose proof Hb as Hb'. unfold is_byte in Hb'. pose proof Hw as Hw'. unfold fits in Hw'.
  assert (fits 32 (Z.lor w (Z.shiftl b 16))) as Hf.
  { apply lor_fits; [lia|unfold fits; lia|]. unfold fits. rewrite Z.shiftl_mul_pow2 by lia. lia. }
  cbv zeta. rewrite wrap_small, bytes4_word, be_bytes_4_split by done.
  assert (zlen (([0; b] ++ be_bytes 2 w) ++ view) = 4 + zlen view) as Hlen
    by (rewrite !zlen_app, zlen_be_bytes; change (zlen [0; b]) with 2; lia).
  pose proof (zlen_nonneg view). split_and!.
  - rewrite read_u8_spec by lia. rewrite checked_read_in by lia.
    rewrite (slice_nth _ _ 0) by lia.
    change (nth (Z.to_nat 1) (([0; b] ++ be_bytes 2 w) ++ view) 0) with b. by rewrite be_val_one.
  - rewrite read_u16be_spec by lia. rewrite checked_read_in by lia.
    rewrite <- app_assoc, slice_app_r by done. change (2 - zlen [0; b]) with 0.
    rewrite slice_prefix by by rewrite zlen_be_bytes. by rewrite be_val_be_bytes_small.
  - apply (subview_from_app ([0; b] ++ be_bytes 2 w) view Hv).
Qed.

Lemma checked_read_all n x : 0 <= x < 256 ^ Z.of_nat n ->
  checked_read (Z.of_nat n) (be_bytes n x) 0 = Some x.
Proof. intros. rewrite <- (app_nil_r (be_bytes n x)). by apply checked_read_prefix. Qed.

(** [lift] of a successful result, and [on_err] around it, leave the state alone. *)
Lemma on_err_ok {S A B} (a : A) (f : S -> S) h (k : A -> SE S B) s :
  (on_err (lift (Ok a)) f h ≫= k) s = k a s.
Proof. reflexivity. Qed.

Lemma on_err_err {S A B} (e : Error) (f : S -> S) h (k : A -> SE S B) s :
  (on_err (lift (Err e)) f h ≫= k) s = (f s, Err (h e)).
Proof. reflexivity. Qed.

Lemma xor_mapped_roundtrip addr port st : xaddr_wf addr -> fits 16 port ->
  xor_mapped_parse (xor_mapped_build addr port) st = (st, Ok (XorMappedAddressAttribute addr port)).
Proof.
  intros Ha Hp. unfold xor_mapped_build, xor_mapped_parse.
  rewrite (wrap_small 16 (Z.lxor port _)) by by apply xport_fits.
  destruct (address_word_reads (family_to_uint8 (xaddr_family addr)) (Z.lxor port (Z.shiftr MAGIC_COOKIE 16))
    (xaddr_view addr)) as (-> & -> & ->).
  - destruct addr; unfold is_byte; cbn; unfold FAMILY_IPV4, FAMILY_IPV6; lia.
  - by apply xport_fits.
  - intros E. destruct addr; cbn in *; rewrite E in Ha; by destruct Ha.
  - cbn [require mbind result_bind].
    assert (combine2 xaddr_from_view (family_from_uint8 (family_to_uint8 (xaddr_family addr))) (Ok (xaddr_view addr))
            = Ok addr) as ->.
    { destruct addr as [v|v]; cbn in *; destruct Ha as [-> _]; done. }
    rewrite !on_err_ok. pose proof (xport_inv port Hp) as E.
    rewrite (wrap_small 16 (Z.lxor port _)) in E by by apply xport_fits. by rewrite E.
Qed.

Lemma error_code_roundtrip code reason : 0 <= code < 100 * 2 ^ 24 ->
  exists r', (forall st, error_code_parse (error_code_build code reason) st = (st, Ok (ErrorCodeAttribute code r'))) /\
    attribute_value_equiv (ErrorCodeAttribute code r') (ErrorCodeAttribute code reason).
Proof.
  intros Hc. unfold error_code_build, error_code_parse.
  pose proof (Z.div_mod code 100 ltac:(lia)) as Hdm. pose proof (Z.mod_pos_bound code 100 ltac:(lia)) as Hm.
  assert (0 <= code / 100 < 2 ^ 24) as Hd by (split; [apply Z.div_pos; lia|apply Z.div_lt_upper_bound; lia]).
  rewrite lor_shiftl_add by lia. set (w := code / 100 * 2 ^ 8 + code mod 100).
  assert (fits 32 w) as Hw by (unfold w, fits; lia).
  rewrite (wrap_small 32 w), bytes4_word by done.
  set (r := match reason with Some r => r | None => [] end).
  exists (subview_from (be_bytes 4 w ++ r) 4). rewrite read_u32be_spec by lia.
  rewrite (checked_read_prefix 4) by apply Hw. cbn [require]. split.
  - intros st. rewrite on_err_ok. unfold mret, se_ret. do 3 f_equal. rewrite Z.shiftr_div_pow2 by lia.
    assert (w / 2 ^ 8 = code / 100) as E1
      by (unfold w; rewrite Z.add_comm, Z.div_add, Z.div_small by lia; lia).
    assert (Z.land w 0xFF = code mod 100) as E2.
    { change 0xFF with (Z.ones 8). rewrite Z.land_ones by lia. unfold w.
      rewrite Z.add_comm, Z.mod_add by lia. apply Z.mod_small. lia. }
    rewrite E1, E2. rewrite wrap_small by (unfold fits; lia). lia.
  - split; [done|]. fold r. destruct r as [|b l] eqn:Er.
    + rewrite app_nil_r. change (subview_from ?x 4) with (subview_from x (zlen (be_bytes 4 w))).
      destruct (subview_from_end (be_bytes 4 w)) as [E|E]; by rewrite E.
    + change (subview_from ?x 4) with (subview_from x (zlen (be_bytes 4 w))). by rewrite subview_from_app.
Qed.

Lemma unknown_types_read types : Forall (fits 16) types -> forall pre,
  map (fun i => assured_read_u16be (pre ++ unknown_attributes_build types) (zlen pre + Z.of_nat i * 2))
      (seq 0 (length types)) = types.
Proof.
  unfold unknown_attributes_build. induction 1 as [|t types Ht Hts IH]; intros pre; [done|].
  cbn [length seq map flat_map]. rewrite host_to_network_u16_spec by done.
  set (rest := flat_map (fun t => mem_bytes 2 (host_to_network_u16 t)) types). f_equal.
  - pose proof (zlen_nonneg pre). pose proof (zlen_nonneg rest).
    rewrite Z.add_0_r. rewrite assured_read_u16be_spec by (rewrite ?zlen_app, ?zlen_be_bytes; lia).
    rewrite (slice_app pre (be_bytes 2 t) rest) by (try done; by rewrite zlen_be_bytes).
    by rewrite be_val_be_bytes_small by apply Ht.
  - specialize (IH (pre ++ be_bytes 2 t)). rewrite <- seq_shift, map_map. rewrite <- IH at 2.
    apply map_ext. intros i. rewrite <- app_assoc. f_equal. rewrite zlen_app, zlen_be_bytes. lia.
Qed.

Lemma zlen_unknown_build types : zlen (unknown_attributes_build types) = 2 * Z.of_nat (length types).
Proof.
  unfold unknown_attributes_build, zlen. induction types as [|t types IH]; [done|].
  cbn [flat_map length]. rewrite length_app, length_mem_bytes. lia.
Qed.

Lemma unknown_attributes_roundtrip types st : Forall (fits 16) types -> Z.of_nat (length types) <= 2 ^ 31 ->
  unknown_attributes_parse (unknown_attributes_build types) st = (st, Ok (UnknownAttributesAttribute types)).
Proof.
  intros H Hlen. unfold unknown_attributes_parse, unknown_attributes_types. rewrite zlen_unknown_build.
  rewrite Z.mul_comm, Z.mod_mul, Z.div_mul by lia. rewrite (wrap_small 32), Nat2Z.id by (unfold fits; lia). cbn [Z.eqb negb].
  pose proof (unknown_types_read types H []) as E. unfold mret, se_ret. do 3 f_equal. etransitivity; [|exact E].
  apply map_ext_in. intros i Hi%in_seq. rewrite wrap_small by (unfold fits; lia). reflexivity.
Qed.

Lemma attribute_parse_known type parse vv st : attribute_parser type = Some parse ->
  attribute_parse vv type st = (v ← parse vv; mret (pr_attribute (mk_Attribute type v))) st.
Proof. intros E. unfold attribute_parse. by rewrite E. Qed.

Lemma attribute_parse_known_ok type parse vv st v : attribute_parser type = Some parse ->
  parse vv st = (st, Ok v) ->
  attribute_parse vv type st = (st, Ok (pr_attribute (mk_Attribute type v))).
Proof. intros E Ep. rewrite (attribute_parse_known _ _ _ _ E). unfold mbind, se_bind. by rewrite Ep. Qed.

End CodecLemmas.

Lemma attribute_parse_view `{CL : CraftppLaws} v view :
  attribute_value_wf v -> attribute_encodable v -> attribute_view v = Some view ->
  exists v', (forall st, attribute_parse view (attribute_value_type v) st
             = (st, Ok (pr_attribute (mk_Attribute (attribute_value_type v) v')))) /\
             attribute_value_equiv v' v.
Proof.
  intros Hwf Henc Hview.
  destruct v; try done; cbn [attribute_view] in Hview; injection Hview as <-;
    cbn [attribute_value_wf] in Hwf; cbn [attribute_value_type].
  all: match goal with
       | |- context [ErrorCodeAttribute] => idtac
       | _ => eexists; split; [|reflexivity]; intros st; eapply attribute_parse_known_ok; [reflexivity|]
       end.
  - destruct Hwf. by apply xor_mapped_roundtrip.
  - done.
  - done.
  - rewrite host_to_network_u32_spec by done. unfold priority_parse.
    by rewrite read_u32be_spec, (checked_read_all 4) by (lia || apply Hwf).
  - rewrite host_to_network_u64_spec by done. unfold ice_controlling_parse.
    by rewrite read_u64be_spec, (checked_read_all 8) by (lia || apply Hwf).
  - rewrite host_to_network_u64_spec by done. unfold ice_controlled_parse.
    by rewrite read_u64be_spec, (checked_read_all 8) by (lia || apply Hwf).
  - done.
  - by apply unknown_attributes_roundtrip.
  - destruct (error_code_roundtrip code reason_phrase) as (r' & E & Heq).
    { cbn in Henc. destruct Hwf as [Hc _]. unfold fits in Hc. lia. }
    exists (ErrorCodeAttribute code r'). split; [|done].
    intros st. by apply (attribute_parse_known_ok _ error_code_parse).
Qed.

(** C18. Attribute codecs round trip: parsing the bytes that [AttributeSet::build] writes
    for a well-formed attribute gives the attribute back (an absent reason phrase may
    come back empty), with no error counted; for every kind of attribute except the plain
    addresses, error codes below 100 * 2^24, and lists of at most 2^31 unknown types. *)
Theorem attribute_roundtrip `{C : Craftpp} (CL : CraftppLaws C) (v : AttributeValue) (view : bytes) (st : ParseStat)
  (Hwf : attribute_value_wf v) (Henc : attribute_encodable v) (Hview : attribute_view v = Some view) :
  exists v', attribute_parse view (attribute_value_type v) st
             = (st, Ok (pr_attribute (mk_Attribute (attribute_value_type v) v'))) /\
             attribute_value_equiv v' v.
Proof.
  destruct (attribute_parse_view v view Hwf Henc Hview) as (v' & E & Hv). by exists v'.
Qed.

Lemma attribute_roundtrip_witness :
  exists v', attribute_parse (H := reference) [0; 0; 4; 20; 83] ERROR_CODE parse_stat_zero
             = (parse_stat_zero, Ok (pr_attribute (mk_Attribute ERROR_CODE v'))) /\
             attribute_value_equiv v' (ErrorCodeAttribute 420 (Some [83])).
Proof.
  apply (attribute_roundtrip reference_laws (ErrorCodeAttribute 420 (Some [83]))); [|done|reflexivity].
  split; [done|]. intros r [= <-]. repeat constructor; unfold is_byte; lia.
Defined.

(** ** Lemmas: what a parser can do *)

(** The outcome of a parser: success with a value that satisfies [P] and no counter
    touched, or a counted error. *)
Definition counted {A} (P : A -> Prop) (st : ParseStat) (o : ParseStat * Result A) : Prop :=
  match o with
  | (st', Ok a) => st' = st /\ P a
  | (st', Err _) => exists c, c <> ps_success /\ c <> ps_error /\ st' = stat_error c st
  end.

Section ParserLemmas.
Context `{CL : CraftppLaws}.

Lemma counted_bind {A B} (r : Result A) c h (k : A -> SE ParseStat B) P st :
  c <> ps_success -> c <> ps_error -> (forall a, r = Ok a -> counted P st (k a st)) ->
  counted P st ((on_err (lift r) (stat_error c) h ≫= k) st).
Proof.
  intros H1 H2 Hk. destruct r as [a|e]; [rewrite on_err_ok; by apply Hk|].
  rewrite on_err_err. cbn. eauto.
Qed.

Lemma counted_fail {A} c e (P : A -> Prop) st : c <> ps_success -> c <> ps_error ->
  counted P st (fail_with (stat_error c) e st).
Proof. intros. exists c. done. Qed.

(** A read that [require] turns into a result. *)
Lemma require_ok {A} (m : option A) a : require m = Ok a -> m = Some a.
Proof. destruct m; cbn; congruence. Qed.

(** The well-formedness of a value together with the type that goes with its class: what
    makes [Attribute::as] of the accessors non-null. *)
Definition attribute_wf (a : Attribute) : Prop :=
  a_type a = attribute_value_type (a_value a) /\ attribute_value_wf (a_value a).

Definition typed (type : Z) (v : AttributeValue) : Prop :=
  attribute_value_type v = type /\ attribute_value_wf v.

Lemma xor_mapped_parse_counted vv st : bytes_ok vv -> counted (typed XOR_MAPPED_ADDRESS) st (xor_mapped_parse vv st).
Proof.
  intros Hok. unfold xor_mapped_parse. apply counted_bind; [done..|]. intros xport Hx.
  apply counted_bind; [done..|]. intros xaddr Ha. split; [done|]. split; [done|].
  cbn. split; [|apply wrap_fits; lia].
  destruct (f ← require (read_u8 vv 1); family_from_uint8 f) as [f|]; [|done].
  destruct (require (subview_from vv 4)) as [v|] eqn:Ev; [|done]. cbn in Ha.
  apply require_ok in Ev. apply subview_from_ok in Ev as [Hv _]; [|done|lia].
  destruct f; cbn in Ha; case_match eqn:E; try done; injection Ha as <-; apply negb_false_iff, Z.eqb_eq in E; done.
Qed.

Lemma integrity_parse_counted vv st : bytes_ok vv -> counted (typed MESSAGE_INTEGRITY) st (integrity_parse vv st).
Proof.
  intros Hok. apply counted_bind; [done..|]. intros d Hd%require_ok. unfold hash_from_view in Hd.
  case_match eqn:E; [done|]. injection Hd as <-. apply negb_false_iff, Z.eqb_eq in E. done.
Qed.

Lemma word_parse_counted (w n : Z) (read : bytes -> Z -> option Z) (type : Z) (K : Z -> AttributeValue) vv c h st :
  bytes_ok vv -> 0 <= n -> w = 8 * n -> (forall v off, 0 <= off -> read v off = checked_read n v off) ->
  c <> ps_success -> c <> ps_error -> (forall x, fits w x -> typed type (K x)) ->
  counted (typed type) st ((x ← on_err (lift (require (read vv 0))) (stat_error c) h; mret (K x)) st).
Proof.
  intros Hok Hn Hw Hr H1 H2 HK. apply counted_bind; [done..|]. intros x Hx%require_ok.
  rewrite Hr in Hx by lia. split; [done|]. apply HK. by eapply checked_read_fits; [..|exact Hx].
Qed.

Lemma unknown_attributes_parse_counted vv st : bytes_ok vv ->
  counted (typed UNKNOWN_ATTRIBUTES) st (unknown_attributes_parse vv st).
Proof.
  intros Hok. unfold unknown_attributes_parse. destruct (negb (zlen vv mod 2 =? 0)) eqn:E.
  { by apply counted_fail. }
  split; [done|]. split; [done|]. cbn. unfold unknown_attributes_types. apply Forall_forall. intros t Ht.
  apply list_elem_of_In, in_map_iff in Ht as (i & <- & Hi). apply in_seq in Hi.
  apply negb_false_iff, Z.eqb_eq in E. pose proof (Z.div_mod (zlen vv) 2 ltac:(lia)).
  unfold wrap in Hi. pose proof (Z.mod_le (zlen vv / 2) (2 ^ 32) ltac:(pose proof (zlen_nonneg vv); lia) ltac:(lia)).
  pose proof (Z.mod_le (Z.of_nat i * 2) (2 ^ 32) ltac:(lia) ltac:(lia)). pose proof (Z.mod_pos_bound (Z.of_nat i * 2) (2 ^ 32) ltac:(lia)).
  rewrite assured_read_u16be_spec by (unfold wrap; lia). apply be_val_fits; [done|unfold wrap; lia..].
Qed.

Lemma error_code_parse_counted vv st : bytes_ok vv -> counted (typed ERROR_CODE) st (error_code_parse vv st).
Proof.
  intros Hok. unfold error_code_parse. apply counted_bind; [done..|]. intros w _.
  split; [done|]. split; [done|]. cbn. split; [apply wrap_fits; lia|].
  intros r Hr. by apply subview_from_ok in Hr as [? _]; [|done|lia].
Qed.

(** The plain addresses: a value of less than five bytes is an error that is not counted. *)
Lemma mapped_parse_outcome vv st : bytes_ok vv ->
  counted (fun ap => address_wf ap.1 /\ fits 16 ap.2) st (mapped_parse vv st) \/
  (zlen vv <= 4 /\ exists e, mapped_parse vv st = (st, Err e)).
Proof.
  intros Hok. unfold mapped_parse, combine3_se.
  destruct (read_u8 vv 1) as [f|] eqn:Ef; [destruct (read_u16be vv 2) as [p|] eqn:Ep;
    [destruct (subview_from vv 4) as [v|] eqn:Ev|]|]; cbn [require].
  - left. apply counted_bind; [done..|]. intros a Ha. split; [done|]. cbn [fst snd].
    apply subview_from_ok in Ev as [Hv _]; [|done|lia].
    rewrite read_u16be_spec in Ep by lia. split; [|by eapply checked_read_fits; [..|exact Ep]].
    unfold mapped_address, address_v4_from_view, address_v6_from_view, address_tpl_from_view, address_size in Ha.
    repeat (case_match; try done); simplify_eq/=; split; try done; by apply Z.eqb_eq, negb_false_iff.
  - right. split; [|eauto]. destruct (Z.le_gt_cases (zlen vv) 4) as [|Hl]; [done|].
    by rewrite subview_from_in in Ev by lia.
  - right. split; [|eauto]. rewrite read_u16be_spec in Ep by lia.
    destruct (Z.le_gt_cases (zlen vv) 4) as [|Hl]; [done|]. by rewrite checked_read_in in Ep by lia.
  - right. split; [|eauto]. rewrite read_u8_spec in Ef by lia.
    destruct (Z.le_gt_cases (zlen vv) 4) as [|Hl]; [done|]. by rewrite checked_read_in in Ef by lia.
Qed.

(** Too short for a plain address: the errors of [combine] are returned without a count. *)
Definition short_address (vv : bytes) (type : Z) : Prop :=
  (type = MAPPED_ADDRESS \/ type = ALTERNATE_SERVER) /\ zlen vv <= 4.

Definition parsed_wf (type : Z) (pr : AttrParseResult) : Prop :=
  match pr with
  | pr_attribute a => a_type a = type /\ attribute_wf a
  | pr_unknown u => ua_type u = type /\ bytes_ok (ua_data u) /\ attribute_parser type = None
  end.

Lemma counted_wrap type parse vv st : attribute_parser type = Some parse ->
  counted (typed type) st (parse vv st) ->
  counted (parsed_wf type) st (attribute_parse vv type st).
Proof.
  intros E H. rewrite (attribute_parse_known _ _ _ _ E). unfold mbind, se_bind.
  destruct (parse vv st) as [st' [v|e]]; [|done]. destruct H as [-> [<- Hv]]. done.
Qed.

Lemma attribute_parse_outcome vv type st : bytes_ok vv ->
  counted (parsed_wf type) st (attribute_parse vv type st) \/
  (short_address vv type /\ exists e, attribute_parse vv type st = (st, Err e)).
Proof.
  intros Hok. destruct (attribute_parser type) as [parse|] eqn:Ep.
  2:{ left. unfold attribute_parse. by rewrite Ep. }
  pose proof Ep as Ep'. unfold attribute_parser in Ep'.
  destruct (Z.eqb_spec type MAPPED_ADDRESS) as [->|_];
    [|destruct (Z.eqb_spec type XOR_MAPPED_ADDRESS) as [->|_];
    [|destruct (Z.eqb_spec type USERNAME) as [->|_];
    [|destruct (Z.eqb_spec type SOFTWARE) as [->|_];
    [|destruct (Z.eqb_spec type MESSAGE_INTEGRITY) as [->|_];
    [|destruct (Z.eqb_spec type FINGERPRINT) as [->|_];
    [|destruct (Z.eqb_spec type PRIORITY) as [->|_];
    [|destruct (Z.eqb_spec type ICE_CONTROLLING) as [->|_];
    [|destruct (Z.eqb_spec type ICE_CONTROLLED) as [->|_];
    [|destruct (Z.eqb_spec type USE_CANDIDATE) as [->|_];
    [|destruct (Z.eqb_spec type ERROR_CODE) as [->|_];
    [|destruct (Z.eqb_spec type ALTERNATE_SERVER) as [->|_];
    [|destruct (Z.eqb_spec type UNKNOWN_ATTRIBUTES) as [->|_]; [|done]]]]]]]]]]]]];
    injection Ep' as <-.
  1,12: destruct (mapped_parse_outcome vv st Hok) as [H|(Hl & e & H)];
    [ left; apply (counted_wrap _ _ _ _ Ep); unfold mapped_attr_parse, alternate_server_parse, mbind, se_bind;
      destruct (mapped_parse vv st) as [st' [[a p]|]]; [destruct H as [-> [? ?]]|exact H]; done
    | right; split; [by split; [auto|]|];
      rewrite (attribute_parse_known _ _ _ _ Ep); unfold mapped_attr_parse, alternate_server_parse, mbind, se_bind;
      rewrite H; eauto ].
  all: left; apply (counted_wrap _ _ _ _ Ep).
  - by apply xor_mapped_parse_counted.
  - done.
  - done.
  - by apply integrity_parse_counted.
  - apply (word_parse_counted 32 4 read_u32be FINGERPRINT (fun c => FingerprintAttribute (Z.lxor c FINGERPRINT_XOR)));
      try done. { apply read_u32be_spec. } intros x Hx. split; [done|]. by apply lxor_fits.
  - apply (word_parse_counted 32 4 read_u32be PRIORITY PriorityAttribute); try done. apply read_u32be_spec.
  - apply (word_parse_counted 64 8 read_u64be ICE_CONTROLLING IceControllingAttribute); try done. apply read_u64be_spec.
  - apply (word_parse_counted 64 8 read_u64be ICE_CONTROLLED IceControlledAttribute); try done. apply read_u64be_spec.
  - unfold use_candidate_parse. case_match; [by apply counted_fail|done].
  - by apply error_code_parse_counted.
  - by apply unknown_attributes_parse_counted.
Qed.

End ParserLemmas.

(** The encoder of plain addresses loses the address family: [family >> 16] is zero,
    so parsing what [MappedAddressAttribute::build] (and with it
    [AlternateServerAttribute::build]) writes fails with [unknown_addr_family] for every
    address and port. *)
Theorem mapped_build_not_parsed `{C : Craftpp} (CL : CraftppLaws C) (addr : Address) (port : Z) (st : ParseStat)
  (Ha : address_wf addr) (Hp : fits 16 port) :
  attribute_parse (mapped_build addr port) MAPPED_ADDRESS st
    = (stat_error ps_invalid_ip_address st, Err (parse_error pe_unknown_addr_family)) /\
  attribute_parse (alternate_server_build addr port) ALTERNATE_SERVER st
    = (stat_error ps_invalid_ip_address st, Err (parse_error pe_unknown_addr_family)).
Proof.
  assert (exists v, v <> [] /\ mapped_build addr port
          = concat_views [mem_bytes 4 (host_to_network_u32 (u32 (Z.lor port (Z.shiftl 0 16)))); v]) as (v & Hv & E).
  { assert (u32 (Z.lor port (Z.shiftl 0 16)) = port) as ->
      by (rewrite Z.shiftl_0_l, Z.lor_0_r; apply wrap_small; unfold fits in *; lia).
    destruct addr as [v|v]; destruct Ha as [Hl _]; exists v;
      (split; [intros ->; done|]); unfold mapped_build; cbn [Z.shiftr Z.shiftl]; by rewrite Z.lor_0_r. }
  destruct (address_word_reads 0 port v ltac:(done) Hp Hv) as (E1 & E2 & E3). rewrite <- E in E1, E2, E3.
  assert (mapped_parse (mapped_build addr port) st
          = (stat_error ps_invalid_ip_address st, Err (parse_error pe_unknown_addr_family))) as Em.
  { unfold mapped_parse. by rewrite E1, E2, E3. }
  unfold alternate_server_build. rewrite (attribute_parse_known MAPPED_ADDRESS mapped_attr_parse), 
    (attribute_parse_known ALTERNATE_SERVER alternate_server_parse) by done.
  unfold mapped_attr_parse, alternate_server_parse, mbind, se_bind. by rewrite Em.
Qed.

Lemma mapped_build_not_parsed_witness :
  attribute_parse (H := reference) (mapped_build (H := reference) (AddressV4 [10; 0; 0; 1]) 3478) MAPPED_ADDRESS parse_stat_zero
    = (stat_error ps_invalid_ip_address parse_stat_zero, Err (parse_error pe_unknown_addr_family)).
Proof.
  apply (mapped_build_not_parsed reference_laws (AddressV4 [10; 0; 0; 1]) 3478); [|done].
  split; [done|]. repeat constructor; unfold is_byte; lia.
Defined.
