(* ===== verification/StunAttrSet.v ===== *)
(** * stun/stun_attribute_set: the attribute container and the message encoder

    The container keeps the first attribute of each known type in a hash map and the
    unknown attributes in order. [attribute_set_build] is [AttributeSet::build] with its
    buffers: the list of views, the running size, the attribute headers. The lemmas show
    that the encoder writes a sequence of type-length-value records after the header. *)

From S2P Require Import Prelude Errors Craftpp Util Net Crypto StunBase StunCrc StunAttr.

(** ** The container *)

Record AttributeSet : Type := mk_AttributeSet {
  m_map : gmap Z Attribute;
  m_unknown : list UnknownAttribute
}.

Definition attribute_set_empty : AttributeSet := mk_AttributeSet ∅ [].

(** [emplace(Attribute&&)]: the first attribute of a type stays. *)
Definition as_emplace (a : Attribute) (s : AttributeSet) : AttributeSet :=
  match m_map s !! a_type a with
  | Some _ => s
  | None => mk_AttributeSet (<[a_type a := a]> (m_map s)) (m_unknown s)
  end.

Definition as_emplace_unknown (u : UnknownAttribute) (s : AttributeSet) : AttributeSet :=
  mk_AttributeSet (m_map s) (m_unknown s ++ [u]).

Definition attribute_set_create (ka : list AttributeValue) (ua : list UnknownAttribute) : AttributeSet :=
  let newset := fold_left (fun s a => as_emplace (attribute_create a) s) ka attribute_set_empty in
  fold_left (fun s u => as_emplace_unknown u s) ua newset.

(** *** [Attribute::as<T>]: null unless the value is of class T *)

Definition as_integrity (v : AttributeValue) : option bytes :=
  match v with MessageIntegityAttribute d => Some d | _ => None end.
Definition as_username (v : AttributeValue) : option bytes :=
  match v with UsernameAttribute n => Some n | _ => None end.
Definition as_software (v : AttributeValue) : option bytes :=
  match v with SoftwareAttribute n => Some n | _ => None end.
Definition as_xor_mapped (v : AttributeValue) : option (XoredAddress * Z) :=
  match v with XorMappedAddressAttribute a p => Some (a, p) | _ => None end.
Definition as_mapped (v : AttributeValue) : option (Address * Z) :=
  match v with MappedAddressAttribute a p => Some (a, p) | _ => None end.
Definition as_priority (v : AttributeValue) : option Z :=
  match v with PriorityAttribute p => Some p | _ => None end.
Definition as_ice_controlling (v : AttributeValue) : option Z :=
  match v with IceControllingAttribute t => Some t | _ => None end.
Definition as_ice_controlled (v : AttributeValue) : option Z :=
  match v with IceControlledAttribute t => Some t | _ => None end.
Definition as_error_code (v : AttributeValue) : option (Z * option bytes) :=
  match v with ErrorCodeAttribute c r => Some (c, r) | _ => None end.
Definition as_unknown_attributes (v : AttributeValue) : option (list Z) :=
  match v with UnknownAttributesAttribute t => Some t | _ => None end.
Definition as_alternate_server (v : AttributeValue) : option (Address * Z) :=
  match v with AlternateServerAttribute a p => Some (a, p) | _ => None end.

(** An accessor: find the type, then dereference [as<T>()]. The inner [None] is the
    dereference of a null pointer, which [attribute_set_accessors] excludes. *)
Definition as_find {A} (type : Z) (as_T : AttributeValue -> option A) (s : AttributeSet)
    : option (option A) :=
  (fun a => as_T (a_value a)) <$> m_map s !! type.

Definition get {A} (type : Z) (as_T : AttributeValue -> option A) (s : AttributeSet) : option A :=
  mjoin (as_find type as_T s).

Definition integrity : AttributeSet -> option bytes := get MESSAGE_INTEGRITY as_integrity.
Definition username : AttributeSet -> option bytes := get USERNAME as_username.
Definition software : AttributeSet -> option bytes := get SOFTWARE as_software.
Definition xor_mapped : AttributeSet -> option (XoredAddress * Z) := get XOR_MAPPED_ADDRESS as_xor_mapped.
Definition mapped : AttributeSet -> option (Address * Z) := get MAPPED_ADDRESS as_mapped.
Definition priority : AttributeSet -> option Z := get PRIORITY as_priority.
Definition ice_controlling : AttributeSet -> option Z := get ICE_CONTROLLING as_ice_controlling.
Definition ice_controlled : AttributeSet -> option Z := get ICE_CONTROLLED as_ice_controlled.
Definition error_code_attr : AttributeSet -> option (Z * option bytes) := get ERROR_CODE as_error_code.
Definition unknown_attributes : AttributeSet -> option (list Z) := get UNKNOWN_ATTRIBUTES as_unknown_attributes.
Definition alternate_server : AttributeSet -> option (Address * Z) := get ALTERNATE_SERVER as_alternate_server.

Definition has_use_candidate (s : AttributeSet) : bool := bool_decide (is_Some (m_map s !! USE_CANDIDATE)).
Definition has_fingerprint (s : AttributeSet) : bool := bool_decide (is_Some (m_map s !! FINGERPRINT)).

Definition unknown_comprehension_required (s : AttributeSet) : list Z :=
  map ua_type (filter (fun u => is_comprehension_required (ua_type u) = true) (m_unknown s)).

(** ** AttributeSet::build *)

(** The order in which [std::unordered_map] iterates is unspecified: it visits every
    entry once. *)
Class MapOrder : Type := { map_iter : gmap Z Attribute -> list (Z * Attribute) }.
Class MapOrderLaws `(O : MapOrder) : Prop := { map_iter_perm m : map_iter m ≡ₚ map_to_list m }.

#[export] Instance key_order : MapOrder := {| map_iter := map_to_list |}.
#[export] Instance key_order_laws : MapOrderLaws key_order.
Proof. by split. Qed.

(** The buffers that [add_attr] fills: the views, the number of attribute headers in use
    and [total_size]. *)
Record BuildState : Type := mk_BuildState {
  bs_result : list bytes;
  bs_headers : nat;
  bs_total_size : Z
}.

Section Build.
Context `{Craftpp} `{MapOrder}.

(** The views [add_attr] appends to [result]. *)
Definition attr_header (type : Z) (view : bytes) : bytes :=
  mem_bytes 4 (host_to_network_u32 (u32 (Z.lor (Z.shiftl type 16) (zlen view)))).

Definition add_attr (type : Z) (view : bytes) (st : BuildState) : BuildState :=
  let result := bs_result st ++ [attr_header type view] in
  let total_size := u32 (bs_total_size st + 4) in
  let headers := S (bs_headers st) in
  if negb (zlen view =? 0) then
    let result := result ++ [view] in
    let total_size := u32 (total_size + zlen view) in
    if negb (Z.land (zlen view) 0x3 =? 0) then
      let padding_size := 4 - zlen view mod 4 in
      mk_BuildState (result ++ [replicate (Z.to_nat padding_size) 0]) headers
                    (u32 (total_size + padding_size))
    else mk_BuildState result headers total_size
  else mk_BuildState result headers total_size.

(** One step of the loop over [m_map]: the visitor's view, if it has one, under the key of
    the map. *)
Definition build_visit (p : Z * Attribute) (st : BuildState) : BuildState :=
  match attribute_view (a_value p.2) with
  | Some view => add_attr p.1 view st
  | None => st
  end.

(** The loops over [m_map] and [m_unknown]. *)
Definition build_attrs (s : AttributeSet) : BuildState :=
  let st0 := mk_BuildState [[]] 0 0 in
  let st1 := fold_left (fun st p => build_visit p st) (map_iter (m_map s)) st0 in
  fold_left (fun st u => add_attr (ua_type u) (ua_data u) st) (m_unknown s) st1.

(** [result[0] = header]. *)
Definition set_header (header : bytes) (st : BuildState) : BuildState :=
  mk_BuildState (<[0%nat := header]> (bs_result st)) (bs_headers st) (bs_total_size st).

Definition add_integrity (header : Header) (idata : IntegrityData) (st : BuildState) : Result BuildState :=
  let fake_header := header_build header (bs_total_size st + STUN_ATTR_HEADER_SIZE + SHA1_SIZE) in
  let st := set_header fake_header st in
  let p := id_password idata in
  digest ← hmac_digest (bs_result st) (m_opad p) (m_ipad p) (id_hash idata);
  Ok (add_attr MESSAGE_INTEGRITY digest st).

Definition add_fingerprint (header : Header) (st : BuildState) : BuildState :=
  let real_header := header_build header (bs_total_size st + FINGERPRINT_CRC_SIZE + STUN_ATTR_HEADER_SIZE) in
  let st := set_header real_header st in
  let fp := Z.lxor (crc32_views (bs_result st)) FINGERPRINT_XOR in
  add_attr FINGERPRINT (mem_bytes 4 (host_to_network_u32 fp)) st.

Definition no_fingerprint (header : Header) (st : BuildState) : BuildState :=
  set_header (header_build header (bs_total_size st)) st.

(** The state when the buffers are complete. *)
Definition build_state (s : AttributeSet) (header : Header) (maybe_integrity : option IntegrityData)
    : Result BuildState :=
  st ← match maybe_integrity with
       | Some idata => add_integrity header idata (build_attrs s)
       | None => Ok (build_attrs s)
       end;
  Ok (if bool_decide (is_Some (m_map s !! FINGERPRINT)) then add_fingerprint header st
      else no_fingerprint header st).

Definition attribute_set_build (s : AttributeSet) (header : Header) (maybe_integrity : option IntegrityData)
    : Result bytes :=
  st ← build_state s header maybe_integrity; Ok (concat_views (bs_result st)).

(** The size of the vector [attr_headers], which never grows. *)
Definition num_attrs (s : AttributeSet) (maybe_integrity : option IntegrityData) : nat :=
  (size (m_map s) + length (m_unknown s) + match maybe_integrity with Some _ => 1 | None => 0 end)%nat.

End Build.

(** ** Well-formed sets *)

Record attribute_set_wf (s : AttributeSet) : Prop := {
  wf_map k a : m_map s !! k = Some a -> a_type a = k /\ attribute_wf a;
  wf_unknown u : u ∈ m_unknown s ->
    bytes_ok (ua_data u) /\ fits 16 (ua_type u) /\ ua_type u ∉ known_types
}.

(** ** Lemmas: the container *)

Lemma as_emplace_lookup a s k : m_map (as_emplace a s) !! k =
  match m_map s !! k with
  | Some x => Some x
  | None => if decide (a_type a = k) then Some a else None
  end.
Proof.
  unfold as_emplace. destruct (m_map s !! a_type a) eqn:E.
  - case_decide; [subst; by rewrite E|by destruct (m_map s !! k)].
  - cbn. rewrite lookup_insert. case_decide; [subst; by rewrite E|by destruct (m_map s !! k)].
Qed.

Lemma as_emplace_unknown_eq a s : m_unknown (as_emplace a s) = m_unknown s.
Proof. unfold as_emplace. by case_match. Qed.

(** The first attribute of a type. *)
Definition first_of_type (k : Z) (l : list Attribute) : option Attribute :=
  head (filter (fun a => a_type a = k) l).

Lemma first_of_type_cons k a l :
  first_of_type k (a :: l) = if decide (a_type a = k) then Some a else first_of_type k l.
Proof. unfold first_of_type. rewrite filter_cons. by case_decide. Qed.

Lemma emplace_fold_lookup l : forall s k, m_map (fold_left (fun s a => as_emplace a s) l s) !! k =
  match m_map s !! k with Some x => Some x | None => first_of_type k l end.
Proof.
  induction l as [|a l IH]; intros s k; cbn [fold_left]; [by destruct (m_map s !! k)|].
  rewrite IH, as_emplace_lookup, first_of_type_cons. destruct (m_map s !! k); [done|]. by case_decide.
Qed.

Lemma emplace_fold_unknown l : forall s, m_unknown (fold_left (fun s a => as_emplace a s) l s) = m_unknown s.
Proof. induction l as [|a l IH]; intros s; [done|]. cbn. by rewrite IH, as_emplace_unknown_eq. Qed.

Lemma emplace_unknown_fold ua : forall s,
  fold_left (fun s u => as_emplace_unknown u s) ua s = mk_AttributeSet (m_map s) (m_unknown s ++ ua).
Proof.
  induction ua as [|u ua IH]; intros s; cbn; [rewrite app_nil_r; by destruct s|].
  rewrite IH. cbn. by rewrite <- app_assoc.
Qed.

Lemma fold_left_map {A B C} (f : C -> B -> C) (g : A -> B) l : forall c,
  fold_left (fun c a => f c (g a)) l c = fold_left f (map g l) c.
Proof. induction l; intros; cbn; auto. Qed.

Lemma attribute_set_create_eq ka ua k :
  m_map (attribute_set_create ka ua) !! k = first_of_type k (map attribute_create ka) /\
  m_unknown (attribute_set_create ka ua) = ua.
Proof.
  unfold attribute_set_create. rewrite emplace_unknown_fold. cbn [m_map m_unknown].
  rewrite (fold_left_map (fun s a => as_emplace a s) attribute_create).
  rewrite emplace_fold_lookup, emplace_fold_unknown. cbn. by rewrite lookup_empty.
Qed.

Lemma first_of_type_Some k l a : first_of_type k l = Some a -> a ∈ l /\ a_type a = k.
Proof.
  unfold first_of_type. destruct (filter _ l) as [|b m] eqn:E; [done|]. intros [= ->].
  assert (a ∈ filter (fun a => a_type a = k) l) as Hin by (rewrite E; set_solver).
  apply list_elem_of_filter in Hin. tauto.
Qed.

(** The accessor [f] reads the attributes of a type, whose class is [class]. *)
Definition reads {A} (s : AttributeSet) (type : Z) (class : A -> AttributeValue) (f : AttributeSet -> option A) : Prop :=
  (fun x => mk_Attribute type (class x)) <$> f s = m_map s !! type.

Lemma get_reads {A} type (class : A -> AttributeValue) (as_T : AttributeValue -> option A) s : attribute_set_wf s ->
  (forall v, attribute_value_type v = type -> exists x, v = class x /\ as_T v = Some x) ->
  reads s type class (get type as_T).
Proof.
  intros Hs HT. unfold reads, get, as_find. destruct (m_map s !! type) as [[ty v]|] eqn:E; [|done]. cbn.
  destruct (wf_map s Hs type _ E) as [Et [Ev _]]. cbn in *. destruct (HT v) as (x & -> & ->); [congruence|]. cbn. by rewrite Et.
Qed.

Lemma has_class s type : attribute_set_wf s ->
  bool_decide (is_Some (m_map s !! type)) = true <-> exists v, m_map s !! type = Some (mk_Attribute type v) /\ attribute_value_type v = type.
Proof.
  intros Hs. rewrite bool_decide_eq_true. split; [|intros (v & -> & _); by eexists].
  intros [[ty v] E]. destruct (wf_map s Hs type _ E) as [Et [Ev _]]. cbn in *. subst ty. by exists v.
Qed.

Lemma attribute_set_create_wf ka ua : Forall attribute_value_wf ka ->
  Forall (fun u => bytes_ok (ua_data u) /\ fits 16 (ua_type u) /\ ua_type u ∉ known_types) ua ->
  attribute_set_wf (attribute_set_create ka ua).
Proof.
  intros Hka Hua. split.
  - intros k a. destruct (attribute_set_create_eq ka ua k) as [-> _]. intros [Ha <-]%first_of_type_Some.
    split; [done|]. apply list_elem_of_In, in_map_iff in Ha as (v & <- & Hv).
    split; [done|]. rewrite Forall_forall in Hka. by apply Hka, list_elem_of_In.
  - destruct (attribute_set_create_eq ka ua 0) as [_ ->]. intros u Hu. rewrite Forall_forall in Hua. by apply Hua.
Qed.

(** C36. The accessors of [AttributeSet]. On a well-formed set, that is one whose entries are
    filed under the type of their class, each accessor returns an attribute exactly when the
    set holds one of its type, and returns its value: so the pointer of [as<T>] that it
    dereferences is never null. Every set made by [AttributeSet::create] from well-formed
    values is well-formed, keeps the first attribute of each type, and keeps the unknown
    attributes in order. *)
Theorem attribute_set_accessors :
  (forall s, attribute_set_wf s ->
     reads s MESSAGE_INTEGRITY MessageIntegityAttribute integrity /\
     reads s USERNAME UsernameAttribute username /\
     reads s SOFTWARE SoftwareAttribute software /\
     reads s XOR_MAPPED_ADDRESS (uncurry XorMappedAddressAttribute) xor_mapped /\
     reads s MAPPED_ADDRESS (uncurry MappedAddressAttribute) mapped /\
     reads s PRIORITY PriorityAttribute priority /\
     reads s ICE_CONTROLLING IceControllingAttribute ice_controlling /\
     reads s ICE_CONTROLLED IceControlledAttribute ice_controlled /\
     reads s ERROR_CODE (uncurry ErrorCodeAttribute) error_code_attr /\
     reads s UNKNOWN_ATTRIBUTES UnknownAttributesAttribute unknown_attributes /\
     reads s ALTERNATE_SERVER (uncurry AlternateServerAttribute) alternate_server /\
     (has_use_candidate s = true <-> m_map s !! USE_CANDIDATE = Some (mk_Attribute USE_CANDIDATE UseCandidateAttribute)) /\
     (has_fingerprint s = true <-> exists crc, m_map s !! FINGERPRINT = Some (mk_Attribute FINGERPRINT (FingerprintAttribute crc)))) /\
  (forall ka ua, Forall attribute_value_wf ka ->
     Forall (fun u => bytes_ok (ua_data u) /\ fits 16 (ua_type u) /\ ua_type u ∉ known_types) ua ->
     attribute_set_wf (attribute_set_create ka ua) /\
     (forall k, m_map (attribute_set_create ka ua) !! k
                = head (filter (fun a => a_type a = k) (map attribute_create ka))) /\
     m_unknown (attribute_set_create ka ua) = ua).
Proof.
  split.
  - intros s Hs. split_and!.
    1-11: apply get_reads; [done|]; intros []; try done; intros _; cbn; eexists; (split; [|reflexivity]); done.
    + unfold has_use_candidate. rewrite (has_class s _ Hs). split; [|by eexists]. intros (v & E & Hv). by destruct v.
    + unfold has_fingerprint. rewrite (has_class s _ Hs). split; [|intros [crc E]; by eexists]. intros (v & E & Hv). destruct v; try done. by eexists.
  - intros ka ua Hka Hua. split; [by apply attribute_set_create_wf|].
    split; [intros k|]; [by destruct (attribute_set_create_eq ka ua k)|by destruct (attribute_set_create_eq ka ua 0)].
Qed.

Lemma attribute_set_accessors_witness :
  let s := attribute_set_create [PriorityAttribute 7; PriorityAttribute 8] [mk_UnknownAttribute 0x7777 [1]] in
  reads s PRIORITY PriorityAttribute priority /\
  m_map s !! PRIORITY = Some (mk_Attribute PRIORITY (PriorityAttribute 7)).
Proof.
  destruct attribute_set_accessors as [H1 H2].
  destruct (H2 [PriorityAttribute 7; PriorityAttribute 8] [mk_UnknownAttribute 0x7777 [1]]) as (Hwf & Hl & _).
  - by repeat constructor.
  - constructor; [|constructor]. split_and!; [repeat constructor; unfold is_byte; lia|done|].
    by apply (bool_decide_unpack _).
  - cbv zeta. split; [apply (H1 _ Hwf)|]. rewrite Hl. reflexivity.
Defined.

(** ** The message format: header and type-length-value records *)

Definition padding_of (n : Z) : Z := (- n) mod 4.

(** A record: type, length, value, zero padding to a multiple of four. *)
Definition tlv_bytes (tv : Z * bytes) : bytes :=
  be_bytes 2 tv.1 ++ be_bytes 2 (zlen tv.2) ++ tv.2 ++ replicate (Z.to_nat (padding_of (zlen tv.2))) 0.

Definition tlvs_bytes (l : list (Z * bytes)) : bytes := List.concat (map tlv_bytes l).

(** A record that the 16-bit fields can hold. *)
Definition tlv_fits (tv : Z * bytes) : Prop := fits 16 tv.1 /\ zlen tv.2 < 2 ^ 16.

Section Format.
Context `{Craftpp} `{MapOrder}.

(** The records of the attributes of a set, in the order of the encoder. *)
Definition map_tlvs (l : list (Z * Attribute)) : list (Z * bytes) :=
  omap (fun p => pair p.1 <$> attribute_view (a_value p.2)) l.

Definition attrs_tlvs (s : AttributeSet) : list (Z * bytes) :=
  map_tlvs (map_iter (m_map s)) ++ map (fun u => (ua_type u, ua_data u)) (m_unknown s).

(** RFC 5389: the MESSAGE-INTEGRITY covers the message before it, with a length that
    counts the integrity attribute; the FINGERPRINT covers everything before it. *)
Definition integrity_tlv (hd : Header) (mac : bytes -> bytes) (body : bytes) : Z * bytes :=
  (MESSAGE_INTEGRITY, mac (header_bytes hd (zlen body + 24) ++ body)).

Definition fingerprint_tlv (hd : Header) (body : bytes) : Z * bytes :=
  (FINGERPRINT, be_bytes 4 (Z.lxor (crc32 (header_bytes hd (zlen body + 8) ++ body)) FINGERPRINT_XOR)).

Definition message_tlvs (hd : Header) (s : AttributeSet) (maybe_mac : option (bytes -> bytes)) : list (Z * bytes) :=
  let l0 := attrs_tlvs s in
  let l1 := l0 ++ match maybe_mac with Some mac => [integrity_tlv hd mac (tlvs_bytes l0)] | None => [] end in
  l1 ++ if bool_decide (is_Some (m_map s !! FINGERPRINT)) then [fingerprint_tlv hd (tlvs_bytes l1)] else [].

Definition message_bytes (hd : Header) (s : AttributeSet) (maybe_mac : option (bytes -> bytes)) : bytes :=
  let body := tlvs_bytes (message_tlvs hd s maybe_mac) in header_bytes hd (zlen body) ++ body.

End Format.

(** ** Lemmas: records *)

Lemma padding_of_cases n : 0 <= n ->
  padding_of n = (if Z.land n 0x3 =? 0 then 0 else 4 - n mod 4) /\ 0 <= padding_of n < 4 /\
  (n + padding_of n) mod 4 = 0.
Proof.
  intros Hn. unfold padding_of. change 0x3 with (Z.ones 2). rewrite Z.land_ones by lia. change (2 ^ 2) with 4.
  pose proof (Z.mod_pos_bound n 4 ltac:(lia)). pose proof (Z.mod_pos_bound (-n) 4 ltac:(lia)).
  destruct (Z.eqb_spec (n mod 4) 0) as [E|E].
  - rewrite Z.mod_opp_l_z by lia. rewrite Z.add_0_r. lia.
  - rewrite Z.mod_opp_l_nz by lia. split_and!; [done|lia|lia|].
    rewrite (Z.div_mod n 4) at 1 by lia. replace (4 * (n / 4) + n mod 4 + (4 - n mod 4)) with ((n / 4 + 1) * 4) by lia.
    apply Z.mod_mul. lia.
Qed.

Lemma zlen_tlv_bytes tv : zlen (tlv_bytes tv) = 4 + zlen tv.2 + padding_of (zlen tv.2).
Proof.
  destruct (padding_of_cases (zlen tv.2) (zlen_nonneg _)) as (_ & ? & _).
  unfold tlv_bytes. rewrite !zlen_app, !zlen_be_bytes, zlen_replicate. lia.
Qed.

Lemma tlvs_bytes_app a b : tlvs_bytes (a ++ b) = tlvs_bytes a ++ tlvs_bytes b.
Proof. unfold tlvs_bytes. by rewrite map_app, concat_app. Qed.

Lemma tlvs_bytes_one tv : tlvs_bytes [tv] = tlv_bytes tv.
Proof. unfold tlvs_bytes. cbn [map List.concat]. apply app_nil_r. Qed.

Lemma tlvs_bytes_cons tv l : tlvs_bytes (tv :: l) = tlv_bytes tv ++ tlvs_bytes l.
Proof. reflexivity. Qed.

Lemma zlen_tlvs_mod l : zlen (tlvs_bytes l) mod 4 = 0.
Proof.
  induction l as [|tv l IH]; [done|]. rewrite tlvs_bytes_cons, zlen_app, zlen_tlv_bytes.
  destruct (padding_of_cases (zlen tv.2) (zlen_nonneg _)) as (_ & _ & ?).
  rewrite Z.add_mod, IH by lia. rewrite Z.add_0_r, Z.mod_mod by lia.
  rewrite <- Z.add_assoc, Z.add_mod by lia. rewrite H. done.
Qed.

Section BuildLemmas.
Context `{CL : CraftppLaws} `{OL : MapOrderLaws}.

Lemma attr_header_bytes t view : fits 16 t -> zlen view < 2 ^ 16 ->
  attr_header t view = be_bytes 2 t ++ be_bytes 2 (zlen view).
Proof.
  intros Ht Hv. pose proof (zlen_nonneg view). unfold attr_header, fits in *.
  rewrite lor_shiftl_add by lia. rewrite wrap_small by (unfold fits; lia).
  rewrite host_to_network_u32_spec by (unfold fits; lia). rewrite (be_bytes_app 2 2). f_equal.
  - f_equal. change (256 ^ Z.of_nat 2) with (2 ^ 16). rewrite Z.add_comm, Z.div_add, Z.div_small by lia. lia.
  - rewrite <- be_bytes_mod. change (256 ^ Z.of_nat 2) with (2 ^ 16).
    rewrite Z.add_comm, Z.mod_add, Z.mod_small by lia. done.
Qed.

(** The buffers hold a header view and the body [B], in [n] records. *)
Definition holds (st : BuildState) (B : bytes) (n : nat) : Prop :=
  exists h rest, bs_result st = h :: rest /\ List.concat rest = B /\ bs_total_size st = zlen B /\ bs_headers st = n.

Lemma holds_small (B : bytes) n : zlen B + n < 2 ^ 32 -> 0 <= n -> u32 (zlen B + n) = zlen B + n.
Proof. intros. apply wrap_small. pose proof (zlen_nonneg B). unfold fits. lia. Qed.

Lemma add_attr_holds t view st B n : holds st B n -> tlv_fits (t, view) ->
  zlen B + zlen (tlv_bytes (t, view)) < 2 ^ 32 ->
  holds (add_attr t view st) (B ++ tlv_bytes (t, view)) (S n).
Proof.
  intros (h & rest & Er & Eb & Et & En) [Ht Hv] Hsz. cbn [fst snd] in *. rewrite zlen_tlv_bytes in Hsz. cbn [snd] in Hsz.
  destruct (padding_of_cases (zlen view) (zlen_nonneg _)) as (Ep & Hp & _).
  pose proof (zlen_nonneg view). unfold add_attr. rewrite Er, Et, En. unfold tlv_bytes. cbn [fst snd].
  rewrite holds_small by lia.
  destruct (Z.eqb_spec (zlen view) 0) as [Hz|Hz]; cbn [negb].
  - apply zlen_0 in Hz as ->. change (padding_of (zlen (@nil Z))) with 0. cbn [Z.to_nat replicate app].
    exists h, (rest ++ [attr_header t []]). cbn [bs_result bs_total_size bs_headers]. split_and!; [done| |..|done].
    + rewrite concat_app, Eb, attr_header_bytes by done. cbn [List.concat replicate Z.to_nat]. by rewrite !app_nil_r.
    + rewrite !zlen_app, !zlen_be_bytes, zlen_replicate. lia.
  - assert (u32 (zlen B + 4 + zlen view) = zlen B + 4 + zlen view) as E1
      by (apply wrap_small; pose proof (zlen_nonneg B); unfold fits; lia).
    rewrite E1. rewrite Ep in *. destruct (Z.land (zlen view) 0x3 =? 0); cbn [negb].
    + eexists h, _. cbn [bs_result bs_total_size bs_headers app]. split_and!; [done| |..|done].
      * rewrite !concat_app, Eb, attr_header_bytes by done. cbn [List.concat replicate Z.to_nat].
        rewrite !app_nil_r. by rewrite <- !app_assoc.
      * rewrite !zlen_app, !zlen_be_bytes, zlen_replicate. lia.
    + eexists h, _. cbn [bs_result bs_total_size bs_headers app]. split_and!; [done| |..|done].
      * rewrite !concat_app, Eb, attr_header_bytes by done. cbn [List.concat replicate Z.to_nat].
        rewrite !app_nil_r. by rewrite <- !app_assoc.
      * rewrite wrap_small by (pose proof (zlen_nonneg B); unfold fits; lia).
        rewrite !zlen_app, !zlen_be_bytes, zlen_replicate. lia.
Qed.

Lemma map_fold_holds l : forall st B n, holds st B n -> Forall tlv_fits (map_tlvs l) ->
  zlen B + zlen (tlvs_bytes (map_tlvs l)) < 2 ^ 32 ->
  holds (fold_left (fun st p => build_visit p st) l st) (B ++ tlvs_bytes (map_tlvs l))
        (n + length (map_tlvs l)).
Proof.
  induction l as [|p l IH]; intros st B n Hst Hf Hsz; cbn [fold_left].
  { cbn. rewrite app_nil_r, Nat.add_0_r. done. }
  unfold build_visit at 2. unfold map_tlvs in *. cbn [omap list_omap] in *.
  destruct (attribute_view (a_value p.2)) as [view|]; cbn [fmap option_fmap option_map] in *; [|by apply IH].
  apply Forall_cons in Hf as [Hp Hf]. rewrite tlvs_bytes_cons, zlen_app in Hsz.
  pose proof (zlen_nonneg (tlvs_bytes (omap (fun p => pair p.1 <$> attribute_view (a_value p.2)) l))).
  rewrite tlvs_bytes_cons, app_assoc. cbn [length]. rewrite <- Nat.add_succ_comm.
  apply IH; [apply add_attr_holds; (done || lia)|done|]. rewrite zlen_app. lia.
Qed.

Lemma unknown_fold_holds l : forall st B n, holds st B n ->
  Forall tlv_fits (map (fun u => (ua_type u, ua_data u)) l) ->
  zlen B + zlen (tlvs_bytes (map (fun u => (ua_type u, ua_data u)) l)) < 2 ^ 32 ->
  holds (fold_left (fun st u => add_attr (ua_type u) (ua_data u) st) l st)
        (B ++ tlvs_bytes (map (fun u => (ua_type u, ua_data u)) l)) (n + length l).
Proof.
  induction l as [|u l IH]; intros st B n Hst Hf Hsz; cbn [fold_left map].
  { cbn. rewrite app_nil_r, Nat.add_0_r. done. }
  cbn [map] in Hf, Hsz. apply Forall_cons in Hf as [Hp Hf]. rewrite tlvs_bytes_cons, zlen_app in Hsz.
  pose proof (zlen_nonneg (tlvs_bytes (map (fun u => (ua_type u, ua_data u)) l))).
  rewrite tlvs_bytes_cons, app_assoc. cbn [length]. rewrite <- Nat.add_succ_comm.
  apply IH; [apply add_attr_holds; (done || lia)|done|]. rewrite zlen_app. lia.
Qed.

Lemma build_attrs_holds s : Forall tlv_fits (attrs_tlvs s) -> zlen (tlvs_bytes (attrs_tlvs s)) < 2 ^ 32 ->
  holds (build_attrs s) (tlvs_bytes (attrs_tlvs s)) (length (attrs_tlvs s)).
Proof.
  intros Hf Hsz. unfold build_attrs, attrs_tlvs in *. apply Forall_app in Hf as [Hf1 Hf2].
  rewrite tlvs_bytes_app, zlen_app in *. rewrite length_app, length_map.
  pose proof (zlen_nonneg (tlvs_bytes (map_tlvs (map_iter (m_map s))))).
  pose proof (zlen_nonneg (tlvs_bytes (map (fun u => (ua_type u, ua_data u)) (m_unknown s)))).
  apply unknown_fold_holds; [|done|done].
  apply (map_fold_holds _ (mk_BuildState [[]] 0 0) [] 0); [|done|change (zlen (@nil Z)) with 0; lia].
  by exists [], [].
Qed.

Lemma set_header_result h st B n : holds st B n -> holds (set_header h st) B n /\
  List.concat (bs_result (set_header h st)) = h ++ B /\ bs_total_size (set_header h st) = bs_total_size st.
Proof.
  intros (h0 & rest & Er & Eb & Et & En). unfold set_header. rewrite Er. cbn. rewrite Eb.
  split; [|done]. by exists h, rest.
Qed.

Context (h : HashFunc) (H : bytes -> bytes) {HL : HashLaws SHA1_SIZE h H}.

(** The integrity data made from a key, and its MAC. *)
Definition integrity_data (K : bytes) : IntegrityData := mk_IntegrityData (password_of H K) h.

Lemma mac_size K text : zlen (rfc2104_hmac H K text) = 20.
Proof. apply (hash_size (H := H)). Qed.

Lemma mac_ok K text : bytes_ok (rfc2104_hmac H K text).
Proof. apply (hash_bytes (H := H)). Qed.

Lemma zlen_integrity_tlv hd K body : zlen (tlv_bytes (integrity_tlv hd (rfc2104_hmac H K) body)) = 24.
Proof. rewrite zlen_tlv_bytes. cbn [integrity_tlv snd]. by rewrite mac_size. Qed.

Lemma zlen_fingerprint_tlv hd body : zlen (tlv_bytes (fingerprint_tlv hd body)) = 8.
Proof. rewrite zlen_tlv_bytes. cbn [fingerprint_tlv snd]. by rewrite zlen_be_bytes. Qed.

Lemma add_integrity_holds hd K st B n : holds st B n -> zlen B + 24 < 2 ^ 32 ->
  exists st', add_integrity hd (integrity_data K) st = Ok st' /\
    holds st' (B ++ tlv_bytes (integrity_tlv hd (rfc2104_hmac H K) B)) (S n).
Proof.
  intros Hst Hsz. unfold add_integrity. set (hdr := header_build _ _).
  destruct (set_header_result hdr st B n Hst) as (Hst1 & Ec & _).
  cbn [id_password id_hash integrity_data]. rewrite (hmac_digest_ok h H), Ec. cbn [mbind result_bind].
  assert (hdr = header_bytes hd (zlen B + 24)) as Eh.
  { unfold hdr. rewrite header_build_bytes. destruct Hst as (h0 & rest & _ & _ & -> & _).
    rewrite <- Z.add_assoc. reflexivity. }
  eexists. split; [done|]. rewrite Eh. apply add_attr_holds; [by rewrite <- Eh| |].
  - split; [done|]. cbn [snd]. rewrite mac_size. lia.
  - pose proof (zlen_integrity_tlv hd K B) as E. unfold integrity_tlv in E. by rewrite E.
Qed.

Lemma add_fingerprint_holds hd st B n : holds st B n -> zlen B + 8 < 2 ^ 32 ->
  exists hdr, bs_result (add_fingerprint hd st) = hdr :: tail (bs_result (add_fingerprint hd st)) /\
    hdr = header_bytes hd (zlen B + 8) /\
    holds (add_fingerprint hd st) (B ++ tlv_bytes (fingerprint_tlv hd B)) (S n).
Proof.
  intros Hst Hsz. unfold add_fingerprint. set (hdr := header_build _ _).
  destruct (set_header_result hdr st B n Hst) as (Hst1 & Ec & _).
  rewrite crc32_views_concat, Ec.
  assert (fits 32 (Z.lxor (crc32 (hdr ++ B)) FINGERPRINT_XOR)) as Hfp
    by (apply lxor_fits; [lia|apply crc32_fits|done]).
  rewrite host_to_network_u32_spec by done.
  assert (hdr = header_bytes hd (zlen B + 8)) as Eh.
  { unfold hdr. rewrite header_build_bytes. destruct Hst as (h0 & rest & _ & _ & -> & _).
    change FINGERPRINT_CRC_SIZE with 4. change STUN_ATTR_HEADER_SIZE with 4.
    rewrite <- Z.add_assoc. reflexivity. }
  exists hdr. split_and!; [|done|].
  - destruct Hst as (h0 & rest & Er & _). unfold add_attr, set_header. rewrite Er. cbn.
    repeat case_match; done.
  - rewrite Eh. apply add_attr_holds; [by rewrite <- Eh| |].
    + split; [done|]. cbn [snd]. rewrite zlen_be_bytes. done.
    + pose proof (zlen_fingerprint_tlv hd B) as E. unfold fingerprint_tlv in E. by rewrite E.
Qed.

Lemma build_state_holds s hd key : Forall tlv_fits (attrs_tlvs s) ->
  zlen (tlvs_bytes (attrs_tlvs s)) + 32 < 2 ^ 32 ->
  exists st, build_state s hd (integrity_data <$> key) = Ok st /\
    List.concat (bs_result st) = message_bytes hd s (rfc2104_hmac H <$> key) /\
    bs_headers st = length (message_tlvs hd s (rfc2104_hmac H <$> key)).
Proof.
  intros Hf Hsz. set (B := tlvs_bytes (attrs_tlvs s)) in *.
  pose proof (build_attrs_holds s Hf ltac:(fold B; lia)) as Hst. fold B in Hst.
  set (l1 := attrs_tlvs s ++ match rfc2104_hmac H <$> key with
                             | Some mac => [integrity_tlv hd mac B] | None => [] end).
  assert (exists st, match integrity_data <$> key with
                     | Some idata => add_integrity hd idata (build_attrs s)
                     | None => Ok (build_attrs s) end = Ok st /\
            holds st (tlvs_bytes l1) (length l1) /\ zlen (tlvs_bytes l1) + 8 < 2 ^ 32) as (st1 & E1 & Hst1 & Hsz1).
  { unfold l1. rewrite tlvs_bytes_app, length_app, zlen_app. fold B. destruct key as [K|]; cbn [fmap option_fmap option_map].
    - destruct (add_integrity_holds hd K _ _ _ Hst ltac:(lia)) as (st' & -> & H').
      rewrite tlvs_bytes_one, zlen_integrity_tlv. cbn [length]. rewrite Nat.add_1_r. exists st'. split_and!; [done..|lia].
    - eexists. split; [done|]. rewrite app_nil_r, Nat.add_0_r. change (zlen (tlvs_bytes [])) with 0. split; [done|lia]. }
  unfold build_state. rewrite E1. cbn [mbind result_bind]. eexists. split; [done|].
  unfold message_bytes, message_tlvs. fold B. fold l1. destruct (bool_decide (is_Some (m_map s !! FINGERPRINT))).
  - destruct (add_fingerprint_holds hd st1 _ _ Hst1 Hsz1) as (hdr & Er & Eh & Hst2).
    destruct Hst2 as (h2 & rest2 & Er2 & Eb2 & _ & En2). rewrite Er2 in Er |- *. cbn [tail] in Er. injection Er as ->.
    cbn [List.concat]. rewrite Eb2, En2, Eh. rewrite tlvs_bytes_app, tlvs_bytes_one, zlen_app, zlen_fingerprint_tlv.
    split; [done|]. rewrite length_app. cbn [length]. lia.
  - unfold no_fingerprint. destruct (set_header_result (header_build hd (bs_total_size st1)) st1 _ _ Hst1) as (_ & -> & _).
    rewrite app_nil_r. destruct Hst1 as (h1 & rest1 & _ & _ & Et & En). rewrite Et, header_build_bytes.
    split; [done|]. exact En.
Qed.

Lemma map_tlvs_length m : (forall k a, m !! k = Some a -> a_type a = k /\ attribute_wf a) ->
  (length (map_tlvs (map_iter m)) + (if bool_decide (is_Some (m !! FINGERPRINT)) then 1 else 0) <= size m)%nat.
Proof.
  intros Hwf. unfold map_tlvs. rewrite (omap_Permutation _ _ _ (map_iter_perm m)).
  assert (forall l : list (Z * Attribute),
    length (omap (fun p => pair p.1 <$> attribute_view (a_value p.2)) l)
    = length (filter (fun p => is_Some (attribute_view (a_value p.2))) l)) as Hl.
  { induction l as [|p l IH]; [done|]. cbn [omap list_omap]. rewrite filter_cons.
    destruct (attribute_view (a_value p.2)) as [v|] eqn:E; cbn [fmap option_fmap option_map].
    - rewrite decide_True by eauto. cbn. by rewrite IH.
    - by rewrite decide_False by (intros [? ?]; congruence). }
  rewrite Hl. rewrite <- length_map_to_list.
  case_bool_decide as Hfp; [|rewrite Nat.add_0_r; apply length_filter].
  destruct Hfp as [a Ha]. assert ((FINGERPRINT, a) ∈ map_to_list m) as Hin by by apply elem_of_map_to_list.
  apply list_elem_of_split in Hin as (l1 & l2 & ->). rewrite filter_app, filter_cons, decide_False.
  - rewrite !length_app. cbn [length].
    pose proof (length_filter (fun p => is_Some (attribute_view (a_value p.2))) l1).
    pose proof (length_filter (fun p => is_Some (attribute_view (a_value p.2))) l2). lia.
  - cbn. destruct (Hwf _ _ Ha) as [Et [Ev _]]. rewrite Et in Ev. intros [v Hv].
    destruct (a_value a); cbn in Ev; done.
Qed.

End BuildLemmas.

Lemma header_length_field hd len body : be_val (slice (header_bytes hd len ++ body) 2 2) = len mod 2 ^ 16.
Proof.
  unfold header_bytes. rewrite <- !app_assoc.
  rewrite (slice_app (be_bytes 2 (msg_type (h_cls hd) (h_method hd))) (be_bytes 2 (u16 len))) by (by rewrite zlen_be_bytes).
  apply be_val_be_bytes_small. apply wrap_fits. lia.
Qed.

(** C19. [AttributeSet::build] writes the message format of RFC 5389. For a well-formed set
    whose types and value lengths fit their 16-bit fields and whose records take less than
    2^32 bytes, it writes the header, then one padded type-length-value record per attribute
    and unknown attribute, then MESSAGE-INTEGRITY with the HMAC of the message so far (with a
    length that already counts it), then FINGERPRINT with the CRC of the message so far. The
    length field of the header is the number of bytes that follow it modulo 2^16: that
    number as long as it is below 64K, and a wrong one, without an error, beyond. The encoder
    uses no more attribute headers than the vector it reserved, so that the views into that
    vector stay valid. *)
Theorem attribute_set_build_layout `{C : Craftpp} (CL : CraftppLaws C) `{O : MapOrder} (OL : MapOrderLaws O)
  (h : HashFunc) (H : bytes -> bytes) (HL : HashLaws SHA1_SIZE h H)
  (s : AttributeSet) (hd : Header) (key : option bytes)
  (Hwf : attribute_set_wf s) (Hfits : Forall tlv_fits (attrs_tlvs s))
  (Hsize : zlen (tlvs_bytes (attrs_tlvs s)) + 32 < 2 ^ 32) :
  attribute_set_build s hd (integrity_data h H <$> key) = Ok (message_bytes hd s (rfc2104_hmac H <$> key)) /\
  be_val (slice (message_bytes hd s (rfc2104_hmac H <$> key)) 2 2)
    = zlen (tlvs_bytes (message_tlvs hd s (rfc2104_hmac H <$> key))) mod 2 ^ 16 /\
  exists st, build_state s hd (integrity_data h H <$> key) = Ok st /\
    (bs_headers st <= num_attrs s (integrity_data h H <$> key))%nat.
Proof.
  destruct (build_state_holds h H s hd key Hfits Hsize) as (st & E & Ec & En).
  split; [|split; [apply header_length_field|]].
  - unfold attribute_set_build. rewrite E. cbn [mbind result_bind]. by rewrite concat_views_concat, Ec.
  - exists st. split; [done|]. rewrite En. unfold message_tlvs, attrs_tlvs, num_attrs.
    pose proof (map_tlvs_length (m_map s) (wf_map s Hwf)).
    rewrite !length_app, length_map. destruct key; cbn [fmap option_fmap option_map length];
      destruct (bool_decide (is_Some (m_map s !! FINGERPRINT))); cbn [length]; lia.
Qed.

Definition sample_set : AttributeSet :=
  attribute_set_create [UsernameAttribute [117; 115; 101; 114; 49]; FingerprintAttribute 0; PriorityAttribute 7]
                       [mk_UnknownAttribute 0x7777 [1; 2; 3]].
Definition sample_header : Header := mk_Header REQUEST BINDING (replicate 12 9).

Lemma sample_set_wf : attribute_set_wf sample_set.
Proof.
  apply attribute_set_create_wf.
  - repeat constructor; unfold is_byte; lia.
  - constructor; [|constructor]. split_and!; [repeat constructor; unfold is_byte; lia|done|].
    by apply (bool_decide_unpack _).
Qed.

Lemma attribute_set_build_layout_witness :
  attribute_set_build (H := reference) sample_set sample_header
     (integrity_data (sample_hash) sample_H <$> Some [1; 2; 3])
  = Ok (message_bytes (H := reference) sample_header sample_set (rfc2104_hmac sample_H <$> Some [1; 2; 3])).
Proof.
  apply (attribute_set_build_layout reference_laws key_order_laws sample_hash sample_H _ sample_set sample_header (Some [1; 2; 3])).
  - apply sample_set_wf.
  - vm_compute attrs_tlvs. repeat constructor; done.
  - vm_compute. done.
Defined.
