(* ===== verification/Hashing.v ===== *)
(** * util/util_hash_dynamic.hpp, stun/stun_transaction_id_hash.hpp: hash functions at run time

    A [dynamic::Hash] holds a reference to an algorithm object in static storage, which
    [AlgorithmSingleton::get] constructs when it is first asked for. The algorithm of
    transaction ids is the murmur hash with a seed that its constructor draws, so the maps
    of the client may hash differently in every run. The rest of this library models the
    maps by their contents; this file shows why that is right: a hash table that is given
    such a hash, and that may rehash at any time, behaves as a finite map. The property is
    about the hash itself: the seed is drawn once, and ids that differ in one of their two
    words of eight and four bytes have different hashes. *)

From S2P Require Import Prelude Craftpp Util StunBase StunAttr StunAttrSet.

(** ** util_hash_dynamic.hpp *)

Section Dynamic.

(** The algorithm objects of a class, and its default constructor, which may draw from a
    source of randomness. *)
Context {I G : Type} (construct : G -> G * I).

(** The static local variable of [AlgorithmSingleton::get], and the source. *)
Record Statics : Type := mk_Statics { st_instance : option I; st_source : G }.

(** [AlgorithmSingleton::get]: the reference is the static object, which then exists. *)
Definition singleton_get (st : Statics) : Statics :=
  match st_instance st with
  | Some _ => st
  | None => let '(g, i) := construct (st_source st) in mk_Statics (Some i) g
  end.

(** [Hash::create]: a [Hash] has no state but its reference. *)
Definition hash_create : Statics -> Statics := singleton_get.

(** [Hash::operator()], through the reference; [None] when there is no object. *)
Definition hash_apply {K} (hash : I -> K -> Z) (st : Statics) (v : K) : option Z :=
  (fun algo => hash algo v) <$> st_instance st.

End Dynamic.
Arguments Statics : clear implicits.
Arguments mk_Statics {I G} st_instance st_source.

(** ** stun_transaction_id_hash.hpp *)

(** [NoRandom] is a generator without state. *)
Definition no_random {G} (g : G) : G * Z := (g, 0).

(** The constructor [MurmurTransactionIdHash]: the object is its seed, a [size_t]. *)
Definition murmur_tid_construct {G} (random_gen : G -> G * Z) (g : G) : G * Z :=
  let '(g, r) := random_gen g in (g, u64 r).

(** [MurmurTransactionIdHash::create]. *)
Definition murmur_tid_create {G} (random_gen : G -> G * Z) : Statics Z G -> Statics Z G :=
  hash_create (murmur_tid_construct random_gen).

(** ** std::unordered_map

    A table is a list of buckets of pairs; the hash of a key, modulo the number of buckets,
    tells its bucket. How many buckets a table gets when it grows is up to the library. *)

Section HashTable.
Context {K V : Type} `{EqDecision K}.

#[local] Abbreviation HashTable := (list (list (K * V))).

Section Operations.
Context (hash : K -> Z) (grow : nat -> nat -> nat).

Definition bucket_of (n : nat) (k : K) : nat := Z.to_nat (hash k mod Z.of_nat n).

Fixpoint bucket_find (k : K) (b : list (K * V)) : option V :=
  match b with
  | [] => None
  | (k', v) :: b' => if decide (k' = k) then Some v else bucket_find k b'
  end.

Definition table_find (k : K) (t : HashTable) : option V := b ← t !! bucket_of (length t) k; bucket_find k b.

Definition table_put (p : K * V) (t : HashTable) : HashTable := alter (cons p) (bucket_of (length t) p.1) t.

(** [rehash] to [S n] buckets. *)
Definition table_rehash (n : nat) (t : HashTable) : HashTable := foldr table_put (replicate (S n) []) (List.concat t).

(** [emplace]: the new number of buckets depends on the size and on the number there is. *)
Definition table_emplace (k : K) (v : V) (t : HashTable) : HashTable * bool :=
  match table_find k t with
  | Some _ => (t, false)
  | None =>
      let n := grow (length (List.concat t)) (length t) in
      let t := if decide (length t = S n) then t else table_rehash n t in
      (table_put (k, v) t, true)
  end.

(** [erase] of a key. *)
Definition table_erase (k : K) (t : HashTable) : HashTable * bool :=
  match table_find k t with
  | Some _ => (alter (filter (fun p => p.1 <> k)) (bucket_of (length t) k) t, true)
  | None => (t, false)
  end.

End Operations.

(** *** Operations on a table and on a map, with their results *)

Inductive TableOp : Type :=
| OpFind (k : K)
| OpEmplace (k : K) (v : V)
| OpErase (k : K)
| OpRehash (n : nat).

Inductive TableResult : Type :=
| Found (v : option V)
| Changed (changed : bool)
| Rehashed.

Definition table_op (hash : K -> Z) (grow : nat -> nat -> nat) (op : TableOp) (t : HashTable) : HashTable * TableResult :=
  match op with
  | OpFind k => (t, Found (table_find hash k t))
  | OpEmplace k v => let '(t, b) := table_emplace hash grow k v t in (t, Changed b)
  | OpErase k => let '(t, b) := table_erase hash k t in (t, Changed b)
  | OpRehash n => (table_rehash hash n t, Rehashed)
  end.

Context `{!Countable K}.

(** The specification: [emplace] keeps what is there. *)
Definition map_op (op : TableOp) (m : gmap K V) : gmap K V * TableResult :=
  match op with
  | OpFind k => (m, Found (m !! k))
  | OpEmplace k v => match m !! k with Some _ => (m, Changed false) | None => (<[k := v]> m, Changed true) end
  | OpErase k => match m !! k with Some _ => (delete k m, Changed true) | None => (m, Changed false) end
  | OpRehash _ => (m, Rehashed)
  end.

(** The contents of a table. *)
Definition table_map (t : HashTable) : gmap K V := list_to_map (List.concat t).

(** Every pair is in the bucket of its key, and no key occurs twice. *)
Record table_wf (hash : K -> Z) (t : HashTable) : Prop := {
  tw_bucket i b p : t !! i = Some b -> p ∈ b -> i = bucket_of hash (length t) p.1;
  tw_keys : NoDup (List.concat t).*1
}.

End HashTable.
Abbreviation HashTable K V := (list (list (K * V))).
Arguments TableOp K V : clear implicits.
Arguments TableResult V : clear implicits.

(** ** Lemmas: hash tables *)

Section Tables.
Context {K V : Type} `{Countable K} (hash : K -> Z).
Implicit Types (t : HashTable K V) (b : list (K * V)).
#[local] Abbreviation wf := (table_wf hash).

Lemma elem_of_concat t p : p ∈ List.concat t <-> exists i b, t !! i = Some b /\ p ∈ b.
Proof.
  rewrite list_elem_of_In, in_concat. setoid_rewrite <- list_elem_of_In. split.
  - intros (b & Hb & Hp). apply list_elem_of_lookup in Hb as [i Hi]. by exists i, b.
  - intros (i & b & Hi & Hp). exists b. split; [|done]. by eapply list_elem_of_lookup_2.
Qed.

Lemma bucket_of_lt n k : n <> 0%nat -> (bucket_of hash n k < n)%nat.
Proof. intros Hn. unfold bucket_of. pose proof (Z.mod_pos_bound (hash k) (Z.of_nat n) ltac:(lia)). lia. Qed.

(** A new pair goes into its bucket. *)
Lemma concat_alter_cons p t : forall i, (i < length t)%nat -> List.concat (alter (cons p) i t) ≡ₚ p :: List.concat t.
Proof.
  induction t as [|b t IH]; intros i Hi; cbn in Hi; [lia|]. destruct i as [|i]; cbn; [done|].
  rewrite (IH i) by lia. by rewrite Permutation_middle.
Qed.

Lemma put_perm p t : t <> [] -> List.concat (table_put hash p t) ≡ₚ p :: List.concat t.
Proof. intros Ht. apply concat_alter_cons, bucket_of_lt. by destruct t. Qed.

Lemma length_put p t : length (table_put hash p t) = length t.
Proof. apply length_alter. Qed.

Lemma put_wf p t : t <> [] -> p.1 ∉ (List.concat t).*1 -> wf t -> wf (table_put hash p t).
Proof.
  intros Ht Hp [Hb Hk]. split.
  - intros i b q. rewrite length_put. unfold table_put. rewrite list_lookup_alter. case_decide as Hi; [subst i|].
    + destruct (t !! _) as [b0|] eqn:Eb; [|done]. cbn. intros [= <-] Hq. apply elem_of_cons in Hq as [->|Hq]; [done|by eapply Hb].
    + intros Hl Hq. by eapply Hb.
  - rewrite (put_perm p t Ht). cbn. by constructor.
Qed.

Lemma put_map p t : t <> [] -> p.1 ∉ (List.concat t).*1 -> wf t -> table_map (table_put hash p t) = <[p.1 := p.2]> (table_map t).
Proof.
  intros Ht Hp [_ Hk]. unfold table_map. rewrite (list_to_map_proper _ (p :: List.concat t)); [by destruct p| |by apply put_perm].
  rewrite (put_perm p t Ht). cbn. by constructor.
Qed.

Lemma bucket_find_spec k b v : NoDup b.*1 -> bucket_find k b = Some v <-> (k, v) ∈ b.
Proof.
  induction b as [|[k' v'] b IH]; cbn; [split; [done|by intros ?%elem_of_nil]|]. intros [Hk' Hnd]%NoDup_cons.
  rewrite elem_of_cons. destruct (decide (k' = k)) as [->|Hne].
  - split; [intros [= ->]; by left|]. intros [[= ->]|Hin]; [done|]. destruct Hk'. apply list_elem_of_fmap. by exists (k, v).
  - rewrite (IH Hnd). split; [by right|]. intros [[= -> ->]|?]; done.
Qed.

Lemma bucket_nodup t i b : NoDup (List.concat t).*1 -> t !! i = Some b -> NoDup b.*1.
Proof.
  intros Hnd Hb. rewrite <- (take_drop_middle t i b Hb), concat_app in Hnd. cbn in Hnd. rewrite !fmap_app in Hnd.
  apply NoDup_app in Hnd as (_ & _ & Hnd). by apply NoDup_app in Hnd as (Hnd & _).
Qed.

(** [find] reads the contents. *)
Lemma table_find_map k t : wf t -> table_find hash k t = table_map t !! k.
Proof.
  intros [Hb Hk]. apply option_eq. intros v. unfold table_map. rewrite <- elem_of_list_to_map by done. rewrite elem_of_concat.
  unfold table_find. split.
  - destruct (t !! bucket_of hash (length t) k) as [b|] eqn:Eb; [|done]. cbn. intros Hf. eexists _, b. split; [exact Eb|].
    by apply bucket_find_spec; [eapply bucket_nodup|].
  - intros (i & b & Hi & Hin). pose proof (Hb i b (k, v) Hi Hin) as Ei. cbn in Ei. subst i. rewrite Hi. cbn.
    by apply bucket_find_spec; [eapply bucket_nodup|].
Qed.

Lemma table_keys k t : wf t -> table_map t !! k = None <-> k ∉ (List.concat t).*1.
Proof. intros _. unfold table_map. split; [apply not_elem_of_list_to_map_2|apply not_elem_of_list_to_map_1]. Qed.

Lemma replicate_wf n : wf (replicate n ([] : list (K * V))).
Proof.
  assert (List.concat (replicate n []) = @nil (K * V)) as E by (induction n; cbn; done). split.
  - intros i b p [-> _]%lookup_replicate Hp. by apply elem_of_nil in Hp.
  - rewrite E. constructor.
Qed.

Lemma rehash_ok n t : wf t -> let t' := table_rehash hash n t in
  wf t' /\ length t' = S n /\ List.concat t' ≡ₚ List.concat t /\ table_map t' = table_map t.
Proof.
  intros [_ Hk]. cbv zeta. unfold table_rehash, table_map. revert Hk. generalize (List.concat t) as l. intros l.
  assert (List.concat (replicate (S n) []) = @nil (K * V)) as E0 by (induction n; cbn in *; done).
  induction l as [|p l IH]; intros Hnd.
  - cbn [foldr]. rewrite length_replicate, E0. split; [apply replicate_wf|done].
  - cbn [fmap list_fmap] in Hnd. apply NoDup_cons in Hnd as [Hp Hnd]. destruct (IH Hnd) as (Hw & Hl & Hperm & Hm). clear IH.
    cbn [foldr]. set (t' := foldr (table_put hash) (replicate (S n) []) l) in *.
    assert (t' <> []) as Hne by (intros E; by rewrite E in Hl).
    assert (p.1 ∉ (List.concat t').*1) as Hp' by by rewrite Hperm.
    split; [by apply put_wf|]. split; [by rewrite length_put|]. split; [by rewrite put_perm, Hperm|].
    pose proof (put_map p t' Hne Hp' Hw) as Hpm. unfold table_map in Hpm. rewrite Hpm, Hm. by destruct p.
Qed.

Lemma filter_all {A} (P : A -> Prop) `{!forall x, Decision (P x)} (l : list A) : (forall x, x ∈ l -> P x) -> filter P l = l.
Proof.
  induction l as [|x l IH]; intros Hl; [done|]. rewrite filter_cons_True by (apply Hl; left).
  rewrite IH; [done|]. intros y Hy. apply Hl. by right.
Qed.

Lemma alter_filter_concat (P : K * V -> Prop) `{!forall p, Decision (P p)} t : forall i b, t !! i = Some b ->
  (forall j b' p, t !! j = Some b' -> p ∈ b' -> j <> i -> P p) ->
  List.concat (alter (filter P) i t) = filter P (List.concat t).
Proof.
  induction t as [|b0 t IH]; intros i b Hi Hall; [done|]. destruct i as [|i]; cbn [alter list_alter List.concat]; rewrite filter_app; f_equal.
  - symmetry. apply filter_all. intros p Hp. apply elem_of_concat in Hp as (j & b' & Hj & Hp). by apply (Hall (S j) b').
  - symmetry. apply filter_all. intros p Hp. by apply (Hall 0%nat b0).
  - apply (IH i b); [done|]. intros j b' p Hj Hp Hne. apply (Hall (S j) b'); [done..|congruence].
Qed.

Lemma erase_ok k t : wf t -> is_Some (table_map t !! k) ->
  let t' := alter (filter (fun p => p.1 <> k)) (bucket_of hash (length t) k) t in wf t' /\ table_map t' = delete k (table_map t).
Proof.
  intros Hwf [v Hv]. cbv zeta. pose proof Hwf as [Hb Hk]. rewrite <- table_find_map in Hv by done. unfold table_find in Hv.
  destruct (t !! bucket_of hash (length t) k) as [b|] eqn:Eb; [|done].
  assert (List.concat (alter (filter (fun p => p.1 <> k)) (bucket_of hash (length t) k) t) = filter (fun p => p.1 <> k) (List.concat t)) as Ec.
  { apply (alter_filter_concat _ _ _ b Eb). intros j b' p Hj Hp Hne E. apply Hne. by rewrite (Hb j b' p Hj Hp), E. }
  assert (NoDup (filter (fun p => p.1 <> k) (List.concat t)).*1) as Hnd.
  { eapply sublist_NoDup; [exact Hk|]. apply fmap_sublist, sublist_filter. }
  split.
  - split; [|by rewrite Ec]. intros i b' p. rewrite length_alter, list_lookup_alter. case_decide as Hi; [subst i|by apply Hb].
    destruct (t !! _) as [b0|] eqn:E0; [|done]. cbn. intros [= <-] Hp. apply list_elem_of_filter in Hp as [_ Hp]. by eapply Hb.
  - unfold table_map. rewrite Ec. apply map_eq. intros k'. apply option_eq. intros v'.
    rewrite lookup_delete_Some, <- !elem_of_list_to_map by done. rewrite list_elem_of_filter. cbn.
    split; intros [? ?]; by split.
Qed.

(** An operation on a table does what it does on its contents. *)
Lemma table_op_refines grow op t : wf t -> let r := table_op hash grow op t in
  wf r.1 /\ table_map r.1 = (map_op op (table_map t)).1 /\ r.2 = (map_op op (table_map t)).2.
Proof.
  intros Hwf. cbv zeta. destruct op as [k|k v|k|n]; cbn [table_op map_op fst snd].
  - by rewrite table_find_map.
  - unfold table_emplace. rewrite table_find_map by done. destruct (table_map t !! k) as [v'|] eqn:Ek; [done|].
    set (n := grow _ _).
    assert (exists t', (if decide (length t = S n) then t else table_rehash hash n t) = t' /\ wf t' /\ t' <> [] /\
      table_map t' = table_map t) as (t' & -> & Hw & Hne & Em).
    { destruct (decide (length t = S n)) as [E|_].
      - exists t. split; [done|]. split; [done|]. split; [by intros ->|done].
      - destruct (rehash_ok n t Hwf) as (Hw & Hl & _ & Em). eexists. split; [done|]. split; [done|]. split; [|done].
        intros E. by rewrite E in Hl. }
    rewrite <- Em in Ek. apply table_keys in Ek; [|done]. cbn [fst snd]. split; [by apply put_wf|].
    split; [|done]. rewrite (put_map (k, v) t' Hne Ek Hw). cbn. by rewrite Em.
  - unfold table_erase. rewrite table_find_map by done. destruct (table_map t !! k) as [v|] eqn:Ek; [|done]. cbn [fst snd].
    destruct (erase_ok k t Hwf) as [Hw Em]; [by eexists|done].
  - destruct (rehash_ok n t Hwf) as (Hw & _ & _ & Em). done.
Qed.

(** The elements, in the order of the buckets. *)
Lemma table_elements t : wf t -> List.concat t ≡ₚ map_to_list (table_map t).
Proof. intros [_ Hk]. unfold table_map. by rewrite map_to_list_to_map. Qed.

End Tables.

(** ** A program with a dynamic hash *)

Section Program.
Context {K V : Type} `{Countable K} {I G : Type} (construct : G -> G * I) (hash : I -> K -> Z).

(** A step of a program: one more [Hash::create] of the algorithm, a draw from the same
    source by other code, or an operation on the table. *)
Inductive HashStep : Type :=
| StepCreate
| StepDraw (draw : G -> G)
| StepTable (op : TableOp K V).

(** A run of the program, whose table calls the hash it was created with; [None] when that
    refers to no object. *)
Fixpoint run_hashed (grow : nat -> nat -> nat) (steps : list HashStep) (st : Statics I G) (t : HashTable K V)
    : option (Statics I G * HashTable K V * list (TableResult V)) :=
  match steps with
  | [] => Some (st, t, [])
  | StepCreate :: steps' => run_hashed grow steps' (hash_create construct st) t
  | StepDraw draw :: steps' => run_hashed grow steps' (mk_Statics (st_instance st) (draw (st_source st))) t
  | StepTable op :: steps' =>
      algo ← st_instance st;
      let '(t, r) := table_op (hash algo) grow op t in
      '(st, t, rs) ← run_hashed grow steps' st t;
      Some (st, t, r :: rs)
  end.

(** The same steps on a finite map. *)
Fixpoint run_map (steps : list HashStep) (m : gmap K V) : gmap K V * list (TableResult V) :=
  match steps with
  | StepTable op :: steps' =>
      let '(m, r) := map_op op m in let '(m, rs) := run_map steps' m in (m, r :: rs)
  | _ :: steps' => run_map steps' m
  | [] => (m, [])
  end.

(** [get] constructs the object once. *)
Lemma hash_create_keeps st i : st_instance st = Some i -> hash_create construct st = st.
Proof. unfold hash_create, singleton_get. by intros ->. Qed.

Lemma hash_create_makes st : is_Some (st_instance (hash_create construct st)).
Proof.
  unfold hash_create, singleton_get. destruct (st_instance st) as [i|] eqn:E; [by eexists|]. destruct (construct _); by eexists.
Qed.

Lemma run_hashed_refines grow steps : forall st i (t : HashTable K V), st_instance st = Some i -> table_wf (hash i) t ->
  exists st' t' rs, run_hashed grow steps st t = Some (st', t', rs) /\ st_instance st' = Some i /\ table_wf (hash i) t' /\
    run_map steps (table_map t) = (table_map t', rs).
Proof.
  induction steps as [|[|draw|op] steps IH]; intros st i t Hi Hwf; cbn [run_hashed run_map].
  - by exists st, t, [].
  - rewrite (hash_create_keeps st i Hi). by apply IH.
  - apply (IH (mk_Statics (st_instance st) (draw (st_source st)))); done.
  - rewrite Hi. cbn [mbind option_bind]. destruct (table_op_refines (hash i) grow op t Hwf) as (Hw & Em & Er).
    destruct (table_op (hash i) grow op t) as [t1 r]. cbn [fst snd] in *. subst r.
    destruct (map_op op (table_map t)) as [m r]. cbn [fst snd] in *. subst m.
    destruct (IH st i t1 Hi Hw) as (st' & t' & rs & -> & Hi' & Hw' & ->). cbn [mbind option_bind]. by exists st', t', (r :: rs).
Qed.

End Program.
Arguments StepCreate {K V G}.
Arguments StepDraw {K V G} draw.
Arguments StepTable {K V G} op.

(** The hash of transaction ids does not show. A program creates a
    [MurmurTransactionIdHash], whose seed comes from any source of randomness, and gives it
    to an empty table (of any number of buckets). Whatever it does then (other hashes are
    created, other code draws from the source, entries are found, emplaced and erased, the
    library rehashes whenever and to as many buckets as it likes), every call of the hash
    finds the algorithm, with the seed of the first creation; every operation returns what
    it returns on a finite map; and the elements of the table are those of the map, each
    once, in some order. *)
Theorem tid_hash_table_is_map `{C : Craftpp} {G V : Type} (random_gen : G -> G * Z) (grow : nat -> nat -> nat)
  (st : Statics Z G) (buckets : nat) (steps : list (HashStep (K := bytes) (V := V) (G := G))) :
  exists seed st' t' rs,
    run_hashed (murmur_tid_construct random_gen) tid_hash grow steps (murmur_tid_create random_gen st) (replicate buckets [])
      = Some (st', t', rs) /\
    st_instance (murmur_tid_create random_gen st) = Some seed /\
    (forall id, hash_apply tid_hash st' id = Some (tid_hash seed id)) /\
    (run_map steps ∅).2 = rs /\ List.concat t' ≡ₚ map_to_list (run_map steps ∅).1.
Proof.
  destruct (hash_create_makes (murmur_tid_construct random_gen) st) as [seed Hseed].
  assert (table_map (replicate buckets ([] : list (bytes * V))) = ∅) as E0.
  { unfold table_map. by replace (List.concat (replicate buckets [])) with (@nil (bytes * V)) by (by induction buckets). }
  destruct (run_hashed_refines (murmur_tid_construct random_gen) tid_hash grow steps (murmur_tid_create random_gen st) seed
    (replicate buckets []) Hseed (replicate_wf (tid_hash seed) buckets)) as (st' & t' & rs & E & Hi & Hw & Em).
  rewrite E0 in Em. exists seed, st', t', rs. split; [exact E|]. split; [exact Hseed|]. rewrite Em. split; [|split; [done|]].
  - intros id. unfold hash_apply. by rewrite Hi.
  - by apply (table_elements (tid_hash seed)).
Qed.

(** ** Property *)

(** What a program does after the first [create]: one more, or a draw from the source. *)
Definition later_step {G} (random_gen : G -> G * Z) (st : Statics Z G) (s : option (G -> G)) : Statics Z G :=
  match s with
  | None => murmur_tid_create random_gen st
  | Some draw => mk_Statics (st_instance st) (draw (st_source st))
  end.

Lemma later_steps_keep {G} (random_gen : G -> G * Z) steps : forall st seed, st_instance st = Some seed ->
  st_instance (fold_left (later_step random_gen) steps st) = Some seed.
Proof.
  induction steps as [|[draw|] steps IH]; intros st seed Hi; [done|by apply IH|]. apply IH. cbn [later_step].
  unfold murmur_tid_create. by rewrite (hash_create_keeps _ st seed).
Qed.

(** C20. The hash of transaction ids. The first [MurmurTransactionIdHash::create] of a process
    draws the seed; every hash created then or later is the murmur hash of the id with that
    seed, whatever else is created or drawn. Ids that share their first eight bytes, or
    their last four, never collide; and for the same id, different seeds give different
    values, so that a random seed does change every value of the hash. *)
Theorem tid_hash_separates `{C : Craftpp} {G : Type} (random_gen : G -> G * Z) (g : G) (steps : list (option (G -> G))) :
  (forall id, hash_apply tid_hash (fold_left (later_step random_gen) steps (murmur_tid_create random_gen (mk_Statics None g))) id
     = Some (murmur64 id (u64 (random_gen g).2))) /\
  (forall seed id id', fits 64 seed -> zlen id = 12 -> zlen id' = 12 -> bytes_ok id -> bytes_ok id' ->
     take 8 id = take 8 id' \/ drop 8 id = drop 8 id' -> tid_hash seed id = tid_hash seed id' -> id = id') /\
  (forall seed seed' id, fits 64 seed -> fits 64 seed' -> zlen id = 12 -> bytes_ok id ->
     tid_hash seed id = tid_hash seed' id -> seed = seed').
Proof.
  assert (forall id, zlen id = 12 -> bytes_ok id -> length (take 8 id) = 8%nat /\ length (drop 8 id) = 4%nat /\
    bytes_ok (take 8 id) /\ bytes_ok (drop 8 id)) as Hid.
  { intros id Hl Hok. unfold zlen in Hl. rewrite length_take, length_drop. split_and!; [lia|lia|by apply Forall_take|by apply Forall_drop]. }
  assert (forall seed seed' id id', fits 64 seed -> fits 64 seed' -> zlen id = 12 -> zlen id' = 12 -> bytes_ok id -> bytes_ok id' ->
    tid_hash seed id = tid_hash seed' id' -> (take 8 id = take 8 id' -> seed = seed' -> drop 8 id = drop 8 id') /\
      (drop 8 id = drop 8 id' -> seed = seed' -> take 8 id = take 8 id') /\
      (take 8 id = take 8 id' -> drop 8 id = drop 8 id' -> seed = seed')) as Hinj.
  { intros seed seed' id id' Hs Hs' Hl Hl' Hok Hok' E. destruct (Hid id) as (L1 & L2 & O1 & O2); [done..|].
    destruct (Hid id') as (L1' & L2' & O1' & O2'); [done..|]. unfold tid_hash in E.
    rewrite <- (take_drop 8 id), <- (take_drop 8 id') in E. by apply murmur64_12_inj. }
  split; [|split].
  - intros id. unfold hash_apply. erewrite later_steps_keep; [reflexivity|]. unfold murmur_tid_create, hash_create, singleton_get.
    cbn [st_instance st_source]. unfold murmur_tid_construct. by destruct (random_gen g).
  - intros seed id id' Hs Hl Hl' Hok Hok' Hsame E. destruct (Hinj seed seed id id') as (H1 & H2 & _); [done..|].
    rewrite <- (take_drop 8 id), <- (take_drop 8 id'). destruct Hsame as [Es|Es]; [rewrite Es, H1|rewrite Es, H2]; done.
  - intros seed seed' id Hs Hs' Hl Hok E. by apply (Hinj seed seed' id id).
Qed.

Definition counter (g : Z) : Z * Z := (g + 1, g).

(** A seed drawn from a counter, with a later draw and a later creation. *)
Lemma tid_hash_separates_witness :
  hash_apply (tid_hash (H := reference))
    (fold_left (later_step counter) [Some Z.succ; None] (murmur_tid_create counter (mk_Statics None 5))) (replicate 12 1)
    = Some (murmur64 (H := reference) (replicate 12 1) (u64 (counter 5).2)) /\
  tid_hash (H := reference) 7 (replicate 12 1) <> tid_hash (H := reference) 7 (replicate 11 1 ++ [2]) /\
  tid_hash (H := reference) 7 (replicate 12 1) <> tid_hash (H := reference) 8 (replicate 12 1).
Proof.
  destruct (tid_hash_separates (C := reference) counter 5 [Some Z.succ; None]) as (H1 & H2 & H3). split; [apply H1|]. split.
  - intros E. apply H2 in E; [discriminate E|unfold fits; lia|reflexivity|reflexivity| | |by left];
      repeat constructor; unfold is_byte; lia.
  - intros E. apply H3 in E; [discriminate E|unfold fits; lia|unfold fits; lia|reflexivity|repeat constructor; unfold is_byte; lia].
Defined.

(** ** Interface: the order of the attributes

    The order in which a hash table visits the attributes of a set, for a table that was
    filled in the order of [map_to_list], is one of the orders that the encoder may meet. *)

Definition table_of (hash : Z -> Z) (buckets : nat) (m : gmap Z Attribute) : HashTable Z Attribute :=
  foldr (table_put hash) (replicate (S buckets) []) (map_to_list m).

Definition bucket_order (hash : Z -> Z) (buckets : nat) : MapOrder :=
  {| map_iter m := List.concat (table_of hash buckets m) |}.

Lemma foldr_put (hash : Z -> Z) buckets (l : list (Z * Attribute)) : let t := foldr (table_put hash) (replicate (S buckets) []) l in
  length t = S buckets /\ List.concat t ≡ₚ l.
Proof.
  cbv zeta. induction l as [|p l [Hl IH]]; cbn [foldr].
  - split; [apply length_replicate|]. enough (List.concat (replicate (S buckets) []) = @nil (Z * Attribute)) as -> by done.
    by induction buckets.
  - rewrite length_put. split; [done|]. rewrite put_perm; [by rewrite IH|]. by intros E; rewrite E in Hl.
Qed.

Lemma bucket_order_laws hash buckets : MapOrderLaws (bucket_order hash buckets).
Proof. split. intros m. apply foldr_put. Qed.
