(* ===== verification/StunMessage.v ===== *)
(** * stun/stun_message: the message parser, the integrity check and the round trip

    [message_parse] is [Message::parse] with its statistics: the header checks, the scan
    of the raw attributes ([parse_attrs]), their parsers, the container and the
    FINGERPRINT check. The theorems: a built message is parsed back and its integrity
    verified; a parsed message is well-formed; an accepted digest is the HMAC of the
    message; how every outcome is counted. *)

From S2P Require Import Prelude Errors Craftpp Util Net Crypto StunBase StunCrc StunAttr StunAttrSet.

(** ** Data *)

Record Message : Type := mk_Message {
  header : Header;
  attribute_set : AttributeSet;
  is_rfc3489 : bool;
  integrity_interval : option Interval
}.

Record RawAttr : Type := mk_RawAttr { ra_type : Z; ra_length : Z; ra_value : bytes }.

Record ParseAttrsResult : Type := mk_ParseAttrsResult {
  par_attrs : list AttrParseResult;
  maybe_integrity_interval : option Interval;
  maybe_fingerprint_interval : option Interval
}.

(** [RawAttr::aligned_length]. *)
Definition aligned_length (ra : RawAttr) : Z :=
  let align := if ra_length ra mod 4 =? 0 then 0 else 1 in
  let align_length := (ra_length ra / 4 + align) * 4 in
  align_length + STUN_ATTR_HEADER_SIZE.

Section Parse.
Context `{Craftpp}.

Definition raw_attr_parse (vv : bytes) (offset : Z) : Result RawAttr :=
  let type_rv := require (read_u16be vv offset) in
  let length_rv := require (read_u16be vv (offset + 2)) in
  let attr_view_rv := length ← length_rv; require (subview vv (offset + 4) length) in
  combine3 (fun type length value => Ok (mk_RawAttr type length value)) type_rv length_rv attr_view_rv.

(** The variables of the loop of [parse_attrs]. *)
Record ScanState : Type := mk_ScanState {
  sc_raw_attrs : list RawAttr;
  sc_integrity : option Interval;
  sc_fingerprint : option Interval
}.

Definition scan_init : ScanState := mk_ScanState [] None None.

(** The [switch] on the type of one raw attribute. *)
Definition scan_attr (vv : bytes) (attr_offset : Z) (raw_attr : RawAttr) (sc : ScanState)
    : SE ParseStat ScanState :=
  if ra_type raw_attr =? FINGERPRINT then
    let sc := mk_ScanState (sc_raw_attrs sc ++ [raw_attr]) (sc_integrity sc)
                           (Some (mk_Interval 0 attr_offset)) in
    if attr_offset + aligned_length raw_attr <? zlen vv
    then fail_with (stat_error ps_fingerprint_not_last) (parse_error pe_fingerprint_is_not_last)
    else mret sc
  else if ra_type raw_attr =? MESSAGE_INTEGRITY then
    mret (mk_ScanState (sc_raw_attrs sc ++ [raw_attr]) (Some (mk_Interval 0 attr_offset)) (sc_fingerprint sc))
  else
    match sc_integrity sc with
    | None => mret (mk_ScanState (sc_raw_attrs sc ++ [raw_attr]) (sc_integrity sc) (sc_fingerprint sc))
    | Some _ => mret sc
    end.

(** The loop [while (attr_offset < vv.size())]. Every iteration advances by at least the
    four bytes of an attribute header, so the size of the view bounds their number. *)
Fixpoint scan_loop (fuel : nat) (vv : bytes) (attr_offset : Z) (sc : ScanState) : SE ParseStat ScanState :=
  match fuel with
  | O => mret sc
  | S fuel' =>
      if attr_offset <? zlen vv then
        match raw_attr_parse vv attr_offset with
        | Err _ => fail_with (stat_error ps_invalid_attr_size) (parse_error pe_invalid_attr_size)
        | Ok raw_attr =>
            sc' ← scan_attr vv attr_offset raw_attr sc;
            scan_loop fuel' vv (attr_offset + aligned_length raw_attr) sc'
        end
      else mret sc
  end.

Definition parse_attrs (vv : bytes) (attr_offset : Z) : SE ParseStat ParseAttrsResult :=
  sc ← scan_loop (S (length vv)) vv attr_offset scan_init;
  attrs ← reduce (fun result raw_attr =>
                    attr ← attribute_parse (ra_value raw_attr) (ra_type raw_attr);
                    mret (result ++ [attr])) (sc_raw_attrs sc) [];
  mret (mk_ParseAttrsResult attrs (sc_integrity sc) (sc_fingerprint sc)).

(** The lambda over the parsed attributes: it fills [attrs] and remembers the value of a
    FINGERPRINT attribute. *)
Definition collect_attr (pr : AttrParseResult) : SE (AttributeSet * option Z) unit := fun '(attrs, fingerprint_value) =>
  match pr with
  | pr_unknown attr => ((as_emplace_unknown attr attrs, fingerprint_value), success)
  | pr_attribute attr =>
      let fingerprint_value := match a_value attr with
                               | FingerprintAttribute crc32 => Some crc32
                               | _ => fingerprint_value
                               end in
      ((as_emplace attr attrs, fingerprint_value), success)
  end.

Definition fingerprint_is_valid (vv : bytes) (fingerprint_value : option Z) (interval : option Interval) : bool :=
  match fingerprint_value with
  | Some fp =>
      match interval ≫= subview_interval vv with
      | Some v => crc32 v =? fp
      | None => false
      end
  | None => true
  end.

(** [Message::parse] from the attributes on, with the header that was read. *)
Definition message_parse_attrs (vv : bytes) (hd : Header) (is_rfc3489 : bool) : SE ParseStat Message :=
  r ← parse_attrs vv STUN_HEADER_SIZE;
  let '((attrs, fingerprint_value), rv) :=
    reduce (fun (_ : unit) pr => collect_attr pr) (par_attrs r) tt (attribute_set_empty, None) in
  lift rv ≫= fun _ =>
  if negb (fingerprint_is_valid vv fingerprint_value (maybe_fingerprint_interval r))
  then fail_with (stat_error ps_invalid_fingerprint) (parse_error pe_fingerprint_not_valid) else
  fun stat =>
    (stat_inc ps_success stat, Ok (mk_Message hd attrs is_rfc3489 (maybe_integrity_interval r))).

(** [Message::parse]. *)
Definition message_parse (vv : bytes) : SE ParseStat Message :=
  if zlen vv <? STUN_HEADER_SIZE
  then fail_with (stat_error ps_invalid_size) (parse_error pe_invalid_message_size) else
  let msg_type := assured_read_u16be vv 0 in
  let msg_length := assured_read_u16be vv 2 in
  let magic_cookie := assured_read_u32be vv 4 in
  if negb (Z.land msg_length 0x3 =? 0)
  then fail_with (stat_error ps_not_padded) (parse_error pe_not_padded_attributes) else
  if negb (msg_length =? zlen vv - STUN_HEADER_SIZE)
  then fail_with (stat_error ps_message_length_error) (parse_error pe_invalid_message_len) else
  let cls := class_from_msg_type msg_type in
  let is_rfc3489 := bool_decide (cls = REQUEST) && negb (magic_cookie =? MAGIC_COOKIE) in
  if negb is_rfc3489 && negb (magic_cookie =? MAGIC_COOKIE)
  then fail_with (stat_error ps_magic_cookie_error) (parse_error pe_invalid_magic_cookie) else
  let transaction_id :=
    if negb is_rfc3489 then assured_subview vv 8 TRANSACTION_ID_SIZE
    else assured_subview vv 4 TRANSACTION_ID_SIZE_RFC3489 in
  message_parse_attrs vv (mk_Header cls (method_from_msg_type msg_type) transaction_id) is_rfc3489.

(** [Message::is_valid]: none when there is nothing to check. *)
Definition message_is_valid (m : Message) (data : bytes) (idata : IntegrityData) : Result (option bool) :=
  match integrity_interval m ≫= subview_interval data with
  | None => Ok None
  | Some c =>
      let integrity_message_len := u64 (zlen c + STUN_ATTR_HEADER_SIZE + SHA1_SIZE - STUN_HEADER_SIZE) in
      match subview_from c 4, integrity (attribute_set m) with
      | Some h, Some digest =>
          let header := [nth 0 data 0; nth 1 data 0;
                         u8 (Z.land (Z.shiftr integrity_message_len 8) 0xFF);
                         u8 (Z.land integrity_message_len 0xFF)] in
          let p := id_password idata in
          d ← hmac_digest [header; h] (m_opad p) (m_ipad p) (id_hash idata);
          Ok (Some (bool_decide (d = digest)))
      | _, _ => Ok None
      end
  end.

(** [Message::is_alternate_server]. *)
Definition is_alternate_server (m : Message) : bool :=
  if negb (bool_decide (h_cls (header m) = ERROR_RESPONSE)) then false else
  match error_code_attr (attribute_set m) with
  | Some ec => ec.1 =? TryAlternate
  | None => false
  end.

End Parse.

(** [Message::build]. *)
Definition message_build `{Craftpp} `{MapOrder} (m : Message) (maybeintegrity : option IntegrityData) : Result bytes :=
  attribute_set_build (attribute_set m) (header m) maybeintegrity.

(** ** Lemmas: one raw attribute *)

Definition raw_of (tv : Z * bytes) : RawAttr := mk_RawAttr tv.1 (zlen tv.2) tv.2.

Lemma aligned_length_eq ra : 0 <= ra_length ra -> aligned_length ra = 4 + ra_length ra + padding_of (ra_length ra).
Proof.
  intros Hl. unfold aligned_length, padding_of. change STUN_ATTR_HEADER_SIZE with 4. set (n := ra_length ra) in *.
  pose proof (Z.div_mod n 4 ltac:(lia)) as Hd. destruct (Z.eqb_spec (n mod 4) 0) as [E|E].
  - rewrite Z.mod_opp_l_z by lia. lia.
  - rewrite Z.mod_opp_l_nz by lia. lia.
Qed.

Lemma aligned_length_raw tv : aligned_length (raw_of tv) = zlen (tlv_bytes tv).
Proof.
  rewrite aligned_length_eq by apply zlen_nonneg. by rewrite zlen_tlv_bytes.
Qed.

Section ScanLemmas.
Context `{CL : CraftppLaws}.

Lemma raw_attr_parse_tlv pre tv post : tlv_fits tv ->
  raw_attr_parse (pre ++ tlv_bytes tv ++ post) (zlen pre) = Ok (raw_of tv).
Proof.
  destruct tv as [t view]. intros [Ht Hv]. cbn [fst snd] in *. unfold raw_attr_parse.
  pose proof (zlen_nonneg pre). pose proof (zlen_nonneg view). pose proof (zlen_nonneg post).
  set (pad := replicate (Z.to_nat (padding_of (zlen view))) 0). pose proof (zlen_nonneg pad).
  assert (pre ++ tlv_bytes (t, view) ++ post
          = pre ++ be_bytes 2 t ++ be_bytes 2 (zlen view) ++ view ++ pad ++ post) as ->
    by (unfold tlv_bytes; cbn [fst snd]; fold pad; by rewrite <- !app_assoc).
  set (vv := pre ++ _). assert (zlen vv = zlen pre + (4 + zlen view + zlen pad + zlen post)) as Hlen
    by (unfold vv; rewrite !zlen_app, !zlen_be_bytes; lia).
  rewrite !read_u16be_spec, !checked_read_in by lia.
  assert (slice vv (zlen pre) 2 = be_bytes 2 t) as ->
    by (apply slice_app; [done|by rewrite zlen_be_bytes]).
  assert (slice vv (zlen pre + 2) 2 = be_bytes 2 (zlen view)) as ->.
  { unfold vv. rewrite app_assoc. apply slice_app; [by rewrite zlen_app, zlen_be_bytes|by rewrite zlen_be_bytes]. }
  rewrite !be_val_be_bytes_small by (unfold fits in Ht; lia). cbn [require mbind result_bind].
  rewrite subview_spec by lia. rewrite (proj2 (Z.leb_le _ _)) by lia.
  assert (slice vv (zlen pre + 4) (zlen view) = view) as ->.
  { assert (vv = (pre ++ be_bytes 2 t ++ be_bytes 2 (zlen view)) ++ view ++ (pad ++ post)) as ->
      by (unfold vv; by rewrite <- !app_assoc).
    apply slice_app; [|done]. rewrite !zlen_app, !zlen_be_bytes. lia. }
  done.
Qed.

(** A raw attribute that parses takes at least four bytes, and its value lies in the view. *)
Lemma raw_attr_parse_bounds vv off ra : bytes_ok vv -> 0 <= off -> raw_attr_parse vv off = Ok ra ->
  0 <= ra_length ra < 2 ^ 16 /\ off + 4 + ra_length ra <= zlen vv /\
  ra_value ra = slice vv (off + 4) (ra_length ra) /\ fits 16 (ra_type ra) /\ bytes_ok (ra_value ra).
Proof.
  intros Hok Ho. unfold raw_attr_parse. rewrite !read_u16be_spec by lia.
  destruct (checked_read 2 vv off) as [t|] eqn:Et; [|by destruct (checked_read 2 vv (off + 2)) as [l|]; cbn; try case_match].
  destruct (checked_read 2 vv (off + 2)) as [l|] eqn:El; [|done]. cbn [require mbind result_bind combine3].
  assert (fits 16 t) by by eapply (checked_read_fits vv off 2).
  assert (fits 16 l) as Hl by (eapply (checked_read_fits vv (off + 2) 2); [..|exact El]; (done || lia)).
  unfold fits in Hl. rewrite subview_spec by lia. destruct (Z.leb_spec (off + 4 + l) (zlen vv)); [|done].
  cbn. intros [= <-]. cbn. split_and!; try done; try lia. by apply Forall_slice.
Qed.

Lemma raw_attr_advances vv off ra : bytes_ok vv -> 0 <= off -> raw_attr_parse vv off = Ok ra ->
  4 <= aligned_length ra.
Proof.
  intros Hok Ho E. destruct (raw_attr_parse_bounds vv off ra Hok Ho E) as (Hl & _).
  rewrite aligned_length_eq by lia. destruct (padding_of_cases (ra_length ra)) as (_ & ? & _); lia.
Qed.

(** ** Lemmas: the scan of a well-formed body *)

Definition opt_list {A} (o : option A) : list A := match o with Some a => [a] | None => [] end.


Definition plain_tlv (tv : Z * bytes) : Prop := tv.1 <> FINGERPRINT /\ tv.1 <> MESSAGE_INTEGRITY /\ tlv_fits tv.

Lemma scan_loop_step fuel pre tv post sc st :
  tlv_fits tv ->
  scan_loop (S fuel) (pre ++ tlv_bytes tv ++ post) (zlen pre) sc st =
  (sc' ← scan_attr (pre ++ tlv_bytes tv ++ post) (zlen pre) (raw_of tv) sc;
   scan_loop fuel (pre ++ tlv_bytes tv ++ post) (zlen (pre ++ tlv_bytes tv)) sc') st.
Proof.
  intros Hf. cbn [scan_loop]. rewrite raw_attr_parse_tlv by done. rewrite aligned_length_raw, <- (zlen_app pre).
  rewrite (proj2 (Z.ltb_lt _ _)); [done|]. rewrite !zlen_app, zlen_tlv_bytes.
  pose proof (zlen_nonneg tv.2). pose proof (zlen_nonneg post).
  destruct (padding_of_cases (zlen tv.2)) as (_ & ? & _); lia.
Qed.

Lemma scan_plain l : forall fuel pre post raws fp st, Forall plain_tlv l ->
  scan_loop (length l + fuel) (pre ++ tlvs_bytes l ++ post) (zlen pre) (mk_ScanState raws None fp) st =
  scan_loop fuel (pre ++ tlvs_bytes l ++ post) (zlen (pre ++ tlvs_bytes l))
            (mk_ScanState (raws ++ map raw_of l) None fp) st.
Proof.
  induction l as [|tv l IH]; intros fuel pre post raws fp st Hl.
  { cbn [length Nat.add map]. change (tlvs_bytes []) with (@nil Z). by rewrite !app_nil_r. }
  apply Forall_cons in Hl as [(N1 & N2 & Hf) Hl]. cbn [length Nat.add map].
  rewrite tlvs_bytes_cons, <- (app_assoc (tlv_bytes tv)). rewrite scan_loop_step by done.
  unfold mbind at 1, se_bind at 1, scan_attr. cbn [raw_of ra_type].
  rewrite (proj2 (Z.eqb_neq _ _) N1), (proj2 (Z.eqb_neq _ _) N2). cbn [sc_integrity sc_raw_attrs sc_fingerprint].
  unfold mret, se_ret. rewrite (app_assoc pre), IH by done.
  rewrite <- !app_assoc. cbn [app]. done.
Qed.

Lemma scan_end fuel vv off sc st : zlen vv <= off -> scan_loop fuel vv off sc st = (st, Ok sc).
Proof.
  intros H. destruct fuel; [done|]. cbn [scan_loop]. by rewrite (proj2 (Z.ltb_ge _ _)).
Qed.

Lemma scan_integrity_step fuel pre tv post raws i fp st : tv.1 = MESSAGE_INTEGRITY -> tlv_fits tv ->
  scan_loop (S fuel) (pre ++ tlv_bytes tv ++ post) (zlen pre) (mk_ScanState raws i fp) st =
  scan_loop fuel (pre ++ tlv_bytes tv ++ post) (zlen (pre ++ tlv_bytes tv))
    (mk_ScanState (raws ++ [raw_of tv]) (Some (mk_Interval 0 (zlen pre))) fp) st.
Proof.
  intros E Hf. rewrite scan_loop_step by done. unfold mbind, se_bind, scan_attr.
  change (ra_type (raw_of tv)) with tv.1. by rewrite E.
Qed.

Lemma scan_fingerprint_step fuel pre tv raws i fp st : tv.1 = FINGERPRINT -> tlv_fits tv ->
  scan_loop (S fuel) (pre ++ tlv_bytes tv) (zlen pre) (mk_ScanState raws i fp) st =
  (st, Ok (mk_ScanState (raws ++ [raw_of tv]) i (Some (mk_Interval 0 (zlen pre))))).
Proof.
  intros E Hf. pose proof (scan_loop_step fuel pre tv [] (mk_ScanState raws i fp) st Hf) as Hs.
  rewrite !app_nil_r in Hs. rewrite Hs. unfold mbind, se_bind, scan_attr.
  change (ra_type (raw_of tv)) with tv.1. rewrite E, aligned_length_raw, (proj2 (Z.ltb_ge _ _)).
  - cbn. by rewrite scan_end by lia.
  - rewrite zlen_app. lia.
Qed.

Lemma scan_message l0 mi fp pre fuel st :
  Forall plain_tlv l0 ->
  (forall tv, mi = Some tv -> tv.1 = MESSAGE_INTEGRITY /\ tlv_fits tv) ->
  (forall tv, fp = Some tv -> tv.1 = FINGERPRINT /\ tlv_fits tv) ->
  (length l0 + 3 <= fuel)%nat ->
  scan_loop fuel (pre ++ tlvs_bytes (l0 ++ opt_list mi ++ opt_list fp)) (zlen pre) scan_init st =
  (st, Ok (mk_ScanState (map raw_of (l0 ++ opt_list mi ++ opt_list fp))
             ((fun _ => mk_Interval 0 (zlen (pre ++ tlvs_bytes l0))) <$> mi)
             ((fun _ => mk_Interval 0 (zlen (pre ++ tlvs_bytes (l0 ++ opt_list mi)))) <$> fp))).
Proof.
  intros Hl0 Hmi Hfp Hfuel. replace fuel with (length l0 + (S (S (S (fuel - length l0 - 3)))))%nat by lia.
  generalize (fuel - length l0 - 3)%nat. clear fuel Hfuel. intros k.
  unfold scan_init. rewrite tlvs_bytes_app, scan_plain by done. rewrite (tlvs_bytes_app l0 (opt_list mi)), !app_assoc.
  rewrite !map_app. cbn [app]. generalize (pre ++ tlvs_bytes l0) (map raw_of l0). clear Hl0 pre l0. intros p1 raws.
  destruct mi as [tm|]; cbn [opt_list app fmap option_fmap option_map map].
  - destruct (Hmi tm eq_refl) as [Em Fm]. rewrite tlvs_bytes_cons, tlvs_bytes_one, app_assoc, <- (app_assoc p1).
    rewrite scan_integrity_step by done. rewrite app_assoc.
    destruct fp as [tf|]; cbn [opt_list app fmap option_fmap option_map map].
    + destruct (Hfp tf eq_refl) as [Ef Ff]. rewrite tlvs_bytes_one. by rewrite scan_fingerprint_step, <- app_assoc.
    + change (tlvs_bytes []) with (@nil Z). by rewrite !app_nil_r, scan_end.
  - change (tlvs_bytes []) with (@nil Z). rewrite !app_nil_r.
    destruct fp as [tf|]; cbn [opt_list app fmap option_fmap option_map map].
    + destruct (Hfp tf eq_refl) as [Ef Ff]. rewrite tlvs_bytes_one. by rewrite scan_fingerprint_step.
    + change (tlvs_bytes []) with (@nil Z). rewrite !app_nil_r. by rewrite scan_end.
Qed.

(** ** Lemmas: the attribute parsers and the container *)

Lemma reduce_parse raws prs st :
  Forall2 (fun ra pr => forall st, attribute_parse (ra_value ra) (ra_type ra) st = (st, Ok pr)) raws prs ->
  forall acc, reduce (fun result raw_attr =>
                attr ← attribute_parse (ra_value raw_attr) (ra_type raw_attr); mret (result ++ [attr]))
              raws acc st = (st, Ok (acc ++ prs)).
Proof.
  induction 1 as [|ra pr raws prs E _ IH]; intros acc; [by rewrite reduce_nil, app_nil_r|].
  rewrite reduce_cons. unfold mbind at 1, se_bind at 1. rewrite E. unfold mret at 1, se_ret at 1.
  rewrite IH, <- app_assoc. done.
Qed.

Definition attrs_of (prs : list AttrParseResult) : list Attribute :=
  omap (fun pr => match pr with pr_attribute a => Some a | pr_unknown _ => None end) prs.
Definition unknowns_of (prs : list AttrParseResult) : list UnknownAttribute :=
  omap (fun pr => match pr with pr_attribute _ => None | pr_unknown u => Some u end) prs.

(** The last FINGERPRINT value. *)
Definition fingerprint_of (prs : list AttrParseResult) (fp : option Z) : option Z :=
  fold_left (fun fp a => match a_value a with FingerprintAttribute c => Some c | _ => fp end) (attrs_of prs) fp.

Lemma reduce_collect prs : forall s fp, exists s',
  reduce (fun (_ : unit) pr => collect_attr pr) prs tt (s, fp) = ((s', fingerprint_of prs fp), Ok tt) /\
  (forall k, m_map s' !! k = match m_map s !! k with Some x => Some x | None => first_of_type k (attrs_of prs) end) /\
  m_unknown s' = m_unknown s ++ unknowns_of prs.
Proof.
  induction prs as [|pr prs IH]; intros s fp.
  { exists s. rewrite reduce_nil, app_nil_r. split_and!; [done| |done]. intros k. by destruct (m_map s !! k). }
  rewrite reduce_cons. unfold collect_attr at 1. destruct pr as [a|u].
  - destruct (IH (as_emplace a s) (match a_value a with FingerprintAttribute c => Some c | _ => fp end))
      as (s' & E & Hm & Hu).
    exists s'. unfold success. rewrite E. split_and!; [done| |].
    + intros k. rewrite Hm, as_emplace_lookup. cbn [attrs_of omap list_omap]. rewrite first_of_type_cons.
      destruct (m_map s !! k); [done|]. by case_decide.
    + by rewrite Hu, as_emplace_unknown_eq.
  - destruct (IH (as_emplace_unknown u s) fp) as (s' & E & Hm & Hu).
    exists s'. unfold success. rewrite E. split_and!; [done| |].
    + intros k. by rewrite Hm.
    + rewrite Hu. cbn [as_emplace_unknown m_unknown unknowns_of omap list_omap]. by rewrite <- app_assoc.
Qed.

End ScanLemmas.

(** ** Lemmas: the header *)

(** A header that [Message::parse] reads back: a transaction id of 96 bits, or, in a
    request, of 128 bits that do not start with the magic cookie (RFC 3489). *)
Definition header_readable (hd : Header) (rfc3489 : bool) : Prop :=
  header_wf hd /\
  if rfc3489 then zlen (h_transaction_id hd) = 16 /\ h_cls hd = REQUEST /\
                  be_val (take 4 (h_transaction_id hd)) <> MAGIC_COOKIE
  else zlen (h_transaction_id hd) = 12.

Section HeaderParse.
Context `{CL : CraftppLaws}.

Lemma header_bytes_split hd len : header_wf hd -> exists w,
  header_bytes hd len = be_bytes 2 (msg_type (h_cls hd) (h_method hd)) ++ be_bytes 2 (u16 len) ++ w /\
  zlen w = 16 /\ bytes_ok w /\
  w = (if zlen (h_transaction_id hd) =? 12 then be_bytes 4 MAGIC_COOKIE else []) ++ h_transaction_id hd.
Proof.
  intros (_ & Hok & Hl). eexists. split; [reflexivity|]. split_and!; [| |done].
  - rewrite zlen_app. destruct Hl as [-> | ->]; done.
  - apply Forall_app_2; [|done]. case_match; auto with fw.
Qed.

Lemma zlen_header_bytes hd len : header_wf hd -> zlen (header_bytes hd len) = 20.
Proof.
  intros Hwf. destruct (header_bytes_split hd len Hwf) as (w & -> & Hw & _).
  rewrite !zlen_app, !zlen_be_bytes. lia.
Qed.

Lemma header_bytes_ok hd len : header_wf hd -> bytes_ok (header_bytes hd len).
Proof. intros Hwf. rewrite <- header_build_bytes. by apply header_build_ok. Qed.

(** The read-back of a header and its length. *)
(** What the parser reads from an encoded header. *)
Lemma header_reads hd rfc body : header_readable hd rfc -> zlen body < 2 ^ 16 ->
  let vv := header_bytes hd (zlen body) ++ body in
  let magic := assured_read_u32be vv 4 in
  assured_read_u16be vv 0 = msg_type (h_cls hd) (h_method hd) /\
  assured_read_u16be vv 2 = zlen body /\
  bool_decide (h_cls hd = REQUEST) && negb (magic =? MAGIC_COOKIE) = rfc /\
  negb rfc && negb (magic =? MAGIC_COOKIE) = false /\
  (if negb rfc then assured_subview vv 8 TRANSACTION_ID_SIZE
   else assured_subview vv 4 TRANSACTION_ID_SIZE_RFC3489) = h_transaction_id hd.
Proof.
  intros [Hwf Hrfc] Hlen. cbv zeta. pose proof (zlen_nonneg body).
  destruct (header_bytes_split hd (zlen body) Hwf) as (w & Ew & Hw & Hwok & Ewt).
  pose proof (zlen_header_bytes hd (zlen body) Hwf) as Hh.
  set (vv := header_bytes hd (zlen body) ++ body).
  assert (zlen vv = 20 + zlen body) as Hvv by (unfold vv; rewrite zlen_app; lia).
  rewrite wrap_small in Ew by (unfold fits; lia). set (mt := msg_type (h_cls hd) (h_method hd)) in *.
  assert (vv = be_bytes 2 mt ++ be_bytes 2 (zlen body) ++ w ++ body) as Evv
    by (unfold vv; rewrite Ew; by rewrite <- !app_assoc).
  assert (assured_read_u32be vv 4 = be_val (take 4 w)) as ->.
  { rewrite assured_read_u32be_spec by lia. rewrite Evv, app_assoc.
    rewrite <- (take_drop 4 w) at 1. rewrite <- (app_assoc (take 4 w)).
    rewrite (slice_app (be_bytes 2 mt ++ be_bytes 2 (zlen body)) (take 4 w)); [done|by rewrite zlen_app, !zlen_be_bytes|].
    unfold zlen. rewrite length_take. unfold zlen in Hw. lia. }
  rewrite !assured_read_u16be_spec by lia. split_and!.
  - rewrite Evv, slice_prefix by by rewrite zlen_be_bytes. apply be_val_be_bytes_small. apply msg_type_fits.
  - rewrite Evv. rewrite slice_app; [|by rewrite zlen_be_bytes..].
    apply be_val_be_bytes_small. change (256 ^ Z.of_nat 2) with (2 ^ 16). lia.
  - destruct rfc.
    + destruct Hrfc as (Hl & Hc & Hne). rewrite Hl in Ewt. cbn [Z.eqb Pos.eqb app] in Ewt. subst w.
      rewrite bool_decide_true by done. by rewrite (proj2 (Z.eqb_neq _ _) Hne).
    + rewrite Hrfc in Ewt. cbn [Z.eqb Pos.eqb] in Ewt. subst w. cbn. by rewrite andb_false_r.
  - destruct rfc; [done|]. rewrite Hrfc in Ewt. cbn [Z.eqb Pos.eqb] in Ewt. by subst w.
  - change TRANSACTION_ID_SIZE with 12. change TRANSACTION_ID_SIZE_RFC3489 with 16.
    destruct rfc; cbn [negb]; rewrite assured_subview_spec by lia; rewrite Evv, Ewt.
    + destruct Hrfc as (Hl & _). rewrite Hl. cbn [Z.eqb Pos.eqb app]. rewrite app_assoc.
      apply slice_app; [by rewrite zlen_app, !zlen_be_bytes|done].
    + rewrite Hrfc. cbn [Z.eqb Pos.eqb]. rewrite <- (app_assoc (be_bytes 4 _)), !app_assoc, <- (app_assoc _ _ body).
      apply slice_app; [by rewrite !zlen_app, !zlen_be_bytes|done].
Qed.

Lemma message_parse_header hd rfc body st : header_readable hd rfc ->
  zlen body < 2 ^ 16 -> zlen body mod 4 = 0 ->
  message_parse (header_bytes hd (zlen body) ++ body) st
  = message_parse_attrs (header_bytes hd (zlen body) ++ body) hd rfc st.
Proof.
  intros Hr Hlen Hmod. pose proof (zlen_nonneg body). pose proof Hr as [Hwf _].
  destruct (header_reads hd rfc body Hr Hlen) as (E0 & E2 & Er & Em & Et).
  pose proof (zlen_header_bytes hd (zlen body) Hwf) as Hh.
  set (vv := header_bytes hd (zlen body) ++ body) in *.
  assert (zlen vv = 20 + zlen body) as Hvv by (unfold vv; rewrite zlen_app; lia).
  unfold message_parse. cbv zeta. change STUN_HEADER_SIZE with 20. rewrite (proj2 (Z.ltb_ge _ _)) by lia.
  rewrite E0, E2. change 0x3 with (Z.ones 2). rewrite Z.land_ones by lia. change (2 ^ 2) with 4. rewrite Hmod.
  rewrite Hvv. replace (20 + zlen body - 20) with (zlen body) by lia. rewrite !Z.eqb_refl. cbn [negb].
  rewrite !class_from_msg_type_eq by apply Hwf. rewrite !Er, Em, Et.
  rewrite method_from_msg_type_eq by apply Hwf. by destruct hd.
Qed.

End HeaderParse.

(** ** Lemmas: the integrity check *)

(** The text that MESSAGE-INTEGRITY at offset [off] of [data] covers: the message before
    it, with the length field that counts up to the end of the attribute. *)
Definition integrity_text (data : bytes) (off : Z) : bytes :=
  take 2 data ++ be_bytes 2 (u16 (off + 4)) ++ slice data 4 (off - 4).

Lemma slice_of_prefix {A} (l : list A) n off m : 0 <= off -> 0 <= m -> off + m <= n ->
  slice (slice l 0 n) off m = slice l off m.
Proof.
  intros. unfold slice. rewrite drop_0, skipn_firstn_comm, take_take. f_equal. lia.
Qed.

Lemma length_bytes_be L : fits 16 L ->
  [u8 (Z.land (Z.shiftr L 8) 0xFF); u8 (Z.land L 0xFF)] = be_bytes 2 L.
Proof.
  intros HL. unfold fits in HL. change 0xFF with (Z.ones 8). rewrite !Z.land_ones, Z.shiftr_div_pow2 by lia.
  unfold wrap. cbn [be_bytes]. change (256 ^ Z.of_nat 1) with (2 ^ 8). change (256 ^ Z.of_nat 0) with 1.
  rewrite Z.div_1_r. change (2 ^ 8) with 256. by rewrite !Z.mod_mod by lia.
Qed.

Section Integrity.
Context `{CL : CraftppLaws} (h : HashFunc) (H : bytes -> bytes) {HL : HashLaws SHA1_SIZE h H}.

Lemma message_is_valid_ok m data K off digest :
  integrity_interval m = Some (mk_Interval 0 off) -> 20 <= off -> off <= zlen data -> off + 4 < 2 ^ 16 ->
  integrity (attribute_set m) = Some digest ->
  message_is_valid m data (integrity_data h H K) =
  Ok (Some (bool_decide (rfc2104_hmac H K (integrity_text data off) = digest))).
Proof.
  intros Ei H1 H2 H3 Ed. unfold message_is_valid. rewrite Ei, Ed. cbn [mbind option_bind].
  rewrite subview_interval_spec by (cbn; lia). cbn [iv_offset iv_count].
  rewrite subview_spec, (proj2 (Z.leb_le _ _)) by lia. rewrite zlen_slice by lia.
  rewrite subview_from_in by (rewrite ?zlen_slice; lia). rewrite zlen_slice, slice_of_prefix by lia.
  change STUN_ATTR_HEADER_SIZE with 4. change SHA1_SIZE with 20. change STUN_HEADER_SIZE with 20.
  replace (off + 4 + 20 - 20) with (off + 4) by lia. rewrite (wrap_small 64) by (unfold fits; lia).
  cbn [id_password id_hash integrity_data]. rewrite (hmac_digest_ok h H). cbn [mbind result_bind].
  assert (List.concat [[nth 0 data 0; nth 1 data 0; u8 (Z.land (Z.shiftr (off + 4) 8) 0xFF); u8 (Z.land (off + 4) 0xFF)];
                       slice data 4 (off - 4)] = integrity_text data off) as ->; [|done].
  unfold integrity_text. rewrite (wrap_small 16 (off + 4)) by (unfold fits; lia). rewrite <- length_bytes_be by (unfold fits; lia).
  cbn [List.concat]. rewrite app_nil_r. unfold zlen in H2. destruct data as [|a [|b data]]; cbn [length] in H2; try lia. done.
Qed.

End Integrity.

(** ** Lemmas: the parsed set *)

(** An entry of the container and the attribute it is parsed back as. *)
Definition reads_as (p : Z * Attribute) (pr : AttrParseResult) : Prop :=
  exists v', pr = pr_attribute (mk_Attribute p.1 v') /\ attribute_value_equiv v' (a_value p.2).

Definition attribute_similar (a' a : Attribute) : Prop :=
  a_type a' = a_type a /\ attribute_value_equiv (a_value a') (a_value a).

Lemma reads_as_lookup E prs k : Forall2 reads_as E prs ->
  (forall p, p ∈ E -> a_type p.2 = p.1) ->
  option_Forall2 attribute_similar (first_of_type k (attrs_of prs)) ((list_to_map E : gmap Z Attribute) !! k).
Proof.
  induction 1 as [|[k0 a] pr E prs (v' & -> & Hv) _ IH]; intros Ht.
  { cbn [list_to_map foldr]. change (attrs_of []) with (@nil Attribute). rewrite lookup_empty. constructor. }
  rewrite list_to_map_cons. cbn [attrs_of omap list_omap]. rewrite first_of_type_cons. cbn [a_type fst].
  rewrite lookup_insert. case_decide as Hk.
  - subst. constructor. split; [|done]. cbn. symmetry. apply (Ht (k, a)). set_solver.
  - apply IH. intros p Hp. apply Ht. set_solver.
Qed.

Lemma reads_as_unknowns E prs : Forall2 reads_as E prs -> unknowns_of prs = [].
Proof. induction 1 as [|p pr E prs (v' & -> & _) _ IH]; [done|]. apply IH. Qed.

Lemma attrs_of_app a b : attrs_of (a ++ b) = attrs_of a ++ attrs_of b.
Proof. apply omap_app. Qed.

Lemma unknowns_of_app a b : unknowns_of (a ++ b) = unknowns_of a ++ unknowns_of b.
Proof. apply omap_app. Qed.

Lemma first_of_type_app k a b : first_of_type k (a ++ b) =
  match first_of_type k a with Some x => Some x | None => first_of_type k b end.
Proof.
  induction a as [|x a IH]; [done|]. cbn [app]. rewrite !first_of_type_cons. by case_decide.
Qed.

(** The entries that are written as records: all but MESSAGE-INTEGRITY and FINGERPRINT. *)
Definition has_view `{Craftpp} (p : Z * Attribute) : Prop := is_Some (attribute_view (a_value p.2)).

#[export] Instance has_view_dec `{Craftpp} p : Decision (has_view p).
Proof. unfold has_view. apply _. Defined.

Lemma map_tlvs_filter `{Craftpp} l : map_tlvs l = map_tlvs (filter has_view l).
Proof.
  unfold map_tlvs. induction l as [|p l IH]; [done|]. cbn [omap list_omap].
  destruct (attribute_view (a_value p.2)) as [v|] eqn:E.
  - rewrite filter_cons_True by (unfold has_view; rewrite E; eauto). cbn [omap list_omap]. rewrite E. cbn. by rewrite IH.
  - rewrite filter_cons_False by (unfold has_view; rewrite E; by intros [? ?]). cbn. apply IH.
Qed.

Section SetParse.
Context `{CL : CraftppLaws} `{OL : MapOrderLaws}.

Lemma no_view_types v : attribute_view v = None <->
  attribute_value_type v = MESSAGE_INTEGRITY \/ attribute_value_type v = FINGERPRINT.
Proof. destruct v; cbn; split; try done; try (by left); try (by right); by intros [|]. Qed.

(** The entries with a view, as a map. *)
Lemma viewed_lookup m k : (forall k a, m !! k = Some a -> a_type a = k /\ attribute_wf a) ->
  (list_to_map (filter has_view (map_iter m)) : gmap Z Attribute) !! k =
  if decide (k = MESSAGE_INTEGRITY \/ k = FINGERPRINT) then None else m !! k.
Proof.
  intros Hwf. apply option_eq. intros a.
  assert (NoDup (filter has_view (map_iter m)).*1) as Hnd.
  { eapply sublist_NoDup; [|apply fmap_sublist, sublist_filter].
    apply (Permutation_NoDup_fst (map_to_list m)); [symmetry; apply map_iter_perm|apply NoDup_fst_map_to_list]. }
  rewrite <- elem_of_list_to_map by done. rewrite list_elem_of_filter, map_iter_perm, elem_of_map_to_list.
  unfold has_view. cbn [snd]. split.
  - intros [[v Hv] Hm]. rewrite decide_False; [done|]. destruct (Hwf k a Hm) as [Et [Ev _]]. rewrite <- Et, Ev.
    intros Hk%no_view_types. congruence.
  - case_decide as Hk; [done|]. intros Hm. split; [|done]. destruct (Hwf k a Hm) as [Et [Ev _]].
    destruct (attribute_view (a_value a)) as [v|] eqn:E; [eauto|]. exfalso. apply Hk. apply no_view_types in E. congruence.
Qed.

End SetParse.

(** ** Lemmas: building, then parsing *)

(** What a message needs for its encoding to be readable: the header, the values, and a
    body that the 16-bit length field can count. *)
Record message_buildable `{Craftpp} `{MapOrder} (m : Message) : Prop := {
  mb_header : header_readable (header m) (is_rfc3489 m);
  mb_set : attribute_set_wf (attribute_set m);
  mb_values k a : m_map (attribute_set m) !! k = Some a -> attribute_encodable (a_value a);
  mb_size : zlen (tlvs_bytes (attrs_tlvs (attribute_set m))) + 32 < 2 ^ 16
}.

Section BuildParse.
Context `{CL : CraftppLaws} `{OL : MapOrderLaws}.

Lemma known_type_fits t : t ∈ known_types -> fits 16 t.
Proof.
  intros Hin. assert (Forall (fits 16) known_types) as Hf by by repeat constructor.
  rewrite Forall_forall in Hf. by apply Hf.
Qed.

Lemma attribute_value_type_known v : attribute_value_type v ∈ known_types.
Proof. destruct v; by apply (bool_decide_unpack _). Qed.

Lemma tlvs_bytes_in tv l : tv ∈ l -> zlen tv.2 <= zlen (tlvs_bytes l).
Proof.
  intros (l1 & l2 & ->)%list_elem_of_split. rewrite tlvs_bytes_app, tlvs_bytes_cons, !zlen_app, zlen_tlv_bytes.
  pose proof (zlen_nonneg (tlvs_bytes l1)). pose proof (zlen_nonneg (tlvs_bytes l2)).
  destruct (padding_of_cases (zlen tv.2) (zlen_nonneg _)) as (_ & ? & _). lia.
Qed.

(** The entries of a well-formed set. *)
Lemma map_iter_wf s p : attribute_set_wf s -> p ∈ map_iter (m_map s) ->
  m_map s !! p.1 = Some p.2 /\ a_type p.2 = p.1 /\ attribute_wf p.2.
Proof.
  intros Hwf Hin. rewrite map_iter_perm in Hin. destruct p as [k a]. apply elem_of_map_to_list in Hin.
  split; [done|]. by apply (wf_map s Hwf).
Qed.

Lemma map_tlvs_in l tv : tv ∈ map_tlvs l -> exists p, p ∈ l /\ has_view p /\ p.1 = tv.1.
Proof.
  unfold map_tlvs. rewrite list_elem_of_omap. intros (p & Hp & E). exists p.
  unfold has_view. destruct (attribute_view (a_value p.2)); [|done]. cbn in E. injection E as <-. eauto.
Qed.

Lemma attrs_tlvs_plain s : attribute_set_wf s -> zlen (tlvs_bytes (attrs_tlvs s)) < 2 ^ 16 ->
  Forall plain_tlv (attrs_tlvs s).
Proof.
  intros Hwf Hsz. apply Forall_forall. intros tv Hin. pose proof (tlvs_bytes_in tv _ Hin) as Hlen.
  unfold attrs_tlvs in Hin. apply elem_of_app in Hin as [Hin|Hin].
  - apply map_tlvs_in in Hin as (p & Hp & [v Hv] & Et). destruct (map_iter_wf s p Hwf Hp) as (_ & Ep & [Ev _]).
    assert (tv.1 = attribute_value_type (a_value p.2)) as E by congruence.
    split; [|split]; [..|split; [|lia]]; rewrite E.
    + intros Hn. pose proof (proj2 (no_view_types (a_value p.2)) (or_intror Hn)). congruence.
    + intros Hn. pose proof (proj2 (no_view_types (a_value p.2)) (or_introl Hn)). congruence.
    + apply known_type_fits, attribute_value_type_known.
  - apply list_elem_of_fmap in Hin as (u & -> & Hu). destruct (wf_unknown s Hwf u Hu) as (_ & Hf & Hn). cbn [fst snd] in *.
    split; [|split]; [..|split; cbn [fst snd]; [done|lia]]; intros E; apply Hn; cbn [fst] in E; rewrite E; by apply (bool_decide_unpack _).
Qed.

Definition parses_to (tv : Z * bytes) (pr : AttrParseResult) : Prop :=
  forall st, attribute_parse tv.2 tv.1 st = (st, Ok pr).

Lemma parse_entries E :
  Forall (fun p => has_view p /\ attribute_wf p.2 /\ a_type p.2 = p.1 /\ attribute_encodable (a_value p.2)) E ->
  exists prs, Forall2 parses_to (map_tlvs E) prs /\ Forall2 reads_as E prs.
Proof.
  induction 1 as [|p E ([view Hv] & [Et Hwf] & Ep & Henc) _ (prs & H1 & H2)]; [by exists []|].
  destruct (attribute_parse_view (a_value p.2) view Hwf Henc Hv) as (v' & Hp & Hequiv).
  exists (pr_attribute (mk_Attribute p.1 v') :: prs). unfold map_tlvs in *. cbn [omap list_omap]. rewrite Hv. cbn [fmap option_fmap option_map].
  split; constructor; try done.
  - intros st. cbn [fst snd]. rewrite <- Ep, Et. apply Hp.
  - by exists v'.
Qed.

Lemma parse_unknowns us : Forall (fun u => ua_type u ∉ known_types) us ->
  Forall2 parses_to (map (fun u => (ua_type u, ua_data u)) us) (map pr_unknown us).
Proof.
  induction 1 as [|u us Hu _ IH]; [constructor|]. constructor; [|done]. intros st. cbn [fst snd].
  apply attribute_parser_unknown in Hu. unfold attribute_parse. rewrite Hu. by destruct u.
Qed.

Lemma parse_integrity d : zlen d = 20 ->
  parses_to (MESSAGE_INTEGRITY, d) (pr_attribute (mk_Attribute MESSAGE_INTEGRITY (MessageIntegityAttribute d))).
Proof.
  intros Hd st. apply (attribute_parse_known_ok _ integrity_parse); [done|].
  unfold integrity_parse, hash_from_view. change SHA1_SIZE with 20. cbn [snd]. by rewrite Hd.
Qed.

Lemma parse_fingerprint c : fits 32 c ->
  parses_to (FINGERPRINT, be_bytes 4 (Z.lxor c FINGERPRINT_XOR))
            (pr_attribute (mk_Attribute FINGERPRINT (FingerprintAttribute c))).
Proof.
  intros Hc st. apply (attribute_parse_known_ok _ fingerprint_parse); [done|].
  unfold fingerprint_parse. cbn [snd]. rewrite read_u32be_spec by lia.
  assert (fits 32 (Z.lxor c FINGERPRINT_XOR)) as Hf by by apply lxor_fits.
  rewrite (checked_read_all 4) by apply Hf. cbn [require]. rewrite on_err_ok.
  by rewrite Z.lxor_assoc, Z.lxor_nilpotent, Z.lxor_0_r.
Qed.

Lemma fingerprint_of_app a b fp : fingerprint_of (a ++ b) fp = fingerprint_of b (fingerprint_of a fp).
Proof. unfold fingerprint_of. by rewrite attrs_of_app, fold_left_app. Qed.

Lemma fingerprint_of_reads E prs fp : Forall2 reads_as E prs -> Forall has_view E ->
  fingerprint_of prs fp = fp.
Proof.
  unfold fingerprint_of. intros H. revert fp. induction H as [|p pr E prs (v' & -> & Hv) _ IH]; intros fp HE; [done|].
  apply Forall_cons in HE as [[view Hview] HE]. cbn [attrs_of omap list_omap fold_left a_value].
  rewrite IH by done. destruct v', (a_value p.2); cbn in Hv; try done; try (injection Hv as <-); done.
Qed.

Lemma raws_parse l prs : Forall2 parses_to l prs ->
  Forall2 (fun ra pr => forall st, attribute_parse (ra_value ra) (ra_type ra) st = (st, Ok pr)) (map raw_of l) prs.
Proof. induction 1; constructor; done. Qed.

Lemma length_tlvs l : (4 * length l <= length (tlvs_bytes l))%nat.
Proof.
  induction l as [|tv l IH]; [done|]. rewrite tlvs_bytes_cons, length_app. cbn [length].
  pose proof (zlen_tlv_bytes tv) as E. pose proof (zlen_nonneg tv.2).
  destruct (padding_of_cases (zlen tv.2) (zlen_nonneg _)) as (_ & ? & _). unfold zlen in *. lia.
Qed.

(** The parse of a body made of plain records, an optional MESSAGE-INTEGRITY and an
    optional FINGERPRINT. *)
Section Body.
Context (hdr : bytes) (l0 : list (Z * bytes)) (mi fp : option (Z * bytes)) (prs : list AttrParseResult).
Context (Hh : zlen hdr = 20) (Hl0 : Forall plain_tlv l0).
Context (Hmi : forall tv, mi = Some tv -> tv.1 = MESSAGE_INTEGRITY /\ tlv_fits tv).
Context (Hfp : forall tv, fp = Some tv -> tv.1 = FINGERPRINT /\ tlv_fits tv).
Context (Hprs : Forall2 parses_to (l0 ++ opt_list mi ++ opt_list fp) prs).

Lemma parse_attrs_ok st :
  parse_attrs (hdr ++ tlvs_bytes (l0 ++ opt_list mi ++ opt_list fp)) 20 st =
  (st, Ok (mk_ParseAttrsResult prs ((fun _ => mk_Interval 0 (zlen (hdr ++ tlvs_bytes l0))) <$> mi)
             ((fun _ => mk_Interval 0 (zlen (hdr ++ tlvs_bytes (l0 ++ opt_list mi)))) <$> fp))).
Proof.
  set (vv := hdr ++ tlvs_bytes (l0 ++ opt_list mi ++ opt_list fp)).
  assert (length l0 + 3 <= S (length vv))%nat as Hfuel.
  { unfold vv. rewrite length_app, tlvs_bytes_app, length_app. pose proof (length_tlvs l0). unfold zlen in Hh. lia. }
  unfold parse_attrs. rewrite <- Hh.
  rewrite (se_bind_ok _ _ _ _ _ (scan_message l0 mi fp hdr _ st Hl0 Hmi Hfp Hfuel)). cbn [sc_raw_attrs].
  by rewrite (se_bind_ok _ _ _ _ _ (reduce_parse _ prs st (raws_parse _ _ Hprs) [])).
Qed.

Lemma message_parse_attrs_ok hd rfc st :
  fingerprint_of prs None = (fun _ => crc32 (hdr ++ tlvs_bytes (l0 ++ opt_list mi))) <$> fp ->
  exists s', message_parse_attrs (hdr ++ tlvs_bytes (l0 ++ opt_list mi ++ opt_list fp)) hd rfc st =
    (stat_inc ps_success st,
     Ok (mk_Message hd s' rfc ((fun _ => mk_Interval 0 (zlen (hdr ++ tlvs_bytes l0))) <$> mi))) /\
    (forall k, m_map s' !! k = first_of_type k (attrs_of prs)) /\ m_unknown s' = unknowns_of prs.
Proof.
  intros Hcrc. destruct (reduce_collect prs attribute_set_empty None) as (s' & Ec & Hm & Hu). exists s'.
  split; [|split; [intros k; by rewrite Hm|done]].
  unfold message_parse_attrs. rewrite (se_bind_ok _ _ _ _ _ (parse_attrs_ok st)). cbn [par_attrs].
  rewrite Ec. change (lift (Ok tt)) with (@lift ParseStat unit (Ok tt)).
  unfold lift at 1, mbind, se_bind. cbn [maybe_fingerprint_interval maybe_integrity_interval].
  assert (fingerprint_is_valid (hdr ++ tlvs_bytes (l0 ++ opt_list mi ++ opt_list fp)) (fingerprint_of prs None)
            ((fun _ => mk_Interval 0 (zlen (hdr ++ tlvs_bytes (l0 ++ opt_list mi)))) <$> fp) = true) as ->; [|done].
  rewrite Hcrc. destruct fp as [tf|]; [|done]. cbn [fmap option_fmap option_map fingerprint_is_valid mbind option_bind].
  pose proof (zlen_nonneg (hdr ++ tlvs_bytes (l0 ++ opt_list mi))).
  rewrite app_assoc, (tlvs_bytes_app (l0 ++ opt_list mi)), app_assoc. set (v := hdr ++ tlvs_bytes (l0 ++ opt_list mi)) in *.
  rewrite subview_interval_spec by (cbn; lia). cbn [iv_offset iv_count].
  rewrite subview_spec by lia. rewrite (proj2 (Z.leb_le _ _)) by (rewrite zlen_app; pose proof (zlen_nonneg (tlvs_bytes (opt_list (Some tf)))); lia).
  rewrite slice_prefix by done. apply Z.eqb_refl.
Qed.

End Body.

Context (h : HashFunc) (H : bytes -> bytes) {HL : HashLaws SHA1_SIZE h H}.

(** The set a built message is parsed back to: every attribute with an equivalent value,
    except that MESSAGE-INTEGRITY is the computed one (or absent), and FINGERPRINT, when
    present, carries the computed checksum. *)
Record set_read_back (mac : option bytes) (s s' : AttributeSet) : Prop := {
  rb_unknown : m_unknown s' = m_unknown s;
  rb_map k : k <> MESSAGE_INTEGRITY -> k <> FINGERPRINT ->
    option_Forall2 attribute_similar (m_map s' !! k) (m_map s !! k);
  rb_integrity : integrity s' = mac;
  rb_fingerprint : is_Some (m_map s' !! FINGERPRINT) <-> is_Some (m_map s !! FINGERPRINT)
}.

Lemma integrity_text_built hd body rest : header_wf hd -> zlen body + 24 < 2 ^ 16 -> forall len,
  integrity_text ((header_bytes hd len ++ body) ++ rest) (zlen (header_bytes hd len ++ body))
  = header_bytes hd (zlen body + 24) ++ body.
Proof.
  intros Hwf Hsz len. pose proof (zlen_header_bytes hd len Hwf) as Hlen. pose proof (zlen_nonneg body).
  unfold integrity_text. rewrite zlen_app, Hlen. replace (20 + zlen body + 4) with (zlen body + 24) by lia.
  destruct (header_bytes_split hd len Hwf) as (w & Ew & Hw & _ & Ewt).
  destruct (header_bytes_split hd (zlen body + 24) Hwf) as (w' & Ew' & _ & _ & Ewt').
  rewrite Ew, Ew', Ewt', <- Ewt, <- !app_assoc.
  change (take 2 (be_bytes 2 ?x ++ ?y)) with (be_bytes 2 x). do 2 f_equal.
  rewrite (app_assoc (be_bytes 2 _)), (app_assoc w).
  rewrite (slice_app (be_bytes 2 _ ++ be_bytes 2 _) (w ++ body)); [done|by rewrite zlen_app, !zlen_be_bytes|].
  rewrite zlen_app. lia.
Qed.

Lemma of_unknowns us : attrs_of (map pr_unknown us) = [] /\ unknowns_of (map pr_unknown us) = us.
Proof. unfold attrs_of, unknowns_of. induction us as [|u us [E1 E2]]; [done|]. cbn. by rewrite E1, E2. Qed.

Lemma parsed_set m mac prsE crc s' :
  attribute_set_wf (attribute_set m) ->
  Forall2 reads_as (filter has_view (map_iter (m_map (attribute_set m)))) prsE ->
  let prs := prsE ++ map pr_unknown (m_unknown (attribute_set m)) ++
    opt_list ((fun d => pr_attribute (mk_Attribute MESSAGE_INTEGRITY (MessageIntegityAttribute d))) <$> mac) ++
    (if bool_decide (is_Some (m_map (attribute_set m) !! FINGERPRINT))
     then [pr_attribute (mk_Attribute FINGERPRINT (FingerprintAttribute crc))] else []) in
  (forall k, m_map s' !! k = first_of_type k (attrs_of prs)) -> m_unknown s' = unknowns_of prs ->
  set_read_back mac (attribute_set m) s'.
Proof.
  intros Hwf HE prs Hm Hu. set (s := attribute_set m) in *.
  assert (forall k, option_Forall2 attribute_similar (first_of_type k (attrs_of prsE))
            (if decide (k = MESSAGE_INTEGRITY \/ k = FINGERPRINT) then None else m_map s !! k)) as Hk.
  { intros k. rewrite <- viewed_lookup by apply (wf_map s Hwf). apply reads_as_lookup; [done|].
    intros p [_ Hp]%list_elem_of_filter. by destruct (map_iter_wf s p Hwf Hp) as (_ & ? & _). }
  pose proof (of_unknowns (m_unknown s)) as [Ea Eu].
  assert (forall k, m_map s' !! k =
    match first_of_type k (attrs_of prsE) with
    | Some x => Some x
    | None => first_of_type k (opt_list ((fun d => mk_Attribute MESSAGE_INTEGRITY (MessageIntegityAttribute d)) <$> mac) ++
                (if bool_decide (is_Some (m_map s !! FINGERPRINT))
                 then [mk_Attribute FINGERPRINT (FingerprintAttribute crc)] else []))
    end) as Hl.
  { intros k. rewrite Hm. unfold prs. rewrite !attrs_of_app, Ea, first_of_type_app. cbn [app].
    destruct (first_of_type k (attrs_of prsE)); [done|].
    by destruct mac, (bool_decide (is_Some (m_map s !! FINGERPRINT))). }
  split.
  - rewrite Hu. unfold prs. rewrite !unknowns_of_app, Eu, (reads_as_unknowns _ _ HE). cbn [app].
    destruct mac, (bool_decide (is_Some (m_map s !! FINGERPRINT))); cbn; by rewrite app_nil_r.
  - intros k N1 N2. specialize (Hk k). rewrite decide_False in Hk by (by intros [|]). rewrite Hl.
    destruct Hk as [x y Hxy|]; [by constructor|].
    destruct mac, (bool_decide (is_Some (m_map s !! FINGERPRINT))); cbn [fmap option_fmap option_map opt_list app];
      rewrite ?first_of_type_cons; cbn [a_type]; rewrite ?decide_False by done; constructor.
  - unfold integrity, get, as_find. rewrite Hl. specialize (Hk MESSAGE_INTEGRITY).
    rewrite decide_True in Hk by by left. inversion Hk as [|E1 E2]; subst.
    destruct mac as [d|], (bool_decide (is_Some (m_map s !! FINGERPRINT))); done.
  - rewrite Hl. specialize (Hk FINGERPRINT). rewrite decide_True in Hk by by right. inversion Hk as [|E1 E2]; subst.
    case_bool_decide as Hf; destruct mac; cbn; split; try done; eauto; by intros [].
Qed.

(** The text that the integrity of a built message covers. *)
Definition signed_text (m : Message) : bytes :=
  let body := tlvs_bytes (attrs_tlvs (attribute_set m)) in
  header_bytes (header m) (zlen body + 24) ++ body.

Lemma message_layout m key : message_buildable m ->
  message_build m (integrity_data h H <$> key)
  = Ok (message_bytes (header m) (attribute_set m) (rfc2104_hmac H <$> key)).
Proof.
  intros [Hh Hs Hv Hsz]. unfold message_build, attribute_set_build.
  pose proof (zlen_nonneg (tlvs_bytes (attrs_tlvs (attribute_set m)))).
  assert (Forall tlv_fits (attrs_tlvs (attribute_set m))) as Hf.
  { eapply Forall_impl; [apply attrs_tlvs_plain; [done|lia]|]. by intros ? (_ & _ & ?). }
  destruct (build_state_holds h H (attribute_set m) (header m) key Hf ltac:(lia)) as (bs & -> & Ec & _).
  cbn [mbind result_bind]. by rewrite concat_views_concat, Ec.
Qed.

(** *** An encoding is made of bytes *)

Lemma attribute_view_ok v view : attribute_value_wf v -> attribute_view v = Some view -> bytes_ok view.
Proof.
  assert (forall addr port, address_wf addr -> bytes_ok (mapped_build addr port)) as Hm.
  { intros addr port Ha. unfold mapped_build. destruct addr; destruct Ha; rewrite concat_views_concat; cbn [List.concat];
      rewrite app_nil_r; apply Forall_app_2; auto using mem_bytes_ok. }
  intros Hv E. destruct v; cbn [attribute_value_wf attribute_view] in Hv, E; try done; injection E as <-; auto using mem_bytes_ok.
  - destruct Hv as [Hx _]. unfold xor_mapped_build. rewrite concat_views_concat. cbn [List.concat].
    apply Forall_app_2; [apply mem_bytes_ok|]. rewrite app_nil_r. by destruct addr, Hx.
  - apply Hm, Hv.
  - unfold unknown_attributes_build. clear Hv.
    induction types as [|t types IH]; [constructor|]. cbn [flat_map]. apply Forall_app_2; [apply mem_bytes_ok|apply IH].
  - destruct Hv as [_ Hr]. unfold error_code_build. rewrite concat_views_concat. cbn [List.concat].
    apply Forall_app_2; [apply mem_bytes_ok|]. rewrite app_nil_r. destruct reason_phrase; auto.
  - apply Hm, Hv.
Qed.

Lemma tlvs_bytes_ok l : Forall (fun tv => bytes_ok tv.2) l -> bytes_ok (tlvs_bytes l).
Proof.
  induction 1 as [|tv l Hv _ IH]; [constructor|]. unfold tlvs_bytes in *. cbn [map List.concat]. apply Forall_app_2; [|exact IH].
  unfold tlv_bytes. repeat apply Forall_app_2; auto using be_bytes_ok. apply Forall_replicate. unfold is_byte. lia.
Qed.

Lemma message_bytes_ok m key : message_buildable m ->
  bytes_ok (message_bytes (header m) (attribute_set m) (rfc2104_hmac H <$> key)).
Proof.
  intros [Hh Hs _ _]. unfold message_bytes. apply Forall_app_2; [apply header_bytes_ok, Hh|]. apply tlvs_bytes_ok.
  unfold message_tlvs. repeat apply Forall_app_2.
  - apply Forall_forall. intros tv Hin. unfold map_tlvs in Hin. apply list_elem_of_omap in Hin as (p & Hp & Et).
    destruct (map_iter_wf _ p Hs Hp) as (_ & _ & [_ Hw]). destruct (attribute_view (a_value p.2)) as [v|] eqn:Hv; [|done].
    injection Et as <-. by eapply attribute_view_ok.
  - apply Forall_forall. intros tv (u & <- & Hu)%list_elem_of_In%in_map_iff. apply (wf_unknown _ Hs u). by apply list_elem_of_In.
  - destruct key as [K|]; [|constructor]. apply Forall_singleton. apply (mac_ok h H).
  - destruct (bool_decide _); [|constructor]. apply Forall_singleton, be_bytes_ok.
Qed.

(** *** The records of a built message and what they are parsed to *)

Section Built.
Context (m : Message) (key : option bytes) (Hb : message_buildable m).

Definition built_plain : list (Z * bytes) := attrs_tlvs (attribute_set m).
Definition built_mi : option (Z * bytes) :=
  (fun K => integrity_tlv (header m) (rfc2104_hmac H K) (tlvs_bytes built_plain)) <$> key.
Definition built_has_fp : bool := bool_decide (is_Some (m_map (attribute_set m) !! FINGERPRINT)).
Definition built_fp : option (Z * bytes) :=
  if built_has_fp then Some (fingerprint_tlv (header m) (tlvs_bytes (built_plain ++ opt_list built_mi))) else None.
Definition built_body : bytes := tlvs_bytes (built_plain ++ opt_list built_mi ++ opt_list built_fp).
Definition built_header : bytes := header_bytes (header m) (zlen built_body).
Definition built_crc : Z := crc32 (built_header ++ tlvs_bytes (built_plain ++ opt_list built_mi)).
Definition built_mac : option bytes := (fun K => rfc2104_hmac H K (signed_text m)) <$> key.
Definition built_results (prsE : list AttrParseResult) : list AttrParseResult :=
  prsE ++ map pr_unknown (m_unknown (attribute_set m)) ++
  opt_list ((fun d => pr_attribute (mk_Attribute MESSAGE_INTEGRITY (MessageIntegityAttribute d))) <$> built_mac) ++
  (if built_has_fp then [pr_attribute (mk_Attribute FINGERPRINT (FingerprintAttribute built_crc))] else []).

Lemma message_bytes_built :
  message_bytes (header m) (attribute_set m) (rfc2104_hmac H <$> key) = built_header ++ built_body.
Proof.
  assert (message_tlvs (header m) (attribute_set m) (rfc2104_hmac H <$> key)
    = built_plain ++ opt_list built_mi ++ opt_list built_fp) as Etl.
  { unfold message_tlvs. fold built_plain. rewrite app_assoc. unfold built_fp, built_mi, built_has_fp.
    destruct key; cbn [fmap option_fmap option_map opt_list]; by case_bool_decide. }
  unfold message_bytes. by rewrite Etl.
Qed.

Lemma built_body_size : zlen built_body < 2 ^ 16.
Proof.
  pose proof (mb_size m Hb) as Hsz. fold built_plain in Hsz. unfold built_body. rewrite !tlvs_bytes_app, !zlen_app.
  assert (zlen (tlvs_bytes (opt_list built_mi)) <= 24).
  { unfold built_mi. destruct key; [|done]. cbn [fmap option_fmap option_map opt_list]. rewrite tlvs_bytes_one.
    by rewrite (zlen_integrity_tlv h H). }
  assert (zlen (tlvs_bytes (opt_list built_fp)) <= 8); [|lia].
  unfold built_fp. destruct built_has_fp; [|done]. cbn [opt_list]. rewrite tlvs_bytes_one. by rewrite zlen_fingerprint_tlv.
Qed.

Lemma zlen_built_header : zlen built_header = 20.
Proof. apply zlen_header_bytes. apply Hb. Qed.

Lemma built_plain_ok : Forall plain_tlv built_plain.
Proof.
  pose proof (mb_size m Hb). pose proof (zlen_nonneg (tlvs_bytes built_plain)). fold built_plain in *.
  apply attrs_tlvs_plain; [apply Hb|]. fold built_plain. lia.
Qed.

Lemma built_mi_ok tv : built_mi = Some tv -> tv.1 = MESSAGE_INTEGRITY /\ tlv_fits tv.
Proof.
  unfold built_mi. destruct key as [K|]; [|done]. intros [= <-]. split; [done|]. split; [done|].
  cbn [integrity_tlv snd]. by rewrite (mac_size h H).
Qed.

Lemma built_fp_ok tv : built_fp = Some tv -> tv.1 = FINGERPRINT /\ tlv_fits tv.
Proof.
  unfold built_fp. destruct built_has_fp; [|done]. intros [= <-]. split; [done|]. split; [done|].
  cbn [fingerprint_tlv snd]. by rewrite zlen_be_bytes.
Qed.

(** Every record is parsed to its result: the values as they read back, the unknown
    attributes, the signature and the checksum. *)
Lemma built_results_ok prsE :
  Forall2 parses_to (map_tlvs (map_iter (m_map (attribute_set m)))) prsE ->
  Forall2 parses_to (built_plain ++ opt_list built_mi ++ opt_list built_fp) (built_results prsE).
Proof.
  intros HpE. unfold built_plain at 1, attrs_tlvs, built_results. rewrite <- app_assoc. apply Forall2_app; [done|].
  apply Forall2_app.
  { apply parse_unknowns, Forall_forall. intros u Hu. by apply (wf_unknown _ (mb_set m Hb) u). }
  apply Forall2_app.
  - unfold built_mi, built_mac. destruct key as [K|]; [|constructor]. constructor; [|constructor].
    apply parse_integrity, (mac_size h H).
  - assert (built_has_fp = true -> zlen (tlvs_bytes (built_plain ++ opt_list built_mi)) + 8 = zlen built_body) as Hlast.
    { intros E. unfold built_body, built_fp. rewrite E. cbn [opt_list].
      assert (zlen (tlv_bytes (fingerprint_tlv (header m) (tlvs_bytes (built_plain ++ opt_list built_mi)))) = 8) as E8
        by apply zlen_fingerprint_tlv.
      revert E8. generalize (fingerprint_tlv (header m) (tlvs_bytes (built_plain ++ opt_list built_mi))). intros tf E8.
      rewrite (app_assoc built_plain), (tlvs_bytes_app (_ ++ _)), zlen_app, tlvs_bytes_one. lia. }
    unfold built_fp. destruct built_has_fp eqn:E; [|constructor]. constructor; [|constructor]. unfold fingerprint_tlv.
    rewrite (Hlast eq_refl). apply parse_fingerprint, crc32_fits.
Qed.

Lemma built_fingerprint_of prsE :
  Forall2 reads_as (filter has_view (map_iter (m_map (attribute_set m)))) prsE ->
  fingerprint_of (built_results prsE) None =
    (fun _ => crc32 (built_header ++ tlvs_bytes (built_plain ++ opt_list built_mi))) <$> built_fp.
Proof.
  intros HrE. unfold built_results. rewrite !fingerprint_of_app.
  rewrite (fingerprint_of_reads _ _ _ HrE) by (apply Forall_forall; by intros p [? _]%list_elem_of_filter).
  assert (fingerprint_of (map pr_unknown (m_unknown (attribute_set m))) None = None) as ->
    by (unfold fingerprint_of; by rewrite (proj1 (of_unknowns _))).
  unfold built_fp, built_mac. by destruct key, built_has_fp.
Qed.

Lemma built_verifies m' : integrity (attribute_set m') = built_mac ->
  integrity_interval m' = (fun _ => mk_Interval 0 (zlen (built_header ++ tlvs_bytes built_plain))) <$> built_mi ->
  forall K', message_is_valid m' (built_header ++ built_body) (integrity_data h H K') =
    Ok ((fun K => bool_decide (rfc2104_hmac H K' (signed_text m) = rfc2104_hmac H K (signed_text m))) <$> key).
Proof.
  intros Hmac Hiv K'. pose proof zlen_built_header as Hhl. pose proof (mb_size m Hb) as Hsz. fold built_plain in Hsz.
  pose proof (zlen_nonneg (tlvs_bytes built_plain)).
  assert (built_header ++ built_body = (built_header ++ tlvs_bytes built_plain) ++ tlvs_bytes (opt_list built_mi ++ opt_list built_fp))
    as -> by (unfold built_body; rewrite tlvs_bytes_app; by rewrite app_assoc).
  set (rest := tlvs_bytes (opt_list built_mi ++ opt_list built_fp)). pose proof (zlen_nonneg rest).
  unfold built_mac, built_mi in *. destruct key as [K|]; cbn [fmap option_fmap option_map] in *.
  - rewrite (message_is_valid_ok h H _ _ _ (zlen (built_header ++ tlvs_bytes built_plain)) (rfc2104_hmac H K (signed_text m)));
      [|done|rewrite zlen_app; lia|rewrite (zlen_app (_ ++ _)); lia|rewrite zlen_app; lia|done].
    unfold built_header. rewrite integrity_text_built; [done|apply Hb|unfold built_plain in *; lia].
  - unfold message_is_valid. by rewrite Hiv.
Qed.

End Built.

Lemma build_then_parse m key st : message_buildable m ->
  let data := message_bytes (header m) (attribute_set m) (rfc2104_hmac H <$> key) in
  let mac K := rfc2104_hmac H K (signed_text m) in
  exists m', message_parse data st = (stat_inc ps_success st, Ok m') /\
    header m' = header m /\ is_rfc3489 m' = is_rfc3489 m /\
    set_read_back (mac <$> key) (attribute_set m) (attribute_set m') /\
    forall K', message_is_valid m' data (integrity_data h H K') =
      Ok ((fun K => bool_decide (mac K' = mac K)) <$> key).
Proof.
  intros Hb data mac. unfold data. rewrite message_bytes_built.
  destruct (parse_entries (filter has_view (map_iter (m_map (attribute_set m))))) as (prsE & HpE & HrE).
  { apply Forall_forall. intros p [Hview Hp]%list_elem_of_filter.
    destruct (map_iter_wf (attribute_set m) p (mb_set m Hb) Hp) as (Em & Et & Hw).
    split_and!; [done|done|done|]. by eapply mb_values. }
  rewrite <- map_tlvs_filter in HpE.
  destruct (message_parse_attrs_ok (built_header m key) (built_plain m) (built_mi m key) (built_fp m key)
    (built_results m key prsE) (zlen_built_header m key Hb) (built_plain_ok m Hb) (built_mi_ok m key) (built_fp_ok m key)
    (built_results_ok m key Hb prsE HpE) (header m) (is_rfc3489 m) st (built_fingerprint_of m key prsE HrE))
    as (s' & Ep & Hm' & Hu').
  assert (set_read_back (mac <$> key) (attribute_set m) s') as Hback
    by (apply (parsed_set m (mac <$> key) prsE (built_crc m key)); try done; apply Hb).
  eexists. split; [|split; [|split; [|split]]].
  - unfold built_header at 1. rewrite (message_parse_header (header m) (is_rfc3489 m)); [exact Ep|apply Hb|by apply built_body_size|].
    apply zlen_tlvs_mod.
  - done.
  - done.
  - done.
  - by apply built_verifies; [done|apply Hback|].
Qed.

End BuildParse.

(** ** Lemmas: what the parser can do on any input *)

Section AnyInput.
Context `{CL : CraftppLaws}.

(** What the scan of [vv] knows about its raw attributes and intervals. *)
Record scan_wf (vv : bytes) (sc : ScanState) : Prop := {
  sw_raws ra : ra ∈ sc_raw_attrs sc -> bytes_ok (ra_value ra) /\ fits 16 (ra_type ra) /\
    exists off, raw_attr_parse vv off = Ok ra;
  sw_integrity : is_Some (sc_integrity sc) <-> MESSAGE_INTEGRITY ∈ map ra_type (sc_raw_attrs sc);
  sw_interval iv : sc_integrity sc = Some iv -> iv_offset iv = 0 /\ 20 <= iv_count iv /\
    exists ra, ra ∈ sc_raw_attrs sc /\ ra_type ra = MESSAGE_INTEGRITY /\ zlen (ra_value ra) = ra_length ra /\
               iv_count iv + 4 + ra_length ra <= zlen vv;
  sw_fingerprint iv : sc_fingerprint sc = Some iv -> iv_offset iv = 0 /\ 20 <= iv_count iv <= zlen vv
}.

Lemma scan_init_wf vv : scan_wf vv scan_init.
Proof.
  split; cbn; try done; try (intros ? Hin; by apply elem_of_nil in Hin).
  split; [by intros []|by intros ?%elem_of_nil].
Qed.

Lemma scan_attr_wf vv off ra sc st : bytes_ok vv -> 20 <= off -> raw_attr_parse vv off = Ok ra ->
  scan_wf vv sc -> counted (scan_wf vv) st (scan_attr vv off ra sc st).
Proof.
  intros Hok Ho E [Hr Hi Hv Hf]. destruct (raw_attr_parse_bounds vv off ra Hok ltac:(lia) E) as (Hl & Hb & Hval & Ht & Hrok).
  assert (zlen (ra_value ra) = ra_length ra) as Hlen by (rewrite Hval; apply zlen_slice; lia).
  assert (forall ra', ra' ∈ sc_raw_attrs sc ++ [ra] -> bytes_ok (ra_value ra') /\ fits 16 (ra_type ra') /\
            exists off, raw_attr_parse vv off = Ok ra') as Hr'.
  { intros ra' [Hin|Hin%list_elem_of_singleton]%elem_of_app; [by apply Hr|]. subst. eauto. }
  unfold scan_attr. destruct (Z.eqb_spec (ra_type ra) FINGERPRINT) as [Efp|Nfp].
  - case_match; [by apply counted_fail|]. split; [done|]. split; cbn [sc_raw_attrs sc_integrity sc_fingerprint]; [done| | |].
    + rewrite map_app, elem_of_app, Hi. cbn. rewrite list_elem_of_singleton, Efp. intuition done.
    + intros iv Hiv. destruct (Hv iv Hiv) as (H1 & H2 & ra' & H3 & H4). split_and!; [done|done|].
      exists ra'. split; [set_solver|done].
    + intros iv [= <-]. cbn. lia.
  - destruct (Z.eqb_spec (ra_type ra) MESSAGE_INTEGRITY) as [Emi|Nmi].
    + split; [done|]. split; cbn [sc_raw_attrs sc_integrity sc_fingerprint]; [done| | |done].
      * rewrite map_app, elem_of_app. cbn. rewrite list_elem_of_singleton. split; [by right|eauto].
      * intros iv [= <-]. cbn. split_and!; [done|lia|]. exists ra. split_and!; [set_solver|done|done|lia].
    + destruct (sc_integrity sc) as [iv0|] eqn:Eiv.
      * split; [done|]. split; [done|by rewrite Eiv|by rewrite Eiv|done].
      * split; [done|]. split; cbn [sc_raw_attrs sc_integrity sc_fingerprint]; [done| |done|done].
        rewrite map_app, elem_of_app. cbn. rewrite list_elem_of_singleton. rewrite <- Hi. intuition congruence.
Qed.

Lemma scan_loop_wf fuel vv : bytes_ok vv -> forall off sc st, 20 <= off -> scan_wf vv sc ->
  counted (scan_wf vv) st (scan_loop fuel vv off sc st).
Proof.
  intros Hok. induction fuel as [|fuel IH]; intros off sc st Ho Hsc; [done|]. cbn [scan_loop].
  destruct (off <? zlen vv); [|done]. destruct (raw_attr_parse vv off) as [ra|e] eqn:E; [|by apply counted_fail].
  pose proof (scan_attr_wf vv off ra sc st Hok Ho E Hsc) as Hc. pose proof (raw_attr_advances vv off ra Hok ltac:(lia) E).
  destruct (scan_attr vv off ra sc st) as [st1 [sc1|e1]] eqn:Es.
  - destruct Hc as [-> Hsc1]. rewrite (se_bind_ok _ _ _ _ _ Es). apply IH; [lia|done].
  - by rewrite (se_bind_err _ _ _ _ _ Es).
Qed.

(** Any fuel above the size of the view gives the same scan: the loop ends by itself. *)
Lemma scan_loop_fuel vv : bytes_ok vv -> forall n m off sc st, 0 <= off -> zlen vv - off < 4 * Z.of_nat n ->
  zlen vv - off < 4 * Z.of_nat m -> scan_loop n vv off sc st = scan_loop m vv off sc st.
Proof.
  intros Hok. induction n as [|n IH]; intros m off sc st Ho Hn Hm; [rewrite !scan_end by lia; done|].
  destruct m as [|m]; [rewrite !scan_end by lia; done|]. cbn [scan_loop].
  destruct (off <? zlen vv); [|done]. destruct (raw_attr_parse vv off) as [ra|e] eqn:E; [|done].
  pose proof (raw_attr_advances vv off ra Hok Ho E). unfold mbind, se_bind.
  destruct (scan_attr vv off ra sc st) as [st1 [sc1|e1]]; [|done]. apply IH; lia.
Qed.

(** A raw attribute and what its parser returned. *)
Definition raw_parsed (ra : RawAttr) (pr : AttrParseResult) : Prop :=
  parsed_wf (ra_type ra) pr /\ exists st st', attribute_parse (ra_value ra) (ra_type ra) st = (st', Ok pr).

(** The parsers of the raw attributes: all succeed, or one error is counted, or a short
    plain address is met. *)
Lemma reduce_parse_outcome raws st : Forall (fun ra => bytes_ok (ra_value ra)) raws -> forall acc,
  let o := reduce (fun result raw_attr =>
                attr ← attribute_parse (ra_value raw_attr) (ra_type raw_attr); mret (result ++ [attr])) raws acc st in
  counted (fun res => exists prs, res = acc ++ prs /\ Forall2 raw_parsed raws prs) st o \/
  (exists ra e, ra ∈ raws /\ short_address (ra_value ra) (ra_type ra) /\ o = (st, Err e)).
Proof.
  induction 1 as [|ra raws Hok _ IH]; intros acc; cbv zeta.
  { left. rewrite reduce_nil. split; [done|]. exists []. by rewrite app_nil_r. }
  rewrite reduce_cons.
  destruct (attribute_parse_outcome (ra_value ra) (ra_type ra) st Hok) as [Hc|(Hs & e & E)].
  - destruct (attribute_parse (ra_value ra) (ra_type ra) st) as [st1 [pr|e]] eqn:E.
    + destruct Hc as [-> Hwf]. rewrite (se_bind_ok _ _ _ _ _ E). unfold mret at 1 3, se_ret at 1 3.
      destruct (IH (acc ++ [pr])) as [Hc|(ra' & e & Hin & Hs & ->)].
      * left. destruct (reduce _ raws (acc ++ [pr]) st) as [st2 [res|e2]]; [|done].
        destruct Hc as [-> (prs & -> & Hprs)]. split; [done|]. exists (pr :: prs). rewrite <- app_assoc. split; [done|].
        constructor; [|done]. split; eauto.
      * right. exists ra', e. split_and!; [set_solver|done|done].
    + left. by rewrite (se_bind_err _ _ _ _ _ E).
  - right. exists ra, e. rewrite (se_bind_err _ _ _ _ _ E). split_and!; [set_solver|done|done].
Qed.

(** The result of [parse_attrs]. *)
Record parsed_attrs_wf (vv : bytes) (r : ParseAttrsResult) : Prop := {
  pw_attrs a : a ∈ attrs_of (par_attrs r) -> attribute_wf a;
  pw_unknowns u : u ∈ unknowns_of (par_attrs r) -> bytes_ok (ua_data u) /\ fits 16 (ua_type u) /\ ua_type u ∉ known_types;
  pw_integrity : is_Some (maybe_integrity_interval r) <-> is_Some (first_of_type MESSAGE_INTEGRITY (attrs_of (par_attrs r)));
  pw_interval iv : maybe_integrity_interval r = Some iv ->
    iv_offset iv = 0 /\ 20 <= iv_count iv /\ iv_count iv + 24 <= zlen vv
}.

(** A MAPPED-ADDRESS or ALTERNATE-SERVER attribute of less than five bytes in [vv]. *)
Definition has_short_address (vv : bytes) : Prop :=
  exists off ra, raw_attr_parse vv off = Ok ra /\ short_address (ra_value ra) (ra_type ra).

Lemma raw_parsed_attrs raws prs : Forall2 raw_parsed raws prs ->
  Forall (fun ra => fits 16 (ra_type ra)) raws ->
  (forall a, a ∈ attrs_of prs -> attribute_wf a) /\
  (forall u, u ∈ unknowns_of prs -> bytes_ok (ua_data u) /\ fits 16 (ua_type u) /\ ua_type u ∉ known_types) /\
  (MESSAGE_INTEGRITY ∈ map ra_type raws <-> is_Some (first_of_type MESSAGE_INTEGRITY (attrs_of prs))) /\
  (forall ra, ra ∈ raws -> ra_type ra = MESSAGE_INTEGRITY -> zlen (ra_value ra) = 20).
Proof.
  induction 1 as [|ra pr raws prs [Hwf (st & st' & E)] _ IH]; intros Hf.
  { split_and!; cbn; try (intros ? Hin; by apply elem_of_nil in Hin). split; [by intros ?%elem_of_nil|by intros []]. }
  apply Forall_cons in Hf as [Hf0 Hf]. destruct (IH Hf) as (H1 & H2 & H3 & H4).
  assert (ra_type ra = MESSAGE_INTEGRITY -> zlen (ra_value ra) = 20) as H4'.
  { intros Et. rewrite Et in E. rewrite (attribute_parse_known _ integrity_parse) in E by done.
    unfold integrity_parse, hash_from_view in E. change SHA1_SIZE with 20 in E.
    destruct (Z.eqb_spec (zlen (ra_value ra)) 20) as [|]; done. }
  assert (forall ra', ra' ∈ ra :: raws -> ra_type ra' = MESSAGE_INTEGRITY -> zlen (ra_value ra') = 20) as H4''
    by (intros ra' [->|Hin]%elem_of_cons; auto).
  destruct pr as [a|u]; cbn [attrs_of unknowns_of omap list_omap].
  - destruct Hwf as [Et Hwf]. split_and!; [|done| |done].
    + intros a' [->|Hin]%elem_of_cons; [done|by apply H1].
    + cbn [map]. rewrite elem_of_cons, first_of_type_cons, Et. case_decide as Hk; [split; eauto|].
      rewrite <- H3. intuition congruence.
  - destruct Hwf as (Et & Hok & Hn). split_and!; [done| | |done].
    + intros u' [->|Hin]%elem_of_cons; [|by apply H2]. rewrite Et. split_and!; [done|done|].
      by apply attribute_parser_unknown.
    + cbn [map]. rewrite elem_of_cons, <- H3. split; [|by right]. intros [Hk|]; [|done]. by rewrite <- Hk in Hn.
Qed.

Lemma parse_attrs_outcome vv st : bytes_ok vv ->
  counted (parsed_attrs_wf vv) st (parse_attrs vv 20 st) \/
  (has_short_address vv /\ exists e, parse_attrs vv 20 st = (st, Err e)).
Proof.
  intros Hok. unfold parse_attrs.
  pose proof (scan_loop_wf (S (length vv)) vv Hok 20 scan_init st ltac:(lia) (scan_init_wf vv)) as Hc.
  destruct (scan_loop (S (length vv)) vv 20 scan_init st) as [st1 [sc|e]] eqn:Es.
  2:{ left. by rewrite (se_bind_err _ _ _ _ _ Es). }
  destruct Hc as [-> [Hr Hi Hv Hf]]. rewrite (se_bind_ok _ _ _ _ _ Es).
  destruct (reduce_parse_outcome (sc_raw_attrs sc) st) with (acc := @nil AttrParseResult) as [Hc|(ra & e & Hin & Hs & E)].
  { apply Forall_forall. intros ra Hin. by apply Hr. }
  - left. destruct (reduce _ (sc_raw_attrs sc) [] st) as [st2 [res|e]] eqn:E; [|by rewrite (se_bind_err _ _ _ _ _ E)].
    destruct Hc as [-> (prs & -> & Hprs)]. rewrite (se_bind_ok _ _ _ _ _ E). split; [done|]. cbn [app].
    destruct (raw_parsed_attrs _ _ Hprs) as (H1 & H2 & H3 & H4).
    { apply Forall_forall. intros ra Hin. by apply Hr. }
    split; cbn [par_attrs maybe_integrity_interval]; [done|done|by rewrite Hi|].
    intros iv Hiv. destruct (Hv iv Hiv) as (E1 & E2 & ra & Hin & Et & Hlen & Hb).
    specialize (H4 ra Hin Et). split_and!; [done|done|lia].
  - right. rewrite (se_bind_err _ _ _ _ _ E). split; [|eauto]. destruct (Hr ra Hin) as (_ & _ & off & Ep).
    by exists off, ra.
Qed.

End AnyInput.

(** ** Lemmas: parsed messages *)

Section ParsedMessage.
Context `{CL : CraftppLaws}.

(** A message that was read from [vv]. *)
Record message_wf (vv : bytes) (m : Message) : Prop := {
  mw_header : header_readable (header m) (is_rfc3489 m);
  mw_set : attribute_set_wf (attribute_set m);
  mw_integrity : is_Some (integrity_interval m) <-> is_Some (integrity (attribute_set m));
  mw_interval iv : integrity_interval m = Some iv ->
    iv_offset iv = 0 /\ 20 <= iv_count iv /\ iv_count iv + 24 <= zlen vv;
  mw_size : zlen vv < 2 ^ 16 + 20
}.

(** A failed parse: counted, or a short plain address. *)
Definition parse_failed (vv : bytes) (st st' : ParseStat) : Prop :=
  (exists c, c <> ps_success /\ c <> ps_error /\ st' = stat_error c st) \/ (has_short_address vv /\ st' = st).

Lemma get_integrity s : attribute_set_wf s ->
  (is_Some (m_map s !! MESSAGE_INTEGRITY) <-> is_Some (integrity s)).
Proof.
  intros Hwf. unfold integrity, get, as_find. destruct (m_map s !! MESSAGE_INTEGRITY) as [a|] eqn:E; [|by split; intros []].
  destruct (wf_map s Hwf _ _ E) as [Et [Ev _]]. cbn. split; [|eauto]. intros _.
  rewrite Et in Ev. destruct (a_value a); cbn in Ev; done.
Qed.

Ltac counted_error := left; eexists; (split; [|split; [|reflexivity]]); done.

Lemma message_parse_attrs_outcome vv hd rfc st : bytes_ok vv -> header_readable hd rfc -> zlen vv < 2 ^ 16 + 20 ->
  match message_parse_attrs vv hd rfc st with
  | (st', Ok m) => st' = stat_inc ps_success st /\ message_wf vv m
  | (st', Err e) => parse_failed vv st st'
  end.
Proof.
  intros Hok Hhd Hsz. unfold message_parse_attrs. change STUN_HEADER_SIZE with 20.
  destruct (parse_attrs_outcome vv st Hok) as [Hc|(Hs & e & E)].
  2:{ rewrite (se_bind_err _ _ _ _ _ E). by right. }
  destruct (parse_attrs vv 20 st) as [st1 [r|e]] eqn:E; [|rewrite (se_bind_err _ _ _ _ _ E); by left].
  destruct Hc as [-> [Ha Hu Hi Hv]]. rewrite (se_bind_ok _ _ _ _ _ E).
  destruct (reduce_collect (par_attrs r) attribute_set_empty None) as (s' & Ec & Hm & Hun). rewrite Ec.
  unfold lift at 1, mbind at 1, se_bind at 1.
  destruct (negb _); [counted_error|]. split; [done|].
  assert (forall k, m_map s' !! k = first_of_type k (attrs_of (par_attrs r))) as Hm' by (intros k; by rewrite Hm).
  assert (attribute_set_wf s') as Hwf.
  { split.
    - intros k a. rewrite Hm'. intros [Hin <-]%first_of_type_Some. split; [done|]. by apply Ha.
    - intros u. rewrite Hun. apply Hu. }
  split; cbn [header is_rfc3489 attribute_set integrity_interval]; [done|done| |exact Hv|done].
  by rewrite Hi, <- get_integrity, Hm'.
Qed.

Lemma message_parse_outcome_lemma vv st : bytes_ok vv ->
  match message_parse vv st with
  | (st', Ok m) => st' = stat_inc ps_success st /\ message_wf vv m
  | (st', Err e) => parse_failed vv st st'
  end.
Proof.
  intros Hok. unfold message_parse. cbv zeta. change STUN_HEADER_SIZE with 20.
  destruct (Z.ltb_spec (zlen vv) 20) as [Hs|Hs]; [counted_error|].
  destruct (negb (Z.land _ _ =? 0)); [counted_error|].
  rewrite assured_read_u16be_spec by lia.
  pose proof (be_val_fits vv 0 2 16 Hok ltac:(lia) ltac:(lia) ltac:(lia) eq_refl) as Hmt. rewrite <- assured_read_u16be_spec in Hmt by lia.
  pose proof (be_val_fits vv 2 2 16 Hok ltac:(lia) ltac:(lia) ltac:(lia) eq_refl) as Hln.
  set (mt := assured_read_u16be vv 0) in *. set (ln := be_val (slice vv 2 2)) in *.
  destruct (Z.eqb_spec ln (zlen vv - 20)) as [Eln|]; [|counted_error]. cbn [negb].
  rewrite assured_read_u32be_spec by lia. set (ck := be_val (slice vv 4 4)).
  set (cls := class_from_msg_type mt). set (rfc := bool_decide (cls = REQUEST) && negb (ck =? MAGIC_COOKIE)).
  destruct (negb rfc && negb (ck =? MAGIC_COOKIE)); [counted_error|].
  apply message_parse_attrs_outcome; [done| |unfold fits in Hln; lia].
  change TRANSACTION_ID_SIZE with 12. change TRANSACTION_ID_SIZE_RFC3489 with 16.
  split; [split; [by apply method_from_fits|]|]; cbn [h_transaction_id h_cls].
  - destruct (negb rfc); rewrite assured_subview_spec by lia; (split; [by apply Forall_slice|]);
      rewrite zlen_slice by lia; [by left|by right].
  - destruct rfc eqn:Er; cbn [negb]; rewrite assured_subview_spec by lia; rewrite zlen_slice by lia; [|done].
    apply andb_true_iff in Er as [Ec Ek]. split_and!; [done|by apply bool_decide_eq_true in Ec|].
    assert (take 4 (slice vv 4 16) = slice vv 4 4) as -> by (unfold slice; by rewrite take_take).
    fold ck. apply negb_true_iff, Z.eqb_neq in Ek. done.
Qed.

(** The integrity check of a message that was read from [data]. *)
Lemma parsed_integrity_cases (h : HashFunc) (H : bytes -> bytes) (HL : HashLaws SHA1_SIZE h H)
  (data : bytes) (m : Message) : message_wf data m ->
  (integrity (attribute_set m) = None /\ forall K, message_is_valid m data (integrity_data h H K) = Ok None) \/
  exists digest off, integrity (attribute_set m) = Some digest /\
    integrity_interval m = Some (mk_Interval 0 off) /\ 20 <= off /\ off + 24 <= zlen data /\
    forall K, message_is_valid m data (integrity_data h H K) =
      Ok (Some (bool_decide (rfc2104_hmac H K (integrity_text data off) = digest))).
Proof.
  intros [_ _ Hi Hv Hsz]. destruct (integrity_interval m) as [[o n]|] eqn:Ei.
  - right. destruct (proj1 Hi (mk_is_Some _ _ eq_refl)) as [digest Ed].
    destruct (Hv _ eq_refl) as (E1 & E2 & E3). cbn in E1, E2, E3. subst o. exists digest, n. split_and!; [done..|].
    intros K. by rewrite (message_is_valid_ok h H m data K n digest) by (done || lia).
  - left. split; [|intros K; unfold message_is_valid; by rewrite Ei].
    destruct (integrity (attribute_set m)); [|done]. by destruct (proj2 Hi (mk_is_Some _ _ eq_refl)).
Qed.

(** *** The attributes of received bytes *)

(** [l] lists the attributes of [vv] from the offset [off] on, each with its own offset, its
    type and its value. *)
Inductive attrs_at (vv : bytes) : Z -> list (Z * (Z * bytes)) -> Prop :=
| attrs_end off : zlen vv <= off -> attrs_at vv off []
| attrs_next off type n l :
    fits 16 type -> fits 16 n -> slice vv off 4 = be_bytes 2 type ++ be_bytes 2 n -> off + 4 + n <= zlen vv ->
    attrs_at vv (off + 4 + n + padding_of n) l -> attrs_at vv off ((off, (type, slice vv (off + 4) n)) :: l).

(** The MESSAGE-INTEGRITY attributes among them. *)
Definition integrity_attrs (l : list (Z * (Z * bytes))) : list (Z * (Z * bytes)) :=
  filter (fun x => x.2.1 = MESSAGE_INTEGRITY) l.

Lemma attrs_at_unique vv off l l' : attrs_at vv off l -> attrs_at vv off l' -> l = l'.
Proof.
  intros Hl. revert l'. induction Hl as [off Ho|off type n l Ht Hn E Hle _ IH]; intros l' Hl'; inversion Hl' as [off' Ho'|off' type' n' k Ht' Hn' E' Hle' Hk]; subst.
  - done.
  - unfold fits in Hn'. lia.
  - unfold fits in Hn. lia.
  - rewrite E in E'. apply app_inj_1 in E' as [E1 E2]; [|done].
    apply (f_equal be_val) in E1, E2. rewrite !be_val_be_bytes_small in E1, E2 by done. subst. f_equal. by apply IH.
Qed.

Lemma raw_attr_parse_at vv off ra : bytes_ok vv -> 0 <= off -> raw_attr_parse vv off = Ok ra ->
  slice vv off 4 = be_bytes 2 (ra_type ra) ++ be_bytes 2 (ra_length ra).
Proof.
  intros Hok Ho E. destruct (raw_attr_parse_bounds vv off ra Hok Ho E) as (Hl & Hb & _). revert E. unfold raw_attr_parse.
  rewrite !read_u16be_spec, !checked_read_in by lia. cbn [require mbind result_bind combine3].
  destruct (subview _ _ _); [|done]. cbn [require mbind result_bind combine3]. intros [= <-]. cbn [ra_type ra_length].
  assert (forall o, 0 <= o -> o + 2 <= zlen vv -> be_bytes 2 (be_val (slice vv o 2)) = slice vv o 2) as Hbe.
  { intros o Ho' Hlo. pose proof (be_bytes_be_val (slice vv o 2) (Forall_slice _ _ _ _ Hok)) as Eb.
    pose proof (zlen_slice vv o 2 ltac:(lia) ltac:(lia) ltac:(lia)) as El. unfold zlen in El.
    by replace (length (slice vv o 2)) with 2%nat in Eb by lia. }
  rewrite !Hbe by lia. change 4 with (2 + 2). by apply slice_split.
Qed.

(** What the scan remembers of them: the last interval, and every raw attribute. *)
Lemma scan_loop_attrs fuel vv : bytes_ok vv -> forall off sc st st' sc', 0 <= off -> zlen vv - off < 4 * Z.of_nat fuel ->
  scan_loop fuel vv off sc st = (st', Ok sc') -> exists l, attrs_at vv off l /\
    sc_integrity sc' = match last (integrity_attrs l) with Some x => Some (mk_Interval 0 x.1) | None => sc_integrity sc end /\
    filter (fun ra => ra_type ra = MESSAGE_INTEGRITY) (sc_raw_attrs sc') =
      filter (fun ra => ra_type ra = MESSAGE_INTEGRITY) (sc_raw_attrs sc) ++ map (fun x => raw_of x.2) (integrity_attrs l).
Proof.
  intros Hok. induction fuel as [|fuel IH]; intros off sc st st' sc' Ho Hf; cbn [scan_loop].
  { intros [= <- <-]. exists []. split; [constructor; lia|]. by rewrite app_nil_r. }
  destruct (Z.ltb_spec off (zlen vv)) as [Hlt|Hge].
  2:{ intros [= <- <-]. exists []. split; [by constructor|]. by rewrite app_nil_r. }
  destruct (raw_attr_parse vv off) as [ra|e] eqn:E; [|done].
  destruct (raw_attr_parse_bounds vv off ra Hok Ho E) as (Hl & Hb & Hval & Ht & _).
  pose proof (raw_attr_parse_at vv off ra Hok Ho E) as Hat.
  assert (ra = raw_of (ra_type ra, slice vv (off + 4) (ra_length ra))) as Era.
  { destruct ra as [t n v]. cbn in *. unfold raw_of. cbn. by rewrite Hval, zlen_slice by lia. }
  unfold mbind, se_bind. destruct (scan_attr vv off ra sc st) as [st1 [sc1|e]] eqn:Es; [|done]. intros Hr.
  rewrite aligned_length_eq in Hr by lia.
  destruct (padding_of_cases (ra_length ra)) as (_ & Hpad & _); [lia|].
  destruct (IH (off + (4 + ra_length ra + padding_of (ra_length ra))) sc1 st1 st' sc' ltac:(lia) ltac:(lia) Hr)
    as (l & Hat' & Hi & Hraw).
  exists ((off, (ra_type ra, slice vv (off + 4) (ra_length ra))) :: l). split.
  { apply attrs_next; [done|unfold fits; lia|done|lia|]. by replace (off + 4 + ra_length ra + padding_of (ra_length ra)) with
      (off + (4 + ra_length ra + padding_of (ra_length ra))) by lia. }
  unfold integrity_attrs in *. rewrite filter_cons. cbn [fst snd]. revert Es. unfold scan_attr.
  destruct (Z.eqb_spec (ra_type ra) FINGERPRINT) as [Efp|Nfp].
  - rewrite decide_False by (by rewrite Efp). destruct (off + aligned_length ra <? zlen vv); [done|]. intros [= <- <-].
    cbn [sc_integrity sc_raw_attrs] in *. split; [done|]. rewrite Hraw, filter_app, filter_cons, decide_False by (by rewrite Efp).
    by rewrite filter_nil, app_nil_r.
  - destruct (Z.eqb_spec (ra_type ra) MESSAGE_INTEGRITY) as [Emi|Nmi].
    + rewrite decide_True by done. intros [= <- <-]. cbn [sc_integrity sc_raw_attrs] in *. split.
      * rewrite Hi, last_cons. by destruct (last _).
      * rewrite Hraw, filter_app, filter_cons, decide_True, filter_nil, <- app_assoc by done. cbn [app map snd]. by rewrite <- Era.
    + rewrite decide_False by done. destruct (sc_integrity sc) eqn:Ei; intros [= <- <-]; cbn [sc_integrity sc_raw_attrs] in *.
      * rewrite Hi, Ei. by split.
      * rewrite Hi, Hraw, filter_app, filter_cons, decide_False, filter_nil, app_nil_r by done. by split.
Qed.

(** The container keeps the first of them. *)
Lemma first_integrity raws prs : Forall2 raw_parsed raws prs ->
  first_of_type MESSAGE_INTEGRITY (attrs_of prs) =
    (fun ra => mk_Attribute MESSAGE_INTEGRITY (MessageIntegityAttribute (ra_value ra))) <$>
      head (filter (fun ra => ra_type ra = MESSAGE_INTEGRITY) raws).
Proof.
  induction 1 as [|ra pr raws prs [Hwf (st & st' & E)] _ IH]; [done|]. rewrite filter_cons. destruct pr as [a|u]; cbn [attrs_of omap list_omap].
  - destruct Hwf as [Et Hwf]. rewrite first_of_type_cons, Et. case_decide as Hk; [|done]. cbn. f_equal. rewrite Hk in E, Et.
    rewrite (attribute_parse_known _ integrity_parse) in E by done. revert E. unfold mbind at 1, se_bind at 1, integrity_parse.
    unfold hash_from_view. destruct (negb _); [done|]. cbn. by intros [= _ <-].
  - destruct Hwf as (Et & _ & Hn). rewrite decide_False; [done|]. intros Hk. by rewrite Hk in Hn.
Qed.

Lemma message_parse_scan vv st st' m : bytes_ok vv -> message_parse vv st = (st', Ok m) ->
  exists sc prs, scan_loop (S (length vv)) vv 20 scan_init st = (st, Ok sc) /\ Forall2 raw_parsed (sc_raw_attrs sc) prs /\
    m_map (attribute_set m) !! MESSAGE_INTEGRITY = first_of_type MESSAGE_INTEGRITY (attrs_of prs) /\
    integrity_interval m = sc_integrity sc.
Proof.
  intros Hok. assert (message_parse vv st = (st', Ok m) -> exists hd rfc, message_parse_attrs vv hd rfc st = (st', Ok m)) as Ha.
  { unfold message_parse. cbv zeta. repeat (destruct (_ : bool); [done|]). by eexists _, _. }
  intros (hd & rfc & E)%Ha. revert E. unfold message_parse_attrs, parse_attrs. change STUN_HEADER_SIZE with 20.
  pose proof (scan_loop_wf (S (length vv)) vv Hok 20 scan_init st ltac:(lia) (scan_init_wf vv)) as Hc.
  destruct (scan_loop (S (length vv)) vv 20 scan_init st) as [st1 [sc|e]] eqn:Es; [|by rewrite (se_bind_err _ _ _ _ _ (se_bind_err _ _ _ _ _ Es))].
  destruct Hc as [-> Hsw]. unfold mbind at 1, se_bind at 1. rewrite (se_bind_ok _ _ _ _ _ Es).
  destruct (reduce_parse_outcome (sc_raw_attrs sc) st) with (acc := @nil AttrParseResult) as [Hc|(ra & e & _ & _ & E)].
  { apply Forall_forall. intros ra Hin. by apply (sw_raws _ _ Hsw). }
  2:{ by rewrite (se_bind_err _ _ _ _ _ E). }
  destruct (reduce _ (sc_raw_attrs sc) [] st) as [st2 [res|e]] eqn:E; [|by rewrite (se_bind_err _ _ _ _ _ E)].
  destruct Hc as [-> (prs & -> & Hprs)]. rewrite (se_bind_ok _ _ _ _ _ E). unfold mret, se_ret. cbn [par_attrs app].
  destruct (reduce_collect prs attribute_set_empty None) as (s' & Ec & Hm & _). rewrite Ec.
  unfold lift at 1, mbind at 1, se_bind at 1. destruct (negb _); [done|]. intros [= <- <-].
  exists sc, prs. split; [done|]. split; [done|]. split; [|done]. cbn. by rewrite Hm.
Qed.

(** What a parsed message knows about its MESSAGE-INTEGRITY attributes. *)
Lemma parsed_integrity_attrs vv st st' m : bytes_ok vv -> message_parse vv st = (st', Ok m) -> exists l, attrs_at vv 20 l /\
  integrity (attribute_set m) = (fun x => x.2.2) <$> head (integrity_attrs l) /\
  integrity_interval m = (fun x => mk_Interval 0 x.1) <$> last (integrity_attrs l).
Proof.
  intros Hok E. destruct (message_parse_scan vv st st' m Hok E) as (sc & prs & Es & Hprs & Hm & Hi).
  destruct (scan_loop_attrs (S (length vv)) vv Hok 20 scan_init st st sc) as (l & Hl & Hli & Hr); [lia|unfold zlen; lia|done|].
  exists l. split; [done|]. split.
  - unfold integrity, get, as_find. rewrite Hm, (first_integrity _ _ Hprs), Hr. cbn [scan_init sc_raw_attrs]. rewrite filter_nil.
    by destruct (integrity_attrs l) as [|[off [t v]] l'].
  - rewrite Hi, Hli. by destruct (last _).
Qed.

End ParsedMessage.

(** ** The theorems *)

(** C1. Building and parsing are inverse on buildable messages: those with a header that the
    format can hold, a well-formed set whose encoding stays below 64K, and no MAPPED-ADDRESS
    or ALTERNATE-SERVER attribute (what the library builds of these it does not parse), nor
    an error code of 100 * 2^24 or more. Such a message is encoded
    without error, and [Message::parse] of the bytes succeeds (counting one success) with
    the same header and compatibility mode, the same unknown attributes in order, and the
    same attributes with equivalent values, the FINGERPRINT being accepted. When it was
    built with integrity data, [Message::is_valid] on the bytes answers true for the same
    key, and for any other key whether its HMAC of the covered text coincides; without,
    it answers that there is nothing to check. *)
Theorem message_build_parse_roundtrip `{C : Craftpp} (CL : CraftppLaws C) `{O : MapOrder} (OL : MapOrderLaws O)
  (h : HashFunc) (H : bytes -> bytes) (HL : HashLaws SHA1_SIZE h H)
  (m : Message) (key : option bytes) (st : ParseStat) (Hm : message_buildable m) :
  exists data m',
    message_build m (integrity_data h H <$> key) = Ok data /\
    message_parse data st = (stat_inc ps_success st, Ok m') /\
    header m' = header m /\ is_rfc3489 m' = is_rfc3489 m /\
    set_read_back ((fun K => rfc2104_hmac H K (signed_text m)) <$> key) (attribute_set m) (attribute_set m') /\
    forall K', message_is_valid m' data (integrity_data h H K') =
      Ok ((fun K => bool_decide (rfc2104_hmac H K' (signed_text m) = rfc2104_hmac H K (signed_text m))) <$> key).
Proof.
  destruct (build_then_parse h H m key st Hm) as (m' & Hp & H1 & H2 & H3 & H4).
  eexists _, m'. split; [by apply message_layout|]. done.
Qed.

Definition sample_message : Message := mk_Message sample_header sample_set false None.

Lemma sample_message_buildable : message_buildable (H := reference) sample_message.
Proof.
  split.
  - split; [|done]. split; [done|]. split; [repeat constructor; unfold is_byte; lia|by left].
  - apply sample_set_wf.
  - intros k a. cbn [attribute_set sample_message]. unfold sample_set.
    rewrite (proj1 (attribute_set_create_eq _ _ k)). intros [Ha _]%first_of_type_Some.
    apply list_elem_of_In, in_map_iff in Ha as (v & <- & Hv). cbn in Hv. by destruct Hv as [<-|[<-|[<-|[]]]].
  - vm_compute. done.
Qed.

Lemma message_build_parse_roundtrip_witness : exists data m',
  message_build (H := reference) sample_message (integrity_data sample_hash sample_H <$> Some [1; 2]) = Ok data /\
  message_parse (H := reference) data parse_stat_zero = (stat_inc ps_success parse_stat_zero, Ok m') /\
  message_is_valid (H := reference) m' data (integrity_data sample_hash sample_H [1; 2]) = Ok (Some true).
Proof.
  destruct (message_build_parse_roundtrip reference_laws key_order_laws sample_hash sample_H _ sample_message (Some [1; 2])
    parse_stat_zero sample_message_buildable) as (data & m' & E1 & E2 & _ & _ & _ & E3).
  exists data, m'. split; [exact E1|]. split; [exact E2|]. rewrite E3. cbn. by rewrite bool_decide_true.
Defined.



(** C3. The integrity check of a received message. For every message that [Message::parse]
    accepts, with the attributes that its bytes list from offset 20 on, [Message::is_valid]
    never fails. It answers that there is nothing to check exactly when no attribute is a
    MESSAGE-INTEGRITY; otherwise it answers whether the digest carried by the first of them
    equals the RFC 2104 HMAC, under the password's key, of the received bytes before the last
    of them, with the length field adjusted to end after it. With one MESSAGE-INTEGRITY
    that is the check of RFC 5389; with several it is not, since those after the first are
    not ignored. *)
Theorem parsed_message_integrity `{C : Craftpp} (CL : CraftppLaws C)
  (h : HashFunc) (H : bytes -> bytes) (HL : HashLaws SHA1_SIZE h H)
  (data : bytes) (st st' : ParseStat) (m : Message) (Hok : bytes_ok data)
  (Hparse : message_parse data st = (st', Ok m)) :
  exists l, attrs_at data 20 l /\
    match head (integrity_attrs l), last (integrity_attrs l) with
    | Some (_, (_, digest)), Some (off, _) =>
        integrity (attribute_set m) = Some digest /\ 20 <= off /\ off + 24 <= zlen data /\
        forall K, message_is_valid m data (integrity_data h H K) =
          Ok (Some (bool_decide (rfc2104_hmac H K (take 2 data ++ be_bytes 2 (off + 4) ++ slice data 4 (off - 4)) = digest)))
    | _, _ =>
        integrity (attribute_set m) = None /\ forall K, message_is_valid m data (integrity_data h H K) = Ok None
    end.
Proof.
  pose proof (message_parse_outcome_lemma data st Hok) as Ho. rewrite Hparse in Ho. destruct Ho as [_ Hwf].
  destruct (parsed_integrity_attrs data st st' m Hok Hparse) as (l & Hl & Hint & Hiv). exists l. split; [done|].
  destruct (parsed_integrity_cases h H HL data m Hwf) as [[Hn Hv]|(digest & off & Hd & Hi & H1 & H2 & Hv)].
  - rewrite Hint in Hn. destruct (integrity_attrs l); [|done]. by split.
  - rewrite Hd in Hint. rewrite Hi in Hiv. destruct (head (integrity_attrs l)) as [[? [? digest']]|]; [|done].
    destruct (last (integrity_attrs l)) as [[off' ?]|]; [|done]. injection Hint as <-. injection Hiv as <-.
    split_and!; try done. intros K. rewrite Hv. unfold integrity_text. pose proof (mw_size _ _ Hwf).
    by rewrite wrap_small by (unfold fits; lia).
Qed.

Definition sample_data : bytes :=
  message_bytes (H := reference) sample_header sample_set (rfc2104_hmac sample_H <$> Some [1; 2]).

(** A signed message, whose attributes have a first and a last MESSAGE-INTEGRITY. *)
Lemma parsed_message_integrity_witness : exists m l o ty digest off x,
  message_parse (H := reference) sample_data parse_stat_zero = (stat_inc ps_success parse_stat_zero, Ok m) /\
  attrs_at sample_data 20 l /\ head (integrity_attrs l) = Some (o, (ty, digest)) /\ last (integrity_attrs l) = Some (off, x) /\
  message_is_valid (H := reference) m sample_data (integrity_data sample_hash sample_H [1; 2]) =
    Ok (Some (bool_decide (rfc2104_hmac sample_H [1; 2] (take 2 sample_data ++ be_bytes 2 (off + 4) ++ slice sample_data 4 (off - 4)) = digest))).
Proof.
  destruct (build_then_parse sample_hash sample_H sample_message (Some [1; 2]) parse_stat_zero sample_message_buildable)
    as (m & Hp & _ & _ & Hb & _). change (message_bytes _ _ _) with sample_data in Hp.
  assert (bytes_ok sample_data) as Hok.
  { vm_compute. repeat constructor; done. }
  destruct (parsed_message_integrity reference_laws sample_hash sample_H _ sample_data _ _ m Hok Hp) as (l & Hl & Hc).
  pose proof (rb_integrity _ _ _ Hb) as Hi. cbn [fmap option_fmap option_map] in Hi.
  destruct (head (integrity_attrs l)) as [[o [ty digest]]|] eqn:Eh; [|destruct Hc as [Hn _]; rewrite Hi in Hn; discriminate Hn].
  destruct (last (integrity_attrs l)) as [[off x]|] eqn:El; [|destruct Hc as [Hn _]; rewrite Hi in Hn; discriminate Hn].
  destruct Hc as (_ & _ & _ & Hv). exists m, l, o, ty, digest, off, x.
  split; [exact Hp|]. split; [exact Hl|]. split; [exact Eh|]. split; [exact El|]. apply Hv.
Defined.
