(* ===== verification/StunServer.v ===== *)
(** * stun/stun_server_stateless: the stateless STUN server

    [process] is [Stateless::process]: parse, then answer a request. The theorems: every
    answer as a function of what the request proves about its sender, with the credentials
    given to [add_user] and the HMAC of RFC 2104; and, end to end, a client that sends an
    encoded Binding request reads its own transport address in the decoded answer. *)

From S2P Require Import Prelude Errors Craftpp Util Net Crypto StunBase StunCrc StunAttr StunAttrSet StunMessage.

(** ** Data *)

(** [Stateless::ProcessResult]. *)
Inductive ProcessResult : Type :=
| Respond (response request : Message) (maybe_integrity : option IntegrityData)
| Ignore (message : option Message)
| ProcessError (error : Error).

(** The members of [Stateless]; [use_fingerprint] is the only setting. A user name is an
    [OpaqueString], its characters. *)
Record Stateless : Type := mk_Stateless {
  m_sha1 : HashFunc;
  use_fingerprint : bool;
  m_stat : ParseStat;
  m_users : gmap bytes Password
}.

(** ** Operations *)

(** [Stateless::Stateless]; the default of the setting is [true]. *)
Definition stateless_create (sha1 : HashFunc) (maybe_settings : option bool) : Stateless :=
  mk_Stateless sha1 (default true maybe_settings) parse_stat_zero ∅.

(** [Stateless::add_user]: [emplace] keeps the first password of a name. *)
Definition add_user (name : bytes) (password : Password) (s : Stateless) : Stateless :=
  match m_users s !! name with
  | Some _ => s
  | None => mk_Stateless (m_sha1 s) (use_fingerprint s) (m_stat s) (<[name := password]> (m_users s))
  end.

Definition create_error (msg : Message) (error : Z) (reason : option bytes) : Message :=
  mk_Message
    (mk_Header ERROR_RESPONSE (h_method (header msg)) (h_transaction_id (header msg)))
    (as_emplace (attribute_create (ErrorCodeAttribute error reason)) attribute_set_empty)
    (is_rfc3489 msg) None.

Section Process.
Context `{Craftpp}.

(** The lambda [check_auth]: its result, and what it leaves in [maybe_integrity_data]. *)
Definition check_auth (s : Stateless) (msg : Message) (view : bytes) (username : bytes)
    : option ProcessResult * option IntegrityData :=
  match m_users s !! username with
  | None => (Some (Respond (create_error msg Unauthorized None) msg None), None)
  | Some password =>
      let idata := mk_IntegrityData password (m_sha1 s) in
      match message_is_valid msg view idata with
      | Ok maybe_is_valid =>
          match maybe_is_valid with
          | Some is_valid =>
              if negb is_valid then (Some (Respond (create_error msg Unauthorized None) msg None), None)
              else (None, Some idata)
          | None => (None, None)
          end
      | Err err => (Some (ProcessError err), None)
      end
  end.

(** The answer to a request that is not refused. *)
Definition success_response (s : Stateless) (ep : Endpoint) (msg : Message)
    (maybe_integrity_data : option IntegrityData) : ProcessResult :=
  if negb (h_method (header msg) =? method_binding) then Ignore (Some msg)
  else
    let hd := mk_Header SUCCESS_RESPONSE (h_method (header msg)) (h_transaction_id (header msg)) in
    let attrset :=
      if negb (is_rfc3489 msg) && use_fingerprint s
      then as_emplace (attribute_create (FingerprintAttribute 0)) attribute_set_empty
      else attribute_set_empty in
    let attrset :=
      if negb (is_rfc3489 msg) then
        let xored_addr := xaddr_from_address (endpoint_address ep) (h_transaction_id (header msg)) in
        as_emplace (attribute_create (XorMappedAddressAttribute xored_addr (endpoint_port ep))) attrset
      else as_emplace (attribute_create (MappedAddressAttribute (endpoint_address ep) (endpoint_port ep))) attrset in
    Respond (mk_Message hd attrset (is_rfc3489 msg) None) msg maybe_integrity_data.

Definition process_request (s : Stateless) (ep : Endpoint) (msg : Message) (view : bytes) : ProcessResult :=
  let unknown_required := unknown_comprehension_required (attribute_set msg) in
  if negb (bool_decide (unknown_required = [])) then
    let rsp := create_error msg UnknownAttributeCode None in
    let rsp := mk_Message (header rsp)
                 (as_emplace (attribute_create (UnknownAttributesAttribute unknown_required)) (attribute_set rsp))
                 (is_rfc3489 rsp) (integrity_interval rsp) in
    Respond rsp msg None
  else
    let maybe_username := username (attribute_set msg) in
    let maybe_integrity := integrity (attribute_set msg) in
    if negb (Bool.eqb (bool_decide (is_Some maybe_username)) (bool_decide (is_Some maybe_integrity))) then
      Respond (create_error msg BadRequest None) msg None
    else
      let auth := match maybe_username with
                  | Some name => check_auth s msg view name
                  | None => (None, None)
                  end in
      match auth.1 with
      | Some r => r
      | None => success_response s ep msg auth.2
      end.

Definition process (s : Stateless) (ep : Endpoint) (view : bytes) : Stateless * ProcessResult :=
  let parsed := message_parse view (m_stat s) in
  let s' := mk_Stateless (m_sha1 s) (use_fingerprint s) parsed.1 (m_users s) in
  (s', match parsed.2 with
       | Ok msg => if bool_decide (h_cls (header msg) = REQUEST)
                   then process_request s' ep msg view
                   else Ignore (Some msg)
       | Err _ => Ignore None
       end).

End Process.

(** ** The specification *)

Section Spec.
Context `{CL : CraftppLaws} (h : HashFunc) (H : bytes -> bytes) {HL : HashLaws SHA1_SIZE h H}.

(** Credentials are user names with their secrets; the first secret of a name counts. *)
Fixpoint credential (creds : list (bytes * bytes)) (name : bytes) : option bytes :=
  match creds with
  | [] => None
  | (n, K) :: rest => if decide (name = n) then Some K else credential rest name
  end.

(** A server that was created with a setting and given credentials, whatever it has
    processed since. *)
Record serves (settings : option bool) (creds : list (bytes * bytes)) (s : Stateless) : Prop := {
  sv_sha1 : m_sha1 s = h;
  sv_fingerprint : use_fingerprint s = default true settings;
  sv_users name : m_users s !! name = password_of H <$> credential creds name
}.

(** A server that was given the credentials in order. *)
Definition server_of (settings : option bool) (creds : list (bytes * bytes)) : Stateless :=
  fold_left (fun s c => add_user c.1 (password_of H c.2) s) creds (stateless_create h settings).

(** The text that the MESSAGE-INTEGRITY of a request covers. *)
Definition covered_text (m : Message) (view : bytes) : bytes :=
  match integrity_interval m with
  | Some iv => integrity_text view (iv_count iv)
  | None => []
  end.

(** What a request proves about its sender: the error code it deserves, or the secret it
    was authenticated with (none when it carries no credentials). *)
Definition verdict (creds : list (bytes * bytes)) (view : bytes) (m : Message) : Z + option bytes :=
  if decide (unknown_comprehension_required (attribute_set m) <> []) then inl UnknownAttributeCode
  else
    match username (attribute_set m), integrity (attribute_set m) with
    | None, None => inr None
    | Some name, Some digest =>
        match credential creds name with
        | Some K => if decide (rfc2104_hmac H K (covered_text m view) = digest) then inr (Some K) else inl Unauthorized
        | None => inl Unauthorized
        end
    | _, _ => inl BadRequest
    end.

(** An error response: the method and the transaction of the request, the code, and for
    420 the unknown attributes. *)
Record is_error_response (request : Message) (code : Z) (r : Message) : Prop := {
  er_header : header r = mk_Header ERROR_RESPONSE (h_method (header request)) (h_transaction_id (header request));
  er_rfc : is_rfc3489 r = is_rfc3489 request;
  er_code : error_code_attr (attribute_set r) = Some (code, None);
  er_unknown : unknown_attributes (attribute_set r) =
    if code =? UnknownAttributeCode then Some (unknown_comprehension_required (attribute_set request)) else None;
  er_wf : (forall t, t ∈ unknown_comprehension_required (attribute_set request) -> fits 16 t) ->
    fits 32 code -> attribute_set_wf (attribute_set r)
}.

(** A success response: the transport address of the sender, and a fingerprint as set. *)
Record is_success_response (settings : option bool) (ep : Endpoint) (request r : Message) : Prop := {
  sr_header : header r = mk_Header SUCCESS_RESPONSE (h_method (header request)) (h_transaction_id (header request));
  sr_rfc : is_rfc3489 r = is_rfc3489 request;
  sr_xor : xor_mapped (attribute_set r) =
    if is_rfc3489 request then None
    else Some (xaddr_from_address (endpoint_address ep) (h_transaction_id (header request)), endpoint_port ep);
  sr_mapped : mapped (attribute_set r) =
    if is_rfc3489 request then Some (endpoint_address ep, endpoint_port ep) else None;
  sr_fingerprint : has_fingerprint (attribute_set r) = negb (is_rfc3489 request) && default true settings
}.

(** ** Lemmas *)

Lemma server_of_serves settings creds : serves settings creds (server_of settings creds).
Proof.
  unfold server_of.
  assert (forall s, let s' := fold_left (fun s c => add_user c.1 (password_of H c.2) s) creds s in
    m_sha1 s' = m_sha1 s /\ use_fingerprint s' = use_fingerprint s /\
    forall name, m_users s' !! name =
      match m_users s !! name with Some p => Some p | None => password_of H <$> credential creds name end) as Hf.
  { induction creds as [|[n K] creds IH]; intros s; cbn [fold_left credential].
    { split_and!; try done. intros name. by destruct (m_users s !! name). }
    destruct (IH (add_user n (password_of H K) s)) as (E1 & E2 & E4). cbn [fst snd].
    assert (m_sha1 (add_user n (password_of H K) s) = m_sha1 s /\
            use_fingerprint (add_user n (password_of H K) s) = use_fingerprint s) as (F1 & F2)
      by (unfold add_user; by destruct (m_users s !! n)).
    rewrite E1, E2, F1, F2. split_and!; try done. intros name. rewrite E4. unfold add_user.
    destruct (m_users s !! n) as [p|] eqn:En; cbn [m_users].
    - destruct (decide (name = n)) as [->|]; [by rewrite En|done].
    - rewrite lookup_insert. destruct (decide (n = name)) as [->|].
      + rewrite En, decide_True by done. done.
      + rewrite decide_False by done. done. }
  destruct (Hf (stateless_create h settings)) as (E1 & E2 & E4). by split.
Qed.

Lemma create_error_spec m code : code <> UnknownAttributeCode -> is_error_response m code (create_error m code None).
Proof.
  intros Hc. split; try done.
  - cbn -[UnknownAttributeCode]. by rewrite (proj2 (Z.eqb_neq _ _) Hc).
  - intros _ Hf. unfold create_error. cbn [attribute_set].
    apply (attribute_set_create_wf [ErrorCodeAttribute code None] []); repeat constructor; try done; apply Hf.
Qed.

Lemma unknown_error_spec m :
  let rsp := create_error m UnknownAttributeCode None in
  is_error_response m UnknownAttributeCode
    (mk_Message (header rsp)
       (as_emplace (attribute_create (UnknownAttributesAttribute (unknown_comprehension_required (attribute_set m))))
          (attribute_set rsp)) (is_rfc3489 rsp) (integrity_interval rsp)).
Proof.
  cbn zeta. split; try done. intros Hu Hf. cbn [attribute_set create_error].
  apply (attribute_set_create_wf [ErrorCodeAttribute UnknownAttributeCode None;
    UnknownAttributesAttribute (unknown_comprehension_required (attribute_set m))] []); [|done].
  apply Forall_cons. split; [by split|]. apply Forall_singleton. by apply Forall_forall.
Qed.

Lemma success_response_spec settings creds s ep m maybe_integrity : serves settings creds s ->
  if h_method (header m) =? BINDING
  then exists rsp, success_response s ep m maybe_integrity = Respond rsp m maybe_integrity /\
       is_success_response settings ep m rsp
  else success_response s ep m maybe_integrity = Ignore (Some m).
Proof.
  intros [_ Ef _]. unfold success_response. rewrite Ef. change method_binding with BINDING.
  destruct (h_method (header m) =? BINDING); cbn [negb]; [|done].
  eexists. split; [reflexivity|]. split; destruct (is_rfc3489 m), (default true settings); done.
Qed.

(** The authentication of a parsed request with a name and an integrity attribute. *)
Lemma check_auth_spec settings creds s m view name digest : serves settings creds s ->
  message_wf view m -> username (attribute_set m) = Some name -> integrity (attribute_set m) = Some digest ->
  check_auth s m view name =
    match credential creds name with
    | Some K => if decide (rfc2104_hmac H K (covered_text m view) = digest)
                then (None, Some (integrity_data h H K))
                else (Some (Respond (create_error m Unauthorized None) m None), None)
    | None => (Some (Respond (create_error m Unauthorized None) m None), None)
    end.
Proof.
  intros [Eh _ Eu] Hwf _ Hd. unfold check_auth. rewrite Eu, Eh.
  destruct (credential creds name) as [K|]; [|done]. cbn [fmap option_fmap option_map].
  change (mk_IntegrityData (password_of H K) h) with (integrity_data h H K).
  destruct (parsed_integrity_cases h H _ view m Hwf) as [[Hn _]|(d & off & Ed & Ei & _ & _ & Hv)];
    [by rewrite Hn in Hd|].
  rewrite Hv. rewrite Hd in Ed. injection Ed as <-. unfold covered_text. rewrite Ei. cbn [iv_count].
  destruct (decide _) as [E|E]; [by rewrite bool_decide_true|by rewrite bool_decide_false].
Qed.

Lemma process_request_spec settings creds s ep m view : serves settings creds s -> message_wf view m ->
  match verdict creds view m with
  | inl code => exists rsp, process_request s ep m view = Respond rsp m None /\ is_error_response m code rsp
  | inr key => process_request s ep m view = success_response s ep m (integrity_data h H <$> key)
  end.
Proof.
  intros Hs Hwf. unfold verdict, process_request. set (u := unknown_comprehension_required (attribute_set m)).
  destruct (decide (u <> [])) as [Hu|Hu].
  { rewrite bool_decide_false by done. cbn [negb]. eexists. split; [reflexivity|]. apply unknown_error_spec. }
  rewrite bool_decide_true by (by destruct u; [|destruct Hu]). cbn [negb].
  destruct (username (attribute_set m)) as [name|] eqn:En, (integrity (attribute_set m)) as [digest|] eqn:Ed.
  - rewrite !bool_decide_true by done. cbn [Bool.eqb negb].
    rewrite (check_auth_spec settings creds s m view name digest Hs Hwf En Ed).
    destruct (credential creds name) as [K|];
      [destruct (decide (rfc2104_hmac H K (covered_text m view) = digest))|]; cbn [fst snd]; [done| |];
      (eexists; split; [reflexivity|by apply create_error_spec]).
  - cbn. eexists. split; [reflexivity|by apply create_error_spec].
  - cbn. eexists. split; [reflexivity|by apply create_error_spec].
  - done.
Qed.

End Spec.

(** *** Reading accessors through an encoding *)

Lemma get_read_back (type : Z) {A} (as_T : AttributeValue -> option A) mac s s' :
  Proper (attribute_value_equiv ==> eq) as_T -> type <> MESSAGE_INTEGRITY -> type <> FINGERPRINT ->
  set_read_back mac s s' -> get type as_T s' = get type as_T s.
Proof.
  intros Hp N1 N2 Hb. unfold get, as_find. destruct (rb_map _ _ _ Hb type N1 N2) as [x y [_ Hv]|]; [|done].
  cbn. exact (Hp _ _ Hv).
Qed.

#[export] Instance as_username_proper : Proper (attribute_value_equiv ==> eq) as_username.
Proof. intros [] [] E; cbn in *; by simplify_eq. Qed.
#[export] Instance as_xor_mapped_proper : Proper (attribute_value_equiv ==> eq) as_xor_mapped.
Proof. intros [] [] E; cbn in *; by simplify_eq. Qed.

Section EndToEnd.
Context `{CL : CraftppLaws} `{OL : MapOrderLaws}.
Context (h : HashFunc) (H : bytes -> bytes) {HL : HashLaws SHA1_SIZE h H}.

Lemma xaddr_roundtrip a tid : address_wf a -> xaddr_to_address (xaddr_from_address a tid) tid = a.
Proof.
  intros Ha. destruct a as [v|v]; destruct Ha as [Hv Hok]; unfold zlen in Hv; cbn [xaddr_from_address xaddr_to_address].
  - by rewrite xor_magic_inv by (done || lia).
  - by rewrite xor_v6_inv by (done || lia).
Qed.

(** The size of an encoded set is bounded by the number and the size of its values. *)
Lemma tlvs_bytes_bound B l : Forall (fun tv => zlen tv.2 <= B) l -> zlen (tlvs_bytes l) <= (7 + B) * zlen l.
Proof.
  induction 1 as [|tv l Htv _ IH]; [change (0 <= (7 + B) * 0); lia|]. rewrite tlvs_bytes_cons, zlen_app, zlen_cons, zlen_tlv_bytes.
  pose proof (Z.mod_pos_bound (- zlen tv.2) 4 ltac:(lia)). unfold padding_of. lia.
Qed.

Lemma attribute_set_create_size ka ua : (size (m_map (attribute_set_create ka ua)) <= length ka)%nat.
Proof.
  unfold attribute_set_create.
  assert (forall ka s, (size (m_map (fold_left (fun s v => as_emplace (attribute_create v) s) ka s))
                        <= size (m_map s) + length ka)%nat) as Hk.
  { clear. induction ka as [|v ka IH]; intros s; cbn [fold_left length]; [lia|].
    etransitivity; [apply IH|]. unfold as_emplace. destruct (m_map s !! _) eqn:E; [lia|].
    cbn [m_map]. rewrite map_size_insert_None by done. lia. }
  assert (forall ua s, m_map (fold_left (fun s u => as_emplace_unknown u s) ua s) = m_map s) as Hu.
  { clear. induction ua as [|u ua IH]; intros s; cbn [fold_left]; [done|]. by rewrite IH. }
  rewrite Hu. etransitivity; [apply Hk|]. done.
Qed.

Lemma created_tlvs_bound ka B : Forall attribute_value_wf ka ->
  Forall (fun v => forall view, attribute_view v = Some view -> zlen view <= B) ka -> 0 <= B ->
  zlen (tlvs_bytes (attrs_tlvs (attribute_set_create ka []))) <= (7 + B) * zlen ka.
Proof.
  intros Hwf Hv HB. pose proof (attribute_set_create_wf ka [] Hwf ltac:(done)) as Hs.
  pose proof (map_tlvs_length (m_map (attribute_set_create ka [])) (wf_map _ Hs)) as Hlen.
  pose proof (attribute_set_create_size ka []) as Hsz.
  unfold attrs_tlvs. destruct (attribute_set_create_eq ka [] 0) as [_ ->]. cbn [map]. rewrite app_nil_r.
  etransitivity; [apply (tlvs_bytes_bound B)|unfold zlen; nia].
  apply Forall_forall. intros tv Htv. unfold map_tlvs in Htv. apply list_elem_of_omap in Htv as (p & Hp & Ev).
  rewrite (map_iter_perm (m_map (attribute_set_create ka []))) in Hp. destruct p as [k a].
  apply elem_of_map_to_list in Hp. rewrite (proj1 (attribute_set_create_eq _ _ k)) in Hp.
  apply first_of_type_Some in Hp as [Hin _]. apply list_elem_of_In, in_map_iff in Hin as (v & <- & Hin).
  cbn [snd a_value attribute_create] in Ev. destruct (attribute_view v) as [view|] eqn:E; [|done].
  cbn in Ev. injection Ev as <-. cbn [snd]. rewrite Forall_forall in Hv. by apply (Hv v); [apply list_elem_of_In|].
Qed.

(** A message made of few known attributes of bounded size can be encoded. *)
Lemma created_buildable m ka B : header_readable (header m) (is_rfc3489 m) ->
  attribute_set m = attribute_set_create ka [] -> Forall attribute_value_wf ka -> Forall attribute_encodable ka ->
  Forall (fun v => forall view, attribute_view v = Some view -> zlen view <= B) ka -> 0 <= B ->
  (7 + B) * zlen ka + 32 < 2 ^ 16 -> message_buildable m.
Proof.
  intros Hh Es Hwf He Hv HB Hsz. split; rewrite ?Es.
  - done.
  - by apply attribute_set_create_wf.
  - intros k a. rewrite (proj1 (attribute_set_create_eq _ _ k)). intros [Hin _]%first_of_type_Some.
    apply list_elem_of_In, in_map_iff in Hin as (v & <- & Hin). rewrite Forall_forall in He. by apply He, list_elem_of_In.
  - pose proof (created_tlvs_bound ka B Hwf Hv HB). lia.
Qed.

(** The answer to an RFC 5389 client can be encoded. *)
Lemma success_response_buildable settings ep m r : header_readable (header m) false -> is_rfc3489 m = false ->
  address_wf (endpoint_address ep) -> fits 16 (endpoint_port ep) -> fits 14 (h_method (header m)) ->
  (exists fp, attribute_set r = attribute_set_create
      ((if fp : bool then [FingerprintAttribute 0] else []) ++
       [XorMappedAddressAttribute (xaddr_from_address (endpoint_address ep) (h_transaction_id (header m))) (endpoint_port ep)]) []) ->
  is_success_response settings ep m r -> message_buildable r.
Proof.
  intros [Hwf Hl] Hr Ha Hpo Hme [fp Es] [Eh Er _ _ _]. destruct Hwf as (_ & Htok & _).
  set (va := XorMappedAddressAttribute _ _) in Es.
  assert (attribute_value_wf va) as Hva by (split; [by apply xaddr_wf_address|done]).
  assert (Forall attribute_value_wf ((if fp then [FingerprintAttribute 0] else []) ++ [va])) as Hvs
    by (apply Forall_app_2; [destruct fp; [by apply Forall_singleton|by apply Forall_nil_2]|by apply Forall_singleton]).
  assert (forall view, attribute_view va = Some view -> zlen view <= 20) as Hvb.
  { intros view [= <-]. unfold xor_mapped_build. rewrite concat_views_concat. cbn [List.concat].
    destruct Hva as [Hxa _]. rewrite !zlen_app. unfold zlen at 1. rewrite length_mem_bytes.
    destruct (xaddr_from_address _ _); destruct Hxa as [Hx _]; cbn [xaddr_view]; rewrite Hx; done. }
  eapply (created_buildable r _ 20); [|exact Es|done|..|done|].
  - rewrite Eh, Er, Hr. split; [|done]. split; [done|]. split; [done|by left].
  - destruct fp; repeat constructor.
  - apply Forall_app_2; [destruct fp; [by apply Forall_singleton|by apply Forall_nil_2]|by apply Forall_singleton].
  - by destruct fp.
Qed.

Lemma success_response_set s ep m integ r q k : is_rfc3489 m = false ->
  success_response s ep m integ = Respond r q k ->
  exists fp, attribute_set r = attribute_set_create
      ((if fp : bool then [FingerprintAttribute 0] else []) ++
       [XorMappedAddressAttribute (xaddr_from_address (endpoint_address ep) (h_transaction_id (header m))) (endpoint_port ep)]) [].
Proof.
  intros Hr. unfold success_response. destruct (negb _); [done|]. intros [= <- <- <-].
  exists (use_fingerprint s). cbn [attribute_set]. rewrite Hr. by destruct (use_fingerprint s).
Qed.

(** A client's request: a Binding request of RFC 5389, with the name that belongs to its
    secret when it is signed. *)
Record client_request (creds : list (bytes * bytes)) (q : Message) (cred : option (bytes * bytes)) : Prop := {
  cq_buildable : message_buildable q;
  cq_class : h_cls (header q) = REQUEST;
  cq_method : h_method (header q) = BINDING;
  cq_rfc : is_rfc3489 q = false;
  cq_known : unknown_comprehension_required (attribute_set q) = [];
  cq_username : username (attribute_set q) = fst <$> cred;
  cq_registered n K : cred = Some (n, K) -> credential creds n = Some K
}.

(** The server reads the request and answers it. *)
Lemma process_client_request settings creds s ep q cred : serves h H settings creds s ->
  client_request creds q cred ->
  exists rsp q',
    (process s ep (message_bytes (header q) (attribute_set q) (rfc2104_hmac H <$> (snd <$> cred)))).2
      = Respond rsp q' (integrity_data h H <$> (snd <$> cred)) /\
    header q' = header q /\ is_rfc3489 q' = false /\
    is_success_response settings ep q' rsp /\
    exists fp, attribute_set rsp = attribute_set_create
      ((if fp : bool then [FingerprintAttribute 0] else []) ++
       [XorMappedAddressAttribute (xaddr_from_address (endpoint_address ep) (h_transaction_id (header q'))) (endpoint_port ep)]) [].
Proof.
  intros Hs [Hb Hc Hm Hr Hk Hu Hreg].
  destruct (build_then_parse h H q (snd <$> cred) (m_stat s) Hb) as (q' & Hp & Eh & Er & Hrb & Hval).
  unfold process. rewrite Hp. cbn [fst snd]. set (s' := mk_Stateless _ _ _ _).
  assert (serves h H settings creds s') as Hs' by (by destruct Hs; split).
  rewrite bool_decide_true by congruence.
  assert (unknown_comprehension_required (attribute_set q') = []) as Ek
    by (unfold unknown_comprehension_required in *; by rewrite (rb_unknown _ _ _ Hrb)).
  assert (username (attribute_set q') = fst <$> cred) as Eu.
  { rewrite <- Hu. eapply get_read_back; [apply _|done|done|exact Hrb]. }
  pose proof (rb_integrity _ _ _ Hrb) as Ei.
  set (text := message_bytes _ _ _) in *.
  assert (process_request s' ep q' text = success_response s' ep q' (integrity_data h H <$> (snd <$> cred))) as ->.
  { unfold process_request. rewrite Ek, bool_decide_true by done. cbn [negb]. rewrite Eu, Ei.
    destruct cred as [[n K]|]; cbn [fmap option_fmap option_map fst snd] in *; [|done].
    rewrite !bool_decide_true by done. cbn [Bool.eqb negb]. unfold check_auth.
    rewrite (sv_users _ _ _ _ _ Hs'), (Hreg n K eq_refl), (sv_sha1 _ _ _ _ _ Hs'). cbn [fmap option_fmap option_map].
    change (mk_IntegrityData (password_of H K) h) with (integrity_data h H K).
    rewrite Hval, bool_decide_true by done. done. }
  pose proof (success_response_spec h H settings creds s' ep q' (integrity_data h H <$> (snd <$> cred)) Hs') as Hr'.
  rewrite Eh, Hm, Z.eqb_refl in Hr'. destruct Hr' as (rsp & E & Hsp). rewrite E.
  exists rsp, q'. split_and!; try done; [by rewrite Er|].
  eapply success_response_set; [by rewrite Er|exact E].
Qed.

End EndToEnd.

(** ** Properties *)

(** C6. The server answers every datagram according to what it proves about its sender: a
    datagram that is not a STUN message is ignored; a message that is not a request is
    handed back; a request with unknown comprehension-required attributes is answered 420
    with their list; one with only one of USERNAME and MESSAGE-INTEGRITY, 400; one whose
    name has no secret or whose integrity is not the HMAC of the message under the first
    secret registered for the name, 401; any other Binding request gets a success response
    with the sender's transport address and the integrity data of the authenticated secret,
    and any other method is ignored. The parse is counted, and nothing else changes. *)
Theorem process_verdict `{C : Craftpp} (CL : CraftppLaws C) (h : HashFunc) (H : bytes -> bytes)
  (HL : HashLaws SHA1_SIZE h H) (settings : option bool) (creds : list (bytes * bytes))
  (s : Stateless) (ep : Endpoint) (view : bytes) (Hs : serves h H settings creds s) (Hok : bytes_ok view) :
  let parsed := message_parse view (m_stat s) in
  let '(s', r) := process s ep view in
  serves h H settings creds s' /\ m_stat s' = parsed.1 /\
  match parsed.2 with
  | Err _ => r = Ignore None
  | Ok m =>
      if decide (h_cls (header m) = REQUEST) then
        match verdict H creds view m with
        | inl code => exists rsp, r = Respond rsp m None /\ is_error_response m code rsp
        | inr key =>
            if h_method (header m) =? BINDING
            then exists rsp, r = Respond rsp m (integrity_data h H <$> key) /\ is_success_response settings ep m rsp
            else r = Ignore (Some m)
        end
      else r = Ignore (Some m)
  end.
Proof.
  cbn zeta. unfold process. pose proof (message_parse_outcome_lemma view (m_stat s) Hok) as Hp.
  destruct (message_parse view (m_stat s)) as [st' [m|e]]; cbn [fst snd];
    (split; [by destruct Hs as [? ? ?]; split|split; [done|]]); [|done].
  destruct Hp as [_ Hwf].
  set (s' := mk_Stateless _ _ _ _). assert (serves h H settings creds s') as Hs' by (by destruct Hs; split).
  destruct (decide (h_cls (header m) = REQUEST)); [rewrite bool_decide_true by done|by rewrite bool_decide_false].
  pose proof (process_request_spec h H settings creds s' ep m view Hs' Hwf) as Hr.
  destruct (verdict H creds view m) as [code|key]; [done|]. rewrite Hr.
  by apply (success_response_spec h H settings creds).
Qed.

(** C7. A success response is only given to a sender that the server could verify: when
    [process] answers a datagram with a success response, the datagram parses as a Binding
    request, and either it carries neither USERNAME nor MESSAGE-INTEGRITY and the response
    is not signed, or its name has a registered secret, its digest is the HMAC of the
    covered text under that secret, and the response is to be signed with it. *)
Theorem success_requires_secret `{C : Craftpp} (CL : CraftppLaws C) (h : HashFunc) (H : bytes -> bytes)
  (HL : HashLaws SHA1_SIZE h H) (settings : option bool) (creds : list (bytes * bytes))
  (s : Stateless) (ep : Endpoint) (view : bytes) (rsp m : Message) (integ : option IntegrityData)
  (Hs : serves h H settings creds s) (Hok : bytes_ok view)
  (Hr : (process s ep view).2 = Respond rsp m integ) (Hc : h_cls (header rsp) = SUCCESS_RESPONSE) :
  (message_parse view (m_stat s)).2 = Ok m /\ h_cls (header m) = REQUEST /\ h_method (header m) = BINDING /\
  ((username (attribute_set m) = None /\ integrity (attribute_set m) = None /\ integ = None) \/
   exists name K, username (attribute_set m) = Some name /\ credential creds name = Some K /\
     integrity (attribute_set m) = Some (rfc2104_hmac H K (covered_text m view)) /\
     integ = Some (integrity_data h H K)).
Proof.
  revert Hr. unfold process. pose proof (message_parse_outcome_lemma view (m_stat s) Hok) as Hp.
  destruct (message_parse view (m_stat s)) as [st' [q|e]]; cbn [fst snd]; [|done]. destruct Hp as [_ Hwf].
  set (s' := mk_Stateless _ _ _ _). assert (serves h H settings creds s') as Hs' by (by destruct Hs; split).
  destruct (decide (h_cls (header q) = REQUEST)); [rewrite bool_decide_true by done|by rewrite bool_decide_false].
  pose proof (process_request_spec h H settings creds s' ep q view Hs' Hwf) as Hv.
  destruct (verdict H creds view q) as [code|key] eqn:Ev.
  { destruct Hv as (r & -> & He). intros [= -> -> _]. rewrite (er_header _ _ _ He) in Hc. done. }
  rewrite Hv. pose proof (success_response_spec h H settings creds s' ep q (integrity_data h H <$> key) Hs') as Hx.
  destruct (Z.eqb_spec (h_method (header q)) BINDING) as [Em|]; [|by rewrite Hx].
  destruct Hx as (r & -> & _). intros [= -> -> <-]. split_and!; try done.
  unfold verdict in Ev. destruct (decide _); [done|].
  destruct (username (attribute_set m)) as [name|], (integrity (attribute_set m)) as [digest|]; try done.
  - right. destruct (credential creds name) as [K|] eqn:Ec; [|done].
    destruct (decide _) as [Ed|]; [|done]. injection Ev as <-. exists name, K. by rewrite Ed.
  - left. by injection Ev as <-.
Qed.

(** End to end, a client learns its own address: when a client encodes a Binding request
    (signed with a registered secret, or without credentials) and the server processes it,
    the server answers with a success response which it can encode; the client's parser
    accepts these bytes as the answer to its transaction, the XOR-MAPPED-ADDRESS in them
    decodes to the client's own transport address, and their integrity is valid under the
    client's secret. *)
Theorem binding_transaction `{C : Craftpp} (CL : CraftppLaws C) `{O : MapOrder} (OL : MapOrderLaws O)
  (h : HashFunc) (H : bytes -> bytes) (HL : HashLaws SHA1_SIZE h H)
  (settings : option bool) (creds : list (bytes * bytes)) (s : Stateless) (ep : Endpoint)
  (q : Message) (cred : option (bytes * bytes)) (st : ParseStat)
  (Hs : serves h H settings creds s) (Hq : client_request creds q cred)
  (Ha : address_wf (endpoint_address ep)) (Hp : fits 16 (endpoint_port ep)) :
  exists data rsp q' answer r xaddr,
    message_build q (integrity_data h H <$> (snd <$> cred)) = Ok data /\
    (process s ep data).2 = Respond rsp q' (integrity_data h H <$> (snd <$> cred)) /\
    message_build rsp (integrity_data h H <$> (snd <$> cred)) = Ok answer /\
    message_parse answer st = (stat_inc ps_success st, Ok r) /\
    header r = mk_Header SUCCESS_RESPONSE BINDING (h_transaction_id (header q)) /\
    xor_mapped (attribute_set r) = Some (xaddr, endpoint_port ep) /\
    xaddr_to_address xaddr (h_transaction_id (header r)) = endpoint_address ep /\
    forall name K, cred = Some (name, K) -> message_is_valid r answer (integrity_data h H K) = Ok (Some true).
Proof.
  destruct (process_client_request h H settings creds s ep q cred Hs Hq) as (rsp & q' & Hr & Eh & Er & Hsp & Hset).
  pose proof (cq_buildable _ _ _ Hq) as Hb. pose proof (mb_header _ Hb) as Hh. rewrite (cq_rfc _ _ _ Hq) in Hh.
  assert (message_buildable rsp) as Hrb.
  { apply (success_response_buildable settings ep q'); try done; rewrite Eh; [done|]. apply Hh. }
  destruct (build_then_parse h H rsp (snd <$> cred) st Hrb) as (r & Hpr & Erh & _ & Hrr & Hval).
  eexists _, rsp, q', _, r, _. split; [by apply message_layout|]. split; [exact Hr|].
  split; [by apply message_layout|]. split; [exact Hpr|].
  assert (header r = mk_Header SUCCESS_RESPONSE BINDING (h_transaction_id (header q))) as Ehr.
  { rewrite Erh, (sr_header _ _ _ _ Hsp), Eh. f_equal. exact (cq_method _ _ _ Hq). }
  split; [exact Ehr|]. split; [|split].
  - transitivity (xor_mapped (attribute_set rsp)); [by eapply get_read_back; [apply _|..]|].
    rewrite (sr_xor _ _ _ _ Hsp), Er, Eh. reflexivity.
  - rewrite Ehr. cbn [h_transaction_id]. by apply xaddr_roundtrip.
  - intros name K ->. rewrite Hval. cbn [fmap option_fmap option_map snd]. by rewrite bool_decide_true.
Qed.

(** *** Witnesses *)

Definition sample_creds : list (bytes * bytes) := [([97], [1; 2]); ([97], [3])].
Definition sample_server : Stateless := server_of sample_hash sample_H None sample_creds.
Definition sample_endpoint : Endpoint := UdpEndpoint (AddressV4 [192; 0; 2; 1]) 32853.
Definition sample_request : Message :=
  mk_Message sample_header (attribute_set_create [UsernameAttribute [97]] []) false None.
Definition signed_request : bytes :=
  message_bytes (H := reference) sample_header (attribute_set sample_request) (rfc2104_hmac sample_H <$> Some [1; 2]).
Definition unsigned_request : bytes :=
  message_bytes (H := reference) sample_header (attribute_set sample_request) (rfc2104_hmac sample_H <$> None).

Lemma sample_request_client : client_request (C := reference) sample_creds sample_request (Some ([97], [1; 2])).
Proof.
  split; try done; [|by intros n K [= <- <-]]. split.
  - split; [|done]. split; [done|]. split; [repeat constructor; unfold is_byte; lia|by left].
  - apply attribute_set_create_wf; repeat constructor; done.
  - intros k a. cbn [attribute_set sample_request]. rewrite (proj1 (attribute_set_create_eq _ _ k)).
    intros [Ha _]%first_of_type_Some. apply list_elem_of_In, in_map_iff in Ha as (v & <- & Hv).
    cbn in Hv. by destruct Hv as [<-|[]].
  - vm_compute. done.
Qed.

(** The request without its signature is refused with 400. *)
Lemma process_verdict_witness : exists rsp m,
  (process (H := reference) sample_server sample_endpoint unsigned_request).2 = Respond rsp m None /\
  error_code_attr (attribute_set rsp) = Some (400, None).
Proof.
  assert (bytes_ok unsigned_request) as Hok by (vm_compute; repeat constructor; done).
  pose proof (process_verdict reference_laws sample_hash sample_H _ None sample_creds sample_server sample_endpoint
    unsigned_request (server_of_serves sample_hash sample_H None sample_creds) Hok) as Hv.
  destruct (build_then_parse sample_hash sample_H sample_request None (m_stat sample_server)
    (cq_buildable _ _ _ sample_request_client)) as (q & Hp & Eh & _ & Hb & _).
  change (message_bytes _ _ _) with unsigned_request in Hp.
  cbv zeta in Hv. rewrite Hp in Hv. cbn [fst snd] in Hv.
  destruct (process sample_server sample_endpoint unsigned_request) as [s' r] eqn:E.
  destruct Hv as (_ & _ & Hv). rewrite decide_True in Hv by (rewrite Eh; reflexivity).
  assert (verdict sample_H sample_creds unsigned_request q = inl 400) as Ev.
  { unfold verdict, unknown_comprehension_required. rewrite (rb_unknown _ _ _ Hb), (rb_integrity _ _ _ Hb).
    rewrite (get_read_back USERNAME as_username None (attribute_set sample_request) (attribute_set q) _
      ltac:(discriminate) ltac:(discriminate) Hb : username _ = _).
    reflexivity. }
  rewrite Ev in Hv. destruct Hv as (rsp & -> & He). exists rsp, q.
  split; [reflexivity|exact (er_code _ _ _ He)].
Defined.

Lemma success_requires_secret_witness : exists rsp m integ,
  (process (H := reference) sample_server sample_endpoint signed_request).2 = Respond rsp m integ /\
  h_method (header m) = BINDING /\ integ = Some (integrity_data sample_hash sample_H [1; 2]).
Proof.
  destruct (process_client_request sample_hash sample_H None sample_creds sample_server sample_endpoint sample_request
    _ (server_of_serves sample_hash sample_H None sample_creds) sample_request_client)
    as (rsp & q & Hr & _ & _ & Hsp & _).
  change (message_bytes _ _ _) with signed_request in Hr.
  assert (bytes_ok signed_request) as Hok by (vm_compute; repeat constructor; done).
  destruct (success_requires_secret reference_laws sample_hash sample_H _ None sample_creds sample_server sample_endpoint
    signed_request rsp q _ (server_of_serves sample_hash sample_H None sample_creds) Hok Hr
    ltac:(rewrite (sr_header _ _ _ _ Hsp); reflexivity)) as (_ & _ & Hm & _).
  eexists rsp, q, _. split; [exact Hr|]. split; [exact Hm|reflexivity].
Defined.

Lemma binding_transaction_witness : exists answer r xaddr,
  message_parse (H := reference) answer parse_stat_zero = (stat_inc ps_success parse_stat_zero, Ok r) /\
  xor_mapped (attribute_set r) = Some (xaddr, 32853) /\
  xaddr_to_address (H := reference) xaddr (h_transaction_id (header r)) = AddressV4 [192; 0; 2; 1].
Proof.
  assert (address_wf (endpoint_address sample_endpoint)) as Ha.
  { split; [reflexivity|]. repeat constructor; done. }
  destruct (binding_transaction reference_laws key_order_laws sample_hash sample_H _ None sample_creds sample_server
    sample_endpoint sample_request _ parse_stat_zero (server_of_serves sample_hash sample_H None sample_creds)
    sample_request_client Ha ltac:(split; done)) as (data & rsp & q & answer & r & xaddr & _ & _ & _ & H1 & _ & H2 & H3 & _).
  exists answer, r, xaddr. split; [exact H1|]. split; [exact H2|exact H3].
Defined.
