(* ===== verification/StunRto.v ===== *)
(** * stun/details/stun_client_udp_rto: the retransmit timeout calculator

    Per network path, the calculator keeps the smoothed round-trip time of RFC 6298 and the
    back-off of Karn's algorithm; an intrusive list orders the paths by their last update
    and old paths are forgotten. The list is used through its specification, the plain list
    that [IntrusiveList.intrusive_list_refines] shows it to implement. The theorems: no
    operation touches a destroyed entry, what is kept is recent, the timeout of a path is
    the RFC 6298 function of that path's own history, and its bounds. *)

From Stdlib Require Import Sorted.
From S2P Require Import Prelude IntrusiveList Clock Net.

(** ** Data *)

#[export] Instance Address_countable : Countable Address.
Proof.
  apply (inj_countable' (fun a => match a with AddressV4 v => inl v | AddressV6 v => inr v end)
           (fun s => match s with inl v => AddressV4 v | inr v => AddressV6 v end)). by intros [].
Defined.

#[export] Instance Path_countable : Countable Path.
Proof.
  apply (inj_countable' (fun p => (path_source p, path_target p)) (fun p => mk_Path p.1 p.2)). by intros [].
Defined.

Record SmoothVals : Set := mk_SmoothVals { srtt : Duration; rttvar : Duration }.

(** [ClientUDPRtoCalculator::Data]; its link is in the timeline. *)
Record Data : Set := mk_Data {
  d_path : Path;
  last_update : Timepoint;
  smooth : option SmoothVals;
  d_backoff : option Duration
}.

(** [Settings::RtoCalculatorSettings], with its defaults 500ms and 1h. *)
Record RtoSettings : Set := mk_RtoSettings { initial_rto : Duration; history_duration : Duration }.
Definition rto_settings_default : RtoSettings := mk_RtoSettings 500000 3600000000.

(** The timeline lists the entries, oldest first, by the paths that key them. *)
Record RtoCalculator : Type := mk_RtoCalculator {
  rto_settings : RtoSettings;
  m_by_path : gmap Path Data;
  m_timeline : list Path
}.

(** ** The timeline as an intrusive list *)

(** [push_back] of an entry, listed or not; the destructor of its link. *)
Definition timeline_remove (p : Path) (xs : list Path) : list Path := filter (fun x => x <> p) xs.
Definition timeline_push_back (p : Path) (xs : list Path) : list Path := timeline_remove p xs ++ [p].

(** ** Operations *)

Definition rto_create (settings : RtoSettings) : RtoCalculator := mk_RtoCalculator settings ∅ [].

Definition rto (c : RtoCalculator) (path : Path) : Duration :=
  match m_by_path c !! path with
  | None => initial_rto (rto_settings c)
  | Some data =>
      let K := 4 in
      default (default (initial_rto (rto_settings c)) ((fun s => srtt s + K * rttvar s) <$> smooth data))
        (d_backoff data)
  end.

(** [clear_outdated]: erase the front entry while it is too old. Erasing destroys the
    entry, whose link leaves the list. *)
Fixpoint clear_loop (fuel : nat) (now : Timepoint) (c : RtoCalculator) : RtoCalculator :=
  match fuel, m_timeline c with
  | S fuel', p :: _ =>
      match m_by_path c !! p with
      | Some front =>
          if history_duration (rto_settings c) <? tp_sub now (last_update front)
          then clear_loop fuel' now
                 (mk_RtoCalculator (rto_settings c) (delete p (m_by_path c)) (timeline_remove p (m_timeline c)))
          else c
      | None => c
      end
  | _, _ => c
  end.

Definition clear_outdated (now : Timepoint) (c : RtoCalculator) : RtoCalculator :=
  clear_loop (S (length (m_timeline c))) now c.

(** The smoothed values after a sample: alpha is 1/8, beta is 1/4; a duration is divided
    towards zero. *)
Definition smooth_update (s : option SmoothVals) (rtt : Duration) : SmoothVals :=
  match s with
  | Some s =>
      let srtt_delta := srtt s - rtt in
      let srtt_delta := if srtt_delta <? 0 then - srtt_delta else srtt_delta in
      mk_SmoothVals (Z.quot ((8 - 1) * srtt s + 1 * rtt) 8)
        (Z.quot ((4 - 1) * rttvar s + 1 * srtt_delta) 4)
  | None => mk_SmoothVals rtt (Z.quot rtt 2)
  end.

(** An update of an entry through the reference [data]; [None] when the entry has been
    destroyed, an access to freed memory. *)
Definition update_data (path : Path) (f : Data -> Data) (c : RtoCalculator) : option RtoCalculator :=
  data ← m_by_path c !! path;
  Some (mk_RtoCalculator (rto_settings c) (<[path := f data]> (m_by_path c)) (m_timeline c)).

Definition touch (now : Timepoint) (d : Data) : Data := mk_Data (d_path d) now (smooth d) (d_backoff d).

Definition new_rtt (now : Timepoint) (path : Path) (rtt : Duration) (c : RtoCalculator) : option RtoCalculator :=
  let c := match m_by_path c !! path with
           | Some _ => c
           | None => mk_RtoCalculator (rto_settings c) (<[path := mk_Data path now None None]> (m_by_path c)) (m_timeline c)
           end in
  c ← update_data path (touch now) c;
  let c := mk_RtoCalculator (rto_settings c) (m_by_path c) (timeline_push_back path (m_timeline c)) in
  let c := clear_outdated now c in
  c ← update_data path (fun d => mk_Data (d_path d) (last_update d) (smooth d) None) c;
  update_data path (fun d => mk_Data (d_path d) (last_update d) (Some (smooth_update (smooth d) rtt)) (d_backoff d)) c.

Definition backoff (now : Timepoint) (path : Path) (backoff : Duration) (c : RtoCalculator) : option RtoCalculator :=
  match m_by_path c !! path with
  | None =>
      Some (mk_RtoCalculator (rto_settings c) (<[path := mk_Data path now None (Some backoff)]> (m_by_path c))
              (timeline_push_back path (m_timeline c)))
  | Some _ =>
      c ← update_data path (touch now) c;
      let c := mk_RtoCalculator (rto_settings c) (m_by_path c) (timeline_push_back path (m_timeline c)) in
      c ← update_data path (fun d => mk_Data (d_path d) (last_update d) (smooth d) (Some backoff)) c;
      Some (clear_outdated now c)
  end.

(** ** Lemmas *)

(** The timeline is the list of links that the intrusive list represents: with the link of
    each entry in place of its path, the operations are those of the list specification. *)
Lemma timeline_is_link_list (link : Path -> loc) `{!Inj (=) (=) link} p xs :
  spec_op (op_push_back (link p)) (map link xs) = Some (map link (timeline_push_back p xs)) /\
  spec_op (op_remove (link p)) (map link xs) = Some (map link (timeline_remove p xs)).
Proof.
  assert (without (link p) (map link xs) = map link (timeline_remove p xs)) as E.
  { unfold without, timeline_remove. induction xs as [|x xs IH]; [done|]. cbn [map]. rewrite !filter_cons, IH.
    destruct (decide (x = p)) as [->|Hn].
    - by rewrite !decide_False by (intros Hf; by apply Hf).
    - rewrite !decide_True; [done|done|]. intros E. by apply Hn, (inj link). }
  cbn [spec_op]. rewrite E. split; [|done]. unfold timeline_push_back. by rewrite map_app.
Qed.

(** Every entry is listed once, under its own path. *)
Record rto_wf (c : RtoCalculator) : Prop := {
  rw_nodup : NoDup (m_timeline c);
  rw_dom p : p ∈ m_timeline c <-> is_Some (m_by_path c !! p);
  rw_path p data : m_by_path c !! p = Some data -> d_path data = p
}.

Definition outdated (c : RtoCalculator) (now : Timepoint) (p : Path) : Prop :=
  exists data, m_by_path c !! p = Some data /\ history_duration (rto_settings c) < tp_sub now (last_update data).

Lemma timeline_remove_elem p q xs : q ∈ timeline_remove p xs <-> q <> p /\ q ∈ xs.
Proof. unfold timeline_remove. by rewrite list_elem_of_filter. Qed.

Lemma timeline_remove_head p xs : NoDup (p :: xs) -> timeline_remove p (p :: xs) = xs.
Proof.
  intros [Hp _]%NoDup_cons. unfold timeline_remove. rewrite filter_cons, decide_False by (intros Hf; by apply Hf).
  clear -Hp. induction xs as [|x xs IH]; [done|]. rewrite filter_cons.
  rewrite decide_True by set_solver. f_equal. apply IH. set_solver.
Qed.

Lemma rto_wf_create s : rto_wf (rto_create s).
Proof.
  split; cbn; [constructor| |done]. intros p. rewrite lookup_empty. split; [by intros ?%elem_of_nil|by intros []].
Qed.

(** What [clear_outdated] does: it forgets an outdated prefix of the timeline. *)
Record cleared (now : Timepoint) (c c' : RtoCalculator) (pre : list Path) : Prop := {
  cl_settings : rto_settings c' = rto_settings c;
  cl_timeline : m_timeline c = pre ++ m_timeline c';
  cl_old p : p ∈ pre -> outdated c now p /\ m_by_path c' !! p = None;
  cl_kept p : p ∉ pre -> m_by_path c' !! p = m_by_path c !! p;
  cl_front p xs : m_timeline c' = p :: xs -> ~ outdated c now p
}.

Lemma clear_loop_cleared fuel now : forall c, rto_wf c -> (length (m_timeline c) < fuel)%nat ->
  exists pre, cleared now c (clear_loop fuel now c) pre.
Proof.
  induction fuel as [|fuel IH]; intros c Hwf Hlen; [lia|]. cbn [clear_loop].
  destruct (m_timeline c) as [|p xs] eqn:Et.
  { exists []. split; try done; [by intros ? ?%elem_of_nil|by rewrite Et]. }
  destruct (proj1 (rw_dom c Hwf p)) as [front Ef]; [rewrite Et; left|]. rewrite Ef.
  destruct (Z.ltb_spec (history_duration (rto_settings c)) (tp_sub now (last_update front))) as [Ho|Ho].
  - pose proof (rw_nodup c Hwf) as Hnd. rewrite Et in Hnd. rewrite timeline_remove_head by done.
    set (c1 := mk_RtoCalculator _ _ _).
    assert (rto_wf c1) as Hwf1.
    { split; cbn [c1 m_timeline m_by_path]; [by apply NoDup_cons in Hnd as []| |].
      - intros q. rewrite lookup_delete_is_Some, <- (rw_dom c Hwf q), Et.
        apply NoDup_cons in Hnd as [Hp _]. rewrite elem_of_cons. naive_solver.
      - intros q data Hd. cbn [m_by_path] in Hd. apply lookup_delete_Some in Hd as [_ Hd]. by apply (rw_path c Hwf). }
    destruct (IH c1 Hwf1 ltac:(cbn in *; lia)) as [pre [H1 H2 H3 H4 H5]].
    assert (forall q, outdated c1 now q -> outdated c now q) as Hout.
    { intros q (data & Hd & Ha). cbn [c1 m_by_path] in Hd. apply lookup_delete_Some in Hd as [_ Hd]. by exists data. }
    exists (p :: pre). split; [done| | | |].
    + rewrite Et. cbn [c1 m_timeline] in H2. by rewrite H2.
    + intros q Hq. apply elem_of_cons in Hq as [->|Hq].
      * split; [by exists front|]. destruct (decide (p ∈ pre)) as [Hin|Hn]; [by apply H3|].
        rewrite H4 by done. cbn. by rewrite lookup_delete_eq.
      * destruct (H3 q Hq). auto.
    + intros q Hq. apply not_elem_of_cons in Hq as [Hne Hq]. rewrite H4 by done. cbn. by rewrite lookup_delete_ne.
    + intros q ys E Hq. apply (H5 q ys E). destruct Hq as (data & Hd & Ha). exists data. split; [|done].
      cbn. apply lookup_delete_Some. split; [|done]. intros ->.
      cbn [c1 m_timeline] in H2. rewrite H2, E in Hnd. apply NoDup_cons in Hnd as [Hp _]. set_solver.
  - exists []. split; try done; [by intros ? ?%elem_of_nil|].
    intros q ys E (data & Hd & Ha). rewrite Et in E. injection E as <- <-. rewrite Ef in Hd.
    injection Hd as <-. lia.
Qed.

Lemma clear_outdated_cleared now c : rto_wf c -> exists pre, cleared now c (clear_outdated now c) pre.
Proof. intros Hwf. apply clear_loop_cleared; [done|lia]. Qed.

(** One update of a path's entry: the other entries stay, or are forgotten because they
    are outdated. *)
Record after_event (now : Timepoint) (p : Path) (dp : Data) (c c' : RtoCalculator) : Prop := {
  ae_settings : rto_settings c' = rto_settings c;
  ae_wf : rto_wf c';
  ae_self : m_by_path c' !! p = Some dp;
  ae_other q : q <> p -> m_by_path c' !! q = m_by_path c !! q \/ (m_by_path c' !! q = None /\ outdated c now q);
  ae_timeline : exists pre, timeline_push_back p (m_timeline c) = pre ++ m_timeline c'
}.

(** The front of the timeline is not outdated. *)
Definition front_fresh (now : Timepoint) (c : RtoCalculator) : Prop :=
  forall p xs, m_timeline c = p :: xs -> ~ outdated c now p.

Lemma push_back_wf c p dp : rto_wf c -> d_path dp = p ->
  rto_wf (mk_RtoCalculator (rto_settings c) (<[p := dp]> (m_by_path c)) (timeline_push_back p (m_timeline c))).
Proof.
  intros Hwf Hd. split; cbn [m_timeline m_by_path].
  - unfold timeline_push_back. apply NoDup_app. split_and!.
    + apply NoDup_filter, (rw_nodup c Hwf).
    + intros q [Hq _]%timeline_remove_elem. by intros ?%list_elem_of_singleton.
    + apply NoDup_singleton.
  - intros q. unfold timeline_push_back. rewrite elem_of_app, timeline_remove_elem, list_elem_of_singleton.
    rewrite lookup_insert_is_Some, (rw_dom c Hwf q). destruct (decide (q = p)); naive_solver.
  - intros q data. rewrite lookup_insert_Some. intros [[<- <-]|[_ Hq]]; [done|by apply (rw_path c Hwf)].
Qed.

Lemma update_data_wf c p f data : rto_wf c -> m_by_path c !! p = Some data -> d_path (f data) = p ->
  rto_wf (mk_RtoCalculator (rto_settings c) (<[p := f data]> (m_by_path c)) (m_timeline c)).
Proof.
  intros Hwf Hp Hd. split; cbn [m_timeline m_by_path]; [apply (rw_nodup c Hwf)| |].
  - intros q. rewrite lookup_insert_is_Some, (rw_dom c Hwf q). destruct (decide (p = q)) as [<-|]; [|naive_solver].
    rewrite Hp. naive_solver.
  - intros q d. rewrite lookup_insert_Some. intros [[<- <-]|[_ Hq]]; [done|by apply (rw_path c Hwf)].
Qed.

Lemma tp_sub_self t : tp_sub t t = 0.
Proof. by rewrite tp_sub_eq, Z.sub_diag. Qed.

(** The common part of [new_rtt] and [backoff]: push the entry to the back, then clear. *)
Lemma push_and_clear now p dp c : rto_wf c -> 0 <= history_duration (rto_settings c) ->
  d_path dp = p -> last_update dp = now ->
  let c1 := mk_RtoCalculator (rto_settings c) (<[p := dp]> (m_by_path c)) (timeline_push_back p (m_timeline c)) in
  after_event now p dp c (clear_outdated now c1) /\ front_fresh now (clear_outdated now c1).
Proof.
  intros Hwf Hh Hd Hl c1. pose proof (push_back_wf c p dp Hwf Hd) as Hwf1. fold c1 in Hwf1.
  destruct (clear_outdated_cleared now c1 Hwf1) as [pre [H1 H2 H3 H4 H5]]. set (c' := clear_outdated now c1) in *.
  assert (p ∉ pre) as Hp.
  { intros Hin. destruct (H3 p Hin) as [(d & Hlk & Ho) _]. cbn [c1 m_by_path rto_settings] in Hlk, Ho.
    rewrite lookup_insert_eq in Hlk. injection Hlk as <-. rewrite Hl, tp_sub_self in Ho. lia. }
  assert (forall q, m_by_path c' !! q = if decide (q ∈ pre) then None else m_by_path c1 !! q) as Hlk.
  { intros q. destruct (decide (q ∈ pre)); [by apply H3|by apply H4]. }
  assert (NoDup (pre ++ m_timeline c')) as Hnd by (rewrite <- H2; apply (rw_nodup _ Hwf1)).
  apply NoDup_app in Hnd as (Hnd1 & Hdis & Hnd2).
  split; [split; [done|split| | |]|].
  - exact Hnd2.
  - intros q. rewrite Hlk. pose proof (rw_dom _ Hwf1 q) as Hq. rewrite H2, elem_of_app in Hq.
    destruct (decide (q ∈ pre)) as [Hin|Hn]; [split; [by intros ?%Hdis|by intros []]|naive_solver].
  - intros q d. rewrite Hlk. destruct (decide (q ∈ pre)); [done|]. apply (rw_path _ Hwf1).
  - rewrite H4 by done. cbn. by rewrite lookup_insert_eq.
  - intros q Hq. rewrite Hlk. cbn [c1 m_by_path]. rewrite lookup_insert_ne by done.
    destruct (decide (q ∈ pre)) as [Hin|Hn]; [|by left]. right. split; [done|].
    destruct (H3 q Hin) as [(d & Hd' & Ho) _]. cbn [c1 m_by_path rto_settings] in Hd', Ho. rewrite lookup_insert_ne in Hd' by done. by exists d.
  - by exists pre.
  - intros q xs E (d & Hd' & Ho). apply (H5 q xs E). exists d. rewrite Hlk in Hd'.
    destruct (decide (q ∈ pre)); [done|]. split; [done|]. by rewrite <- H1.
Qed.

Definition smooth_of (c : RtoCalculator) (p : Path) : option SmoothVals := m_by_path c !! p ≫= smooth.

Lemma update_after_event now p dp f c c' : after_event now p dp c c' -> front_fresh now c' ->
  d_path (f dp) = p -> last_update (f dp) = last_update dp ->
  exists c'', update_data p f c' = Some c'' /\ after_event now p (f dp) c c'' /\ front_fresh now c''.
Proof.
  intros [H1 H2 H3 H4 H5] Hf Hd Hl. unfold update_data. rewrite H3. cbn [mbind option_bind].
  eexists. split; [reflexivity|]. split.
  - split; [done|by apply (update_data_wf c' p f dp)| | |done]; cbn [m_by_path].
    + by rewrite lookup_insert_eq.
    + intros q Hq. rewrite lookup_insert_ne by done. by apply H4.
  - intros q xs E (d & Hlk & Ho). apply (Hf q xs E). cbn [m_by_path rto_settings] in *.
    apply lookup_insert_Some in Hlk as [[<- <-]|[_ Hlk]]; [exists dp|by exists d]. by rewrite Hl in Ho.
Qed.

(** A sample never touches a destroyed entry, and sets the entry of its path. *)
Lemma new_rtt_spec now p rtt c : rto_wf c -> 0 <= history_duration (rto_settings c) ->
  exists c', new_rtt now p rtt c = Some c' /\
    after_event now p (mk_Data p now (Some (smooth_update (smooth_of c p) rtt)) None) c c' /\
    front_fresh now c'.
Proof.
  intros Hwf Hh. unfold new_rtt.
  set (old := default (mk_Data p now None None) (m_by_path c !! p)).
  assert (d_path old = p) as Hp.
  { unfold old. destruct (m_by_path c !! p) eqn:E; [by apply (rw_path c Hwf)|done]. }
  assert (smooth old = smooth_of c p) as Hs by (unfold old, smooth_of; by destruct (m_by_path c !! p)).
  set (c0 := match m_by_path c !! p with Some _ => c | None => _ end).
  assert (update_data p (touch now) c0
    = Some (mk_RtoCalculator (rto_settings c) (<[p := touch now old]> (m_by_path c)) (m_timeline c))) as ->.
  { unfold update_data, c0, old. destruct (m_by_path c !! p) as [d|] eqn:E; [by rewrite E|].
    cbn [m_by_path rto_settings m_timeline]. rewrite lookup_insert_eq. cbn [mbind option_bind].
    by rewrite insert_insert_eq. }
  cbn [mbind option_bind m_by_path m_timeline rto_settings].
  destruct (push_and_clear now p (touch now old) c Hwf Hh Hp eq_refl) as [Ha Hf].
  set (c2 := clear_outdated now _) in *.
  destruct (update_after_event now p _ (fun d => mk_Data (d_path d) (last_update d) (smooth d) None) c c2 Ha Hf Hp eq_refl)
    as (c3 & -> & Ha3 & Hf3). cbn [mbind option_bind].
  destruct (update_after_event now p _ (fun d => mk_Data (d_path d) (last_update d)
    (Some (smooth_update (smooth d) rtt)) (d_backoff d)) c c3 Ha3 Hf3 Hp eq_refl) as (c4 & -> & Ha4 & Hf4).
  exists c4. split; [done|]. cbn in Ha4. rewrite Hp, Hs in Ha4. done.
Qed.

(** A back-off sets the entry of its path; it clears old entries unless the path is new. *)
Lemma backoff_spec now p b c : rto_wf c -> 0 <= history_duration (rto_settings c) ->
  exists c', backoff now p b c = Some c' /\
    after_event now p (mk_Data p now (smooth_of c p) (Some b)) c c' /\
    (is_Some (m_by_path c !! p) -> front_fresh now c').
Proof.
  intros Hwf Hh. unfold backoff, smooth_of, update_data. destruct (m_by_path c !! p) as [d|] eqn:E.
  - cbn [mbind option_bind m_by_path m_timeline rto_settings]. rewrite lookup_insert_eq. cbn [mbind option_bind].
    rewrite insert_insert_eq. eexists. split; [reflexivity|]. rewrite <- (rw_path c Hwf p d E) at 2.
    destruct (push_and_clear now p (mk_Data (d_path d) now (smooth d) (Some b)) c Hwf Hh (rw_path c Hwf p d E) eq_refl) as [Ha Hf].
    split; [exact Ha|intros _; exact Hf].
  - eexists. split; [reflexivity|]. split; [|by intros []]. split; cbn [rto_settings m_by_path m_timeline]; [done| | | |].
    + by apply push_back_wf.
    + by rewrite lookup_insert_eq.
    + intros q Hq. left. by rewrite lookup_insert_ne.
    + by exists [].
Qed.

(** ** Histories *)

(** The updates of a calculator; times are microseconds after a common origin. *)
Inductive rto_event : Set :=
| ev_sample (at_time : Z) (p : Path) (rtt : Duration)
| ev_backoff (at_time : Z) (p : Path) (b : Duration).

Definition ev_time (e : rto_event) : Z := match e with ev_sample d _ _ | ev_backoff d _ _ => d end.
Definition ev_path (e : rto_event) : Path := match e with ev_sample _ p _ | ev_backoff _ p _ => p end.
Definition ev_duration (e : rto_event) : Duration := match e with ev_sample _ _ r | ev_backoff _ _ r => r end.

Definition run_event (t0 : Timepoint) (c : RtoCalculator) (e : rto_event) : option RtoCalculator :=
  match e with
  | ev_sample d p rtt => new_rtt (advance t0 d) p rtt c
  | ev_backoff d p b => backoff (advance t0 d) p b c
  end.

Definition run_events (t0 : Timepoint) (es : list rto_event) (c : RtoCalculator) : option RtoCalculator :=
  fold_left (fun oc e => oc ≫= fun c => run_event t0 c e) es (Some c).

(** RFC 6298, section 2, in whole microseconds: the first sample R gives SRTT = R and
    RTTVAR = R/2; the next ones RTTVAR = (1 - 1/4) RTTVAR + 1/4 |SRTT - R| and
    SRTT = (1 - 1/8) SRTT + 1/8 R, in this order. *)
Definition rfc6298 (s : option SmoothVals) (R : Duration) : SmoothVals :=
  match s with
  | None => mk_SmoothVals R (R / 2)
  | Some s => mk_SmoothVals ((7 * srtt s + R) / 8) ((3 * rttvar s + Z.abs (srtt s - R)) / 4)
  end.

(** The history of one path: the smoothed values, and the back-off since the last sample. *)
Definition spec_event (s : option SmoothVals * option Duration) (e : rto_event) : option SmoothVals * option Duration :=
  match e with
  | ev_sample _ _ rtt => (Some (rfc6298 s.1 rtt), None)
  | ev_backoff _ _ b => (s.1, Some b)
  end.

Definition spec_state (es : list rto_event) (p : Path) : option SmoothVals * option Duration :=
  fold_left spec_event (filter (fun e => ev_path e = p) es) (None, None).

(** RFC 6298: RTO = SRTT + 4 RTTVAR; Karn: a back-off counts until the next sample. *)
Definition rto_spec (settings : RtoSettings) (es : list rto_event) (p : Path) : Duration :=
  match spec_state es p with
  | (_, Some b) => b
  | (Some s, None) => srtt s + 4 * rttvar s
  | (None, None) => initial_rto settings
  end.

Definition event_data (now : Timepoint) (c : RtoCalculator) (e : rto_event) : Data :=
  match e with
  | ev_sample _ p rtt => mk_Data p now (Some (smooth_update (smooth_of c p) rtt)) None
  | ev_backoff _ p b => mk_Data p now (smooth_of c p) (Some b)
  end.

Lemma run_event_spec t0 c e : rto_wf c -> 0 <= history_duration (rto_settings c) ->
  exists c', run_event t0 c e = Some c' /\
    after_event (advance t0 (ev_time e)) (ev_path e) (event_data (advance t0 (ev_time e)) c e) c c' /\
    ((exists d p r, e = ev_sample d p r) -> front_fresh (advance t0 (ev_time e)) c').
Proof.
  intros Hwf Hh. destruct e as [d p r|d p b]; cbn [run_event ev_time ev_path event_data].
  - destruct (new_rtt_spec (advance t0 d) p r c Hwf Hh) as (c' & ? & ? & ?). by exists c'.
  - destruct (backoff_spec (advance t0 d) p b c Hwf Hh) as (c' & ? & ? & ?). exists c'. split_and!; try done.
    by intros (? & ? & ? & ?).
Qed.

Lemma run_events_app t0 es es' c : run_events t0 (es ++ es') c = run_events t0 es c ≫= run_events t0 es'.
Proof.
  unfold run_events. rewrite fold_left_app. destruct (fold_left _ es (Some c)) as [c'|]; [done|]. cbn.
  by induction es'.
Qed.

Lemma run_events_one t0 e c : run_events t0 [e] c = run_event t0 c e.
Proof. reflexivity. Qed.

(** Induction over a history, one event at the end. *)
Lemma run_events_ind t0 settings (P : list rto_event -> RtoCalculator -> Prop) :
  0 <= history_duration settings -> P [] (rto_create settings) ->
  (forall es e c c', P es c -> rto_wf c -> rto_settings c = settings ->
     after_event (advance t0 (ev_time e)) (ev_path e) (event_data (advance t0 (ev_time e)) c e) c c' ->
     P (es ++ [e]) c') ->
  forall es, exists c, run_events t0 es (rto_create settings) = Some c /\ rto_wf c /\ rto_settings c = settings /\ P es c.
Proof.
  intros Hh H0 Hstep es. induction es as [|e es IH] using rev_ind.
  - exists (rto_create settings). split_and!; try done. apply rto_wf_create.
  - destruct IH as (c & Hr & Hwf & Hs & HP).
    destruct (run_event_spec t0 c e Hwf ltac:(by rewrite Hs)) as (c' & Hr' & Ha & _).
    exists c'. rewrite run_events_app, Hr. cbn [mbind option_bind]. rewrite run_events_one.
    split_and!; [done|apply (ae_wf _ _ _ _ _ Ha)|by rewrite (ae_settings _ _ _ _ _ Ha)|by eapply Hstep].
Qed.

Lemma tp_sub_advance t0 d e : - 2 ^ 63 <= d - e < 2 ^ 63 -> tp_sub (advance t0 d) (advance t0 e) = d - e.
Proof.
  intros Hde. rewrite tp_sub_eq, !advance_value. rewrite <- (to_signed_64_small (d - e)) by done.
  apply to_signed_mod_eq. unfold wrap. rewrite <- Zminus_mod. f_equal. lia.
Qed.

Definition smooth_nonneg (s : option SmoothVals) : Prop :=
  match s with Some s => 0 <= srtt s /\ 0 <= rttvar s | None => True end.

Lemma smooth_update_rfc6298 s rtt : smooth_nonneg s -> 0 <= rtt ->
  smooth_update s rtt = rfc6298 s rtt /\ smooth_nonneg (Some (rfc6298 s rtt)).
Proof.
  destruct s as [[m v]|]; cbn [smooth_nonneg srtt rttvar]; intros Hs Hr; unfold smooth_update, rfc6298; cbn [srtt rttvar].
  - destruct Hs. assert ((if m - rtt <? 0 then - (m - rtt) else m - rtt) = Z.abs (m - rtt)) as -> by (bdestruct; lia).
    rewrite !Z.quot_div_nonneg by lia. split; [do 3 f_equal; lia|]. split; apply Z.div_pos; lia.
  - rewrite Z.quot_div_nonneg by lia. split; [done|]. split; [done|]. apply Z.div_pos; lia.
Qed.

Lemma spec_state_snoc es e p : spec_state (es ++ [e]) p =
  if decide (ev_path e = p) then spec_event (spec_state es p) e else spec_state es p.
Proof.
  unfold spec_state. rewrite filter_app, fold_left_app, filter_cons. by destruct (decide (ev_path e = p)).
Qed.

(** An entry holds the state of its path's history, and was updated in the window. *)
Definition entry_ok (t0 : Timepoint) (h : Z) (es : list rto_event) (c : RtoCalculator) : Prop :=
  forall p, smooth_nonneg (spec_state es p).1 /\
    match m_by_path c !! p with
    | Some data => smooth data = (spec_state es p).1 /\ d_backoff data = (spec_state es p).2 /\
        exists e, 0 <= e <= h /\ last_update data = advance t0 e
    | None => spec_state es p = (None, None)
    end.

Lemma entry_ok_step t0 h es e c c' : 0 <= h < 2 ^ 63 -> history_duration (rto_settings c) = h ->
  0 <= ev_time e <= h -> 0 <= ev_duration e -> entry_ok t0 h es c ->
  after_event (advance t0 (ev_time e)) (ev_path e) (event_data (advance t0 (ev_time e)) c e) c c' ->
  entry_ok t0 h (es ++ [e]) c'.
Proof.
  intros Hh Eh He Hd Hok Ha p. rewrite spec_state_snoc. destruct (Hok p) as [Hn Hp].
  destruct (decide (ev_path e = p)) as [<-|Hne].
  - rewrite (ae_self _ _ _ _ _ Ha). assert (smooth_of c (ev_path e) = (spec_state es (ev_path e)).1) as Es.
    { unfold smooth_of. destruct (m_by_path c !! ev_path e) as [d|]; cbn; [by destruct Hp|by rewrite Hp]. }
    destruct e as [d q r|d q b]; cbn [spec_event event_data smooth d_backoff last_update fst snd ev_path ev_time ev_duration] in *.
    + rewrite Es. destruct (smooth_update_rfc6298 _ r Hn Hd) as [-> Hn']. split_and!; try done; [apply Hn'..|by exists d].
    + rewrite Es. split_and!; try done. by exists d.
  - split; [done|]. destruct (ae_other _ _ _ _ _ Ha p ltac:(done)) as [->|(_ & data & Hl & Ho)]; [done|exfalso].
    rewrite Hl in Hp. destruct Hp as (_ & _ & e' & He' & El). rewrite El, tp_sub_advance in Ho by lia. lia.
Qed.

(** *** Smoothed values stay within the samples *)

Definition smooth_within (B : Z) (s : option SmoothVals) : Prop :=
  match s with Some s => 0 <= srtt s <= B /\ 0 <= rttvar s <= B | None => True end.

Lemma smooth_update_within B s rtt : smooth_within B s -> 0 <= rtt <= B ->
  smooth_within B (Some (smooth_update s rtt)).
Proof.
  intros Hs Hr. assert (smooth_nonneg s) as Hn by (destruct s; cbn in *; [lia|done]).
  destruct (smooth_update_rfc6298 s rtt Hn ltac:(lia)) as [-> _].
  destruct s as [[m v]|]; cbn [smooth_within rfc6298 srtt rttvar] in *.
  - destruct Hs as [Hm Hv]. split; (split; [apply Z.div_pos; lia|]); apply Z.div_le_upper_bound; lia.
  - split; [lia|]. split; [apply Z.div_pos; lia|]. apply Z.div_le_upper_bound; lia.
Qed.

Definition calc_within (B : Z) (c : RtoCalculator) : Prop :=
  forall p data, m_by_path c !! p = Some data ->
    smooth_within B (smooth data) /\ (forall b, d_backoff data = Some b -> 0 <= b <= B).

Lemma calc_within_step B t0 e c c' : 0 <= ev_duration e <= B -> calc_within B c ->
  after_event (advance t0 (ev_time e)) (ev_path e) (event_data (advance t0 (ev_time e)) c e) c c' ->
  calc_within B c'.
Proof.
  intros He Hc Ha p data Hl.
  assert (smooth_within B (smooth_of c (ev_path e))) as Hs.
  { unfold smooth_of. destruct (m_by_path c !! ev_path e) eqn:E; [by apply (Hc _ _ E)|done]. }
  destruct (decide (p = ev_path e)) as [->|Hne].
  - rewrite (ae_self _ _ _ _ _ Ha) in Hl. injection Hl as <-.
    destruct e as [d q r|d q b]; cbn [event_data smooth d_backoff ev_path ev_duration] in *.
    + split; [by apply smooth_update_within|done].
    + split; [done|]. by intros ? [= <-].
  - destruct (ae_other _ _ _ _ _ Ha p Hne) as [E|[E _]]; rewrite E in Hl; [by apply (Hc p)|done].
Qed.

(** *** The timeline is sorted by age *)

Section Sorted.
Context {A : Type}.
Implicit Types (R : A -> A -> Prop) (xs : list A).

Lemma sorted_weaken R R' xs : (forall x y, x ∈ xs -> y ∈ xs -> R x y -> R' x y) ->
  StronglySorted R xs -> StronglySorted R' xs.
Proof.
  induction xs as [|x xs IH]; intros HR Hs; constructor; inversion Hs as [|? ? Hs' Hx]; subst.
  - apply IH; [|done]. intros a b Ha Hb. apply HR; by right.
  - rewrite Forall_forall in *. intros y Hy. apply HR; [by left|by right|by apply Hx].
Qed.

Lemma sorted_snoc R xs y : StronglySorted R xs -> (forall x, x ∈ xs -> R x y) -> StronglySorted R (xs ++ [y]).
Proof.
  induction xs as [|x xs IH]; intros Hs Hy; [by repeat constructor|]. inversion Hs as [|? ? Hs' Hx]; subst.
  cbn. constructor; [apply IH; [done|]; intros; apply Hy; by right|].
  apply Forall_app_2; [done|]. apply Forall_singleton, Hy. by left.
Qed.

Lemma sorted_suffix R xs ys : StronglySorted R (xs ++ ys) -> StronglySorted R ys.
Proof. induction xs as [|x xs IH]; [done|]. intros Hs. inversion Hs; subst. by apply IH. Qed.

Lemma sorted_snoc_inv R xs y : StronglySorted R (xs ++ [y]) -> StronglySorted R xs /\ forall x, x ∈ xs -> R x y.
Proof.
  induction xs as [|x xs IH]; intros Hs; [split; [constructor|by intros ? ?%elem_of_nil]|].
  inversion Hs as [|? ? Hs' Hx]; subst. destruct (IH Hs') as [H1 H2].
  apply Forall_app in Hx as [Hx Hy]. rewrite Forall_singleton in Hy. split; [by constructor|].
  intros z [->|Hz]%elem_of_cons; [done|by apply H2].
Qed.

Lemma sorted_filter R (P : A -> Prop) `{!forall x, Decision (P x)} xs :
  StronglySorted R xs -> StronglySorted R (filter P xs).
Proof.
  induction 1 as [|x xs Hs IH Hx]; [constructor|]. rewrite filter_cons. destruct (decide (P x)); [|done].
  constructor; [done|]. rewrite Forall_forall in *. intros y [_ Hy]%list_elem_of_filter. by apply Hx.
Qed.

End Sorted.

Definition age (t0 : Timepoint) (c : RtoCalculator) (p : Path) : Z :=
  match m_by_path c !! p with Some d => tp_sub (last_update d) t0 | None => 0 end.

Definition aged (t0 : Timepoint) (D : Z) (c : RtoCalculator) : Prop :=
  (forall p data, m_by_path c !! p = Some data ->
     last_update data = advance t0 (age t0 c p) /\ 0 <= age t0 c p <= D) /\
  StronglySorted (fun p q => age t0 c p <= age t0 c q) (m_timeline c).

Lemma tp_sub_origin t0 d : tp_wf t0 -> 0 <= d < 2 ^ 63 -> tp_sub (advance t0 d) t0 = d.
Proof.
  intros Ht Hd. transitivity (tp_sub (advance t0 d) (advance t0 0)); [|rewrite tp_sub_advance; lia].
  rewrite !tp_sub_eq, !advance_value, Z.add_0_r.
  by rewrite (wrap_small 64 (tp_value t0)).
Qed.

Lemma aged_step t0 D c e c' : tp_wf t0 -> aged t0 D c -> rto_wf c -> 0 <= D <= ev_time e -> ev_time e < 2 ^ 63 ->
  after_event (advance t0 (ev_time e)) (ev_path e) (event_data (advance t0 (ev_time e)) c e) c c' ->
  aged t0 (ev_time e) c'.
Proof.
  intros Ht [Hl Hs] Hwf HD Hd Ha. set (p := ev_path e) in *. set (d := ev_time e) in *.
  assert (last_update (event_data (advance t0 d) c e) = advance t0 d) as Elu by (by destruct e).
  assert (age t0 c' p = d) as Eself.
  { unfold age. rewrite (ae_self _ _ _ _ _ Ha), Elu. by apply tp_sub_origin; [|lia]. }
  assert (forall q data, q <> p -> m_by_path c' !! q = Some data -> m_by_path c !! q = Some data /\ age t0 c' q = age t0 c q) as Eother.
  { intros q data Hq E. unfold age. rewrite E. destruct (ae_other _ _ _ _ _ Ha q Hq) as [E'|[E' _]]; rewrite E' in E; [|done].
    by rewrite E. }
  split.
  - intros q data E. destruct (decide (q = p)) as [->|Hq].
    + rewrite Eself. rewrite (ae_self _ _ _ _ _ Ha) in E. injection E as <-. split; [done|lia].
    + destruct (Eother q data Hq E) as [E' ->]. destruct (Hl q data E'). split; [done|lia].
  - destruct (ae_timeline _ _ _ _ _ Ha) as [pre Epre].
    assert (forall q, q ∈ m_timeline c -> age t0 c q <= D) as Hage.
    { intros q [data E]%(rw_dom c Hwf). apply (Hl q data E). }
    set (age' q := if decide (q = p) then d else age t0 c q).
    assert (StronglySorted (fun x y => age' x <= age' y) (timeline_push_back p (m_timeline c))) as Hs'.
    { unfold timeline_push_back. apply sorted_snoc.
      - apply sorted_weaken with (R := fun x y => age t0 c x <= age t0 c y); [|by apply sorted_filter].
        intros x y [Hx _]%timeline_remove_elem [Hy _]%timeline_remove_elem. unfold age'. by rewrite !decide_False.
      - intros x [Hx Hin]%timeline_remove_elem. unfold age'. rewrite decide_False, decide_True by done.
        specialize (Hage x Hin). lia. }
    rewrite Epre in Hs'. apply sorted_suffix in Hs'. revert Hs'. apply sorted_weaken.
    assert (forall x, x ∈ m_timeline c' -> age t0 c' x = age' x) as Eage.
    { intros x [data E]%(rw_dom c' (ae_wf _ _ _ _ _ Ha)). unfold age'.
      destruct (decide (x = p)) as [->|Hx]; [done|]. by destruct (Eother x data Hx E). }
    intros x y Hx Hy. by rewrite !Eage.
Qed.

(** ** Properties *)

(** C26. The retransmit timeout of a path is the RFC 6298 and Karn function of the path's own
    history: after any updates made within one history duration, with durations that are
    not negative, [rto] of every path is SRTT + 4 RTTVAR of that path's samples, the last
    back-off if there was one since its last sample, and the initial value when there were
    none; updates of other paths do not matter. *)
Theorem rto_is_rfc6298 (t0 : Timepoint) (settings : RtoSettings) (es : list rto_event)
  (Hh : 0 <= history_duration settings < 2 ^ 63)
  (Hes : forall e, e ∈ es -> 0 <= ev_time e <= history_duration settings /\ 0 <= ev_duration e) :
  exists c, run_events t0 es (rto_create settings) = Some c /\ forall p, rto c p = rto_spec settings es p.
Proof.
  destruct (run_events_ind t0 settings (fun es c =>
    (forall e, e ∈ es -> 0 <= ev_time e <= history_duration settings /\ 0 <= ev_duration e) ->
    entry_ok t0 (history_duration settings) es c)) with (es := es) as (c & Hr & Hwf & Hs & Hok).
  - lia.
  - intros _ p. split; [done|]. cbn. by rewrite lookup_empty.
  - intros es' e c c' IH _ Es Ha Hin. destruct (Hin e) as [He Hd]; [set_solver|].
    apply (entry_ok_step _ _ _ _ c); try done; [by rewrite Es|]. apply IH. set_solver.
  - exists c. split; [done|]. intros p. destruct (Hok Hes p) as [_ Hp]. unfold rto, rto_spec. rewrite Hs.
    destruct (m_by_path c !! p) as [data|]; [|by rewrite Hp].
    destruct Hp as (-> & -> & _). by destruct (spec_state es p) as [[s|] [b|]].
Qed.

(** Three samples and a back-off of one path, interleaved with another path. *)
Definition path_to (n : Z) : Path := mk_Path (AddressV4 [192; 168; 0; 1]) (AddressV4 [10; 0; 0; n]).
Definition sample_history : list rto_event :=
  [ev_sample 0 (path_to 1) 100000; ev_sample 10 (path_to 2) 7; ev_sample 20 (path_to 1) 60000;
   ev_backoff 30 (path_to 2) 900; ev_sample 40 (path_to 1) 80000].

Lemma rto_is_rfc6298_witness :
  exists c, run_events epoch sample_history (rto_create rto_settings_default) = Some c /\
    rto c (path_to 1) = 250625 /\ rto c (path_to 2) = 900 /\ rto c (path_to 3) = 500000.
Proof.
  destruct (rto_is_rfc6298 epoch rto_settings_default sample_history) as (c & Hr & Hc).
  - cbn. lia.
  - intros e He. unfold sample_history in He. cbn.
    repeat (apply elem_of_cons in He as [->|He]; [cbn; lia|]). by apply elem_of_nil in He.
  - exists c. rewrite !Hc. split; [exact Hr|]. vm_compute. split; [reflexivity|split; reflexivity].
Defined.

(** The time of the last event. *)
Definition history_end (es : list rto_event) : Z := default 0 (last (map ev_time es)).

(** When time does not go backwards, the timeline is sorted by age. *)
Lemma run_events_aged t0 settings es : tp_wf t0 -> 0 <= history_duration settings ->
  exists c, run_events t0 es (rto_create settings) = Some c /\ rto_wf c /\ rto_settings c = settings /\
    (StronglySorted Z.le (0 :: map ev_time es) -> history_end es < 2 ^ 63 ->
     0 <= history_end es /\ aged t0 (history_end es) c).
Proof.
  intros Ht0 Hh. apply (run_events_ind t0 settings (fun es c => StronglySorted Z.le (0 :: map ev_time es) ->
    history_end es < 2 ^ 63 -> 0 <= history_end es /\ aged t0 (history_end es) c)); [done| |].
  - intros _ _. split; [done|]. split; [|constructor]. intros p data. cbn. by rewrite lookup_empty.
  - clear es. intros es e c c' IH Hwf Es Ha.
    assert (history_end (es ++ [e]) = ev_time e) as -> by (unfold history_end; rewrite map_app; cbn [map]; by rewrite last_snoc).
    intros Hsort Hlt. rewrite map_app, app_comm_cons in Hsort. apply sorted_snoc_inv in Hsort as [Hs1 Hs2].
    assert (history_end es <= ev_time e) as Hle.
    { unfold history_end. destruct (last (map ev_time es)) as [x|] eqn:El; cbn; [|apply Hs2; left].
      apply last_Some_elem_of in El. apply Hs2. by right. }
    destruct (IH Hs1 ltac:(lia)) as [H0 Hag]. split; [lia|]. by apply (aged_step t0 (history_end es) c e c').
Qed.

Lemma aged_fresh t0 d c : tp_wf t0 -> rto_wf c -> 0 <= d < 2 ^ 63 -> aged t0 d c -> front_fresh (advance t0 d) c ->
  forall q data, m_by_path c !! q = Some data -> tp_sub (advance t0 d) (last_update data) <= history_duration (rto_settings c).
Proof.
  intros Ht Hwf Hd [Hl Hs] Hf q data E. destruct (m_timeline c) as [|p xs] eqn:Et.
  { pose proof (proj2 (rw_dom c Hwf q) (mk_is_Some _ _ E)) as Hin. rewrite Et in Hin. by apply elem_of_nil in Hin. }
  destruct (proj1 (rw_dom c Hwf p)) as [dp Ep]; [rewrite Et; left|].
  destruct (Hl q data E) as [Eq Hq]. destruct (Hl p dp Ep) as [Edp Hp].
  assert (age t0 c p <= age t0 c q) as Hpq.
  { pose proof (proj2 (rw_dom c Hwf q) (mk_is_Some _ _ E)) as Hin. rewrite Et in Hin.
    apply elem_of_cons in Hin as [->|Hin]; [lia|]. inversion Hs as [|? ? _ Hx]; subst.
    rewrite Forall_forall in Hx. by apply Hx. }
  destruct (Z.le_gt_cases (tp_sub (advance t0 d) (last_update dp)) (history_duration (rto_settings c))) as [Hle|Hgt].
  - rewrite Edp, tp_sub_advance in Hle by lia. rewrite Eq, tp_sub_advance by lia. lia.
  - destruct (Hf p xs Et). exists dp. split; [done|lia].
Qed.

(** C27. The calculator never touches a destroyed entry and keeps only recent paths: whatever
    updates are made, in any order of time, no update accesses an entry that
    [clear_outdated] erased, and every entry is in the timeline exactly once; and when time
    does not go backwards, after a sample every remaining entry was updated within the
    history duration. *)
Theorem rto_keeps_recent (t0 : Timepoint) (settings : RtoSettings) (es : list rto_event)
  (Ht0 : tp_wf t0) (Hh : 0 <= history_duration settings) :
  exists c, run_events t0 es (rto_create settings) = Some c /\ rto_wf c /\
  forall d p rtt, StronglySorted Z.le (0 :: map ev_time es ++ [d]) -> d < 2 ^ 63 ->
    exists c', new_rtt (advance t0 d) p rtt c = Some c' /\ rto_wf c' /\
      is_Some (m_by_path c' !! p) /\
      forall q data, m_by_path c' !! q = Some data ->
        tp_sub (advance t0 d) (last_update data) <= history_duration settings.
Proof.
  destruct (run_events_aged t0 settings es Ht0 Hh) as (c & Hr & Hwf & Hs & Hag).
  exists c. split; [done|]. split; [done|]. intros d p rtt Hsort Hd. rewrite app_comm_cons in Hsort.
  apply sorted_snoc_inv in Hsort as [Hs1 Hs2].
  assert (history_end es <= d) as Hle.
  { unfold history_end. destruct (last (map ev_time es)) as [x|] eqn:El; cbn; [|apply Hs2; left].
    apply last_Some_elem_of in El. apply Hs2. by right. }
  destruct (Hag Hs1 ltac:(lia)) as [H0 Hag'].
  destruct (new_rtt_spec (advance t0 d) p rtt c Hwf ltac:(by rewrite Hs)) as (c' & Hn & Ha & Hf).
  exists c'. split; [done|]. split; [apply Ha|]. split; [by rewrite (ae_self _ _ _ _ _ Ha)|].
  rewrite <- Hs, <- (ae_settings _ _ _ _ _ Ha). apply (aged_fresh t0); [done|apply Ha|lia| |done].
  by apply (aged_step t0 (history_end es) c (ev_sample d p rtt) c').
Qed.

(** A path is forgotten when it has not been updated for more than the history duration. *)
Lemma rto_keeps_recent_witness :
  let es := [ev_sample 0 (path_to 1) 50; ev_sample 900 (path_to 2) 60] in
  exists c c', run_events epoch es (rto_create (mk_RtoSettings 500 1000)) = Some c /\
    new_rtt (advance epoch 1500) (path_to 3) 70 c = Some c' /\
    m_timeline c = [path_to 1; path_to 2] /\ m_timeline c' = [path_to 2; path_to 3].
Proof.
  cbv zeta. destruct (rto_keeps_recent epoch (mk_RtoSettings 500 1000)
    [ev_sample 0 (path_to 1) 50; ev_sample 900 (path_to 2) 60]) as (c & Hr & _ & H); [tp_bounds|cbn; lia|].
  destruct (H 1500 (path_to 3) 70) as (c' & Hn & _).
  - cbn [map app ev_time]. repeat constructor; lia.
  - lia.
  - exists c, c'. split; [exact Hr|]. split; [exact Hn|].
    vm_compute in Hr. injection Hr as <-. vm_compute in Hn. injection Hn as <-. split; reflexivity.
Defined.

(** Bounds of the retransmit timeout: when all measured round-trip times and back-offs are
    between 0 and [B], every timeout is between 0 and the larger of the initial value and
    [5 B], the smoothed values stay in [0, B], and the largest sums of the update of either
    value stay below [8 B]: with [B] below 2^60 microseconds no 64-bit duration overflows. *)
Theorem rto_bounds (t0 : Timepoint) (settings : RtoSettings) (es : list rto_event) (B : Z)
  (Hh : 0 <= history_duration settings) (Hi : 0 <= initial_rto settings)
  (Hes : forall e, e ∈ es -> 0 <= ev_duration e <= B) :
  exists c, run_events t0 es (rto_create settings) = Some c /\
  forall p, 0 <= rto c p <= Z.max (initial_rto settings) (5 * B) /\
    forall s rtt, smooth_of c p = Some s -> 0 <= rtt <= B ->
      0 <= (8 - 1) * srtt s + 1 * rtt <= 8 * B /\
      0 <= (4 - 1) * rttvar s + 1 * Z.abs (srtt s - rtt) <= 4 * B /\
      smooth_within B (Some (smooth_update (Some s) rtt)).
Proof.
  destruct (run_events_ind t0 settings (fun es c => (forall e, e ∈ es -> 0 <= ev_duration e <= B) -> calc_within B c))
    with (es := es) as (c & Hr & Hwf & Hs & Hw); [done| | |].
  - intros _ p data. cbn. by rewrite lookup_empty.
  - intros es' e c c' IH _ _ Ha Hin. apply (calc_within_step B t0 e c); [apply Hin; set_solver| |done].
    apply IH. set_solver.
  - exists c. split; [done|]. specialize (Hw Hes). intros p. split.
    + unfold rto. rewrite Hs. destruct (m_by_path c !! p) as [data|] eqn:E; [|lia].
      destruct (Hw p data E) as [Hsm Hb]. destruct (d_backoff data) as [b|]; cbn.
      * specialize (Hb b eq_refl). lia.
      * destruct (smooth data) as [s|]; cbn in *; lia.
    + intros s rtt Es Hrtt. unfold smooth_of in Es. destruct (m_by_path c !! p) as [data|] eqn:E; [|done].
      cbn in Es. destruct (Hw p data E) as [Hsm _]. rewrite Es in Hsm.
      pose proof (smooth_update_within B (Some s) rtt Hsm Hrtt) as Hu. cbn in Hsm. split; [|split]; [lia|lia|done].
Qed.

Lemma rto_bounds_witness :
  exists c, run_events epoch sample_history (rto_create rto_settings_default) = Some c /\
    0 <= rto c (path_to 1) <= 500000.
Proof.
  destruct (rto_bounds epoch rto_settings_default sample_history 100000) as (c & Hr & Hc).
  - cbn. lia.
  - cbn. lia.
  - intros e He. unfold sample_history in He. 
    repeat (apply elem_of_cons in He as [->|He]; [cbn; lia|]). by apply elem_of_nil in He.
  - exists c. split; [exact Hr|]. destruct (Hc (path_to 1)) as [H _]. exact H.
Defined.
