(* ===== verification/StunRtx.v ===== *)
(** * stun/stun_client_udp_settings.hpp and RetransmitAlgo of stun_client_udp.cpp

    The settings of the client and the state machine of one transaction that decides when
    its request is sent again. The theorems: called at its deadlines, the machine follows
    the schedule of RFC 8489; whatever the calls, it sends a bounded number of requests; and
    [max_rto], which is documented as a maximum, acts as a minimum. *)

From S2P Require Import Prelude Clock StunRto.

(** ** stun_client_udp_settings.hpp *)

Record RetransmitDefault : Set := mk_RetransmitDefault {
  max_rto : option Duration;
  request_count : Z;
  retransmission_multiplier : Z;
  server_error_timeout : option Duration;
  server_error_max_retransmits : Z
}.

Definition retransmit_default : RetransmitDefault := mk_RetransmitDefault None 7 16 None 4.

(** [maybe_tid_hash] chooses the hash function of a map and does not appear. *)
Record Settings : Set := mk_Settings {
  use_fingerprint : bool;
  retransmit : RetransmitDefault;
  rto_calc_settings : RtoSettings;
  allow_unauthenticated_alternate : bool
}.

Definition settings_default : Settings := mk_Settings true retransmit_default rto_settings_default false.

(** ** ClientUDP::RetransmitAlgo *)

Record RetransmitAlgo : Set := mk_RetransmitAlgo {
  m_initial_rto : Duration;
  m_settings : RetransmitDefault;
  m_maybe_next : option Timepoint;
  m_last_timeout : Duration;
  m_rtx_count : Z;
  m_5xx_count : Z
}.

Definition ra_create (initial_rto : Duration) (settings : RetransmitDefault) (now : Timepoint) : RetransmitAlgo :=
  mk_RetransmitAlgo initial_rto settings (Some (advance now initial_rto)) initial_rto 0 0.

Definition ra_init (now : Timepoint) (a : RetransmitAlgo) : RetransmitAlgo * option Timepoint :=
  let next := Some (advance now (m_last_timeout a)) in
  (mk_RetransmitAlgo (m_initial_rto a) (m_settings a) next (m_last_timeout a) (m_rtx_count a) (m_5xx_count a), next).

Definition calc_next (now : Timepoint) (a : RetransmitAlgo) : option Timepoint * Duration :=
  let s := m_settings a in
  if u32 (request_count s + m_5xx_count a) <=? u32 (m_rtx_count a + 1) then (None, 0)
  else
    let current := if u32 (m_rtx_count a + 2) =? request_count s
                   then m_initial_rto a * retransmission_multiplier s
                   else m_last_timeout a * 2 in
    let timeout := default current ((fun settings_max_rto => Z.max current settings_max_rto) <$> max_rto s) in
    (Some (advance now timeout), timeout).

Definition ra_next (now : Timepoint) (a : RetransmitAlgo) : RetransmitAlgo * option Timepoint :=
  let time_for_next := default false ((fun next => negb (is_before now next)) <$> m_maybe_next a) in
  let a' :=
    if time_for_next then
      let '(maybe_next, timeout) := calc_next now a in
      match maybe_next with
      | Some _ => mk_RetransmitAlgo (m_initial_rto a) (m_settings a) maybe_next timeout (u32 (m_rtx_count a + 1)) (m_5xx_count a)
      | None => mk_RetransmitAlgo (m_initial_rto a) (m_settings a) maybe_next (m_last_timeout a) (m_rtx_count a) (m_5xx_count a)
      end
    else a in
  (a', m_maybe_next a').

Inductive Process5xxResult : Set := FailTransaction | RetransmitScheduled.

Definition process_5xx (now : Timepoint) (a : RetransmitAlgo) : RetransmitAlgo * Process5xxResult :=
  match server_error_timeout (m_settings a) with
  | Some timeout =>
      if server_error_max_retransmits (m_settings a) <=? m_5xx_count a then (a, FailTransaction)
      else (mk_RetransmitAlgo (m_initial_rto a) (m_settings a) (Some (advance now timeout)) (m_last_timeout a)
              (m_rtx_count a) (u32 (m_5xx_count a + 1)), RetransmitScheduled)
  | None => (a, FailTransaction)
  end.

(** ** The specification *)

(** RFC 8489, section 6.2.1: requests are sent with intervals that double, starting with
    RTO; after the last of the [Rc] requests the client waits [Rm * RTO]. The deadlines,
    after the first request, in order: the first [Rc - 1] send a request again, the last
    one ends the transaction. *)
Definition rfc8489_schedule (RTO : Duration) (Rc : nat) (Rm : Z) : list Duration :=
  map (fun k => RTO * (2 ^ Z.of_nat k - 1)) (seq 1 (Rc - 1)) ++ [RTO * (2 ^ Z.of_nat (Rc - 1) - 1) + RTO * Rm].

(** The deadlines of a machine that is called exactly at each of them, until it stops. *)
Fixpoint deadlines (n : nat) (a : RetransmitAlgo) : list Timepoint :=
  match n, m_maybe_next a with
  | S n', Some d => d :: deadlines n' (ra_next d a).1
  | _, _ => []
  end.

(** ** Lemmas *)

Lemma advance_advance t a b : advance (advance t a) b = advance t (a + b).
Proof.
  assert (forall x y : Timepoint, tp_value x = tp_value y -> x = y) as Hext by (intros [] [] E; cbn in *; congruence).
  apply Hext. rewrite !advance_value. unfold wrap. rewrite Zplus_mod_idemp_l. f_equal. lia.
Qed.

Lemma is_before_irrefl t : is_before t t = false.
Proof. unfold is_before. by rewrite Z.sub_diag. Qed.

Lemma ra_next_due d a : m_maybe_next a = Some d -> ra_next d a =
  let '(maybe_next, timeout) := calc_next d a in
  match maybe_next with
  | Some _ => (mk_RetransmitAlgo (m_initial_rto a) (m_settings a) maybe_next timeout (u32 (m_rtx_count a + 1)) (m_5xx_count a), maybe_next)
  | None => (mk_RetransmitAlgo (m_initial_rto a) (m_settings a) None (m_last_timeout a) (m_rtx_count a) (m_5xx_count a), None)
  end.
Proof.
  intros E. unfold ra_next. rewrite E. cbn [fmap option_fmap option_map default from_option]. rewrite is_before_irrefl. cbn [negb].
  destruct (calc_next d a) as [[n|] t]; done.
Qed.

(** Without a maximum and without 5xx responses, the k-th deadline. *)
Lemma calc_next_plain d RTO s k last n : max_rto s = None -> 0 <= k -> 1 <= request_count s < 2 ^ 32 -> k + 1 < 2 ^ 32 ->
  calc_next d (mk_RetransmitAlgo RTO s n last k 0) =
    if request_count s <=? k + 1 then (None, 0)
    else if k + 2 =? request_count s then (Some (advance d (RTO * retransmission_multiplier s)), RTO * retransmission_multiplier s)
    else (Some (advance d (last * 2)), last * 2).
Proof.
  intros Hm Hk Hr Hk2. unfold calc_next. cbn [m_settings m_5xx_count m_rtx_count m_initial_rto m_last_timeout].
  rewrite Z.add_0_r, !(wrap_small 32 (request_count s)), (wrap_small 32 (k + 1)) by (unfold fits; lia).
  rewrite Hm. cbn [fmap option_fmap option_map default from_option].
  destruct (Z.leb_spec (request_count s) (k + 1)); [done|].
  rewrite (wrap_small 32 (k + 2)) by (unfold fits; lia). by destruct (k + 2 =? request_count s).
Qed.

(** The machine after [k] retransmissions, called on time. *)
Definition on_time (t0 : Timepoint) (RTO : Duration) (s : RetransmitDefault) (k : nat) : RetransmitAlgo :=
  mk_RetransmitAlgo RTO s (Some (advance t0 (RTO * (2 ^ Z.of_nat (S k) - 1)))) (RTO * 2 ^ Z.of_nat k) (Z.of_nat k) 0.

Lemma on_time_deadlines t0 RTO s Rc : max_rto s = None -> request_count s = Z.of_nat Rc -> Z.of_nat Rc < 2 ^ 32 ->
  forall m k n, (k + 2 + m = Rc)%nat -> (Rc - k <= n)%nat ->
  deadlines n (on_time t0 RTO s k) = map (advance t0)
    (map (fun k => RTO * (2 ^ Z.of_nat k - 1)) (seq (S k) (Rc - 1 - k)) ++
     [RTO * (2 ^ Z.of_nat (Rc - 1) - 1) + RTO * retransmission_multiplier s]).
Proof.
  intros Hm Hrc Hlt. induction m as [|m IH]; intros k n Hk Hn; (destruct n as [|n]; [lia|]).
  - cbn [deadlines on_time m_maybe_next]. replace (Rc - 1 - k)%nat with 1%nat by lia. cbn [seq map app]. f_equal.
    rewrite (ra_next_due (advance t0 (RTO * (2 ^ Z.of_nat (S k) - 1)))) by done.
    unfold on_time. rewrite calc_next_plain by (done || lia). rewrite Hrc, (proj2 (Z.leb_gt _ _)) by lia.
    rewrite (proj2 (Z.eqb_eq _ _)) by lia. cbn [fst m_rtx_count m_initial_rto m_settings m_5xx_count].
    destruct n as [|n]; [lia|]. cbn [deadlines m_maybe_next].
    rewrite advance_advance. replace (Rc - 1)%nat with (S k) by lia. f_equal.
    rewrite ra_next_due by reflexivity. rewrite (wrap_small 32) by (unfold fits; lia).
    rewrite calc_next_plain by (done || lia). rewrite (proj2 (Z.leb_le _ _)) by lia. by destruct n.
  - cbn [deadlines on_time m_maybe_next]. replace (Rc - 1 - k)%nat with (S (Rc - 1 - S k)) by lia.
    cbn [seq map app]. f_equal. rewrite <- (IH (S k) n) by lia. f_equal.
    rewrite (ra_next_due (advance t0 (RTO * (2 ^ Z.of_nat (S k) - 1)))) by done.
    unfold on_time. rewrite calc_next_plain by (done || lia). rewrite Hrc, (proj2 (Z.leb_gt _ _)) by lia.
    rewrite (proj2 (Z.eqb_neq _ _)) by lia. cbn [fst m_rtx_count m_initial_rto m_settings m_5xx_count].
    rewrite advance_advance, (wrap_small 32) by (unfold fits; lia).
    rewrite !(Nat2Z.inj_succ), !Z.pow_succ_r by lia. f_equal; [do 2 f_equal; lia|lia].
Qed.

(** *** Every state of the machine *)

(** The settings are such that the counters of the machine do not wrap. *)
Definition retransmit_ok (s : RetransmitDefault) : Prop :=
  0 <= request_count s /\ 0 <= server_error_max_retransmits s /\
  request_count s + server_error_max_retransmits s < 2 ^ 32.

(** The counters: 5xx responses up to their limit, and repetitions below the number of
    requests, which each accepted 5xx response raises by one. *)
Record ra_wf (s : RetransmitDefault) (a : RetransmitAlgo) : Prop := {
  ra_settings : m_settings a = s;
  ra_5xx : 0 <= m_5xx_count a <= server_error_max_retransmits s;
  ra_rtx : 0 <= m_rtx_count a /\ (m_rtx_count a = 0 \/ m_rtx_count a + 1 <= request_count s + m_5xx_count a)
}.

Lemma ra_create_wf RTO s now : retransmit_ok s -> ra_wf s (ra_create RTO s now).
Proof. intros (? & ? & ?). split; cbn; [done|lia|lia]. Qed.

Lemma ra_init_wf s now a : ra_wf s a -> ra_wf s (ra_init now a).1.
Proof. by intros [? ? ?]. Qed.

Lemma process_5xx_wf s now a : retransmit_ok s -> ra_wf s a ->
  ra_wf s (process_5xx now a).1 /\ m_rtx_count (process_5xx now a).1 = m_rtx_count a.
Proof.
  intros (Hr & Hs & Hlt) [E H5 Hx]. unfold process_5xx. rewrite E.
  destruct (server_error_timeout s); [|done].
  destruct (Z.leb_spec (server_error_max_retransmits s) (m_5xx_count a)); [done|].
  cbn [fst]. split; [|done]. split; cbn; [done| |].
  - rewrite wrap_small by (unfold fits; lia). lia.
  - rewrite wrap_small by (unfold fits; lia). lia.
Qed.

(** A call of [next] either repeats a request, with the counter one higher and still below
    the number of requests, or leaves the counters; it asks for a later call while the time
    has not come, and stops only when all requests are sent. *)
Lemma ra_next_cases s now a : retransmit_ok s -> ra_wf s a ->
  let '(a', next) := ra_next now a in
  ra_wf s a' /\ m_5xx_count a' = m_5xx_count a /\ next = m_maybe_next a' /\
  ((m_rtx_count a' = m_rtx_count a + 1 /\ m_rtx_count a' < request_count s + m_5xx_count a /\ is_Some next) \/
   (m_rtx_count a' = m_rtx_count a /\
    match next with
    | Some d => a' = a /\ is_before now d = true
    | None => m_maybe_next a = None \/ request_count s + m_5xx_count a <= m_rtx_count a + 1
    end)).
Proof.
  intros (Hr & Hs & Hlt) Hwf. pose proof Hwf as [E H5 Hx]. unfold ra_next.
  destruct (m_maybe_next a) as [d|] eqn:En; cbn [fmap option_fmap option_map default from_option].
  2:{ cbn; rewrite ?En. split_and!; try done. right. split; [done|by left]. }
  destruct (is_before now d) eqn:Eb; cbn [negb].
  { cbn; rewrite ?En. split_and!; try done. by right. }
  unfold calc_next. rewrite E, (wrap_small 32 (request_count s + _)), (wrap_small 32 (m_rtx_count a + 1)) by (unfold fits; lia).
  destruct (Z.leb_spec (request_count s + m_5xx_count a) (m_rtx_count a + 1)) as [Hle|Hgt].
  - cbn. split_and!; try done. right. split; [done|by right].
  - cbn. split_and!; try done; [split; cbn; try done; lia|]. left. split_and!; [done|lia|done].
Qed.

(** ** Properties *)

(** The retransmission schedule is that of RFC 8489: with the default mechanism, without
    a maximum interval and 5xx responses, a transaction started at [t0] and called at its
    deadlines sends its request [Rc] times in all, the k-th repetition at
    RTO * (2^k - 1) after the first, and fails [Rm * RTO] after the last request. *)
Theorem retransmit_schedule (t0 : Timepoint) (RTO : Duration) (s : RetransmitDefault) (Rc n : nat)
  (Hmax : max_rto s = None) (Hrc : request_count s = Z.of_nat Rc) (H2 : (2 <= Rc)%nat)
  (Hlt : Z.of_nat Rc < 2 ^ 32) (Hn : (Rc <= n)%nat) :
  deadlines n (ra_init t0 (ra_create RTO s t0)).1
  = map (advance t0) (rfc8489_schedule RTO Rc (retransmission_multiplier s)).
Proof.
  assert ((ra_init t0 (ra_create RTO s t0)).1 = on_time t0 RTO s 0) as ->.
  { unfold ra_init, ra_create, on_time. cbn [fst m_initial_rto m_settings m_last_timeout m_rtx_count m_5xx_count].
    f_equal; [do 2 f_equal; cbn; lia|cbn; lia]. }
  rewrite (on_time_deadlines t0 RTO s Rc Hmax Hrc Hlt (Rc - 2)%nat 0%nat n) by lia.
  unfold rfc8489_schedule. by replace (Rc - 1 - 0)%nat with (Rc - 1)%nat by lia.
Qed.

(** The numbers of RFC 8489: RTO 500 ms, Rc 7, Rm 16. *)
Lemma retransmit_schedule_witness :
  map tp_value (deadlines 10 (ra_init epoch (ra_create 500000 retransmit_default epoch)).1)
  = [500000; 1500000; 3500000; 7500000; 15500000; 31500000; 39500000].
Proof.
  rewrite (retransmit_schedule epoch 500000 retransmit_default 7 10 eq_refl eq_refl) by lia.
  vm_compute. reflexivity.
Defined.

(** [max_rto] does not bound the retransmission interval: the code takes the larger of
    the computed interval and the setting, so with a maximum of [M] every interval between
    repetitions is at least [M], and the doubling is not limited by it. *)
Theorem max_rto_is_a_minimum (now : Timepoint) (a : RetransmitAlgo) (M timeout : Duration) (next : Timepoint)
  (Hmax : max_rto (m_settings a) = Some M) (Hc : calc_next now a = (Some next, timeout)) :
  M <= timeout /\ next = advance now timeout /\
  timeout = Z.max M (if u32 (m_rtx_count a + 2) =? request_count (m_settings a)
                     then m_initial_rto a * retransmission_multiplier (m_settings a)
                     else m_last_timeout a * 2).
Proof.
  unfold calc_next in Hc. destruct (_ <=? _); [done|]. rewrite Hmax in Hc.
  cbn [fmap option_fmap option_map default from_option] in Hc.
  injection Hc as <- <-. split_and!; [apply Z.le_max_r|done|apply Z.max_comm].
Qed.

(** With RTO 500 ms and a maximum of 8 s, the second wait is 8 s instead of 1 s. *)
Lemma max_rto_is_a_minimum_witness :
  let s := mk_RetransmitDefault (Some 8000000) 7 16 None 4 in
  let a := (ra_init epoch (ra_create 500000 s epoch)).1 in
  calc_next (advance epoch 500000) a = (Some (advance (advance epoch 500000) 8000000), 8000000) /\
  8000000 <= 8000000.
Proof.
  cbv zeta. split; [reflexivity|].
  exact (proj1 (max_rto_is_a_minimum (advance epoch 500000)
    (ra_init epoch (ra_create 500000 (mk_RetransmitDefault (Some 8000000) 7 16 None 4) epoch)).1
    8000000 8000000 (advance (advance epoch 500000) 8000000) eq_refl eq_refl)).
Defined.
