(* ===== verification/StunClient.v ===== *)
(** * stun/stun_client_udp: the STUN client

    [ClientUDP] keeps the transactions in progress, a timeline of their deadlines, and a
    queue of effects that [next] hands to the caller; [RetransmitAlgo] of StunRtx.v decides
    when a request is sent again. An operation whose result is an [option] returns [None] for
    undefined behaviour or for fuel that runs out; the theorems show that neither happens. *)

From S2P Require Import Prelude Errors Craftpp Util Clock Net Crypto StunBase StunCrc StunAttr StunAttrSet StunMessage StunRto StunRtx.

(** ** stun_client_udp_handle.hpp, stun_client_udp_effects.hpp *)

(** A [Handle] is an [unsigned]. *)
Abbreviation Handle := Z.

(** [TransactionFailed::Reason]. *)
Inductive Reason : Type :=
| UnknownComprehensionRequiredAttribute (attrs : list Z)
| UnknownAttributeReported (attrs : list Z)
| AlternateServer (server : Endpoint)
| ErrorCode (code : Z) (reason_phrase : option bytes)
| ReasonError (code : Error)
| Timeout.

(** The [message_view] of [SendData] refers to the [msg_data] of a transaction in the
    client's map, and is named by that transaction's handle. *)
Inductive Effect : Type :=
| SendData (handle : Handle) (message_view : Handle)
| TransactionOk (handle : Handle) (result : Endpoint) (response : Message) (round_trip : option Duration)
| TransactionFailed (handle : Handle) (reason : Reason)
| Sleep (sleep : Duration)
| Idle.

(** ** ClientUDP *)

Record Auth : Type := mk_Auth { auth_username : bytes; auth_integrity : IntegrityData }.

Record Request : Type := mk_Request {
  rq_path : Path;
  rq_attrs : list AttributeValue;
  rq_unknown_attrs : list UnknownAttribute;
  rq_maybe_auth : option Auth
}.

Record Transaction : Type := mk_Transaction {
  t_tid : bytes;
  t_hnd : Handle;
  t_msg_data : bytes;
  t_rtx_algo : RetransmitAlgo;
  t_path : Path;
  t_create_time : Timepoint;
  t_maybe_auth : option Auth;
  t_rtx_count : Z
}.

(** [Statistics]. *)
Inductive ClientCounter : Set :=
| cs_started | cs_success | cs_retransmits | cs_hash_calc_errors | cs_integrity_missing
| cs_integrity_check_errors | cs_transaction_not_found | cs_unknown_attribute | cs_no_error_code
| cs_try_alternate_responses | cs_no_alternate_server_attr | cs_response_3xx | cs_response_4xx
| cs_response_5xx | cs_unexpected_response_code | cs_no_mapped_address.

#[export] Instance ClientCounter_eq_dec : EqDecision ClientCounter.
Proof. solve_decision. Defined.

Record Statistics : Type := mk_Statistics { cs_parse : ParseStat; cs_counter : ClientCounter -> Z }.

Definition TimelineItem : Type := Timepoint * Handle.

Record ClientUDP : Type := mk_ClientUDP {
  c_settings : Settings;
  c_stat : Statistics;
  m_next_handle_value : Z;
  m_tid_to_handle : gmap bytes Handle;
  m_tmap : gmap Handle Transaction;
  m_tid_timeline : list TimelineItem;
  m_effects : list Effect;
  m_rto_calc : RtoCalculator
}.

(** *** Updates of one member *)

Definition with_stat (f : Statistics -> Statistics) (c : ClientUDP) : ClientUDP :=
  mk_ClientUDP (c_settings c) (f (c_stat c)) (m_next_handle_value c) (m_tid_to_handle c) (m_tmap c)
    (m_tid_timeline c) (m_effects c) (m_rto_calc c).
Definition with_next_handle (v : Z) (c : ClientUDP) : ClientUDP :=
  mk_ClientUDP (c_settings c) (c_stat c) v (m_tid_to_handle c) (m_tmap c) (m_tid_timeline c) (m_effects c) (m_rto_calc c).
Definition with_tid_to_handle (f : gmap bytes Handle -> gmap bytes Handle) (c : ClientUDP) : ClientUDP :=
  mk_ClientUDP (c_settings c) (c_stat c) (m_next_handle_value c) (f (m_tid_to_handle c)) (m_tmap c)
    (m_tid_timeline c) (m_effects c) (m_rto_calc c).
Definition with_tmap (f : gmap Handle Transaction -> gmap Handle Transaction) (c : ClientUDP) : ClientUDP :=
  mk_ClientUDP (c_settings c) (c_stat c) (m_next_handle_value c) (m_tid_to_handle c) (f (m_tmap c))
    (m_tid_timeline c) (m_effects c) (m_rto_calc c).
Definition with_timeline (f : list TimelineItem -> list TimelineItem) (c : ClientUDP) : ClientUDP :=
  mk_ClientUDP (c_settings c) (c_stat c) (m_next_handle_value c) (m_tid_to_handle c) (m_tmap c)
    (f (m_tid_timeline c)) (m_effects c) (m_rto_calc c).
Definition with_effects (f : list Effect -> list Effect) (c : ClientUDP) : ClientUDP :=
  mk_ClientUDP (c_settings c) (c_stat c) (m_next_handle_value c) (m_tid_to_handle c) (m_tmap c)
    (m_tid_timeline c) (f (m_effects c)) (m_rto_calc c).
Definition with_rto_calc (r : RtoCalculator) (c : ClientUDP) : ClientUDP :=
  mk_ClientUDP (c_settings c) (c_stat c) (m_next_handle_value c) (m_tid_to_handle c) (m_tmap c)
    (m_tid_timeline c) (m_effects c) r.

(** [m_stat.k.inc()]; [m_effects.emplace(e)]. *)
Definition inc (k : ClientCounter) : ClientUDP -> ClientUDP := with_stat (fun s =>
  mk_Statistics (cs_parse s) (fun k' => if bool_decide (k' = k) then counter_inc (cs_counter s k') else cs_counter s k')).
Definition emplace_effect (e : Effect) : ClientUDP -> ClientUDP := with_effects (fun es => es ++ [e]).

Definition t_with_algo (a : RetransmitAlgo) (t : Transaction) : Transaction :=
  mk_Transaction (t_tid t) (t_hnd t) (t_msg_data t) a (t_path t) (t_create_time t) (t_maybe_auth t) (t_rtx_count t).
Definition t_inc_rtx_count (t : Transaction) : Transaction :=
  mk_Transaction (t_tid t) (t_hnd t) (t_msg_data t) (t_rtx_algo t) (t_path t) (t_create_time t) (t_maybe_auth t)
    (u32 (t_rtx_count t + 1)).

(** *** The timeline: a priority queue ordered by [TimelineGreater]

    [std::priority_queue] keeps a multiset and gives an element that no other precedes. *)

Definition timeline_greater (lhs rhs : TimelineItem) : bool :=
  if is_after lhs.1 rhs.1 then true
  else if is_after rhs.1 lhs.1 then false
  else rhs.2 <? lhs.2.

Fixpoint pq_top (l : list TimelineItem) : option TimelineItem :=
  match l with
  | [] => None
  | x :: l' =>
      match pq_top l' with
      | Some y => Some (if timeline_greater x y then y else x)
      | None => Some x
      end
  end.

Fixpoint remove_one (x : TimelineItem) (l : list TimelineItem) : list TimelineItem :=
  match l with
  | [] => []
  | y :: l' => if decide (x = y) then l' else y :: remove_one x l'
  end.

Definition pq_pop (l : list TimelineItem) : list TimelineItem :=
  match pq_top l with Some x => remove_one x l | None => l end.

(** *** Operations *)

Definition client_create (settings : Settings) : ClientUDP :=
  mk_ClientUDP settings (mk_Statistics parse_stat_zero (fun _ => 0)) 0 ∅ ∅ [] [] (rto_create (rto_calc_settings settings)).

Definition cleanup (hnd : Handle) (c : ClientUDP) : ClientUDP :=
  match m_tmap c !! hnd with
  | Some t => with_tmap (delete hnd) (with_tid_to_handle (delete (t_tid t)) c)
  | None => c
  end.

(** [allocate_handle]: the first value, from the next one on, that is not in use. *)
Fixpoint allocate_handle (fuel : nat) (c : ClientUDP) : option (ClientUDP * Handle) :=
  match fuel with
  | O => None
  | S fuel' =>
      let hnd := m_next_handle_value c in
      let c := with_next_handle (u32 (m_next_handle_value c + 1)) c in
      match m_tmap c !! hnd with
      | None => Some (c, hnd)
      | Some _ => allocate_handle fuel' c
      end
  end.

Definition allocate_rtx_algo (path : Path) (now : Timepoint) (c : ClientUDP) : RetransmitAlgo :=
  ra_create (rto (m_rto_calc c) path) (retransmit (c_settings c)) now.

(** One iteration of the loop of [next]; [None] when the loop ends. *)
Definition next_step (now : Timepoint) (c : ClientUDP) : option ClientUDP :=
  match pq_top (m_tid_timeline c) with
  | None => None
  | Some top =>
      if is_after top.1 now then None
      else
        let hnd := top.2 in
        let c := with_timeline pq_pop c in
        match m_tmap c !! hnd with
        | Some t =>
            let '(algo, maybe_next) := ra_next now (t_rtx_algo t) in
            let t := t_with_algo algo t in
            match maybe_next with
            | Some next =>
                let c := inc cs_retransmits c in
                let c := with_tmap (<[hnd := t_inc_rtx_count t]>) c in
                let c := with_timeline (fun l => (next, hnd) :: l) c in
                Some (emplace_effect (SendData hnd hnd) c)
            | None => Some (emplace_effect (TransactionFailed hnd Timeout) (with_tmap (<[hnd := t]>) c))
            end
        | None => Some c
        end
  end.

Fixpoint next_loop (fuel : nat) (now : Timepoint) (c : ClientUDP) : option ClientUDP :=
  match next_step now c with
  | None => Some c
  | Some c' => match fuel with O => None | S fuel' => next_loop fuel' now c' end
  end.

Definition next_effect (now : Timepoint) (c : ClientUDP) : ClientUDP * Effect :=
  match m_effects c with
  | next :: rest =>
      let c := with_effects (fun _ => rest) c in
      (match next with
       | TransactionFailed handle _ | TransactionOk handle _ _ _ => cleanup handle c
       | _ => c
       end, next)
  | [] =>
      match pq_top (m_tid_timeline c) with
      | None => (c, Idle)
      | Some top => (c, Sleep (tp_sub top.1 now))
      end
  end.

(** [ClientUDP::next]. *)
Definition client_next (fuel : nat) (now : Timepoint) (c : ClientUDP) : option (ClientUDP * Effect) :=
  next_effect now <$> next_loop fuel now c.

Section Messages.
Context `{Craftpp} `{MapOrder}.

(** [do_create]: the request with its name and fingerprint, its encoding, and the new
    transaction. *)
Definition do_create (fuel : nat) (now : Timepoint) (tid : bytes) (rq : Request) (c : ClientUDP)
    : option (ClientUDP * Result Handle) :=
  let set := attribute_set_create (rq_attrs rq) (rq_unknown_attrs rq) in
  let set := match rq_maybe_auth rq with
             | Some auth => as_emplace (attribute_create (UsernameAttribute (auth_username auth))) set
             | None => set
             end in
  let set := if use_fingerprint (c_settings c)
             then as_emplace (attribute_create (FingerprintAttribute 0)) set else set in
  let request := mk_Message (mk_Header REQUEST method_binding tid) set false None in
  match message_build request (auth_integrity <$> rq_maybe_auth rq) with
  | Err e => Some (c, Err e)
  | Ok data =>
      '(c, handle) ← allocate_handle fuel c;
      let c := with_tid_to_handle (fun m => match m !! tid with Some _ => m | None => <[tid := handle]> m end) c in
      let rtx_algo := allocate_rtx_algo (rq_path rq) now c in
      let '(rtx_algo, maybe_timepoint) := ra_init now rtx_algo in
      let transaction := mk_Transaction tid handle data rtx_algo (rq_path rq) now (rq_maybe_auth rq) 0 in
      let c := with_tmap (fun m => match m !! handle with Some _ => m | None => <[handle := transaction]> m end) c in
      let c := emplace_effect (SendData handle handle) c in
      let c := match maybe_timepoint with
               | Some timepoint => with_timeline (fun l => (timepoint, handle) :: l) c
               | None => c
               end in
      Some (inc cs_started c, Ok handle)
  end.

(** [create]: draw transaction ids until one is new. *)
Fixpoint create {G} (draws : nat) (fuel : nat) (rand : G -> G * Z) (g : G) (now : Timepoint) (rq : Request)
    (c : ClientUDP) : option (G * (ClientUDP * Result Handle)) :=
  match draws with
  | O => None
  | S draws' =>
      let '(g, id) := tid_generate rand g in
      match m_tid_to_handle c !! id with
      | Some _ => create draws' fuel rand g now rq c
      | None => pair g <$> do_create fuel now id rq c
      end
  end.

(** [find_transaction]: the handle stands for the reference to the transaction. *)
Definition find_transaction (tid : bytes) : SE ClientUDP Handle := fun c =>
  match m_tid_to_handle c !! tid with
  | None => (inc cs_transaction_not_found c, Err (client_error ce_transaction_not_found))
  | Some hnd =>
      match m_tmap c !! hnd with
      | None => (inc cs_transaction_not_found c, Err (client_error ce_transaction_not_found))
      | Some _ => (c, Ok hnd)
      end
  end.

Definition check_response_auth (trans : Transaction) (msg : Message) (view : bytes) : SE ClientUDP unit := fun c =>
  match t_maybe_auth trans with
  | None => (c, success)
  | Some auth =>
      match message_is_valid msg view (auth_integrity auth) with
      | Err e => (c, Err e)
      | Ok (Some is_valid) =>
          if negb is_valid
          then (inc cs_integrity_check_errors c, Err (client_error ce_digest_is_not_valid))
          else (c, success)
      | Ok None =>
          if negb (allow_unauthenticated_alternate (c_settings c)) || negb (is_alternate_server msg)
          then (inc cs_integrity_missing c, Err (client_error ce_no_integrity_attribute_in_response))
          else (c, success)
      end
  end.

(** [handle_success_response]; [None] for the undefined behaviour of the calculator. *)
Definition handle_success_response (now : Timepoint) (t : Transaction) (msg : Message) (c : ClientUDP)
    : option (ClientUDP * MaybeError) :=
  let ucr := unknown_comprehension_required (attribute_set msg) in
  if negb (bool_decide (ucr = [])) then
    let c := inc cs_unknown_attribute c in
    Some (emplace_effect (TransactionFailed (t_hnd t) (UnknownComprehensionRequiredAttribute ucr)) c, success)
  else
    let '(maybe_rtt, calc) :=
      if t_rtx_count t =? 0 then
        let rtt := tp_sub now (t_create_time t) in
        (Some rtt, new_rtt now (t_path t) rtt (m_rto_calc c))
      else (None, backoff now (t_path t) (m_last_timeout (t_rtx_algo t)) (m_rto_calc c)) in
    calc ← calc;
    let c := with_rto_calc calc c in
    let '(c, effect) :=
      match xor_mapped (attribute_set msg) with
      | Some (addr, port) =>
          (inc cs_success c,
           TransactionOk (t_hnd t) (UdpEndpoint (xaddr_to_address addr (h_transaction_id (header msg))) port) msg maybe_rtt)
      | None =>
          match mapped (attribute_set msg) with
          | Some (addr, port) => (inc cs_success c, TransactionOk (t_hnd t) (UdpEndpoint addr port) msg maybe_rtt)
          | None =>
              (inc cs_no_mapped_address c,
               TransactionFailed (t_hnd t) (ReasonError (client_error ce_no_address_in_response)))
          end
      end in
    Some (emplace_effect effect c, success).

(** [handle_error_response] for the transaction at [hnd] of the map. *)
Definition handle_error_response (now : Timepoint) (hnd : Handle) (t : Transaction) (msg : Message) (c : ClientUDP)
    : ClientUDP * MaybeError :=
  let fail reason c := (emplace_effect (TransactionFailed (t_hnd t) reason) c, success) in
  let set := attribute_set msg in
  let ucr := unknown_comprehension_required set in
  if negb (bool_decide (ucr = [])) then fail (UnknownComprehensionRequiredAttribute ucr) (inc cs_unknown_attribute c)
  else
    match error_code_attr set with
    | None => fail (ReasonError (client_error ce_no_error_code_in_response)) (inc cs_no_error_code c)
    | Some (code, reason_phrase) =>
        if is_alternate_server msg then
          let c := inc cs_response_3xx c in
          match alternate_server set with
          | None => fail (ReasonError (client_error ce_no_alternate_server_in_response)) (inc cs_no_alternate_server_attr c)
          | Some (addr, port) => fail (AlternateServer (UdpEndpoint addr port)) (inc cs_try_alternate_responses c)
          end
        else
          let class := code / 100 in
          if class =? 3 then fail (ErrorCode code reason_phrase) (inc cs_response_3xx c)
          else if class =? 4 then
            let c := inc cs_response_4xx c in
            match (if code =? UnknownAttributeCode then unknown_attributes set else None) with
            | Some types => fail (UnknownAttributeReported types) c
            | None => fail (ErrorCode code reason_phrase) c
            end
          else if class =? 5 then
            let c := inc cs_response_5xx c in
            let '(algo, r) := process_5xx now (t_rtx_algo t) in
            let c := with_tmap (<[hnd := t_with_algo algo t]>) c in
            match r with
            | RetransmitScheduled => (c, success)
            | FailTransaction => fail (ErrorCode code reason_phrase) c
            end
          else (inc cs_unexpected_response_code c, success)
    end.

(** [response]: the message given by the caller, or the parse of the view. *)
Definition response (now : Timepoint) (view : bytes) (maybe_msg : option Message) (c : ClientUDP)
    : option (ClientUDP * MaybeError) :=
  let '(c, msg_rv) :=
    match maybe_msg with
    | Some msg => (c, Ok msg)
    | None =>
        let '(st, r) := message_parse view (cs_parse (c_stat c)) in
        (with_stat (fun s => mk_Statistics st (cs_counter s)) c, r)
    end in
  let '(c, trans_ref_rv) :=
    match msg_rv with
    | Ok msg => find_transaction (h_transaction_id (header msg)) c
    | Err e => (c, Err e)
    end in
  let trans_of c hnd := m_tmap c !! hnd in
  let '(c, auth_err) :=
    combine2_se (fun hnd msg c =>
      match trans_of c hnd with
      | Some trans => check_response_auth trans msg view c
      | None => (c, success) (* not reached: the reference was just found *)
      end) trans_ref_rv msg_rv c in
  match trans_ref_rv, msg_rv, auth_err with
  | Ok hnd, Ok msg, Ok _ =>
      match trans_of c hnd with
      | Some trans =>
          if bool_decide (h_cls (header msg) = SUCCESS_RESPONSE) then handle_success_response now trans msg c
          else if bool_decide (h_cls (header msg) = ERROR_RESPONSE) then Some (handle_error_response now hnd trans msg c)
          else Some (c, success)
      | None => None
      end
  | _, _, _ => Some (c, Err (pick_error (err_list trans_ref_rv ++ err_list msg_rv ++ err_list auth_err)))
  end.

End Messages.

(** ** Lemmas: the timeline *)

Lemma pq_top_None l : pq_top l = None <-> l = [].
Proof. destruct l as [|x l]; [done|]. cbn. by destruct (pq_top l). Qed.

Lemma pq_top_in l x : pq_top l = Some x -> x ∈ l.
Proof.
  revert x. induction l as [|y l IH]; intros x; [done|]. cbn. destruct (pq_top l) as [z|].
  - destruct (timeline_greater y z); intros [= ->]; [right; by apply IH|left].
  - intros [= ->]. left.
Qed.

Lemma remove_one_perm x l : x ∈ l -> l ≡ₚ x :: remove_one x l.
Proof.
  induction l as [|y l IH]; [by intros ?%elem_of_nil|]. intros Hx. cbn. destruct (decide (x = y)) as [->|Hn]; [done|].
  apply elem_of_cons in Hx as [->|Hx]; [done|]. rewrite (IH Hx) at 1. by rewrite Permutation_swap.
Qed.

Lemma pq_pop_perm l x : pq_top l = Some x -> l ≡ₚ x :: pq_pop l.
Proof. intros E. unfold pq_pop. rewrite E. apply remove_one_perm. by apply pq_top_in. Qed.

(** ** Lemmas: well-formed clients *)

Definition terminal (h : Handle) (e : Effect) : Prop :=
  match e with TransactionOk h' _ _ _ | TransactionFailed h' _ => h' = h | _ => False end.

(** An effect that waits in the queue. *)
Definition queued (e : Effect) : Prop := match e with Sleep _ | Idle => False | _ => True end.

(** A transaction that will be heard of: it has a deadline, or its end is queued. *)
Definition in_progress (c : ClientUDP) (h : Handle) : Prop :=
  (exists tp, (tp, h) ∈ m_tid_timeline c) \/ (exists e, e ∈ m_effects c /\ terminal h e).

Definition settings_ok (s : Settings) : Prop :=
  retransmit_ok (retransmit s) /\ 0 <= history_duration (rto_calc_settings s).

(** The two maps describe the same transactions, which know their handle; every transaction
    is in progress; the retransmission and timeout state is well-formed. *)
Record client_wf (c : ClientUDP) : Prop := {
  cw_settings : settings_ok (c_settings c);
  cw_tid tid h : m_tid_to_handle c !! tid = Some h <-> exists t, m_tmap c !! h = Some t /\ t_tid t = tid;
  cw_hnd h t : m_tmap c !! h = Some t -> t_hnd t = h /\ fits 32 h;
  cw_next : fits 32 (m_next_handle_value c);
  cw_algo h t : m_tmap c !! h = Some t -> ra_wf (retransmit (c_settings c)) (t_rtx_algo t);
  cw_progress h : is_Some (m_tmap c !! h) -> in_progress c h;
  cw_queue : Forall queued (m_effects c);
  cw_rto : rto_wf (m_rto_calc c) /\ rto_settings (m_rto_calc c) = rto_calc_settings (c_settings c)
}.

(** Nothing else matters to well-formedness. *)
Record same_transactions (c c' : ClientUDP) : Prop := {
  st_settings : c_settings c' = c_settings c;
  st_tid : m_tid_to_handle c' = m_tid_to_handle c;
  st_next : m_next_handle_value c' = m_next_handle_value c
}.

Lemma client_create_wf s : settings_ok s -> client_wf (client_create s).
Proof.
  intros Hs. split; cbn; try done.
  - intros tid h. rewrite !lookup_empty. split; [done|]. by intros (t & ? & _).
  - by intros h [t ?].
  - split; [apply rto_wf_create|done].
Qed.

(** An update of the state of one transaction, with the new timeline and effects. *)
Lemma client_wf_update c c' h t t' : client_wf c -> same_transactions c c' ->
  m_tmap c !! h = Some t -> m_tmap c' = <[h := t']> (m_tmap c) ->
  t_tid t' = t_tid t -> t_hnd t' = t_hnd t -> ra_wf (retransmit (c_settings c)) (t_rtx_algo t') ->
  (forall h', is_Some (m_tmap c !! h') -> in_progress c' h') ->
  (Forall queued (m_effects c) -> Forall queued (m_effects c')) ->
  rto_wf (m_rto_calc c') /\ rto_settings (m_rto_calc c') = rto_calc_settings (c_settings c) ->
  client_wf c'.
Proof.
  intros [W1 W2 W3 W4 W5 W6 Wq W7] [S1 S2 S3] Ht Em Etid Ehnd Ha Hp Hq Hr.
  assert (forall h', m_tmap c' !! h' = if decide (h = h') then Some t' else m_tmap c !! h') as Hl
    by (intros h'; rewrite Em; apply lookup_insert).
  split; rewrite ?S1, ?S2, ?S3; try done.
  - intros tid h'. rewrite W2. split; intros (x & Hx & <-).
    + destruct (decide (h = h')) as [->|Hne].
      * exists t'. rewrite Hl, decide_True by done. split; [done|]. by simplify_eq.
      * exists x. by rewrite Hl, decide_False.
    + rewrite Hl in Hx. destruct (decide (h = h')) as [->|Hne]; [|by exists x].
      injection Hx as <-. by exists t.
  - intros h' x. rewrite Hl. destruct (decide (h = h')) as [->|Hne]; [|by apply W3].
    intros [= <-]. rewrite Ehnd. by apply (W3 h' t).
  - intros h' x. rewrite Hl. destruct (decide (h = h')) as [->|Hne]; [|by apply W5]. by intros [= <-].
  - intros h' [x Hx]. apply Hp. rewrite Hl in Hx. destruct (decide (h = h')) as [->|Hne]; eauto.
  - by apply Hq.
Qed.

Lemma client_wf_same c c' : client_wf c -> same_transactions c c' -> m_tmap c' = m_tmap c ->
  (forall h', is_Some (m_tmap c !! h') -> in_progress c h' -> in_progress c' h') ->
  (Forall queued (m_effects c) -> Forall queued (m_effects c')) ->
  rto_wf (m_rto_calc c') /\ rto_settings (m_rto_calc c') = rto_calc_settings (c_settings c) ->
  client_wf c'.
Proof.
  intros [W1 W2 W3 W4 W5 W6 Wq W7] [S1 S2 S3] Em Hp Hq Hr. split; rewrite ?S1, ?S2, ?S3, ?Em; try done.
  - intros h Hh. apply Hp; [done|by apply W6].
  - by apply Hq.
Qed.

Lemma in_progress_more c c' h : (forall x, x ∈ m_tid_timeline c -> x ∈ m_tid_timeline c') ->
  (forall e, e ∈ m_effects c -> e ∈ m_effects c') -> in_progress c h -> in_progress c' h.
Proof. intros Ht He [[tp Hx]|[e [Hx Ht']]]; [left; eauto|right; eauto]. Qed.

(** Members that only count, and queues that only grow. *)
Lemma inc_wf k c : client_wf c -> client_wf (inc k c).
Proof. intros Hwf. apply (client_wf_same c); try done. apply Hwf. Qed.

Lemma emplace_effect_wf e c : queued e -> client_wf c -> client_wf (emplace_effect e c).
Proof.
  intros He Hwf. apply (client_wf_same c); try done; [| |apply Hwf].
  - intros h _. apply in_progress_more; [done|]. cbn. intros x Hx. apply elem_of_app. by left.
  - intros Hq. apply Forall_app_2; [done|by apply Forall_singleton].
Qed.

Lemma emplace_ok_wf h ep msg rtt c : client_wf c -> client_wf (emplace_effect (TransactionOk h ep msg rtt) c).
Proof. by apply emplace_effect_wf. Qed.

Lemma emplace_failed_wf h reason c : client_wf c -> client_wf (emplace_effect (TransactionFailed h reason) c).
Proof. by apply emplace_effect_wf. Qed.

Lemma with_rto_calc_wf r c : client_wf c -> rto_wf r -> rto_settings r = rto_calc_settings (c_settings c) ->
  client_wf (with_rto_calc r c).
Proof. intros Hwf H1 H2. by apply (client_wf_same c). Qed.
#[local] Hint Resolve inc_wf emplace_ok_wf emplace_failed_wf : core.

(** *** The loop of [next] *)

(** The requests that a transaction may still repeat. *)
Definition remaining (c : ClientUDP) (h : Handle) : nat :=
  match m_tmap c !! h with
  | Some t => Z.to_nat (request_count (retransmit (c_settings c)) + m_5xx_count (t_rtx_algo t) - m_rtx_count (t_rtx_algo t))
  | None => 0
  end.

(** The number of iterations: every item that is due, once for its pop and once for every
    request that its transaction may still repeat. *)
Definition loop_measure (now : Timepoint) (c : ClientUDP) : nat :=
  sum_list_with (fun x => if is_after x.1 now then 0%nat else S (remaining c x.2)) (m_tid_timeline c).

Lemma sum_list_with_perm {A} (f : A -> nat) l k : l ≡ₚ k -> sum_list_with f l = sum_list_with f k.
Proof. induction 1; cbn; lia. Qed.

Lemma sum_list_with_le {A} (f g : A -> nat) l : (forall x, x ∈ l -> (f x <= g x)%nat) ->
  (sum_list_with f l <= sum_list_with g l)%nat.
Proof.
  induction l as [|x l IH]; intros H; cbn; [lia|]. pose proof (H x ltac:(left)).
  pose proof (IH ltac:(intros; apply H; by right)). lia.
Qed.

(** What one iteration did with the popped item [hnd] of a live transaction [t]: the new
    transaction [t'], the new items of the timeline and the new effect. *)
Record iterated (now : Timepoint) (c c' : ClientUDP) (hnd : Handle) (t t' : Transaction)
    (items : list TimelineItem) (e : Effect) : Prop := {
  it_same : same_transactions c c';
  it_found : m_tmap c !! hnd = Some t;
  it_tmap : m_tmap c' = <[hnd := t']> (m_tmap c);
  it_trans : t_tid t' = t_tid t /\ t_hnd t' = t_hnd t;
  it_timeline : m_tid_timeline c' = items ++ pq_pop (m_tid_timeline c);
  it_effects : m_effects c' = m_effects c ++ [e];
  it_rto : m_rto_calc c' = m_rto_calc c;
  it_algo : ra_wf (retransmit (c_settings c)) (t_rtx_algo t');
  it_count : m_5xx_count (t_rtx_algo t') = m_5xx_count (t_rtx_algo t) /\
    m_rtx_count (t_rtx_algo t) <= m_rtx_count (t_rtx_algo t');
  it_kind :
    (e = TransactionFailed hnd Timeout /\ items = []) \/
    (e = SendData hnd hnd /\ exists next, items = [(next, hnd)] /\
      (is_after next now = true \/
       (m_rtx_count (t_rtx_algo t') = m_rtx_count (t_rtx_algo t) + 1 /\
        m_rtx_count (t_rtx_algo t') < request_count (retransmit (c_settings c)) + m_5xx_count (t_rtx_algo t))))
}.

Lemma next_step_cases now c c' : client_wf c -> next_step now c = Some c' ->
  exists tp hnd, is_after tp now = false /\ m_tid_timeline c ≡ₚ (tp, hnd) :: pq_pop (m_tid_timeline c) /\
    ((m_tmap c !! hnd = None /\ c' = with_timeline pq_pop c) \/
     exists t t' items e, iterated now c c' hnd t t' items e).
Proof.
  intros Hwf. unfold next_step. destruct (pq_top (m_tid_timeline c)) as [[tp hnd]|] eqn:Etop; [|done]. cbn [fst snd].
  destruct (is_after tp now) eqn:Edue; [done|]. intros Hc'. exists tp, hnd.
  split; [done|]. split; [by apply pq_pop_perm|]. revert Hc'.
  change (m_tmap (with_timeline pq_pop c)) with (m_tmap c).
  destruct (m_tmap c !! hnd) as [t|] eqn:Et; [|by intros [= <-]; left]. intros Hc'. right. revert Hc'.
  pose proof (ra_next_cases (retransmit (c_settings c)) now (t_rtx_algo t) (proj1 (cw_settings c Hwf))
    (cw_algo c Hwf hnd t Et)) as Hn.
  destruct (ra_next now (t_rtx_algo t)) as [algo maybe_next]. destruct Hn as (Hra' & H5 & Enext & Hcase).
  destruct maybe_next as [next|]; intros [= <-].
  - exists t, (t_inc_rtx_count (t_with_algo algo t)), [(next, hnd)], (SendData hnd hnd).
    split; try done; cbn [t_rtx_algo t_inc_rtx_count t_with_algo]; [split; [done|destruct Hcase; lia]|].
    right. split; [done|]. exists next. split; [done|].
    destruct Hcase as [(E & Hlt & _)|(E & -> & Hb)]; [by right|]. left. by rewrite <- is_before_after.
  - exists t, (t_with_algo algo t), [], (TransactionFailed hnd Timeout).
    split; try done; cbn [t_rtx_algo t_with_algo]; [split; [done|destruct Hcase; lia]|by left].
Qed.

(** The other transactions of a popped timeline stay in progress. *)
Lemma pq_pop_in_progress c tp hnd h : m_tid_timeline c ≡ₚ (tp, hnd) :: pq_pop (m_tid_timeline c) -> h <> hnd ->
  in_progress c h -> in_progress (with_timeline pq_pop c) h.
Proof.
  intros Hperm Hne [[tp' Hx]|He]; [|by right]. left. exists tp'. cbn. rewrite Hperm in Hx.
  apply elem_of_cons in Hx as [[= _ ->]|Hx]; done.
Qed.

Lemma next_step_wf now c c' : client_wf c -> next_step now c = Some c' -> client_wf c'.
Proof.
  intros Hwf Hstep. destruct (next_step_cases now c c' Hwf Hstep) as (tp & hnd & _ & Hperm & [[Et ->]|(t & t' & items & e & Hit)]).
  - apply (client_wf_same c); try done; [|apply Hwf]. intros h [x Hx].
    apply (pq_pop_in_progress c tp hnd); [done|]. intros ->. congruence.
  - destruct Hit as [H1 H2 H3 [H4 H5] H6 H7 H8 H9 _ H11]. apply (client_wf_update c c' hnd t t'); try done.
    + intros h Hh. destruct (decide (h = hnd)) as [->|Hne].
      * destruct H11 as [[-> ->]|[-> (next & -> & _)]].
        -- right. eexists. split; [rewrite H7; apply elem_of_app; right; by left|done].
        -- left. exists next. rewrite H6. by left.
      * eapply in_progress_more; [| |by apply (pq_pop_in_progress c tp hnd); [| |apply Hwf]].
        -- intros x Hx. rewrite H6. apply elem_of_app. by right.
        -- intros x Hx. rewrite H7. apply elem_of_app. by left.
    + intros Hq. rewrite H7. apply Forall_app_2; [done|]. apply Forall_singleton.
      by destruct H11 as [[-> _]|[-> _]].
    + rewrite H8. apply Hwf.
Qed.

Lemma next_step_measure now c c' : client_wf c -> next_step now c = Some c' ->
  (loop_measure now c' < loop_measure now c)%nat.
Proof.
  intros Hwf Hstep. destruct (next_step_cases now c c' Hwf Hstep) as (tp & hnd & Edue & Hperm & Hcase).
  set (weight c := fun x : TimelineItem => if is_after x.1 now then 0%nat else S (remaining c x.2)).
  assert (loop_measure now c = S (remaining c hnd) + sum_list_with (weight c) (pq_pop (m_tid_timeline c)))%nat as ->.
  { unfold loop_measure. rewrite (sum_list_with_perm _ _ _ Hperm). cbn. by rewrite Edue. }
  destruct Hcase as [[_ ->]|(t & t' & items & e & Hit)].
  { change (loop_measure now (with_timeline pq_pop c)) with (sum_list_with (weight c) (pq_pop (m_tid_timeline c))). lia. }
  destruct Hit as [[Es _ _] Ht Em _ Etl _ _ _ [E5 Ele] Hkind].
  assert (forall h, h <> hnd -> remaining c' h = remaining c h) as Hother
    by (intros h Hne; unfold remaining; by rewrite Em, Es, lookup_insert_ne).
  assert (remaining c hnd = Z.to_nat (request_count (retransmit (c_settings c)) + m_5xx_count (t_rtx_algo t) - m_rtx_count (t_rtx_algo t))
    /\ remaining c' hnd = Z.to_nat (request_count (retransmit (c_settings c)) + m_5xx_count (t_rtx_algo t) - m_rtx_count (t_rtx_algo t'))) as [E1 E2].
  { unfold remaining. by rewrite Em, Es, lookup_insert_eq, Ht, E5. }
  assert (sum_list_with (weight c') (pq_pop (m_tid_timeline c)) <= sum_list_with (weight c) (pq_pop (m_tid_timeline c)))%nat as Hle.
  { apply sum_list_with_le. intros x _. unfold weight. destruct (is_after x.1 now); [lia|].
    destruct (decide (x.2 = hnd)) as [->|Hne]; [lia|]. rewrite (Hother _ Hne). lia. }
  change (loop_measure now c') with (sum_list_with (weight c') (m_tid_timeline c')). rewrite Etl.
  destruct Hkind as [[_ ->]|[_ (next & -> & [Ha|[Ec Hlt]])]]; cbn [app sum_list_with]; [lia| |];
    unfold weight at 1; cbn [fst snd]; [rewrite Ha; lia|]. destruct (is_after next now); lia.
Qed.

Lemma next_loop_total now : forall fuel c, client_wf c -> (loop_measure now c <= fuel)%nat ->
  exists c', next_loop fuel now c = Some c' /\ client_wf c' /\ next_step now c' = None.
Proof.
  induction fuel as [|fuel IH]; intros c Hwf Hm; cbn [next_loop];
    (destruct (next_step now c) as [c1|] eqn:E; [|by exists c]);
    pose proof (next_step_wf now c c1 Hwf E); pose proof (next_step_measure now c c1 Hwf E); [lia|].
  apply IH; [done|lia].
Qed.

Lemma next_loop_wf now : forall fuel c c', client_wf c -> next_loop fuel now c = Some c' ->
  client_wf c' /\ next_step now c' = None.
Proof.
  induction fuel as [|fuel IH]; intros c c' Hwf; cbn [next_loop];
    (destruct (next_step now c) as [c1|] eqn:E; [|by intros [= <-]]); [done|].
  apply IH. by eapply next_step_wf.
Qed.

(** *** The effects *)

(** [cleanup] forgets a transaction whose end is being reported. *)
Lemma cleanup_wf hnd rest c : client_wf c -> Forall queued rest ->
  (forall e h, e ∈ m_effects c -> terminal h e -> h <> hnd -> e ∈ rest) ->
  let c' := cleanup hnd (with_effects (fun _ => rest) c) in
  client_wf c' /\ m_tmap c' !! hnd = None /\ forall h, h <> hnd -> m_tmap c' !! h = m_tmap c !! h.
Proof.
  intros Hwf Hqr Hrest. pose proof Hwf as [W1 W2 W3 W4 W5 W6 Wq W7].
  assert (forall h, h <> hnd -> in_progress c h -> in_progress (with_effects (fun _ => rest) c) h) as Hp.
  { intros h Hne [Ht|(e & He & Hte)]; [by left|]. right. exists e. split; [by apply (Hrest e h)|done]. }
  unfold cleanup. change (m_tmap (with_effects (fun _ => rest) c)) with (m_tmap c).
  destruct (m_tmap c !! hnd) as [t|] eqn:Et; cbv zeta.
  - split_and!; cbn; [|by rewrite lookup_delete_eq|by intros; rewrite lookup_delete_ne].
    split; cbn; try done.
    + intros tid h. rewrite lookup_delete_Some, W2. split.
      * intros (Hne & x & Hx & <-). exists x. split; [|done]. rewrite lookup_delete_ne; [done|]. intros <-. congruence.
      * intros (x & [Hne Hx]%lookup_delete_Some & <-). split; [|by exists x]. intros E.
        pose proof (proj2 (W2 (t_tid x) h) (ex_intro _ x (conj Hx eq_refl))) as H1.
        pose proof (proj2 (W2 (t_tid t) hnd) (ex_intro _ t (conj Et eq_refl))) as H2. rewrite E in H2. congruence.
    + intros h x [_ Hx]%lookup_delete_Some. by apply W3.
    + intros h x [_ Hx]%lookup_delete_Some. by apply (W5 h).
    + intros h [x [Hne Hx]%lookup_delete_Some]. destruct (Hp h ltac:(done) ltac:(apply W6; eauto)) as [?|?]; [by left|by right].
  - split; [|done]. apply (client_wf_same c); try done. intros h [x Hx]. apply Hp. intros ->. congruence.
Qed.

Lemma next_effect_wf now c : client_wf c -> client_wf (next_effect now c).1.
Proof.
  intros Hwf. unfold next_effect. destruct (m_effects c) as [|next rest] eqn:Ee.
  { by destruct (pq_top (m_tid_timeline c)). }
  assert (Forall queued rest) as Hqr by (pose proof (cw_queue c Hwf) as Hq; rewrite Ee in Hq; by inversion Hq).
  assert ((forall h, ~ terminal h next) -> client_wf (with_effects (fun _ => rest) c)) as Hplain.
  { intros Hn. apply (client_wf_same c); try done; [|apply Hwf]. intros h _ [Ht|(e & He & Hte)]; [by left|].
    right. exists e. split; [|done]. rewrite Ee in He. apply elem_of_cons in He as [->|He]; [by destruct (Hn h)|done]. }
  assert (forall hnd, terminal hnd next -> client_wf (cleanup hnd (with_effects (fun _ => rest) c))) as Hterm.
  { intros hnd Ht. apply cleanup_wf; [done..|]. intros e h He Hte Hne. rewrite Ee in He.
    apply elem_of_cons in He as [->|He]; [|done]. destruct next; cbn in *; (done || congruence). }
  destruct next; cbn [fst]; first [by apply Hterm | apply Hplain; by intros ? []].
Qed.

(** *** The other operations *)

Lemma allocate_handle_spec fuel : forall c c' h, fits 32 (m_next_handle_value c) ->
  allocate_handle fuel c = Some (c', h) ->
  m_tmap c !! h = None /\ fits 32 h /\ exists v, fits 32 v /\ c' = with_next_handle v c.
Proof.
  induction fuel as [|fuel IH]; intros c c' h Hn; cbn; [done|].
  destruct (m_tmap c !! m_next_handle_value c) eqn:E.
  - intros Ha. apply IH in Ha as (H1 & H2 & v & H3 & ->); [|by apply wrap_fits]. by split_and!; [..|exists v].
  - intros [= <- <-]. split_and!; try done; try apply Hn. eexists. split; [|done]. by apply wrap_fits.
Qed.

(** The search fails only when as many handles as it tries are in use. *)
Lemma allocate_handle_None fuel : forall c, fits 32 (m_next_handle_value c) -> allocate_handle fuel c = None ->
  forall k, (k < fuel)%nat -> is_Some (m_tmap c !! u32 (m_next_handle_value c + Z.of_nat k)).
Proof.
  induction fuel as [|fuel IH]; intros c Hn; cbn; [lia|].
  destruct (m_tmap c !! m_next_handle_value c) as [t|] eqn:E; [|done]. intros Ha k Hk.
  destruct k as [|k].
  - rewrite Z.add_0_r, wrap_small by done. by exists t.
  - specialize (IH (with_next_handle (u32 (m_next_handle_value c + 1)) c) ltac:(by apply wrap_fits) Ha k ltac:(lia)).
    cbn in IH. replace (u32 (m_next_handle_value c + Z.of_nat (S k))) with (u32 (u32 (m_next_handle_value c + 1) + Z.of_nat k)); [done|].
    unfold wrap. rewrite Zplus_mod_idemp_l. f_equal. lia.
Qed.

Lemma allocate_handle_total c : fits 32 (m_next_handle_value c) -> Z.of_nat (size (m_tmap c)) < 2 ^ 32 ->
  is_Some (allocate_handle (S (size (m_tmap c))) c).
Proof.
  intros Hn Hsz. destruct (allocate_handle _ c) as [r|] eqn:E; [by exists r|exfalso].
  pose proof (allocate_handle_None _ c Hn E) as Hall. set (n := size (m_tmap c)) in *.
  set (keys := (fun k => u32 (m_next_handle_value c + Z.of_nat k)) <$> seq 0 (S n)).
  assert (NoDup keys) as Hnd.
  { apply NoDup_fmap_2_strong; [|apply NoDup_seq]. intros x y Hx%elem_of_seq Hy%elem_of_seq Hxy.
    unfold wrap in Hxy. apply (f_equal (fun z => (z - m_next_handle_value c) mod 2 ^ 32)) in Hxy.
    rewrite !Zminus_mod_idemp_l in Hxy. rewrite !(Z.add_comm (m_next_handle_value c)), !Z.add_simpl_r in Hxy.
    rewrite !Z.mod_small in Hxy by lia. lia. }
  assert (list_to_set keys ⊆ dom (m_tmap c)) as Hsub.
  { intros h Hh%elem_of_list_to_set. apply list_elem_of_fmap in Hh as (k & -> & Hk%elem_of_seq).
    apply elem_of_dom. apply Hall. lia. }
  apply subseteq_size in Hsub. rewrite size_list_to_set, size_dom in Hsub by done.
  unfold keys in Hsub. rewrite length_fmap, length_seq in Hsub. fold n in Hsub. lia.
Qed.

Section Operations.
Context `{Craftpp} `{MapOrder}.

Lemma do_create_wf fuel now tid rq c c' r : client_wf c -> m_tid_to_handle c !! tid = None ->
  do_create fuel now tid rq c = Some (c', r) -> client_wf c'.
Proof.
  intros Hwf Htid. unfold do_create. destruct (message_build _ _) as [data|e]; [|by intros [= <- <-]].
  destruct (allocate_handle fuel c) as [[c1 handle]|] eqn:Ea; [|done]. cbn [mbind option_bind].
  apply allocate_handle_spec in Ea as (Hfree & Hfit & v & Hv & ->); [|apply Hwf].
  unfold ra_init, ra_create, allocate_rtx_algo. cbn [m_tid_to_handle m_tmap]. intros [= <- _].
  pose proof Hwf as [W1 W2 W3 W4 W5 W6 Wq W7]. split; cbn; rewrite ?Htid, ?Hfree; try done.
  - intros tid' h. rewrite lookup_insert_Some, W2. split.
    + intros [[<- <-]|[Hne (t & Ht & <-)]].
      * eexists. by rewrite lookup_insert_eq.
      * exists t. rewrite lookup_insert_ne; [done|]. intros <-. congruence.
    + intros (t & [[<- <-]|[Hne Ht]]%lookup_insert_Some & <-); [by left|]. right. split; [|by exists t].
      cbn. intros ->. pose proof (proj2 (W2 (t_tid t) h) (ex_intro _ t (conj Ht eq_refl))). congruence.
  - intros h t [[<- <-]|[Hne Ht]]%lookup_insert_Some; [done|by apply W3].
  - intros h t [[<- <-]|[Hne Ht]]%lookup_insert_Some; [|by apply (W5 h)].
    exact (ra_init_wf _ now _ (ra_create_wf (rto (m_rto_calc c) (rq_path rq)) _ now (proj1 W1))).
  - intros h [t [[<- <-]|[Hne Ht]]%lookup_insert_Some].
    + left. eexists. by left.
    + eapply in_progress_more; [| |apply W6; by exists t]; cbn.
      * intros x Hx. by right.
      * intros x Hx. apply elem_of_app. by left.
  - apply Forall_app_2; [done|by apply Forall_singleton].
Qed.

Lemma do_create_total now tid rq c : client_wf c -> Z.of_nat (size (m_tmap c)) < 2 ^ 32 ->
  is_Some (do_create (S (size (m_tmap c))) now tid rq c).
Proof.
  intros Hwf Hsz. unfold do_create. destruct (message_build _ _) as [data|e]; [|by eexists].
  destruct (allocate_handle_total c (cw_next c Hwf) Hsz) as [[c1 h] ->]. by eexists.
Qed.

(** *** Responses *)

(** A client that only counted. *)
Definition only_stat (c c' : ClientUDP) : Prop := exists s, c' = with_stat (fun _ => s) c.

Lemma only_stat_wf c c' : only_stat c c' -> client_wf c -> client_wf c'.
Proof. intros [s ->] Hwf. apply (client_wf_same c); try done. apply Hwf. Qed.

Lemma only_stat_trans c c1 c2 : only_stat c c1 -> only_stat c1 c2 -> only_stat c c2.
Proof. intros [s ->] [s' ->]. by exists s'. Qed.

Lemma only_stat_refl c : only_stat c c.
Proof. exists (c_stat c). by destruct c. Qed.

Lemma only_stat_inc k c : only_stat c (inc k c).
Proof. by eexists. Qed.

Lemma find_transaction_spec tid c c' r : find_transaction tid c = (c', r) -> only_stat c c' /\
  match r with Ok hnd => m_tid_to_handle c !! tid = Some hnd /\ is_Some (m_tmap c !! hnd) | Err _ => True end.
Proof.
  unfold find_transaction. destruct (m_tid_to_handle c !! tid) as [hnd|] eqn:E1.
  - destruct (m_tmap c !! hnd) eqn:E2; intros [= <- <-]; [split; [apply only_stat_refl|by split]|].
    split; [apply only_stat_inc|done].
  - intros [= <- <-]. split; [apply only_stat_inc|done].
Qed.

Lemma check_response_auth_spec t msg view c c' r : check_response_auth t msg view c = (c', r) -> only_stat c c' /\
  (r = success -> forall auth, t_maybe_auth t = Some auth ->
     message_is_valid msg view (auth_integrity auth) = Ok (Some true) \/
     (message_is_valid msg view (auth_integrity auth) = Ok None /\
      allow_unauthenticated_alternate (c_settings c) = true /\ is_alternate_server msg = true)).
Proof.
  unfold check_response_auth. destruct (t_maybe_auth t) as [auth|].
  2:{ intros [= <- <-]. split; [apply only_stat_refl|done]. }
  destruct (message_is_valid msg view (auth_integrity auth)) as [[[]|]|e] eqn:E; cbn [negb].
  - intros [= <- <-]. split; [apply only_stat_refl|]. intros _ ? [= <-]. by left.
  - intros [= <- <-]. split; [apply only_stat_inc|done].
  - destruct (allow_unauthenticated_alternate _), (is_alternate_server msg) eqn:Ea; cbn [negb orb]; intros [= <- <-];
      (split; [by first [apply only_stat_refl|apply only_stat_inc]|]); try done. intros _ ? [= <-]. by right.
  - intros [= <- <-]. split; [apply only_stat_refl|done].
Qed.

(** A response is refused with nothing but counting, or handled for an authenticated
    transaction. *)
Lemma response_cases now view maybe_msg c :
  (exists c' r, response now view maybe_msg c = Some (c', r) /\ only_stat c c') \/
  exists msg hnd t c1, only_stat c c1 /\
    match maybe_msg with Some m => m = msg | None => (message_parse view (cs_parse (c_stat c))).2 = Ok msg end /\
    m_tid_to_handle c !! h_transaction_id (header msg) = Some hnd /\ m_tmap c !! hnd = Some t /\
    (forall auth, t_maybe_auth t = Some auth ->
       message_is_valid msg view (auth_integrity auth) = Ok (Some true) \/
       (message_is_valid msg view (auth_integrity auth) = Ok None /\
        allow_unauthenticated_alternate (c_settings c) = true /\ is_alternate_server msg = true)) /\
    ((h_cls (header msg) = SUCCESS_RESPONSE /\ response now view maybe_msg c = handle_success_response now t msg c1) \/
     (h_cls (header msg) = ERROR_RESPONSE /\ response now view maybe_msg c = Some (handle_error_response now hnd t msg c1))).
Proof.
  unfold response.
  set (p := match maybe_msg with Some msg => (c, Ok msg) | None => _ end).
  assert (exists c0 rv, p = (c0, rv) /\ only_stat c c0 /\
    forall msg, rv = Ok msg -> match maybe_msg with Some m => m = msg | None => (message_parse view (cs_parse (c_stat c))).2 = Ok msg end) as (c0 & rv & -> & Hc0 & Hrv).
  { unfold p. destruct maybe_msg as [m|].
    - exists c, (Ok m). split_and!; [done|apply only_stat_refl|congruence].
    - destruct (message_parse view _) as [st r0]. eexists _, r0. split; [reflexivity|]. split; [by eexists|]. by intros msg ->. }
  destruct rv as [msg|e].
  2:{ cbn. left. by eexists _, _. }
  destruct (find_transaction (h_transaction_id (header msg)) c0) as [c1 tr] eqn:Ef.
  apply find_transaction_spec in Ef as [Hc1 Htr]. destruct tr as [hnd|e].
  2:{ cbn. left. eexists _, _. split; [reflexivity|]. by eapply only_stat_trans. }
  destruct Htr as [Htid [t Ht]]. cbn [combine2_se].
  assert (m_tmap c1 = m_tmap c /\ m_tmap c0 = m_tmap c /\ m_tid_to_handle c0 = m_tid_to_handle c /\ c_settings c1 = c_settings c) as (Em1 & Em0 & Et0 & Es1)
    by (destruct Hc0 as [? ->], Hc1 as [? ->]; done).
  rewrite Em0 in Ht. rewrite Et0 in Htid. rewrite Em1, Ht.
  destruct (check_response_auth t msg view c1) as [c2 ar] eqn:Ea. apply check_response_auth_spec in Ea as [Hc2 Hau].
  assert (only_stat c c2) as Hc by (eapply only_stat_trans; [|done]; by eapply only_stat_trans).
  destruct ar as [[]|e]; [|left; by eexists _, _].
  assert (m_tmap c2 = m_tmap c) as Em2 by (by destruct Hc as [? ->]). rewrite Em2, Ht. rewrite Es1 in Hau.
  case_bool_decide as Hs; [|case_bool_decide as He].
  - right. exists msg, hnd, t, c2. split_and!; try done; [by apply Hrv|by apply Hau|by left].
  - right. exists msg, hnd, t, c2. split_and!; try done; [by apply Hrv|by apply Hau|by right].
  - left. by eexists _, _.
Qed.

(** A success response ends the transaction, one way or the other. *)
Lemma handle_success_spec now t msg c : client_wf c ->
  exists c' e, handle_success_response now t msg c = Some (c', success) /\ client_wf c' /\
    m_effects c' = m_effects c ++ [e] /\ m_tmap c' = m_tmap c /\ terminal (t_hnd t) e.
Proof.
  intros Hwf. unfold handle_success_response. destruct (cw_rto c Hwf) as [Hrw Hrs].
  assert (0 <= history_duration (rto_settings (m_rto_calc c))) as Hh by (rewrite Hrs; apply (cw_settings c Hwf)).
  case_bool_decide as Hu; cbn [negb].
  2:{ eexists _, _. split; [reflexivity|]. split; [by auto|]. split; [reflexivity|]. split; [reflexivity|exact eq_refl]. }
  assert (exists calc rtt, (if t_rtx_count t =? 0
            then (Some (tp_sub now (t_create_time t)), new_rtt now (t_path t) (tp_sub now (t_create_time t)) (m_rto_calc c))
            else (None, backoff now (t_path t) (m_last_timeout (t_rtx_algo t)) (m_rto_calc c))) = (rtt, Some calc) /\
          rto_wf calc /\ rto_settings calc = rto_settings (m_rto_calc c)) as (calc & rtt & -> & Hcw & Hcs).
  { destruct (t_rtx_count t =? 0).
    - destruct (new_rtt_spec now (t_path t) (tp_sub now (t_create_time t)) _ Hrw Hh) as (calc & -> & [Hs Hw _ _ _] & _). eexists calc, _. by split; [reflexivity|].
    - destruct (backoff_spec now (t_path t) (m_last_timeout (t_rtx_algo t)) _ Hrw Hh) as (calc & -> & [Hs Hw _ _ _] & _). eexists calc, _. by split; [reflexivity|]. }
  cbn [mbind option_bind].
  assert (client_wf (with_rto_calc calc c)) as Hwf' by (apply with_rto_calc_wf; [done..|congruence]).
  destruct (xor_mapped (attribute_set msg)) as [[addr port]|]; [|destruct (mapped (attribute_set msg)) as [[addr port]|]];
    (eexists _, _; split; [reflexivity|]; split; [by auto|]; split; [reflexivity|]; split; [reflexivity|exact eq_refl]).
Qed.

Lemma with_algo_wf now hnd t c : client_wf c -> m_tmap c !! hnd = Some t ->
  client_wf (with_tmap (<[hnd := t_with_algo (process_5xx now (t_rtx_algo t)).1 t]>) c).
Proof.
  intros Hwf Ht. eapply (client_wf_update c _ hnd t); try done; [|apply Hwf|apply Hwf].
  apply process_5xx_wf; [apply (cw_settings c Hwf)|by apply (cw_algo c Hwf hnd)].
Qed.

Lemma handle_error_wf now hnd t msg c : client_wf c -> m_tmap c !! hnd = Some t ->
  client_wf (handle_error_response now hnd t msg c).1.
Proof.
  intros Hwf Ht. unfold handle_error_response. cbv beta zeta.
  case_bool_decide; cbn [negb]; [|cbn [fst]; by auto].
  destruct (error_code_attr _) as [[code reason]|]; [|cbn [fst]; by auto].
  destruct (is_alternate_server msg); [destruct (alternate_server _) as [[addr port]|]; cbn [fst]; by auto|].
  destruct (code / 100 =? 3); [cbn [fst]; by auto|]. destruct (code / 100 =? 4).
  { destruct (if code =? UnknownAttributeCode then _ else _); cbn [fst]; by auto. }
  destruct (code / 100 =? 5); [|cbn [fst]; by auto].
  pose proof (with_algo_wf now hnd t (inc cs_response_5xx c) ltac:(by auto) Ht) as Hw.
  destruct (process_5xx now (t_rtx_algo t)) as [algo []]; cbn [fst] in *; by auto.
Qed.

Lemma response_wf now view maybe_msg c : client_wf c ->
  exists c' r, response now view maybe_msg c = Some (c', r) /\ client_wf c'.
Proof.
  intros Hwf. destruct (response_cases now view maybe_msg c) as [(c' & r & -> & Hs)|(msg & hnd & t & c1 & Hs & _ & _ & Ht & _ & [[_ ->]|[_ ->]])].
  - exists c', r. split; [done|]. by eapply only_stat_wf.
  - destruct (handle_success_spec now t msg c1) as (c' & e & -> & Hw & _); [by eapply only_stat_wf|]. by exists c', success.
  - assert (m_tmap c1 !! hnd = Some t) as Ht1 by (by destruct Hs as [? ->]).
    pose proof (handle_error_wf now hnd t msg c1 ltac:(by eapply only_stat_wf) Ht1) as Hw.
    destruct (handle_error_response now hnd t msg c1) as [c' r]. by exists c', r.
Qed.

End Operations.

(** ** Runs of a client *)

Section Runs.
Context `{Craftpp} `{MapOrder}.

(** A call of one of the operations. *)
Inductive client_step : ClientUDP -> ClientUDP -> Prop :=
| cst_create G draws fuel (rand : G -> G * Z) g g' now rq c c' r :
    create draws fuel rand g now rq c = Some (g', (c', r)) -> client_step c c'
| cst_response now view maybe_msg c c' r : response now view maybe_msg c = Some (c', r) -> client_step c c'
| cst_next fuel now c c' e : client_next fuel now c = Some (c', e) -> client_step c c'.

Definition client_reachable (s : Settings) (c : ClientUDP) : Prop := rtc client_step (client_create s) c.

Lemma create_do_create {G} draws : forall fuel (rand : G -> G * Z) g g' now rq c x,
  create draws fuel rand g now rq c = Some (g', x) ->
  exists tid, m_tid_to_handle c !! tid = None /\ do_create fuel now tid rq c = Some x.
Proof.
  induction draws as [|draws IH]; intros fuel rand g g' now rq c x; cbn; [done|].
  destruct (tid_generate rand g) as [g1 id]. destruct (m_tid_to_handle c !! id) eqn:E; [apply IH|].
  destruct (do_create fuel now id rq c) as [y|] eqn:Ed; [|done]. cbn. intros [= _ <-]. by exists id.
Qed.

Lemma client_next_wf fuel now c c' e : client_wf c -> client_next fuel now c = Some (c', e) -> client_wf c'.
Proof.
  unfold client_next. intros Hwf. destruct (next_loop fuel now c) as [c1|] eqn:E; [|done]. cbn. intros [= Ee].
  apply next_loop_wf in E as [Hw _]; [|done]. pose proof (next_effect_wf now c1 Hw) as Hn. by rewrite Ee in Hn.
Qed.

Lemma client_step_wf c c' : client_wf c -> client_step c c' -> client_wf c'.
Proof.
  intros Hwf Hs. destruct Hs as [G draws fuel rand g g' now rq c c' r E|now view mm c c' r E|fuel now c c' e E].
  - apply create_do_create in E as (tid & Ht & Ed). by eapply do_create_wf.
  - destruct (response_wf now view mm c Hwf) as (c1 & r1 & E1 & Hw). congruence.
  - by eapply client_next_wf.
Qed.

Lemma client_reachable_wf s c : settings_ok s -> client_reachable s c -> client_wf c.
Proof.
  intros Hs Hr. pose proof (client_create_wf s Hs) as H1. revert H1. unfold client_reachable in Hr.
  induction Hr as [c|c1 c2 c3 Hst _ IH]; [done|]. intros Hw. apply IH. by eapply client_step_wf.
Qed.

(** What [next] hands to the caller, on a client that has no due deadline. *)
Definition effect_ok (now : Timepoint) (c : ClientUDP) (e : Effect) : Prop :=
  match e with
  | Idle => m_effects c = [] /\ m_tmap c = ∅
  | Sleep d => m_effects c = [] /\
      (exists tp h, (tp, h) ∈ m_tid_timeline c /\ is_after tp now = true /\ d = tp_sub tp now) /\
      forall h, is_Some (m_tmap c !! h) -> exists tp, (tp, h) ∈ m_tid_timeline c
  | TransactionOk h _ _ _ | TransactionFailed h _ => m_tmap c !! h = None
  | SendData _ _ => True
  end.

Lemma next_effect_ok now c : client_wf c -> next_step now c = None ->
  effect_ok now (next_effect now c).1 (next_effect now c).2.
Proof.
  intros Hwf Hn. pose proof (cw_queue c Hwf) as Hq. unfold next_effect. destruct (m_effects c) as [|e rest] eqn:Ee.
  - assert (forall h, is_Some (m_tmap c !! h) -> exists tp, (tp, h) ∈ m_tid_timeline c) as Hlive.
    { intros h Hh. destruct (cw_progress c Hwf h Hh) as [?|(e & He & _)]; [done|]. rewrite Ee in He. by apply elem_of_nil in He. }
    destruct (pq_top (m_tid_timeline c)) as [[tp h]|] eqn:Et; cbn [effect_ok fst snd].
    + split; [done|]. split; [|done]. exists tp, h. split; [by apply pq_top_in|]. split; [|done].
      unfold next_step in Hn. rewrite Et in Hn. cbn [fst snd] in Hn.
      destruct (is_after tp now); [done|]. exfalso. destruct (m_tmap (with_timeline pq_pop c) !! h); [|done].
      destruct (ra_next _ _) as [a [n|]]; done.
    + apply pq_top_None in Et. split; [done|]. apply map_empty. intros h.
      destruct (m_tmap c !! h) eqn:El; [|done]. destruct (Hlive h) as [tp Ht]; [by rewrite El|].
      rewrite Et in Ht. by apply elem_of_nil in Ht.
  - inversion Hq as [|? ? Hqe Hqr]; subst.
    assert (forall hnd, terminal hnd e -> m_tmap (cleanup hnd (with_effects (fun _ => rest) c)) !! hnd = None) as Hc.
    { intros hnd Ht. apply cleanup_wf; [done..|]. intros x h Hx Htx Hne. rewrite Ee in Hx.
      apply elem_of_cons in Hx as [->|Hx]; [|done]. destruct e; cbn in *; (done || congruence). }
    destruct e; cbn [effect_ok fst snd]; try done; by apply Hc.
Qed.

End Runs.

(** ** Properties *)

(** C10. Every client that can be reached from its creation by [create], [response] and [next],
    with any arguments and in any order, is well-formed: the map of transaction ids and the
    map of handles describe the same transactions, every transaction knows its handle, the
    retransmission counters are within their bounds, the timeout calculator is consistent,
    and no transaction is forgotten: each has a deadline in the timeline or its end in the
    queue of effects. *)
Theorem client_invariant `{C : Craftpp} `{O : MapOrder} (s : Settings) (c : ClientUDP)
  (Hs : settings_ok s) (Hr : client_reachable s c) : client_wf c.
Proof. by eapply client_reachable_wf. Qed.

(** C11. The client always makes progress: from every reachable state, [response] runs without
    undefined behaviour, a new transaction finds a free handle while fewer than 2^32 are in
    use, and the loop of [next] ends, within the deadlines that are due and the requests
    that may still be repeated. [next] then reports the end of a transaction that it has
    forgotten, or data to send; it asks to sleep only with an empty queue, until a deadline
    that lies ahead, and with a deadline for every transaction; and it is idle only when no
    transaction is left. *)
Theorem client_progress `{C : Craftpp} `{O : MapOrder} (s : Settings) (c : ClientUDP)
  (Hs : settings_ok s) (Hr : client_reachable s c) (now : Timepoint) :
  (forall view maybe_msg, is_Some (response now view maybe_msg c)) /\
  (Z.of_nat (size (m_tmap c)) < 2 ^ 32 -> forall tid rq, is_Some (do_create (S (size (m_tmap c))) now tid rq c)) /\
  forall fuel, (loop_measure now c <= fuel)%nat ->
    exists c' e, client_next fuel now c = Some (c', e) /\ effect_ok now c' e.
Proof.
  pose proof (client_reachable_wf s c Hs Hr) as Hwf. split; [|split].
  - intros view mm. destruct (response_wf now view mm c Hwf) as (c' & r & -> & _). by eexists.
  - intros Hsz tid rq. by apply do_create_total.
  - intros fuel Hf. destruct (next_loop_total now fuel c Hwf Hf) as (c1 & E & Hw & Hn).
    unfold client_next. rewrite E. cbn [fmap option_fmap option_map].
    pose proof (next_effect_ok now c1 Hw Hn) as Ho. destruct (next_effect now c1) as [c2 e]. by exists c2, e.
Qed.

(** C12. Responses are authenticated: when [response] does more than count, the datagram is a
    STUN message whose transaction id is that of a transaction in progress, and if that
    transaction was created with credentials, the message carries the HMAC of its covered
    text under their secret; the only exception is an unsigned ALTERNATE-SERVER redirection
    when the settings allow it. *)
Theorem response_authenticated `{C : Craftpp} (CL : CraftppLaws C) `{O : MapOrder}
  (h : HashFunc) (H : bytes -> bytes) (HL : HashLaws SHA1_SIZE h H)
  (now : Timepoint) (view : bytes) (c c' : ClientUDP) (r : MaybeError)
  (Hok : bytes_ok view) (Hresp : response now view None c = Some (c', r)) :
  only_stat c c' \/
  exists msg hnd t, (message_parse view (cs_parse (c_stat c))).2 = Ok msg /\
    m_tid_to_handle c !! h_transaction_id (header msg) = Some hnd /\ m_tmap c !! hnd = Some t /\
    forall name K, t_maybe_auth t = Some (mk_Auth name (integrity_data h H K)) ->
      (exists off, integrity_interval msg = Some (mk_Interval 0 off) /\
        integrity (attribute_set msg) = Some (rfc2104_hmac H K (integrity_text view off))) \/
      (integrity (attribute_set msg) = None /\ allow_unauthenticated_alternate (c_settings c) = true /\
       is_alternate_server msg = true).
Proof.
  destruct (response_cases now view None c) as [(c1 & r1 & E & Ho)|(msg & hnd & t & c1 & _ & Hp & Htid & Ht & Ha & _)].
  { left. congruence. }
  right. exists msg, hnd, t. split_and!; try done. intros name K Hauth. specialize (Ha _ Hauth). cbn [auth_integrity] in Ha.
  pose proof (message_parse_outcome_lemma view (cs_parse (c_stat c)) Hok) as Hw.
  destruct (message_parse view (cs_parse (c_stat c))) as [st [m|e]]; cbn in Hp; [|done]. injection Hp as ->.
  destruct Hw as [_ Hw]. destruct (parsed_integrity_cases h H HL view msg Hw) as [[Hn _]|(d & off & Hd & Hi & _ & _ & Hv)].
  - destruct Ha as [Ha|(_ & ? & ?)]; [|by right]. exfalso.
    destruct (parsed_integrity_cases h H HL view msg Hw) as [[_ Hv]|(d & off & Hd & _)]; [|congruence].
    rewrite Hv in Ha. done.
  - left. exists off. split; [done|]. rewrite Hv in Ha. destruct Ha as [[= Ha]|[[=] _]].
    apply bool_decide_eq_true in Ha. by rewrite Ha.
Qed.

(** C29. A view that [next] returns can dangle: when the answer of a transaction is queued and
    its deadline passes before the caller collects it, [next] queues a retransmission behind
    the [TransactionOk]; collecting the [TransactionOk] destroys the transaction and its
    data, and the next call returns [SendData] with a view of that data, although the
    documentation bounds its lifetime by the [TransactionOk] just returned. *)
Theorem send_data_after_ok_dangles (now : Timepoint) (c : ClientUDP) (h : Handle) (ep : Endpoint) (msg : Message)
  (rtt : option Duration) (tp next : Timepoint) (t : Transaction)
  (Heff : m_effects c = [TransactionOk h ep msg rtt]) (Htl : m_tid_timeline c = [(tp, h)])
  (Hdue : is_after tp now = false) (Ht : m_tmap c !! h = Some t)
  (Hnext : (ra_next now (t_rtx_algo t)).2 = Some next) (Hlater : is_after next now = true) :
  exists c1 c2, client_next 1 now c = Some (c1, TransactionOk h ep msg rtt) /\
    client_next 1 now c1 = Some (c2, SendData h h) /\ m_tmap c1 !! h = None /\ m_tmap c2 !! h = None.
Proof.
  set (t' := t_inc_rtx_count (t_with_algo (ra_next now (t_rtx_algo t)).1 t)).
  set (cl := emplace_effect (SendData h h) (with_timeline (fun l => (next, h) :: l)
    (with_tmap (<[h := t']>) (inc cs_retransmits (with_timeline pq_pop c))))).
  assert (next_step now c = Some cl) as E1.
  { unfold next_step. rewrite Htl. cbn [pq_top fst snd]. rewrite Hdue.
    change (m_tmap (with_timeline pq_pop c)) with (m_tmap c). rewrite Ht.
    destruct (ra_next now (t_rtx_algo t)) as [a n] eqn:Ea. cbn in Hnext. subst n.
    unfold cl, t'. by rewrite ?Ea. }
  assert (m_tid_timeline cl = [(next, h)]) as Etl.
  { cbn. rewrite Htl. unfold pq_pop. cbn [pq_top remove_one]. by rewrite decide_True. }
  assert (next_step now cl = None) as E2.
  { unfold next_step. rewrite Etl. cbn [pq_top fst snd]. by rewrite Hlater. }
  set (c1 := cleanup h (with_effects (fun _ => [SendData h h]) cl)).
  assert (m_tmap cl !! h = Some t') as Etm by (cbn; by rewrite lookup_insert_eq).
  assert (c1 = with_tmap (delete h) (with_tid_to_handle (delete (t_tid t')) (with_effects (fun _ => [SendData h h]) cl))) as Ec1.
  { unfold c1, cleanup. change (m_tmap (with_effects _ cl)) with (m_tmap cl). by rewrite Etm. }
  assert (next_step now c1 = None) as E3.
  { rewrite Ec1. unfold next_step. change (m_tid_timeline _) with (m_tid_timeline cl). rewrite Etl.
    cbn [pq_top fst snd]. by rewrite Hlater. }
  exists c1, (with_effects (fun _ => []) c1). split_and!.
  - unfold client_next. cbn [next_loop]. rewrite E1. rewrite E2. cbn [fmap option_fmap option_map].
    unfold next_effect. change (m_effects cl) with (m_effects c ++ [SendData h h]). by rewrite Heff.
  - unfold client_next. cbn [next_loop]. rewrite E3. cbn [fmap option_fmap option_map].
    unfold next_effect. assert (m_effects c1 = [SendData h h]) as -> by by rewrite Ec1. done.
  - rewrite Ec1. cbn. by rewrite lookup_delete_eq.
  - rewrite Ec1. cbn. by rewrite lookup_delete_eq.
Qed.

(** *** Witnesses *)

Lemma settings_default_ok : settings_ok settings_default.
Proof. unfold settings_ok, retransmit_ok. cbn. lia. Qed.

(** A client that has created one transaction, at the epoch. *)
Definition counting (g : Z) : Z * Z := (g + 1, g).
Definition sample_create : option (Z * (ClientUDP * Result Handle)) :=
  create (H := reference) 1 1 counting 7 epoch (mk_Request (path_to 1) [] [] None) (client_create settings_default).
Definition client_one : ClientUDP :=
  match sample_create with Some (_, (c, _)) => c | None => client_create settings_default end.

Lemma client_one_created : exists g r, sample_create = Some (g, (client_one, r)).
Proof.
  unfold client_one. destruct sample_create as [[g [c r]]|] eqn:E; [by exists g, r|]. vm_compute in E. discriminate E.
Qed.

Lemma client_one_reachable : client_reachable (H := reference) settings_default client_one.
Proof. destruct client_one_created as (g & r & E). apply rtc_once. by eapply cst_create. Qed.

Lemma client_invariant_witness : client_wf client_one /\ is_Some (m_tmap client_one !! 0).
Proof.
  split; [|by (eexists; vm_compute; reflexivity)].
  exact (client_invariant (C := reference) settings_default client_one settings_default_ok client_one_reachable).
Defined.

(** Half a second later, the request is sent a second time behind the first. *)
Lemma client_progress_witness :
  (loop_measure (advance epoch 500000) client_one <= 100)%nat /\
  exists c e, client_next 100 (advance epoch 500000) client_one = Some (c, e) /\ e = SendData 0 0.
Proof.
  assert (loop_measure (advance epoch 500000) client_one <= 100)%nat as Hm.
  { apply Nat.leb_le. vm_compute. reflexivity. }
  split; [exact Hm|].
  destruct (client_progress (C := reference) settings_default client_one settings_default_ok client_one_reachable
    (advance epoch 500000)) as (_ & _ & Hn).
  destruct (Hn 100%nat Hm) as (c & e & E & _). exists c, e. split; [exact E|].
  apply (f_equal (fmap snd)) in E. vm_compute in E. injection E as <-. reflexivity.
Defined.

(** An answer to the transaction, collected after its first deadline. *)
Definition sample_tid : bytes := match m_tmap client_one !! 0 with Some t => t_tid t | None => [] end.
Definition sample_answer : Message :=
  mk_Message (mk_Header SUCCESS_RESPONSE BINDING sample_tid)
    (attribute_set_create [XorMappedAddressAttribute (V4Holder [1; 2; 3; 4]) 99] []) false None.
Definition client_sent : ClientUDP :=
  match client_next 1 epoch client_one with Some (c, _) => c | None => client_one end.
Definition client_answered : ClientUDP :=
  match response (H := reference) (advance epoch 100000) [] (Some sample_answer) client_sent with
  | Some (c, _) => c | None => client_one end.

Lemma send_data_after_ok_dangles_witness :
  exists ok c1 c2, client_next 1 (advance epoch 600000) client_answered = Some (c1, ok) /\
    client_next 1 (advance epoch 600000) c1 = Some (c2, SendData 0 0) /\ m_tmap c2 !! 0 = None.
Proof.
  destruct (m_effects client_answered) as [|[| h ep msg rtt| | |] [|]] eqn:Eeff; try (vm_compute in Eeff; discriminate Eeff).
  destruct (m_tmap client_answered !! 0) as [t|] eqn:Et; [|vm_compute in Et; discriminate Et].
  assert (h = 0) as -> by (vm_compute in Eeff; injection Eeff as <- _ _ _; reflexivity).
  destruct (send_data_after_ok_dangles (advance epoch 600000) client_answered 0 ep msg rtt (mk_Timepoint 500000)
    (mk_Timepoint 1600000) t) as (c1 & c2 & E1 & E2 & _ & E3).
  - exact Eeff.
  - vm_compute. reflexivity.
  - vm_compute. reflexivity.
  - exact Et.
  - vm_compute in Et. injection Et as <-. vm_compute. reflexivity.
  - vm_compute. reflexivity.
  - eexists _, c1, c2. split; [exact E1|]. split; [exact E2|exact E3].
Defined.

(** A transaction with credentials, and the datagram that a server who knows them returns. *)
Definition sample_auth : Auth := mk_Auth [97] (integrity_data sample_hash sample_H [1; 2]).
Definition sample_auth_create : option (Z * (ClientUDP * Result Handle)) :=
  create (H := reference) 1 1 counting 7 epoch (mk_Request (path_to 1) [] [] (Some sample_auth)) (client_create settings_default).
Definition client_auth : ClientUDP :=
  match sample_auth_create with Some (_, (c, _)) => c | None => client_create settings_default end.
Definition signed_answer : bytes :=
  message_bytes (H := reference) (header sample_answer) (attribute_set sample_answer) (rfc2104_hmac sample_H <$> Some [1; 2]).

Lemma client_auth_tids : m_tid_to_handle client_auth = {[ sample_tid := 0 ]}.
Proof. vm_compute. reflexivity. Qed.

Lemma client_auth_transaction : t_maybe_auth <$> m_tmap client_auth !! 0 = Some (Some sample_auth).
Proof. reflexivity. Qed.

Lemma response_authenticated_witness :
  exists c' r msg off, response (H := reference) epoch signed_answer None client_auth = Some (c', r) /\
    length (m_effects c') = 2%nat /\ integrity (attribute_set msg) = Some (rfc2104_hmac sample_H [1; 2] (integrity_text signed_answer off)).
Proof.
  assert (bytes_ok signed_answer) as Hok by (vm_compute; repeat constructor; done).
  assert ((fun x => length (m_effects x.1)) <$> response (H := reference) epoch signed_answer None client_auth = Some 2%nat)
    as El by (vm_compute; reflexivity).
  destruct (response (H := reference) epoch signed_answer None client_auth) as [[c' r]|] eqn:E; [|discriminate El].
  cbn [fmap option_fmap option_map fst] in El. injection El as El.
  pose proof (response_authenticated (C := reference) reference_laws sample_hash sample_H _ epoch signed_answer
    client_auth c' r Hok E) as [[s Hs]|(msg & hnd & t & _ & Hh & Ht & Ha)].
  { exfalso. rewrite Hs in El. vm_compute in El. discriminate El. }
  rewrite client_auth_tids in Hh. apply lookup_singleton_Some in Hh as [_ <-].
  pose proof client_auth_transaction as Et. rewrite Ht in Et. injection Et as Et.
  destruct (Ha [97] [1; 2] Et) as [(off & _ & Hi)|(_ & Hc & _)].
  - eexists c', r, msg, off. split; [reflexivity|]. split; [exact El|exact Hi].
  - vm_compute in Hc. discriminate Hc.
Defined.
