(* ===== verification/StunClientCalls.v ===== *)
(** * Sequences of calls of the STUN client, and what they sent

    [client_calls] is a sequence of calls of the client's operations, labelled with the
    effects that [next] handed over. The lemma [calls_transaction] follows one transaction
    through such a sequence: it is the same until its end is handed over, and its counter
    [rtx_count] counts the [SendData] effects after the first one. *)

From S2P Require Import Prelude Errors Craftpp Util Clock Net Crypto StunBase StunCrc StunAttr StunAttrSet StunMessage StunServer StunRto StunRtx StunClient.

(** ** Calls *)

Section Calls.
Context `{Craftpp} `{MapOrder}.

(** What [response] may be called with. *)
Context (given : bytes -> option Message -> Prop).

Inductive client_calls : ClientUDP -> list Effect -> ClientUDP -> Prop :=
| calls_end c : client_calls c [] c
| calls_create G draws fuel (rand : G -> G * Z) g g' now rq c c1 c2 es r :
    create draws fuel rand g now rq c = Some (g', (c1, r)) -> client_calls c1 es c2 -> client_calls c es c2
| calls_response now view maybe_msg c c1 c2 es r :
    given view maybe_msg -> response now view maybe_msg c = Some (c1, r) -> client_calls c1 es c2 -> client_calls c es c2
| calls_next fuel now c c1 c2 e es : client_next fuel now c = Some (c1, e) -> client_calls c1 es c2 -> client_calls c (e :: es) c2.

Lemma client_calls_steps c es c' : client_calls c es c' -> rtc client_step c c'.
Proof. induction 1; [done|eapply rtc_l; [|done]; by econstructor..]. Qed.

Lemma client_calls_trans c es c1 es' c2 : client_calls c es c1 -> client_calls c1 es' c2 -> client_calls c (es ++ es') c2.
Proof. induction 1; intros Hc; cbn [app]; [done|by econstructor; eauto..]. Qed.

End Calls.

(** How often the effects send the data of the transaction [hnd]. *)
Definition is_send (hnd : Handle) (e : Effect) : bool := match e with SendData h _ => h =? hnd | _ => false end.
Definition sent (hnd : Handle) (es : list Effect) : nat := length (filter (fun e => is_send hnd e = true) es).

#[global] Arguments sent : simpl never.

(** No end of the transaction is among the effects. *)
Abbreviation unfinished hnd := (Forall (fun e => ~ terminal hnd e)).

(** ** Lemmas *)

Lemma sent_app hnd es es' : sent hnd (es ++ es') = (sent hnd es + sent hnd es')%nat.
Proof. unfold sent. by rewrite filter_app, length_app. Qed.

Lemma sent_one hnd e : sent hnd [e] = if is_send hnd e then 1%nat else 0%nat.
Proof. unfold sent. rewrite filter_cons, filter_nil. destruct (is_send hnd e) eqn:E; by case_decide. Qed.

Lemma sent_cons hnd e es : sent hnd (e :: es) = (sent hnd [e] + sent hnd es)%nat.
Proof. apply (sent_app hnd [e]). Qed.

(** The transaction [hnd] is kept from [c] to [c'], and was sent [n] more times. *)
Definition kept (hnd : Handle) (n : Z) (c c' : ClientUDP) : Prop :=
  forall t, m_tmap c !! hnd = Some t -> fits 32 (t_rtx_count t) ->
  exists t', m_tmap c' !! hnd = Some t' /\ t_tid t' = t_tid t /\ t_maybe_auth t' = t_maybe_auth t /\
    t_create_time t' = t_create_time t /\ t_msg_data t' = t_msg_data t /\
    fits 32 (t_rtx_count t') /\ t_rtx_count t' = u32 (t_rtx_count t + n).

Lemma kept_same hnd c c' : m_tmap c' !! hnd = m_tmap c !! hnd -> kept hnd 0 c c'.
Proof. intros E t Ht Hf. exists t. rewrite E. split_and!; try done. by rewrite Z.add_0_r, wrap_small. Qed.

Lemma kept_trans hnd n m c c1 c2 : kept hnd n c c1 -> kept hnd m c1 c2 -> kept hnd (n + m) c c2.
Proof.
  intros H1 H2 t Ht Hf. destruct (H1 t Ht Hf) as (t1 & Ht1 & E1 & E2 & E3 & E4 & Hf1 & En).
  destruct (H2 t1 Ht1 Hf1) as (t2 & Ht2 & F1 & F2 & F3 & F4 & Hf2 & Em). exists t2. split_and!; try congruence; try done.
  rewrite Em, En. unfold wrap. rewrite Zplus_mod_idemp_l. f_equal. lia.
Qed.

Lemma kept_eq hnd n m c c' : kept hnd n c c' -> n = m -> kept hnd m c c'.
Proof. by intros Hk <-. Qed.

(** The number of sendings that are queued. *)
Abbreviation queued_sends hnd c := (Z.of_nat (sent hnd (m_effects c))).

Section Kept.
Context `{C : Craftpp} `{O : MapOrder} (hnd : Handle).

Lemma do_create_effects fuel now tid rq c c' r : do_create fuel now tid rq c = Some (c', r) ->
  m_effects c' = m_effects c \/ exists h, m_effects c' = m_effects c ++ [SendData h h].
Proof.
  unfold do_create. destruct (message_build _ _) as [data|e]; [|by intros [= <- <-]; left].
  destruct (allocate_handle fuel c) as [[c1 h]|] eqn:Ea; [|done]. cbn [mbind option_bind].
  assert (m_effects c1 = m_effects c) as Ee.
  { clear -Ea. revert c Ea. induction fuel as [|fuel IH]; intros c; cbn; [done|].
    destruct (m_tmap c !! m_next_handle_value c); [|by intros [= <- _]]. intros Ha. by rewrite (IH _ Ha). }
  destruct (ra_init now _) as [algo [tp|]]; intros [= <- _]; right; exists h; cbn; by rewrite Ee.
Qed.

Lemma do_create_kept fuel now tid rq c c' r : client_wf c -> do_create fuel now tid rq c = Some (c', r) ->
  is_Some (m_tmap c !! hnd) -> kept hnd (queued_sends hnd c' - queued_sends hnd c) c c'.
Proof.
  intros Hwf E [t Ht]. revert E. unfold do_create. destruct (message_build _ _) as [data|e].
  2:{ intros [= <- _]. eapply kept_eq; [by apply kept_same|lia]. }
  destruct (allocate_handle fuel c) as [[c1 h]|] eqn:Ea; [|done]. cbn [mbind option_bind].
  apply allocate_handle_spec in Ea as (Hfree & _ & v & _ & ->); [|apply Hwf].
  assert (h <> hnd) as Hne by (intros ->; by rewrite Hfree in Ht).
  destruct (ra_init now _) as [algo [tp|]]; intros [= <- _]; (eapply kept_eq; [apply kept_same|]; cbn;
    [rewrite Hfree; by rewrite lookup_insert_ne|rewrite sent_app, sent_one; cbn; rewrite (proj2 (Z.eqb_neq _ _)) by done; lia]).
Qed.

(** An answer queues an end, and changes no more than the machine of a transaction. *)
Lemma handle_success_kept now t msg c c' r : handle_success_response now t msg c = Some (c', r) ->
  m_tmap c' = m_tmap c /\ sent hnd (m_effects c') = sent hnd (m_effects c).
Proof.
  unfold handle_success_response.
  destruct (negb _); [intros [= <- _]; split; [done|]; cbn; rewrite sent_app, sent_one; cbn; lia|].
  destruct (if t_rtx_count t =? 0 then _ else _) as [rtt [calc|]]; [|done]. cbn [mbind option_bind].
  destruct (xor_mapped _) as [[]|]; [|destruct (mapped _) as [[]|]]; intros [= <- _]; (split; [done|]; cbn; rewrite sent_app, sent_one; cbn; lia).
Qed.

Lemma handle_error_kept now h t msg c : m_tmap c !! h = Some t ->
  let c' := (handle_error_response now h t msg c).1 in kept hnd 0 c c' /\ sent hnd (m_effects c') = sent hnd (m_effects c).
Proof.
  intros Ht. cbv zeta. assert (forall e c0, kept hnd 0 c c0 -> m_effects c0 = m_effects c -> is_send hnd e = false ->
    kept hnd 0 c (emplace_effect e c0) /\ sent hnd (m_effects (emplace_effect e c0)) = sent hnd (m_effects c)) as Hf.
  { intros e c0 Hk E He. split; [exact Hk|]. cbn. rewrite E, sent_app, sent_one, He. lia. }
  assert (forall c0, m_tmap c0 = m_tmap c -> kept hnd 0 c c0) as Hs by (intros c0 E; apply kept_same; by rewrite E).
  assert (forall algo, kept hnd 0 c (with_tmap (<[h := t_with_algo algo t]>) (inc cs_response_5xx c))) as Hk.
  { intros algo t' Ht' Hfit. destruct (decide (h = hnd)) as [<-|Hne].
    - rewrite Ht in Ht'. injection Ht' as <-. exists (t_with_algo algo t). cbn. rewrite lookup_insert_eq.
      split_and!; try done. by rewrite Z.add_0_r, wrap_small.
    - exists t'. cbn. rewrite lookup_insert_ne by done. split_and!; try done. by rewrite Z.add_0_r, wrap_small. }
  unfold handle_error_response. cbv beta zeta.
  destruct (negb _); [apply Hf; by auto|]. destruct (error_code_attr _) as [[code reason]|]; [|apply Hf; by auto].
  destruct (is_alternate_server msg); [destruct (alternate_server _) as [[a p]|]; apply Hf; by auto|].
  destruct (code / 100 =? 3); [apply Hf; by auto|]. destruct (code / 100 =? 4); [destruct (if _ =? _ then _ else _); apply Hf; by auto|].
  destruct (code / 100 =? 5); [|split; [by apply kept_same|done]].
  destruct (process_5xx now (t_rtx_algo t)) as [algo []]; cbn [fst]; [apply Hf; by auto|split; [apply Hk|done]].
Qed.

Lemma response_kept now view maybe_msg c c' r : response now view maybe_msg c = Some (c', r) ->
  kept hnd 0 c c' /\ sent hnd (m_effects c') = sent hnd (m_effects c).
Proof.
  intros E. destruct (response_cases now view maybe_msg c) as [(c2 & r2 & E2 & [st ->])|(msg & h & t & c2 & [st ->] & _ & _ & Ht & _ & Hc)].
  - rewrite E in E2. injection E2 as -> _. split; [by apply kept_same|done].
  - destruct Hc as [[_ E2]|[_ E2]]; rewrite E in E2.
    + destruct (handle_success_kept _ _ _ _ _ _ (eq_sym E2)) as [Em Es]. split; [apply kept_same; by rewrite Em|exact Es].
    + injection E2 as E2. pose proof (handle_error_kept now h t msg (with_stat (fun _ => st) c) Ht) as Hk.
      by rewrite <- E2 in Hk.
Qed.

Lemma next_step_kept now c c' : next_step now c = Some c' -> kept hnd (queued_sends hnd c' - queued_sends hnd c) c c'.
Proof.
  unfold next_step. destruct (pq_top _) as [[tp h]|]; [|done]. destruct (is_after _ _); [done|]. cbn [fst snd].
  change (m_tmap (with_timeline pq_pop c)) with (m_tmap c). destruct (m_tmap c !! h) as [t|] eqn:Et.
  2:{ intros [= <-]. eapply kept_eq; [by apply kept_same|cbn; lia]. }
  destruct (ra_next now _) as [algo [next|]]; intros [= <-] t' Ht' Hfit; cbn [emplace_effect with_effects m_effects with_timeline with_tmap
    inc with_stat m_tmap]; rewrite sent_app, sent_one; cbn [is_send]; destruct (decide (h = hnd)) as [<-|Hne].
  - rewrite Et in Ht'. injection Ht' as <-. rewrite lookup_insert_eq, Z.eqb_refl. eexists. split; [reflexivity|]. cbn.
    split_and!; try done; [apply wrap_fits; lia|]. f_equal. lia.
  - rewrite lookup_insert_ne by done. rewrite (proj2 (Z.eqb_neq _ _)) by done. exists t'. split_and!; try done.
    rewrite <- (wrap_small 32 (t_rtx_count t')) at 1 by done. f_equal. lia.
  - rewrite Et in Ht'. injection Ht' as <-. rewrite lookup_insert_eq. eexists. split; [reflexivity|]. cbn. split_and!; try done.
    rewrite <- (wrap_small 32 (t_rtx_count t)) at 1 by done. f_equal. lia.
  - rewrite lookup_insert_ne by done. exists t'. split_and!; try done.
    rewrite <- (wrap_small 32 (t_rtx_count t')) at 1 by done. f_equal. lia.
Qed.

Lemma next_loop_kept now fuel : forall c c', next_loop fuel now c = Some c' ->
  kept hnd (queued_sends hnd c' - queued_sends hnd c) c c'.
Proof.
  induction fuel as [|fuel IH]; intros c c'; cbn [next_loop]; destruct (next_step now c) as [c1|] eqn:E1; try done;
    try (intros [= <-]; eapply kept_eq; [by apply kept_same|lia]).
  intros E2. eapply kept_eq; [eapply kept_trans; [exact (next_step_kept _ _ _ E1)|exact (IH _ _ E2)]|lia].
Qed.

Lemma next_effect_kept now c : ~ terminal hnd (next_effect now c).2 ->
  let c' := (next_effect now c).1 in
  kept hnd 0 c c' /\ sent hnd (m_effects c) = (sent hnd [(next_effect now c).2] + sent hnd (m_effects c'))%nat.
Proof.
  unfold next_effect. cbv zeta. destruct (m_effects c) as [|e rest] eqn:Ee.
  { intros _. destruct (pq_top _); cbn [fst snd]; (split; [by apply kept_same|]); rewrite Ee; done. }
  cbn [snd]. intros Hte. rewrite sent_cons.
  assert (forall h, h <> hnd -> kept hnd 0 c (cleanup h (with_effects (fun _ => rest) c)) /\
    m_effects (cleanup h (with_effects (fun _ => rest) c)) = rest) as Hc.
  { intros h Hne. unfold cleanup. change (m_tmap (with_effects _ c)) with (m_tmap c). destruct (m_tmap c !! h); [|split; [by apply kept_same|done]].
    split; [|done]. apply kept_same. cbn. by rewrite lookup_delete_ne. }
  destruct e as [h v|h ep m rtt|h reason|d|]; cbn [fst]; try (split; [by apply kept_same|done]);
    (destruct (Hc h) as [Hk ->]; [by intros ->; apply Hte|]); done.
Qed.

Lemma client_next_kept fuel now c c' e : client_next fuel now c = Some (c', e) -> ~ terminal hnd e ->
  kept hnd (Z.of_nat (sent hnd [e]) + queued_sends hnd c' - queued_sends hnd c) c c'.
Proof.
  unfold client_next. destruct (next_loop fuel now c) as [c1|] eqn:El; [|done]. cbn [fmap option_fmap option_map].
  intros [= E] Hte. pose proof (next_effect_kept now c1) as Hn. rewrite E in Hn. cbn [fst snd] in Hn. destruct (Hn Hte) as [Hk Hs].
  eapply kept_eq; [eapply kept_trans; [by eapply next_loop_kept|exact Hk]|lia].
Qed.

(** *** The whole sequence *)

(** Until its end is handed over, a transaction stays as it was created, and [rtx_count] is
    the number of times its data was queued since, modulo 2^32. *)
Lemma calls_transaction given c es c' : client_calls given c es c' -> client_wf c -> unfinished hnd es -> is_Some (m_tmap c !! hnd) ->
  kept hnd (Z.of_nat (sent hnd es) + queued_sends hnd c' - queued_sends hnd c) c c'.
Proof.
  assert (forall n c0 c1 t, kept hnd n c0 c1 -> m_tmap c0 !! hnd = Some t -> fits 32 (t_rtx_count t) -> is_Some (m_tmap c1 !! hnd)) as Hin.
  { intros n c0 c1 t Hk Ht Hf. destruct (Hk t Ht Hf) as (t' & Ht' & _). by eexists. }
  intros Hcalls Hwf Hun His. enough (forall t, m_tmap c !! hnd = Some t -> fits 32 (t_rtx_count t) ->
    kept hnd (Z.of_nat (sent hnd es) + queued_sends hnd c' - queued_sends hnd c) c c') as Hall.
  { intros t Ht Hf. by apply (Hall t Ht Hf). }
  clear His. induction Hcalls as [c|G draws fuel rand g g' now rq c c1 c2 es r E _ IH|now view o c c1 c2 es r _ E _ IH|fuel now c c1 c2 e es E _ IH];
    intros t Ht Hf.
  - eapply kept_eq; [by apply kept_same|]. change (sent hnd []) with 0%nat. lia.
  - assert (client_wf c1) as Hw1 by (eapply client_step_wf; [exact Hwf|by econstructor]).
    apply create_do_create in E as (tid & _ & E). pose proof (do_create_kept _ _ _ _ _ _ _ Hwf E ltac:(by eexists)) as Hk.
    destruct (Hk t Ht Hf) as (t1 & Ht1 & _ & _ & _ & _ & Hf1 & _).
    eapply kept_eq; [eapply kept_trans; [exact Hk|exact (IH Hw1 Hun t1 Ht1 Hf1)]|lia].
  - assert (client_wf c1) as Hw1 by (eapply client_step_wf; [exact Hwf|by econstructor]).
    destruct (response_kept _ _ _ _ _ _ E) as [Hk Hs]. destruct (Hk t Ht Hf) as (t1 & Ht1 & _ & _ & _ & _ & Hf1 & _).
    eapply kept_eq; [eapply kept_trans; [exact Hk|exact (IH Hw1 Hun t1 Ht1 Hf1)]|lia].
  - apply Forall_cons in Hun as [Hte Hun]. pose proof (client_next_kept _ _ _ _ _ E Hte) as Hk.
    destruct (Hk t Ht Hf) as (t1 & Ht1 & _ & _ & _ & _ & Hf1 & _).
    eapply kept_eq; [eapply kept_trans; [exact Hk|exact (IH (client_next_wf _ _ _ _ _ Hwf E) Hun t1 Ht1 Hf1)]|].
    rewrite (sent_cons _ e es). lia.
Qed.

End Kept.
