(* ===== verification/Binding.v ===== *)
(** * The Binding transaction between stun_client_udp and stun_server_stateless

    The client of StunClient.v and the server of StunServer.v, connected by the bytes that
    they exchange: the request that [do_create] encodes, the answer that [process] gives and
    that its caller encodes, and [response] and [next] of the client on those bytes. *)

From S2P Require Import Prelude Errors Craftpp Util Clock Net Crypto StunBase StunCrc StunAttr StunAttrSet StunMessage StunServer StunRto StunRtx StunClient StunClientCalls.

(** ** Lemmas: the client *)

Section Client.
Context `{Craftpp} `{MapOrder}.

Lemma client_steps_wf c c' : rtc client_step c c' -> client_wf c -> client_wf c'.
Proof. induction 1 as [c|c1 c2 c3 Hst _ IH]; [done|]. intros Hw. apply IH. by eapply client_step_wf. Qed.

(** A success response with a valid signature, where one is asked for, is handled. *)
Lemma response_accepts now view c msg st hnd t :
  message_parse view (cs_parse (c_stat c)) = (st, Ok msg) ->
  m_tid_to_handle c !! h_transaction_id (header msg) = Some hnd -> m_tmap c !! hnd = Some t ->
  (forall auth, t_maybe_auth t = Some auth -> message_is_valid msg view (auth_integrity auth) = Ok (Some true)) ->
  h_cls (header msg) = SUCCESS_RESPONSE ->
  response now view None c =
    handle_success_response now t msg (with_stat (fun s => mk_Statistics st (cs_counter s)) c).
Proof.
  intros Hp Hh Ht Ha Hc. unfold response. rewrite Hp. unfold find_transaction.
  set (c1 := with_stat (fun s => mk_Statistics st (cs_counter s)) c).
  change (m_tid_to_handle c1) with (m_tid_to_handle c). change (m_tmap c1) with (m_tmap c). rewrite Hh, Ht.
  cbn [combine2_se]. change (m_tmap c1) with (m_tmap c). rewrite Ht.
  assert (check_response_auth t msg view c1 = (c1, success)) as ->.
  { unfold check_response_auth. destruct (t_maybe_auth t) as [auth|]; [|done]. by rewrite (Ha auth eq_refl). }
  unfold success. change (m_tmap c1) with (m_tmap c). by rewrite Ht, bool_decide_true.
Qed.

(** A success response with an XOR-MAPPED-ADDRESS ends the transaction with its address, and
    with its round trip only if the request was sent once. *)
Lemma handle_success_xor now t msg c addr port : client_wf c ->
  unknown_comprehension_required (attribute_set msg) = [] -> xor_mapped (attribute_set msg) = Some (addr, port) ->
  exists c', handle_success_response now t msg c = Some (c', success) /\ client_wf c' /\
    m_effects c' = m_effects c ++ [TransactionOk (t_hnd t)
      (UdpEndpoint (xaddr_to_address addr (h_transaction_id (header msg))) port) msg
      (if t_rtx_count t =? 0 then Some (tp_sub now (t_create_time t)) else None)].
Proof.
  intros Hwf Hu Hx. destruct (handle_success_spec now t msg c Hwf) as (c' & e & E & Hw & He & _).
  exists c'. split; [done|]. split; [done|]. rewrite He. f_equal.
  revert E. unfold handle_success_response. rewrite Hu, bool_decide_true by done. cbn [negb].
  destruct (t_rtx_count t =? 0);
    (destruct (new_rtt _ _ _ _) as [calc|] || destruct (backoff _ _ _ _) as [calc|]; [|done]);
    cbn [mbind option_bind]; rewrite Hx; intros [= <-]; cbn in He; by apply app_inj_tail in He as [_ <-].
Qed.

(** [next] only appends to the queue. *)
Lemma next_loop_effects now : forall fuel c c', client_wf c -> next_loop fuel now c = Some c' ->
  exists es, m_effects c' = m_effects c ++ es.
Proof.
  induction fuel as [|fuel IH]; intros c c' Hwf; cbn [next_loop];
    (destruct (next_step now c) as [c1|] eqn:E; [|intros [= <-]; exists []; by rewrite app_nil_r]); [done|].
  intros Hl. pose proof (next_step_wf now c c1 Hwf E) as Hw1. destruct (IH c1 c' Hw1 Hl) as [es ->].
  destruct (next_step_cases now c c1 Hwf E) as (tp & hnd & _ & _ & [[_ ->]|(t & t' & items & e & Hit)]); [by exists es|].
  exists (e :: es). rewrite (it_effects _ _ _ _ _ _ _ _ Hit), <- app_assoc. done.
Qed.

(** With nothing queued before it, the end of a transaction is what [next] returns. *)
Lemma client_next_front now fuel c e rest : client_wf c -> m_effects c = e :: rest ->
  (loop_measure now c <= fuel)%nat ->
  exists c', client_next fuel now c = Some (c', e) /\ effect_ok now c' e.
Proof.
  intros Hwf He Hf. destruct (next_loop_total now fuel c Hwf Hf) as (c1 & E & Hw & Hn).
  destruct (next_loop_effects now fuel c c1 Hwf E) as [es Hes]. rewrite He in Hes.
  pose proof (next_effect_ok now c1 Hw Hn) as Hok. unfold client_next. rewrite E. cbn [fmap option_fmap option_map].
  assert ((next_effect now c1).2 = e) as E2 by (unfold next_effect; by rewrite Hes).
  exists (next_effect now c1).1. rewrite E2 in Hok. split; [|done]. f_equal. rewrite <- E2. apply surjective_pairing.
Qed.

End Client.

(** ** Lemmas: the request *)

Section Request.
Context `{CL : CraftppLaws} `{OL : MapOrderLaws}.
Context (h : HashFunc) (H : bytes -> bytes) {HL : HashLaws SHA1_SIZE h H}.

(** The credentials of a request: a name and the integrity data of its secret. *)
Definition auth_of (cred : option (bytes * bytes)) : option Auth :=
  (fun p => mk_Auth p.1 (integrity_data h H p.2)) <$> cred.

(** The attributes and the message that [do_create] makes of a request without attributes. *)
Definition request_attrs (use_fp : bool) (cred : option (bytes * bytes)) : list AttributeValue :=
  match cred with Some (name, _) => [UsernameAttribute name] | None => [] end ++
  (if use_fp then [FingerprintAttribute 0] else []).
Definition request_message (use_fp : bool) (tid : bytes) (cred : option (bytes * bytes)) : Message :=
  mk_Message (mk_Header REQUEST method_binding tid) (attribute_set_create (request_attrs use_fp cred) []) false None.

Lemma request_message_client creds use_fp tid cred : zlen tid = 12 -> bytes_ok tid ->
  (forall name K, cred = Some (name, K) -> bytes_ok name /\ zlen name <= 513 /\ credential creds name = Some K) ->
  client_request creds (request_message use_fp tid cred) cred.
Proof.
  intros Hl Hok Hc. assert (Forall attribute_value_wf (request_attrs use_fp cred)) as Hwf.
  { apply Forall_app_2; [|by destruct use_fp; repeat constructor].
    destruct cred as [[name K]|]; [|constructor]. apply Forall_singleton. by apply (Hc name K). }
  split; try done.
  - apply (created_buildable (request_message use_fp tid cred) (request_attrs use_fp cred) 513); try done.
    + split; [|done]. split; [done|]. split; [done|by left].
    + apply Forall_app_2; [|by destruct use_fp; repeat constructor]. by destruct cred as [[name K]|]; repeat constructor.
    + apply Forall_app_2.
      * destruct cred as [[name K]|]; [|constructor]. apply Forall_singleton. intros view [= <-]. by apply (Hc name K).
      * destruct use_fp; [|constructor]. apply Forall_singleton. by intros view [= <-].
    + by destruct cred as [[name K]|], use_fp.
  - by destruct cred as [[name K]|], use_fp.
  - by destruct cred as [[name K]|], use_fp.
  - intros name K E. by apply (Hc name K).
Qed.

(** [do_create] encodes that message, keeps it with the new transaction, and queues it. *)
Lemma do_create_request now tid path cred c data : client_wf c -> m_tid_to_handle c !! tid = None ->
  Z.of_nat (size (m_tmap c)) < 2 ^ 32 ->
  message_build (request_message (use_fingerprint (c_settings c)) tid cred) (integrity_data h H <$> (snd <$> cred)) = Ok data ->
  exists c1 hnd, do_create (S (size (m_tmap c))) now tid (mk_Request path [] [] (auth_of cred)) c = Some (c1, Ok hnd) /\
    client_wf c1 /\ m_effects c1 = m_effects c ++ [SendData hnd hnd] /\
    exists t, m_tmap c1 !! hnd = Some t /\ t_msg_data t = data /\ t_tid t = tid /\ t_maybe_auth t = auth_of cred /\
      t_create_time t = now /\ t_rtx_count t = 0.
Proof.
  intros Hwf Hnew Hsz Hd.
  assert (exists c1 hnd, do_create (S (size (m_tmap c))) now tid (mk_Request path [] [] (auth_of cred)) c = Some (c1, Ok hnd) /\
    m_effects c1 = m_effects c ++ [SendData hnd hnd] /\
    exists t, m_tmap c1 !! hnd = Some t /\ t_msg_data t = data /\ t_tid t = tid /\ t_maybe_auth t = auth_of cred /\
      t_create_time t = now /\ t_rtx_count t = 0) as (c1 & hnd & E & He & Hm).
  { destruct (allocate_handle_total c (cw_next c Hwf) Hsz) as [[c1 hnd] Ea].
    pose proof (allocate_handle_spec _ c c1 hnd (cw_next c Hwf) Ea) as (Hfree & _ & v & _ & ->).
    unfold do_create. cbn [rq_attrs rq_unknown_attrs rq_maybe_auth rq_path].
    set (m := mk_Message _ _ _ _).
    assert (m = request_message (use_fingerprint (c_settings c)) tid cred) as ->
      by (unfold m; by destruct cred as [[name K]|], (use_fingerprint (c_settings c))).
    assert (auth_integrity <$> auth_of cred = integrity_data h H <$> (snd <$> cred)) as -> by by destruct cred.
    rewrite Hd, Ea. cbn [mbind option_bind]. eexists _, hnd. split; [reflexivity|]. cbn. rewrite Hfree.
    split; [done|]. rewrite lookup_insert_eq. by eexists. }
  exists c1, hnd. split; [done|]. split; [by eapply do_create_wf|done].
Qed.

(** The client accepts the encoded answer to a transaction in progress. *)
Lemma response_to_answer server_settings addr port q tid cred rsp later c hnd t : client_wf c ->
  message_buildable rsp -> is_success_response server_settings (UdpEndpoint addr port) q rsp ->
  (exists ka, attribute_set rsp = attribute_set_create ka []) ->
  header q = mk_Header REQUEST BINDING tid -> is_rfc3489 q = false -> address_wf addr -> zlen tid = 12 -> bytes_ok tid ->
  m_tmap c !! hnd = Some t -> t_tid t = tid -> t_maybe_auth t = auth_of cred ->
  exists c' r, response later (message_bytes (header rsp) (attribute_set rsp) (rfc2104_hmac H <$> (snd <$> cred))) None c
      = Some (c', success) /\ client_wf c' /\
    m_effects c' = m_effects c ++ [TransactionOk hnd (UdpEndpoint addr port) r
      (if t_rtx_count t =? 0 then Some (tp_sub later (t_create_time t)) else None)] /\
    h_method (header r) = BINDING.
Proof.
  intros Hwf Hrb Hsp [ka Hka] Eh Er Ha Hl Hok Ht Htid Hauth.
  destruct (build_then_parse h H rsp (snd <$> cred) (cs_parse (c_stat c)) Hrb) as (r & Hpr & Erh & _ & Hrr & Hval).
  assert (header r = mk_Header SUCCESS_RESPONSE BINDING tid) as Ehr by by rewrite Erh, (sr_header _ _ _ _ Hsp), Eh.
  assert (m_tid_to_handle c !! h_transaction_id (header r) = Some hnd) as Hfind.
  { rewrite Ehr. apply (cw_tid c Hwf). by exists t. }
  rewrite (response_accepts later _ c r _ hnd t Hpr Hfind Ht); [|rewrite Hauth|by rewrite Ehr].
  2:{ destruct cred as [[name K]|]; [|done]. intros auth [= <-]. cbn [auth_integrity]. rewrite Hval.
      cbn [fmap option_fmap option_map snd]. by rewrite bool_decide_true. }
  destruct (handle_success_xor later t r (with_stat (fun s => mk_Statistics (stat_inc ps_success (cs_parse (c_stat c))) (cs_counter s)) c)
    (xaddr_from_address addr tid) port) as (c' & E & Hw & He).
  - apply (only_stat_wf c); [by eexists|done].
  - unfold unknown_comprehension_required. by rewrite (rb_unknown _ _ _ Hrr), Hka, (proj2 (attribute_set_create_eq ka [] 0)).
  - transitivity (xor_mapped (attribute_set rsp)); [by eapply get_read_back; [apply _|..]|].
    rewrite (sr_xor _ _ _ _ Hsp), Er, Eh. reflexivity.
  - exists c', r. split; [done|]. split; [done|]. split; [|by rewrite Ehr]. rewrite He, (proj1 (cw_hnd c Hwf hnd t Ht)), Ehr. cbn [h_transaction_id].
    by rewrite xaddr_roundtrip.
Qed.

End Request.

(** ** Lemmas: how often a request was sent *)

Section Sent.
Context `{C : Craftpp} `{O : MapOrder}.

(** No sending is lost. *)
Lemma calls_sent_le given hnd c es c' : client_calls given c es c' -> client_wf c ->
  (sent hnd (m_effects c) <= sent hnd (es ++ m_effects c'))%nat.
Proof.
  intros Hcalls. induction Hcalls as [c|G draws fuel rand g g' now rq c c1 c2 es r E _ IH|now view o c c1 c2 es r _ E _ IH|fuel now c c1 c2 e es E _ IH];
    intros Hwf.
  - done.
  - specialize (IH ltac:(eapply client_step_wf; [exact Hwf|by econstructor])). apply create_do_create in E as (tid & _ & E).
    destruct (do_create_effects _ _ _ _ _ _ _ E) as [Ee|[h Ee]]; rewrite Ee in IH; [done|]. rewrite sent_app in IH. lia.
  - specialize (IH ltac:(eapply client_step_wf; [exact Hwf|by econstructor])).
    by rewrite (proj2 (response_kept hnd _ _ _ _ _ _ E)) in IH.
  - specialize (IH (client_next_wf _ _ _ _ _ Hwf E)). cbn [app]. rewrite sent_cons. revert E. unfold client_next.
    destruct (next_loop fuel now c) as [c3|] eqn:El; [|done]. intros [= E].
    destruct (next_loop_effects now fuel c c3 Hwf El) as [es' Hes].
    enough (sent hnd (m_effects c3) = (sent hnd [e] + sent hnd (m_effects c1))%nat) as Hn by (rewrite Hes, sent_app in Hn; lia).
    revert E. unfold next_effect. destruct (m_effects c3) as [|e3 rest] eqn:E3.
    { destruct (pq_top _); intros [= <- <-]; by rewrite E3. }
    assert (forall h, m_effects (cleanup h (with_effects (fun _ => rest) c3)) = rest) as Hcl
      by (intros h; unfold cleanup; by destruct (_ !! h)).
    intros [= <- ->]. rewrite sent_cons. by destruct e; rewrite ?Hcl.
Qed.

(** The counter of a transaction, from its creation on. *)
Lemma rtx_count_once hnd given c c1 es c2 t1 : client_wf c1 -> m_effects c1 = m_effects c ++ [SendData hnd hnd] ->
  m_tmap c1 !! hnd = Some t1 -> t_rtx_count t1 = 0 -> client_calls given c1 es c2 -> unfinished hnd es ->
  Z.of_nat (sent hnd (es ++ m_effects c2)) <= 2 ^ 32 ->
  exists t2, m_tmap c2 !! hnd = Some t2 /\ t_tid t2 = t_tid t1 /\ t_maybe_auth t2 = t_maybe_auth t1 /\
    t_create_time t2 = t_create_time t1 /\
    (t_rtx_count t2 =? 0) = bool_decide (sent hnd (es ++ m_effects c2) = S (sent hnd (m_effects c))).
Proof.
  intros Hwf He Ht H0 Hcalls Hun Hlt. pose proof (calls_sent_le given hnd c1 es c2 Hcalls Hwf) as Hle.
  destruct (calls_transaction hnd given c1 es c2 Hcalls Hwf Hun ltac:(by eexists) t1 Ht) as (t2 & Ht2 & E1 & E2 & E3 & _ & _ & En);
    [rewrite H0; split; lia|].
  exists t2. split_and!; try done. rewrite He, sent_app, sent_one in En, Hle. cbn [is_send] in En, Hle. rewrite Z.eqb_refl in En, Hle.
  rewrite sent_app in Hlt, Hle |- *. rewrite H0 in En. rewrite wrap_small in En by (unfold fits; lia).
  case_bool_decide; [apply Z.eqb_eq; lia|apply Z.eqb_neq; lia].
Qed.

End Sent.

(** ** Property *)

(** C4. A client learns its own transport address from the server. The client creates a
    Binding request, without credentials or with a registered name of at most 513 bytes and
    its secret of at most 64; the bytes it hands to [SendData], processed by the server as
    coming from the client's address, are answered with a success response which the server's
    caller can encode. The client may then be called in any way, as long as the end of this
    transaction is not handed over and its request was queued at most 2^32 times: when those
    bytes reach it, [response] accepts them and queues [TransactionOk] with the client's own
    address, and with the time since the creation exactly when the request was queued for
    sending only once; [next] returns it as soon as nothing is queued before it, and forgets
    the transaction. (Sendings that an earlier transaction of the same handle left in the
    queue do not count.) *)
Theorem client_learns_address `{C : Craftpp} (CL : CraftppLaws C) `{O : MapOrder} (OL : MapOrderLaws O)
  (h : HashFunc) (H : bytes -> bytes) (HL : HashLaws SHA1_SIZE h H)
  (settings : Settings) (c : ClientUDP) (server_settings : option bool) (creds : list (bytes * bytes)) (srv : Stateless)
  (now : Timepoint) (tid : bytes) (path : Path) (cred : option (bytes * bytes)) (addr : Address) (port : Z)
  (Hset : settings_ok settings) (Hc : client_reachable settings c) (Hsz : Z.of_nat (size (m_tmap c)) < 2 ^ 32)
  (Htid : zlen tid = 12 /\ bytes_ok tid) (Hnew : m_tid_to_handle c !! tid = None)
  (Hcred : forall name K, cred = Some (name, K) ->
     bytes_ok name /\ zlen name <= 513 /\ zlen K <= 64 /\ credential creds name = Some K)
  (Hs : serves h H server_settings creds srv) (Ha : address_wf addr) (Hp : fits 16 port) :
  exists c1 hnd data,
    do_create (S (size (m_tmap c))) now tid (mk_Request path [] [] (auth_of h H cred)) c = Some (c1, Ok hnd) /\
    m_effects c1 = m_effects c ++ [SendData hnd hnd] /\ t_msg_data <$> m_tmap c1 !! hnd = Some data /\
    exists rsp q answer,
      (process srv (UdpEndpoint addr port) data).2 = Respond rsp q (integrity_data h H <$> (snd <$> cred)) /\
      message_build rsp (integrity_data h H <$> (snd <$> cred)) = Ok answer /\
      forall given es c2 later, client_calls given c1 es c2 -> unfinished hnd es ->
        Z.of_nat (sent hnd (es ++ m_effects c2)) <= 2 ^ 32 ->
        exists c3 r, let ok := TransactionOk hnd (UdpEndpoint addr port) r
            (if bool_decide (sent hnd (es ++ m_effects c2) = S (sent hnd (m_effects c))) then Some (tp_sub later now) else None) in
          response later answer None c2 = Some (c3, success) /\ m_effects c3 = m_effects c2 ++ [ok] /\
          (m_effects c2 = [] -> forall fuel, (loop_measure later c3 <= fuel)%nat ->
             exists c4, client_next fuel later c3 = Some (c4, ok) /\ m_tmap c4 !! hnd = None).
Proof.
  pose proof (client_reachable_wf settings c Hset Hc) as Hwf. destruct Htid as [Hl Hok].
  pose proof (request_message_client creds (use_fingerprint (c_settings c)) tid cred Hl Hok
    ltac:(intros name K E; by destruct (Hcred name K E) as (? & ? & _ & ?))) as Hq.
  set (q := request_message (use_fingerprint (c_settings c)) tid cred) in *.
  pose proof (message_layout h H q (snd <$> cred) (cq_buildable _ _ _ Hq)) as Hdata.
  destruct (do_create_request h H now tid path cred c _ Hwf Hnew Hsz Hdata) as (c1 & hnd & Hcr & Hw1 & He1 & t1 & Ht1 & Hm1 & Htid1 & Hauth1 & Hnow1 & H01).
  destruct (process_client_request h H server_settings creds srv (UdpEndpoint addr port) q cred Hs Hq)
    as (rsp & q' & Hr & Eh & Er & Hsp & Hsetr).
  assert (message_buildable rsp) as Hrb.
  { pose proof (mb_header _ (cq_buildable _ _ _ Hq)) as Hh.
    apply (success_response_buildable server_settings (UdpEndpoint addr port) q'); try done; by rewrite Eh. }
  eexists c1, hnd, _. split; [exact Hcr|]. split; [exact He1|]. split; [rewrite Ht1; cbn; by rewrite Hm1|].
  eexists rsp, q', _. split; [exact Hr|]. split; [by apply message_layout|].
  intros given es c2 later Hcalls Hun Hlt. pose proof (client_steps_wf c1 c2 (client_calls_steps _ _ _ _ Hcalls) Hw1) as Hw2.
  destruct (rtx_count_once hnd given c c1 es c2 t1 Hw1 He1 Ht1 H01 Hcalls Hun Hlt) as (t2 & Ht2 & Htid2 & Hauth2 & Hnow2 & Hcount).
  destruct (response_to_answer h H server_settings addr port q' tid cred rsp later c2 hnd t2) as (c3 & r & E3 & Hw3 & He3 & _);
    try done; try congruence; [by destruct Hsetr as [fp ->]; eexists|].
  rewrite Hcount, Hnow2, Hnow1 in He3. exists c3, r. cbv zeta. split; [done|]. split; [done|]. intros Hnil fuel Hfuel. rewrite Hnil in He3.
  destruct (client_next_front later fuel c3 _ [] Hw3 He3 Hfuel) as (c4 & E4 & Hok4). exists c4. by rewrite Hnil.
Qed.

(** *** Witness *)

Definition sample_tid12 : bytes := [1; 2; 3; 4; 5; 6; 7; 8; 9; 10; 11; 12].
Definition sample_cred : option (bytes * bytes) := Some ([97], [1; 2]).

(** A new client and the server that knows its secret; the answer arrives after 40 ms. *)
Lemma client_learns_address_witness :
  exists c1 data answer rsp q c3 r,
    do_create (H := reference) 1 epoch sample_tid12 (mk_Request (path_to 1) [] [] (auth_of sample_hash sample_H sample_cred))
      (client_create settings_default) = Some (c1, Ok 0) /\
    (process (H := reference) sample_server sample_endpoint data).2 = Respond rsp q (Some (integrity_data sample_hash sample_H [1; 2])) /\
    response (H := reference) (advance epoch 40000) answer None c1 = Some (c3, success) /\
    m_effects c3 = [SendData 0 0; TransactionOk 0 sample_endpoint r (Some 40000)].
Proof.
  destruct (client_learns_address reference_laws key_order_laws sample_hash sample_H _ settings_default
    (client_create settings_default) None sample_creds sample_server epoch sample_tid12 (path_to 1) sample_cred
    (AddressV4 [192; 0; 2; 1]) 32853 settings_default_ok) as (c1 & hnd & data & E & He & Hd & rsp & q & answer & Hp & _ & Hr).
  - apply rtc_refl.
  - reflexivity.
  - split; [reflexivity|]. repeat constructor; unfold is_byte; lia.
  - reflexivity.
  - intros name K [= <- <-]. split; [repeat constructor; unfold is_byte; lia|]. split; [done|]. split; [done|reflexivity].
  - apply server_of_serves.
  - split; [reflexivity|]. repeat constructor; unfold is_byte; lia.
  - split; [lia|reflexivity].
  - assert (hnd = 0) as ->.
    { apply (f_equal (fmap snd)) in E. vm_compute in E. by injection E. }
    destruct (Hr (fun _ _ => True) [] c1 (advance epoch 40000)) as (c3 & r & E5 & E6 & _);
      [constructor|constructor|rewrite He; vm_compute; discriminate|].
    rewrite He in E6. eexists c1, data, answer, rsp, q, c3, r. split; [exact E|]. split; [exact Hp|]. split; [exact E5|exact E6].
Defined.
