(* ===== verification/StunClientRun.v ===== *)
(** * Whole runs of the STUN client

    The caller of [ClientUDP] calls [next] in a loop: it sends the data, reports the ends of
    transactions, and sleeps as long as it is told, or longer. This file models that loop,
    [run], and shows what it observes of a transaction: without an answer, of one that is
    answered more than once, and of a server that asks to wait. *)

From S2P Require Import Prelude Errors Craftpp Util Clock Net Crypto StunBase StunCrc StunAttr StunAttrSet StunMessage StunServer StunRto StunRtx StunClient StunClientCalls Binding.

(** ** The caller *)

(** The data that a [SendData] returned by the client [c] refers to; [None] when it dangles. *)
Definition effect_data (c : ClientUDP) (e : Effect) : option bytes :=
  match e with SendData _ message_view => t_msg_data <$> m_tmap c !! message_view | _ => None end.
Definition readable (c : ClientUDP) (e : Effect) : bool :=
  match e with SendData _ hnd => bool_decide (is_Some (m_tmap c !! hnd)) | Sleep d => 0 <? d | _ => true end.

(** What the caller sees: the effects, with the time and the data of each, until the client
    is idle or asks to sleep once more than [sleeps] has elements. Asked to sleep for [d],
    the caller sleeps for [f d], where [f] is the next of [sleeps]. [n] bounds the calls of
    [next]. There is no result when the caller would send data that dangles, or is asked to
    sleep into the past. *)
Abbreviation Trace := (list (Timepoint * (Effect * option bytes))).
Fixpoint run (n : nat) (sleeps : list (Duration -> Duration)) (now : Timepoint) (c : ClientUDP) : option (Trace * ClientUDP) :=
  match n with
  | O => None
  | S n' =>
      '(c, e) ← client_next (loop_measure now c) now c;
      if readable c e then
        match e, sleeps with
        | Idle, _ | Sleep _, [] => Some ([], c)
        | Sleep d, f :: sleeps' => run n' sleeps' (advance now (f d)) c
        | _, _ => let data := effect_data c e in '(es, c) ← run n' sleeps now c; Some ((now, (e, data)) :: es, c)
        end
      else None
  end.

(** Times of sleep that suffice for the durations [ds]. *)
Abbreviation long_enough := (Forall2 (fun (d : Duration) (f : Duration -> Duration) => d <= f d < d + 2 ^ 63)).

(** ** The specification of an unanswered request *)

(** The intervals between the requests of a transaction, and after the last one; the interval
    after a request that is the only one is RTO. *)
Definition interval (RTO : Duration) (Rc : nat) (Rm : Z) (k : nat) : Duration :=
  match k with
  | O => RTO
  | S _ => if decide (S k = Rc) then RTO * Rm else RTO * 2 ^ Z.of_nat k
  end.
Definition intervals (RTO : Duration) (Rc : nat) (Rm : Z) : list Duration := map (interval RTO Rc Rm) (seq 0 Rc).

(** The times at which a caller that starts at [t] and sleeps for [ds] wakes up. *)
Fixpoint wakeups (t : Timepoint) (ds : list Duration) : list Timepoint :=
  match ds with [] => [] | d :: ds' => advance t d :: wakeups (advance t d) ds' end.

(** ** Lemmas: time *)

Lemma is_after_advance t a b : is_after (advance t a) (advance t b) = (half_range <? (b - a) mod 2 ^ 64).
Proof.
  unfold is_after. rewrite !advance_value. f_equal. unfold wrap. rewrite <- Zminus_mod. f_equal. lia.
Qed.

Lemma is_after_ahead t d : 0 < d < 2 ^ 63 -> is_after (advance t d) t = true.
Proof.
  intros Hd. unfold is_after. rewrite advance_value. unfold wrap. rewrite Zminus_mod_idemp_r.
  replace (tp_value t - (tp_value t + d)) with (- d) by lia. rewrite <- (Z_mod_plus_full _ 1), Z.mod_small by lia.
  rewrite half_range_eq. apply Z.ltb_lt. lia.
Qed.

Lemma is_after_late t a b : a <= b < a + 2 ^ 63 -> is_after (advance t a) (advance t b) = false.
Proof. intros Hab. rewrite is_after_advance, Z.mod_small by lia. rewrite half_range_eq. apply Z.ltb_ge. lia. Qed.

Lemma is_after_early t a b : b < a < b + 2 ^ 63 -> is_after (advance t a) (advance t b) = true.
Proof.
  intros Hab. rewrite is_after_advance, <- (Z_mod_plus_full _ 1), Z.mod_small by lia.
  rewrite half_range_eq. apply Z.ltb_lt. lia.
Qed.

Lemma tp_sub_ahead t d : - 2 ^ 63 <= d < 2 ^ 63 -> tp_sub (advance t d) t = d.
Proof.
  intros Hd. rewrite tp_sub_eq, advance_value. rewrite <- (to_signed_64_small d) at 2 by done.
  apply to_signed_mod_eq. unfold wrap. rewrite Zminus_mod_idemp_l. f_equal. lia.
Qed.

Lemma interval_eq RTO Rc Rm k : (2 <= Rc)%nat ->
  interval RTO Rc Rm k = if decide (S k = Rc) then RTO * Rm else RTO * 2 ^ Z.of_nat k.
Proof. intros H2. destruct k; [|done]. rewrite decide_False by lia. cbn. lia. Qed.

(** Without lateness the caller wakes up on the schedule of RFC 8489. *)
Lemma wakeups_rfc8489 t RTO Rc Rm : (2 <= Rc)%nat ->
  wakeups t (intervals RTO Rc Rm) = map (advance t) (rfc8489_schedule RTO Rc Rm).
Proof.
  intros H2. unfold intervals.
  assert (forall m k, (k + S m = Rc)%nat ->
    wakeups (advance t (RTO * (2 ^ Z.of_nat k - 1))) (map (interval RTO Rc Rm) (seq k (S m))) =
    map (advance t) (map (fun k => RTO * (2 ^ Z.of_nat k - 1)) (seq (S k) m) ++
      [RTO * (2 ^ Z.of_nat (Rc - 1) - 1) + RTO * Rm])) as Hgo.
  { induction m as [|m IH]; intros k Hk.
    - cbn [seq map wakeups app]. rewrite interval_eq, decide_True by lia. rewrite advance_advance.
      by replace (Rc - 1)%nat with k by lia.
    - change (seq k (S (S m))) with (k :: seq (S k) (S m)). change (seq (S k) (S m)) with (S k :: seq (S (S k)) m) at 2.
      cbn [map app wakeups]. rewrite interval_eq, decide_False by lia. rewrite advance_advance.
      replace (RTO * (2 ^ Z.of_nat k - 1) + RTO * 2 ^ Z.of_nat k) with (RTO * (2 ^ Z.of_nat (S k) - 1))
        by (rewrite Nat2Z.inj_succ, Z.pow_succ_r by lia; lia).
      f_equal. apply IH. lia. }
  destruct Rc as [|m]; [lia|]. specialize (Hgo m 0%nat eq_refl). unfold rfc8489_schedule.
  rewrite Nat.sub_succ, Nat.sub_0_r in *. rewrite <- Hgo. cbn [Z.of_nat]. rewrite Z.sub_diag, Z.mul_0_r.
  generalize (S m) as k. intros k. destruct k as [|k]; [done|]. cbn [seq map wakeups].
  by rewrite advance_advance.
Qed.

(** ** Lemmas: the settings *)

Section Constant.
Context `{C : Craftpp} `{O : MapOrder}.

Lemma do_create_settings fuel now tid rq c c' r : do_create fuel now tid rq c = Some (c', r) -> c_settings c' = c_settings c.
Proof.
  unfold do_create. destruct (message_build _ _) as [data|e]; [|by intros [= <- _]].
  destruct (allocate_handle fuel c) as [[c1 h]|] eqn:Ea; [|done]. cbn [mbind option_bind].
  assert (c_settings c1 = c_settings c) as Es.
  { clear -Ea. revert c Ea. induction fuel as [|fuel IH]; intros c; cbn; [done|].
    destruct (m_tmap c !! m_next_handle_value c); [|by intros [= <- _]]. intros Ha. by rewrite (IH _ Ha). }
  by destruct (ra_init now _) as [algo [tp|]]; intros [= <- _].
Qed.

Lemma handle_success_settings now t msg c c' r : handle_success_response now t msg c = Some (c', r) -> c_settings c' = c_settings c.
Proof.
  unfold handle_success_response. destruct (negb _); [by intros [= <- _]|].
  destruct (if t_rtx_count t =? 0 then _ else _) as [rtt [calc|]]; [|done]. cbn [mbind option_bind].
  destruct (xor_mapped _) as [[]|]; [|destruct (mapped _) as [[]|]]; by intros [= <- _].
Qed.

Lemma handle_error_settings now hnd t msg c : c_settings (handle_error_response now hnd t msg c).1 = c_settings c.
Proof.
  unfold handle_error_response. cbv beta zeta. destruct (negb _); [done|]. destruct (error_code_attr _) as [[code reason]|]; [|done].
  destruct (is_alternate_server msg); [by destruct (alternate_server _) as [[]|]|].
  destruct (code / 100 =? 3); [done|]. destruct (code / 100 =? 4); [by destruct (if _ =? _ then _ else _)|].
  destruct (code / 100 =? 5); [|done]. by destruct (process_5xx now (t_rtx_algo t)) as [algo []].
Qed.

Lemma client_next_settings fuel now c c' e : client_next fuel now c = Some (c', e) -> c_settings c' = c_settings c.
Proof.
  assert (forall c c', next_step now c = Some c' -> c_settings c' = c_settings c) as Hst.
  { intros c0 c1. unfold next_step. destruct (pq_top _) as [top|]; [|done]. destruct (is_after _ _); [done|].
    destruct (m_tmap _ !! _) as [t|]; [|by intros [= <-]]. by destruct (ra_next now _) as [algo [next|]]; intros [= <-]. }
  assert (forall fuel c c', next_loop fuel now c = Some c' -> c_settings c' = c_settings c) as Hl.
  { induction fuel0 as [|fuel0 IH]; intros c0 c1; cbn [next_loop];
      (destruct (next_step now c0) as [c2|] eqn:E1; [|by intros [= <-]]); [done|]. intros E2. by rewrite (IH _ _ E2), (Hst _ _ E1). }
  unfold client_next. destruct (next_loop fuel now c) as [c1|] eqn:El; [|done]. cbn. intros [= E]. rewrite <- (Hl _ _ _ El).
  assert (forall h c0, c_settings (cleanup h c0) = c_settings c0) as Hc by (intros h c0; unfold cleanup; by destruct (m_tmap c0 !! h)).
  apply (f_equal fst) in E. cbn in E. subst c'. unfold next_effect.
  destruct (m_effects c1) as [|e1 rest]; [by destruct (pq_top _)|]. by destruct e1; cbn [fst]; rewrite ?Hc.
Qed.

(** The settings of a client never change. *)
Lemma client_step_settings c c' : client_step c c' -> c_settings c' = c_settings c.
Proof.
  intros [G draws fuel rand g g' now rq c0 c1 r E|now view o c0 c1 r E|fuel now c0 c1 e E].
  - apply create_do_create in E as (tid & _ & E). by eapply do_create_settings.
  - destruct (response_cases now view o c0) as [(c2 & r2 & E2 & [st ->])|(msg & hnd & t & c2 & [st ->] & _ & _ & _ & _ & [[_ E2]|[_ E2]])];
      rewrite E in E2.
    + by injection E2 as -> _.
    + by rewrite (handle_success_settings _ _ _ _ _ _ (eq_sym E2)).
    + injection E2 as E2. pose proof (handle_error_settings now hnd t msg (with_stat (fun _ => st) c0)) as H1. by rewrite <- E2 in H1.
  - by eapply client_next_settings.
Qed.

Lemma client_reachable_settings s c : client_reachable s c -> c_settings c = s.
Proof.
  intros Hr. change s with (c_settings (client_create s)). unfold client_reachable in Hr. revert Hr. generalize (client_create s) as c0.
  intros c0 Hr. induction Hr as [|c1 c2 c3 Hs _ IH]; [done|]. by rewrite IH, (client_step_settings _ _ Hs).
Qed.

End Constant.

(** ** Lemmas: a client with one deadline *)

(** Nothing is queued, and the timeline holds the deadline of one transaction. *)
Record waiting (c : ClientUDP) (h : Handle) (t : Transaction) (tp : Timepoint) : Prop := {
  wt_effects : m_effects c = [];
  wt_timeline : m_tid_timeline c = [(tp, h)];
  wt_found : m_tmap c !! h = Some t
}.

Lemma next_sleeps n now c h t tp : waiting c h t tp -> is_after tp now = true ->
  client_next n now c = Some (c, Sleep (tp_sub tp now)).
Proof.
  intros [He Htl _] Ha. assert (next_step now c = None) as E.
  { unfold next_step. rewrite Htl. cbn [pq_top fst snd]. by rewrite Ha. }
  unfold client_next, next_effect. destruct n; cbn [next_loop]; rewrite E; cbn; by rewrite He, Htl.
Qed.

Lemma waiting_readable c h t tp : waiting c h t tp -> readable c (SendData h h) = true.
Proof. intros [_ _ Ht]. apply bool_decide_true. by eexists. Qed.

Lemma next_idle n now c : m_effects c = [] -> m_tid_timeline c = [] -> client_next n now c = Some (c, Idle).
Proof.
  intros He Htl. assert (next_step now c = None) as E by (unfold next_step; by rewrite Htl).
  unfold client_next, next_effect. destruct n; cbn [next_loop]; rewrite E; cbn; by rewrite He, Htl.
Qed.

(** The data of a new request is handed over first. *)
Lemma next_sends n now c h t tp : m_effects c = [SendData h h] -> m_tid_timeline c = [(tp, h)] ->
  m_tmap c !! h = Some t -> is_after tp now = true ->
  client_next n now c = Some (with_effects (fun _ => []) c, SendData h h) /\ waiting (with_effects (fun _ => []) c) h t tp.
Proof.
  intros He Htl Ht Ha. assert (next_step now c = None) as E.
  { unfold next_step. rewrite Htl. cbn [pq_top fst snd]. by rewrite Ha. }
  split; [|by split]. unfold client_next, next_effect. destruct n; cbn [next_loop]; rewrite E; cbn; by rewrite He.
Qed.

Lemma loop_measure_due now c h t tp : waiting c h t tp -> is_after tp now = false ->
  exists n, loop_measure now c = S n.
Proof. intros [_ Htl _] Hd. unfold loop_measure. rewrite Htl. cbn. rewrite Hd. by eexists. Qed.

(** At the deadline, the machine of the transaction gives the next one. *)
Lemma next_repeats n now c h t tp a next : waiting c h t tp -> is_after tp now = false ->
  ra_next now (t_rtx_algo t) = (a, Some next) -> is_after next now = true ->
  exists c', client_next (S n) now c = Some (c', SendData h h) /\ waiting c' h (t_inc_rtx_count (t_with_algo a t)) next /\
    c_settings c' = c_settings c /\ m_tid_to_handle c' = m_tid_to_handle c /\
    m_tmap c' = <[h := t_inc_rtx_count (t_with_algo a t)]> (m_tmap c).
Proof.
  intros [He Htl Ht] Hd Ea Hn.
  set (c1 := emplace_effect (SendData h h) (with_timeline (fun l => (next, h) :: l)
    (with_tmap (<[h := t_inc_rtx_count (t_with_algo a t)]>) (inc cs_retransmits (with_timeline pq_pop c))))).
  assert (next_step now c = Some c1) as E1.
  { unfold next_step. rewrite Htl. cbn [pq_top fst snd]. rewrite Hd.
    change (m_tmap (with_timeline pq_pop c)) with (m_tmap c). by rewrite Ht, Ea. }
  assert (m_tid_timeline c1 = [(next, h)]) as Etl.
  { cbn. rewrite Htl. unfold pq_pop. cbn [pq_top remove_one]. by rewrite decide_True. }
  assert (next_step now c1 = None) as E2 by (unfold next_step; rewrite Etl; cbn [pq_top fst snd]; by rewrite Hn).
  exists (with_effects (fun _ => []) c1). split.
  - unfold client_next. cbn [next_loop]. rewrite E1. destruct n; cbn [next_loop]; rewrite E2; cbn [fmap option_fmap option_map];
      unfold next_effect; change (m_effects c1) with (m_effects c ++ [SendData h h]); by rewrite He.
  - split; [|done]. split; [done|exact Etl|]. cbn. by rewrite lookup_insert_eq.
Qed.

(** When no request is left, the transaction fails and is forgotten. *)
Lemma next_times_out n now c h t tp a : waiting c h t tp -> is_after tp now = false ->
  ra_next now (t_rtx_algo t) = (a, None) ->
  exists c', client_next (S n) now c = Some (c', TransactionFailed h Timeout) /\ m_effects c' = [] /\
    m_tid_timeline c' = [] /\ m_tmap c' = delete h (m_tmap c) /\ m_tid_to_handle c' = delete (t_tid t) (m_tid_to_handle c).
Proof.
  intros [He Htl Ht] Hd Ea.
  set (c1 := emplace_effect (TransactionFailed h Timeout) (with_tmap (<[h := t_with_algo a t]>) (with_timeline pq_pop c))).
  assert (next_step now c = Some c1) as E1.
  { unfold next_step. rewrite Htl. cbn [pq_top fst snd]. rewrite Hd.
    change (m_tmap (with_timeline pq_pop c)) with (m_tmap c). by rewrite Ht, Ea. }
  assert (m_tid_timeline c1 = []) as Etl.
  { cbn. rewrite Htl. unfold pq_pop. cbn [pq_top remove_one]. by rewrite decide_True. }
  assert (next_step now c1 = None) as E2 by (unfold next_step; by rewrite Etl).
  assert (m_tmap c1 !! h = Some (t_with_algo a t)) as Et by (cbn; by rewrite lookup_insert_eq).
  exists (cleanup h (with_effects (fun _ => []) c1)). split.
  - unfold client_next. cbn [next_loop]. rewrite E1. destruct n; cbn [next_loop]; rewrite E2; cbn [fmap option_fmap option_map];
      unfold next_effect; change (m_effects c1) with (m_effects c ++ [TransactionFailed h Timeout]); by rewrite He.
  - unfold cleanup. change (m_tmap (with_effects (fun _ => []) c1)) with (m_tmap c1). rewrite Et.
    split; [done|]. split; [exact Etl|]. split; [|done]. cbn. by rewrite delete_insert_eq.
Qed.

(** *** The retransmission machine without an answer *)

(** After [k] repetitions, with the next deadline at [tp]. *)
Definition unanswered_algo (RTO : Duration) (s : RetransmitDefault) (Rc k : nat) (tp : Timepoint) : RetransmitAlgo :=
  mk_RetransmitAlgo RTO s (Some tp) (interval RTO Rc (retransmission_multiplier s) k) (Z.of_nat k) 0.

Lemma ra_next_late now d a : m_maybe_next a = Some d -> is_before now d = false -> ra_next now a =
  let '(maybe_next, timeout) := calc_next now a in
  match maybe_next with
  | Some _ => (mk_RetransmitAlgo (m_initial_rto a) (m_settings a) maybe_next timeout (u32 (m_rtx_count a + 1)) (m_5xx_count a), maybe_next)
  | None => (mk_RetransmitAlgo (m_initial_rto a) (m_settings a) None (m_last_timeout a) (m_rtx_count a) (m_5xx_count a), None)
  end.
Proof.
  intros E Hb. unfold ra_next. rewrite E. cbn [fmap option_fmap option_map default from_option]. rewrite Hb. cbn [negb].
  by destruct (calc_next now a) as [[n|] t].
Qed.

Lemma unanswered_next RTO s Rc k tp now : max_rto s = None -> request_count s = Z.of_nat Rc -> (1 <= Rc)%nat ->
  Z.of_nat Rc < 2 ^ 32 -> (k < Rc)%nat -> is_before now tp = false ->
  ra_next now (unanswered_algo RTO s Rc k tp) =
    if decide (S k = Rc)
    then (mk_RetransmitAlgo RTO s None (interval RTO Rc (retransmission_multiplier s) k) (Z.of_nat k) 0, None)
    else let next := advance now (interval RTO Rc (retransmission_multiplier s) (S k)) in
         (unanswered_algo RTO s Rc (S k) next, Some next).
Proof.
  intros Hm Hrc H2 Hlt Hk Hb. rewrite (ra_next_late now tp) by done. unfold unanswered_algo at 1.
  rewrite calc_next_plain by (done || lia). rewrite Hrc. cbn [m_initial_rto m_settings m_last_timeout m_rtx_count m_5xx_count unanswered_algo].
  destruct (decide (S k = Rc)) as [<-|Hne].
  - by rewrite (proj2 (Z.leb_le _ _)) by lia.
  - rewrite (proj2 (Z.leb_gt _ _)), (wrap_small 32) by (unfold fits; lia). unfold unanswered_algo.
    replace (Z.of_nat k + 1) with (Z.of_nat (S k)) by lia. cbn [interval].
    destruct (Z.eqb_spec (Z.of_nat k + 2) (Z.of_nat Rc)) as [E|E].
    + by rewrite decide_True by lia.
    + rewrite decide_False by lia. assert (interval RTO Rc (retransmission_multiplier s) k = RTO * 2 ^ Z.of_nat k) as ->
        by (destruct k; [cbn; lia|cbn [interval]; by rewrite decide_False]).
      rewrite (Nat2Z.inj_succ k), Z.pow_succ_r by lia.
      by replace (RTO * (2 * 2 ^ Z.of_nat k)) with (RTO * 2 ^ Z.of_nat k * 2) by lia.
Qed.

(** *** The loop *)

Lemma run_sleep n sleeps f now c c' d : client_next (loop_measure now c) now c = Some (c', Sleep d) -> 0 < d ->
  run (S n) (f :: sleeps) now c = run n sleeps (advance now (f d)) c'.
Proof. intros E Hd. cbn [run]. rewrite E. cbn [mbind option_bind readable]. by rewrite (proj2 (Z.ltb_lt _ _)). Qed.

Lemma run_effect n sleeps now c c' e : client_next (loop_measure now c) now c = Some (c', e) -> queued e -> readable c' e = true ->
  run (S n) sleeps now c = '(es, c2) ← run n sleeps now c'; Some ((now, (e, effect_data c' e)) :: es, c2).
Proof. intros E Hq Hr. cbn [run]. rewrite E. cbn [mbind option_bind]. rewrite Hr. by destruct e. Qed.

Lemma run_idle n sleeps now c : m_effects c = [] -> m_tid_timeline c = [] -> run (S n) sleeps now c = Some ([], c).
Proof. intros He Htl. cbn [run]. by rewrite next_idle. Qed.

(** What is left when the transaction is forgotten. *)
Definition forgotten (h : Handle) (tid : bytes) (c c' : ClientUDP) : Prop :=
  m_effects c' = [] /\ m_tid_timeline c' = [] /\ m_tmap c' = delete h (m_tmap c) /\
  m_tid_to_handle c' = delete tid (m_tid_to_handle c).

(** What the caller sees from the [k]-th wait on; [ds] are the times it sleeps. *)
Definition unanswered_trace (h : Handle) (data : bytes) (now : Timepoint) (ds : list Duration) : Trace :=
  zip (wakeups now ds) (replicate (length ds - 1) (SendData h h, Some data) ++ [(TransactionFailed h Timeout, None)]).

Definition slept (ds : list Duration) (sleeps : list (Duration -> Duration)) : list Duration :=
  zip_with (fun d f => f d) ds sleeps.

Lemma run_unanswered RTO s Rc h : max_rto s = None -> request_count s = Z.of_nat Rc -> (1 <= Rc)%nat ->
  Z.of_nat Rc < 2 ^ 32 -> (forall k, (k < Rc)%nat -> 0 < interval RTO Rc (retransmission_multiplier s) k < 2 ^ 63) ->
  forall m k n c t now sleeps, (k + S m = Rc)%nat -> (2 * S m < n)%nat ->
    long_enough (map (interval RTO Rc (retransmission_multiplier s)) (seq k (S m))) sleeps ->
    waiting c h t (advance now (interval RTO Rc (retransmission_multiplier s) k)) ->
    t_rtx_algo t = unanswered_algo RTO s Rc k (advance now (interval RTO Rc (retransmission_multiplier s) k)) ->
    exists c', run n sleeps now c =
        Some (unanswered_trace h (t_msg_data t) now (slept (map (interval RTO Rc (retransmission_multiplier s)) (seq k (S m))) sleeps), c') /\
      forgotten h (t_tid t) c c'.
Proof.
  intros Hm Hrc H2 Hlt Hiv. set (iv := interval RTO Rc (retransmission_multiplier s)) in *.
  induction m as [|m IH]; intros k n c t now sleeps Hk Hn Hlong Hw Halgo.
  all: pose proof (Hiv k ltac:(lia)) as Hd.
  all: destruct n as [|[|n]]; try lia; apply Forall2_cons_inv_l in Hlong as (f & sleeps' & Hf & Hlong & ->).
  all: pose proof (next_sleeps (loop_measure now c) now c h t _ Hw (is_after_ahead _ _ Hd)) as Hs; rewrite tp_sub_ahead in Hs by lia.
  all: rewrite (run_sleep _ _ _ _ _ _ _ Hs) by lia; set (now' := advance now (f (iv k))).
  all: assert (is_after (advance now (iv k)) now' = false) as Hdue by (apply is_after_late; lia).
  all: pose proof (unanswered_next RTO s Rc k (advance now (iv k)) now' Hm Hrc H2 Hlt ltac:(lia) Hdue) as Hra.
  all: rewrite <- Halgo in Hra; destruct (loop_measure_due now' c h t _ Hw Hdue) as [fm Efm].
  - apply Forall2_nil_inv_l in Hlong as ->. rewrite decide_True in Hra by lia.
    destruct (next_times_out fm now' c h t _ _ Hw Hdue Hra) as (c' & En & Hf'). rewrite <- Efm in En.
    rewrite (run_effect _ _ _ _ _ _ En) by done. destruct Hf' as (He & Htl & Hf'). destruct n as [|n]; [lia|].
    rewrite run_idle by done. by exists c'.
  - rewrite decide_False in Hra by lia. cbv zeta in Hra. change (interval RTO Rc _ (S k)) with (iv (S k)) in Hra.
    pose proof (Hiv (S k) ltac:(lia)) as Hd'.
    destruct (next_repeats fm now' c h t _ _ _ Hw Hdue Hra (is_after_ahead _ _ Hd')) as (c1 & En & Hw1 & _ & Etid & Etm).
    rewrite <- Efm in En. rewrite (run_effect _ _ _ _ _ _ En) by first [done|by eapply waiting_readable].
    destruct (IH (S k) n c1 _ now' sleeps' ltac:(lia) ltac:(lia) Hlong Hw1 eq_refl) as (c' & Er & Hf').
    rewrite Er. cbn [mbind option_bind]. exists c'. split.
    + do 2 f_equal. cbn [effect_data]. rewrite (wt_found _ _ _ _ Hw1). cbn [fmap option_fmap option_map t_msg_data t_inc_rtx_count t_with_algo].
      apply Forall2_length in Hlong. change (length (map iv (seq (S k) (S m))) = length sleeps') in Hlong.
      rewrite length_map, length_seq in Hlong.
      unfold unanswered_trace, slept. rewrite !length_zip_with, !length_map, !length_seq, <- Hlong.
      change (seq k (S (S m))) with (k :: seq (S k) (S m)). cbn [map zip_with wakeups length]. rewrite <- Hlong.
      replace (S (S m) `min` S (S m) - 1)%nat with (S m) by lia. replace (S m `min` S m - 1)%nat with m by lia. reflexivity.
    + destruct Hf' as (He & Htl & Ef1 & Ef2). split; [done|]. split; [done|]. rewrite Ef1, Ef2, Etm, Etid.
      split; [by rewrite delete_insert_eq|done].
Qed.

Lemma slept_exactly (ds : list Duration) : forall k, length ds = k -> slept ds (replicate k id) = ds.
Proof. induction ds as [|d ds IH]; intros [|k] Hk; try done. unfold slept in *. cbn. rewrite IH; [done|]. by injection Hk. Qed.

(** *** A new transaction *)

(** What [do_create] leaves of a client that had nothing to do. *)
Lemma do_create_alone `{Craftpp} `{MapOrder} fuel now tid rq c c1 h : client_wf c -> m_effects c = [] -> m_tid_timeline c = [] ->
  do_create fuel now tid rq c = Some (c1, Ok h) ->
  let RTO := rto (m_rto_calc c) (rq_path rq) in
  m_tmap c = ∅ /\ m_tid_to_handle c = ∅ /\ m_effects c1 = [SendData h h] /\ m_tid_timeline c1 = [(advance now RTO, h)] /\
  exists t, m_tmap c1 = {[ h := t ]} /\ m_tid_to_handle c1 = {[ tid := h ]} /\ t_tid t = tid /\
    t_rtx_algo t = mk_RetransmitAlgo RTO (retransmit (c_settings c)) (Some (advance now RTO)) RTO 0 0.
Proof.
  intros Hwf He Htl Hcr. cbv zeta.
  assert (m_tmap c = ∅) as Em.
  { apply map_empty. intros k. destruct (m_tmap c !! k) eqn:Ek; [|done].
    destruct (cw_progress c Hwf k ltac:(by eexists)) as [[tp Hin]|(e & Hin & _)];
      [rewrite Htl in Hin|rewrite He in Hin]; by apply elem_of_nil in Hin. }
  assert (m_tid_to_handle c = ∅) as Et.
  { apply map_empty. intros x. destruct (m_tid_to_handle c !! x) as [k|] eqn:Ek; [|done].
    apply (cw_tid c Hwf) in Ek as (t & Ek & _). by rewrite Em in Ek. }
  revert Hcr. unfold do_create. destruct (message_build _ _) as [data|e]; [|by intros [= _ ?]].
  destruct (allocate_handle fuel c) as [[c0 handle]|] eqn:Ea; [|done]. cbn [mbind option_bind].
  apply allocate_handle_spec in Ea as (_ & _ & v & _ & ->); [|apply Hwf].
  unfold ra_init, ra_create, allocate_rtx_algo. cbn [m_last_timeout m_initial_rto m_settings m_rtx_count m_5xx_count].
  intros [= <- ->]. cbn. rewrite Em, Et, He, Htl, !lookup_empty.
  split; [done|]. split; [done|]. split; [done|]. split; [done|]. eexists. split; [reflexivity|]. by split.
Qed.

(** ** Lemmas: answers *)

(** The message is a success response to the transaction, signed if it has to be. *)
Record answers `{Craftpp} (t : Transaction) (view : bytes) (msg : Message) : Prop := {
  an_class : h_cls (header msg) = SUCCESS_RESPONSE;
  an_tid : h_transaction_id (header msg) = t_tid t;
  an_auth auth : t_maybe_auth t = Some auth -> message_is_valid msg view (auth_integrity auth) = Ok (Some true)
}.

Section Answers.
Context `{C : Craftpp} `{O : MapOrder}.

(** Each copy of an answer that finds the transaction queues an end of it. *)
Lemma response_answers now view msg c h t : client_wf c -> m_tmap c !! h = Some t -> answers t view msg ->
  exists c' e, response now view (Some msg) c = Some (c', success) /\ client_wf c' /\ m_effects c' = m_effects c ++ [e] /\
    m_tmap c' = m_tmap c /\ terminal h e.
Proof.
  intros Hwf Ht [Hc Htid Ha]. destruct (handle_success_spec now t msg c Hwf) as (c' & e & E & Hw & He & Em & Hte).
  rewrite (proj1 (cw_hnd c Hwf h t Ht)) in Hte. exists c', e. split; [|done]. unfold response, find_transaction.
  assert (m_tid_to_handle c !! h_transaction_id (header msg) = Some h) as -> by (apply (cw_tid c Hwf); by exists t).
  rewrite Ht. cbn [combine2_se]. rewrite Ht.
  assert (check_response_auth t msg view c = (c, success)) as ->.
  { unfold check_response_auth. destruct (t_maybe_auth t) as [auth|]; [|done]. by rewrite (Ha auth eq_refl). }
  unfold success. by rewrite Ht, bool_decide_true.
Qed.

Lemma next_loop_tids now : forall fuel c c', client_wf c -> next_loop fuel now c = Some c' ->
  m_tid_to_handle c' = m_tid_to_handle c.
Proof.
  induction fuel as [|fuel IH]; intros c c' Hwf; cbn [next_loop];
    (destruct (next_step now c) as [c1|] eqn:E; [|by intros [= <-]]); [done|].
  intros Hl. rewrite (IH c1 c') by (done || by eapply next_step_wf).
  destruct (next_step_cases now c c1 Hwf E) as (tp & hnd & _ & _ & [[_ ->]|(t & t' & items & e & Hit)]); [done|].
  apply (it_same _ _ _ _ _ _ _ _ Hit).
Qed.

(** The front of the queue is what [next] returns; the rest stays in front. *)
Lemma next_front now c e rest : client_wf c -> m_effects c = e :: rest ->
  exists c', client_next (loop_measure now c) now c = Some (c', e) /\ client_wf c' /\ (exists es, m_effects c' = rest ++ es) /\
    forall h tid, terminal h e -> m_tid_to_handle c !! tid = Some h -> m_tid_to_handle c' !! tid = None.
Proof.
  intros Hwf He. destruct (next_loop_total now (loop_measure now c) c Hwf ltac:(lia)) as (c1 & E & Hw & _).
  destruct (next_loop_effects now _ c c1 Hwf E) as [es Hes]. rewrite He in Hes.
  pose proof (next_loop_tids now _ c c1 Hwf E) as Et.
  assert (client_next (loop_measure now c) now c = Some ((next_effect now c1).1, e)) as En.
  { unfold client_next. rewrite E. cbn [fmap option_fmap option_map]. f_equal. unfold next_effect. by rewrite Hes. }
  exists (next_effect now c1).1. split; [exact En|]. split; [exact (client_next_wf _ _ _ _ _ Hwf En)|]. unfold next_effect. rewrite Hes. cbn [app fst].
  assert (forall h, m_effects (cleanup h (with_effects (fun _ => rest ++ es) c1)) = rest ++ es) as Hcl
    by (intros h; unfold cleanup; by destruct (_ !! h)).
  split; [exists es; by destruct e|]. intros h tid Hte Htid. rewrite <- Et in Htid.
  apply (cw_tid c1 Hw) in Htid as (t & Ht & <-).
  assert (m_tid_to_handle (cleanup h (with_effects (fun _ => rest ++ es) c1)) !! t_tid t = None) as Hd.
  { unfold cleanup. change (m_tmap (with_effects _ c1)) with (m_tmap c1). rewrite Ht. cbn. by rewrite lookup_delete_eq. }
  by destruct e; cbn in Hte; subst.
Qed.

(** A message for no transaction is only counted. *)
Lemma response_unknown `{CL : !CraftppLaws C} now view msg c : m_tid_to_handle c !! h_transaction_id (header msg) = None ->
  response now view (Some msg) c = Some (inc cs_transaction_not_found c, Err (client_error ce_transaction_not_found)).
Proof.
  intros Hn. unfold response, find_transaction. rewrite Hn. cbn. rewrite pick_error_one. do 3 f_equal.
  pose proof (pick_error_spec [client_error ce_transaction_not_found; client_error ce_transaction_not_found] ltac:(done)) as Hin.
  rewrite elem_of_cons, list_elem_of_singleton in Hin. by destruct Hin.
Qed.

End Answers.

(** ** Lemmas: a server that asks to wait *)

(** The message is an error response of class 5 to the transaction, signed if it has to be. *)
Record server_error `{Craftpp} (t : Transaction) (view : bytes) (msg : Message) : Prop := {
  er_class : h_cls (header msg) = ERROR_RESPONSE;
  er_tid : h_transaction_id (header msg) = t_tid t;
  er_auth auth : t_maybe_auth t = Some auth -> message_is_valid msg view (auth_integrity auth) = Ok (Some true);
  er_known : unknown_comprehension_required (attribute_set msg) = [];
  er_code : exists code reason, error_code_attr (attribute_set msg) = Some (code, reason) /\ code / 100 = 5;
  er_not_alternate : is_alternate_server msg = false
}.

Lemma response_5xx `{C : Craftpp} `{O : MapOrder} now view msg c h t a : client_wf c -> m_tmap c !! h = Some t ->
  server_error t view msg -> process_5xx now (t_rtx_algo t) = (a, RetransmitScheduled) ->
  response now view (Some msg) c = Some (with_tmap (<[h := t_with_algo a t]>) (inc cs_response_5xx c), success).
Proof.
  intros Hwf Ht [Hc Htid Ha Hk (code & reason & Hcode & H5) Halt] Hp. unfold response, find_transaction.
  assert (m_tid_to_handle c !! h_transaction_id (header msg) = Some h) as -> by (apply (cw_tid c Hwf); by exists t).
  rewrite Ht. cbn [combine2_se]. rewrite Ht.
  assert (check_response_auth t msg view c = (c, success)) as ->.
  { unfold check_response_auth. destruct (t_maybe_auth t) as [auth|]; [|done]. by rewrite (Ha auth eq_refl). }
  unfold success. rewrite Ht, Hc. unfold handle_error_response. rewrite Hk, Hcode, Halt, H5. cbv zeta. by rewrite Hp.
Qed.

(** What the caller of a client with nothing else to do sees of a new request. *)
Lemma run_created `{Craftpp} `{MapOrder} c c1 fuel now tid rq h Rc n sleeps :
  client_wf c -> m_effects c = [] -> m_tid_timeline c = [] -> do_create fuel now tid rq c = Some (c1, Ok h) ->
  max_rto (retransmit (c_settings c)) = None -> request_count (retransmit (c_settings c)) = Z.of_nat Rc -> (1 <= Rc)%nat ->
  let ds := intervals (rto (m_rto_calc c) (rq_path rq)) Rc (retransmission_multiplier (retransmit (c_settings c))) in
  Forall (fun d => 0 < d < 2 ^ 63) ds -> long_enough ds sleeps -> (2 * Rc + 1 < n)%nat ->
  exists c2 data, t_msg_data <$> m_tmap c1 !! h = Some data /\
    run n sleeps now c1 = Some (zip (now :: wakeups now (slept ds sleeps))
                                  (replicate Rc (SendData h h, Some data) ++ [(TransactionFailed h Timeout, None)]), c2) /\
    m_effects c2 = [] /\ m_tid_timeline c2 = [] /\ m_tmap c2 = ∅ /\ m_tid_to_handle c2 = ∅.
Proof.
  cbv zeta. intros Hwf He Htl Hcr Hmax Hrc H2 Hiv Hlong Hn.
  destruct (do_create_alone fuel now tid rq c c1 h Hwf He Htl Hcr) as (_ & _ & He1 & Htl1 & t & Em1 & Et1 & Etid & Ha).
  set (RTO := rto (m_rto_calc c) (rq_path rq)) in *. set (s := retransmit (c_settings c)) in *.
  set (Rm := retransmission_multiplier s) in *.
  assert (forall k, (k < Rc)%nat -> 0 < interval RTO Rc Rm k < 2 ^ 63) as Hivk.
  { intros k Hk. rewrite Forall_forall in Hiv. apply Hiv. apply list_elem_of_fmap. exists k. split; [done|]. apply elem_of_seq. lia. }
  assert (interval RTO Rc Rm 0 = RTO) as E0 by done.
  pose proof (Hivk 0%nat ltac:(lia)) as H0'. rewrite E0 in H0'.
  destruct (cw_settings c Hwf) as [(Hr1 & Hr2 & Hr3) _]. fold s in Hr1, Hr2, Hr3.
  assert (m_tmap c1 !! h = Some t) as Ht by (rewrite Em1; apply lookup_singleton_eq).
  destruct (next_sends (loop_measure now c1) now c1 h t _ He1 Htl1 Ht (is_after_ahead now RTO H0')) as [En Hw].
  pose proof (Forall2_length _ _ _ Hlong) as Hlen. unfold intervals in Hlen. rewrite length_map, length_seq in Hlen.
  destruct n as [|n]; [lia|]. rewrite (run_effect _ _ _ _ _ _ En) by first [done|by eapply waiting_readable].
  destruct Rc as [|m]; [lia|].
  destruct (run_unanswered RTO s (S m) h Hmax Hrc H2 ltac:(lia) Hivk m 0%nat n (with_effects (fun _ => []) c1) t now sleeps
    ltac:(lia) ltac:(lia) Hlong) as (c2 & Er & He2 & Htl2 & Em2 & Et2); [by fold Rm; rewrite E0| |].
  { fold Rm. rewrite E0, Ha. unfold unanswered_algo. fold Rm. by rewrite E0. }
  fold Rm in Er. change (map (interval RTO (S m) Rm) (seq 0 (S m))) with (intervals RTO (S m) Rm) in Er.
  rewrite Er. cbn [mbind option_bind effect_data]. change (m_tmap (with_effects (fun _ => []) c1)) with (m_tmap c1). rewrite Ht.
  exists c2, (t_msg_data t). split; [done|]. split; [|split; [done|]; split; [done|]; split].
  - do 2 f_equal. unfold unanswered_trace, slept. rewrite length_zip_with, <- Hlen. unfold intervals.
    rewrite length_map, length_seq, Nat.min_id. cbn [replicate app fmap option_fmap option_map]. by rewrite Nat.sub_succ, Nat.sub_0_r.
  - rewrite Em2. change (m_tmap (with_effects _ c1)) with (m_tmap c1). rewrite Em1. apply delete_singleton_eq.
  - rewrite Et2. change (m_tid_to_handle (with_effects _ c1)) with (m_tid_to_handle c1). rewrite Et1, Etid. apply delete_singleton_eq.
Qed.

(** ** Properties *)

(** C13. A transaction without an answer. A client with nothing to do creates a request with
    default retransmission (no maximum interval, [Rc >= 1] requests, final factor [Rm], every
    interval positive and below 2^63 microseconds); its caller calls [next] in a loop,
    sleeping as long as it is told or longer, by any amount below 2^63 microseconds. Then
    the caller sends the same bytes [Rc] times and is told of the timeout, and nothing
    else happens: the first sending is at once, each further effect comes when the caller
    wakes up after the next of the intervals RTO, 2 RTO, 4 RTO, ... of RFC 8489, the last of
    which is Rm RTO if [Rc >= 2] (a single request times out after RTO, where the RFC waits
    for Rm RTO), counted from the previous sending. The loop
    ends with an idle client that has forgotten the transaction. A caller that sleeps exactly
    as long as it is told acts at the deadlines of the RFC. *)
Theorem unanswered_request `{C : Craftpp} `{O : MapOrder} (settings : Settings) (c c1 : ClientUDP) (fuel : nat) (now : Timepoint)
  (tid : bytes) (rq : Request) (h : Handle) (Rc n : nat) (sleeps : list (Duration -> Duration))
  (Hset : settings_ok settings) (Hc : client_reachable settings c) (He : m_effects c = []) (Htl : m_tid_timeline c = [])
  (Hcr : do_create fuel now tid rq c = Some (c1, Ok h))
  (Hmax : max_rto (retransmit settings) = None) (Hrc : request_count (retransmit settings) = Z.of_nat Rc) (H1 : (1 <= Rc)%nat)
  (Hiv : Forall (fun d => 0 < d < 2 ^ 63)
    (intervals (rto (m_rto_calc c) (rq_path rq)) Rc (retransmission_multiplier (retransmit settings))))
  (Hlong : long_enough (intervals (rto (m_rto_calc c) (rq_path rq)) Rc (retransmission_multiplier (retransmit settings))) sleeps)
  (Hn : (2 * Rc + 1 < n)%nat) :
  let RTO := rto (m_rto_calc c) (rq_path rq) in
  let Rm := retransmission_multiplier (retransmit settings) in
  exists c2 data, t_msg_data <$> m_tmap c1 !! h = Some data /\
    run n sleeps now c1 = Some (zip (now :: wakeups now (slept (intervals RTO Rc Rm) sleeps))
                                  (replicate Rc (SendData h h, Some data) ++ [(TransactionFailed h Timeout, None)]), c2) /\
    m_effects c2 = [] /\ m_tid_timeline c2 = [] /\ m_tmap c2 = ∅ /\ m_tid_to_handle c2 = ∅ /\
    ((2 <= Rc)%nat -> sleeps = replicate Rc id ->
       wakeups now (slept (intervals RTO Rc Rm) sleeps) = map (advance now) (rfc8489_schedule RTO Rc Rm)).
Proof.
  cbv zeta. pose proof (client_reachable_settings settings c Hc) as Ec. subst settings. destruct (run_created c c1 fuel now tid rq h Rc n sleeps) as (c2 & data & Hd & Er & Hn1 & H3 & H4 & H5); try done;
    [by eapply client_reachable_wf|].
  exists c2, data. split_and!; try done. intros H2 ->. rewrite <- wakeups_rfc8489 by done. f_equal. apply slept_exactly.
  unfold intervals. by rewrite length_map, length_seq.
Qed.

(** C14. An answer is reported once if the caller collects it before the next copy arrives. An
    acceptable success response to a transaction, with nothing queued before it, queues one
    end of the transaction. When the caller has collected it, any later copy of the response
    is refused as belonging to no transaction, and queues nothing. But a copy that arrives
    before [next] is called queues a second end of the same transaction, and the caller is
    told of both. *)
Theorem answer_reported_per_copy `{C : Craftpp} (CL : CraftppLaws C) `{O : MapOrder} (settings : Settings) (c : ClientUDP)
  (h : Handle) (t : Transaction) (view : bytes) (msg : Message) (now : Timepoint)
  (Hset : settings_ok settings) (Hc : client_reachable settings c) (He : m_effects c = [])
  (Ht : m_tmap c !! h = Some t) (Ha : answers t view msg) :
  exists c1 e1, response now view (Some msg) c = Some (c1, success) /\ m_effects c1 = [e1] /\ terminal h e1 /\
    (forall now2, exists c2, client_next (loop_measure now2 c1) now2 c1 = Some (c2, e1) /\
       forall now3, response now3 view (Some msg) c2 =
         Some (inc cs_transaction_not_found c2, Err (client_error ce_transaction_not_found))) /\
    (forall now2, exists c2 e2, response now2 view (Some msg) c1 = Some (c2, success) /\ terminal h e2 /\
       forall now3 now4, exists c3 c4, client_next (loop_measure now3 c2) now3 c2 = Some (c3, e1) /\
         client_next (loop_measure now4 c3) now4 c3 = Some (c4, e2)).
Proof.
  pose proof (client_reachable_wf settings c Hset Hc) as Hwf.
  destruct (response_answers now view msg c h t Hwf Ht Ha) as (c1 & e1 & E1 & Hw1 & He1 & Em1 & Ht1). rewrite He in He1. cbn [app] in He1.
  rewrite <- Em1 in Ht. exists c1, e1. split; [done|]. split; [done|]. split; [done|]. split.
  - intros now2. destruct (next_front now2 c1 e1 [] Hw1 He1) as (c2 & En & Hw2 & _ & Hgone). exists c2. split; [done|].
    intros now3. apply response_unknown. rewrite (an_tid _ _ _ Ha). apply (Hgone h); [done|]. apply (cw_tid c1 Hw1). by exists t.
  - intros now2. destruct (response_answers now2 view msg c1 h t Hw1 Ht Ha) as (c2 & e2 & E2 & Hw2 & He2 & _ & Ht2).
    rewrite He1 in He2. exists c2, e2. split; [done|]. split; [done|]. intros now3 now4.
    destruct (next_front now3 c2 e1 [e2] Hw2 He2) as (c3 & E3 & Hw3 & [es Hes] & _).
    destruct (next_front now4 c3 e2 es Hw3 Hes) as (c4 & E4 & _). by exists c3, c4.
Qed.

(** C30. The wait that a server's 5xx error asks for is not kept. The setting
    [server_error_timeout] is the time [T] after which the request is to be sent again. When
    the transaction's old deadline, in [a], comes before the end of the wait, the caller is
    told to send the request at that deadline, within the wait; this sending raises
    [rtx_count] of the transaction, but not the number of repetitions of its retransmission
    machine; only then does the caller sleep until [T]. When the old deadline comes after the
    end of the wait, the caller sleeps until the old deadline, and nothing is sent at [T]. *)
Theorem server_error_wait_not_kept `{C : Craftpp} `{O : MapOrder} (settings : Settings) (c : ClientUDP) (h : Handle) (t : Transaction)
  (view : bytes) (msg : Message) (now : Timepoint) (a T : Duration)
  (Hset : settings_ok settings) (Hc : client_reachable settings c) (Hw : waiting c h t (advance now a)) (He : server_error t view msg)
  (HT : server_error_timeout (retransmit settings) = Some T)
  (Hmax : m_5xx_count (t_rtx_algo t) < server_error_max_retransmits (retransmit settings))
  (Ha : 0 < a < 2 ^ 63) (HT0 : 0 < T < 2 ^ 63) :
  exists c1, response now view (Some msg) c = Some (c1, success) /\ m_effects c1 = [] /\
    (a < T -> exists c2 t2, run 3 [id] now c1 = Some ([(advance now a, (SendData h h, Some (t_msg_data t)))], c2) /\
       waiting c2 h t2 (advance now T) /\ t_rtx_count t2 = u32 (t_rtx_count t + 1) /\
       m_rtx_count (t_rtx_algo t2) = m_rtx_count (t_rtx_algo t)) /\
    (forall b, T <= b < a -> client_next (loop_measure (advance now b) c1) (advance now b) c1 = Some (c1, Sleep (a - b))).
Proof.
  pose proof (client_reachable_wf settings c Hset Hc) as Hwf.
  pose proof (client_reachable_settings settings c Hc) as Ec. subst settings. destruct Hw as [Heff Htl Ht].
  set (ra := mk_RetransmitAlgo (m_initial_rto (t_rtx_algo t)) (m_settings (t_rtx_algo t)) (Some (advance now T))
    (m_last_timeout (t_rtx_algo t)) (m_rtx_count (t_rtx_algo t)) (u32 (m_5xx_count (t_rtx_algo t) + 1))).
  assert (process_5xx now (t_rtx_algo t) = (ra, RetransmitScheduled)) as Hp.
  { unfold process_5xx. rewrite (ra_settings _ _ (cw_algo c Hwf h t Ht)), HT. rewrite (proj2 (Z.leb_gt _ _)) by done.
    unfold ra. by rewrite (ra_settings _ _ (cw_algo c Hwf h t Ht)). }
  set (c1 := with_tmap (<[h := t_with_algo ra t]>) (inc cs_response_5xx c)).
  assert (waiting c1 h (t_with_algo ra t) (advance now a)) as Hw1 by (split; [done..|]; cbn; by rewrite lookup_insert_eq).
  exists c1. split; [by apply response_5xx|]. split; [done|]. split.
  - intros HaT. pose proof (next_sleeps (loop_measure now c1) now c1 h _ _ Hw1 (is_after_ahead now a Ha)) as Hs.
    rewrite tp_sub_ahead in Hs by lia. rewrite (run_sleep _ _ id _ _ _ _ Hs) by lia. cbn [id].
    pose proof (is_after_late now a a ltac:(lia)) as Hdue.
    assert (ra_next (advance now a) ra = (ra, Some (advance now T))) as Hn.
    { unfold ra_next, ra. cbn [m_maybe_next fmap option_fmap option_map default from_option].
      by rewrite is_before_after, is_after_early by lia. }
    destruct (loop_measure_due (advance now a) c1 h _ _ Hw1 Hdue) as [n En].
    destruct (next_repeats n (advance now a) c1 h _ _ ra (advance now T) Hw1 Hdue Hn) as (c2 & E2 & Hw2 & _);
      [by apply is_after_early; lia|]. rewrite <- En in E2.
    exists c2, (t_inc_rtx_count (t_with_algo ra (t_with_algo ra t))). split; [|done].
    rewrite (run_effect _ _ _ _ _ _ E2) by first [done|by eapply waiting_readable]. cbn [run effect_data]. rewrite (wt_found _ _ _ _ Hw2).
    rewrite (next_sleeps _ (advance now a) c2 h _ _ Hw2) by (apply is_after_early; lia).
    cbn [mbind option_bind readable]. by rewrite tp_sub_advance, (proj2 (Z.ltb_lt _ _)) by lia.
  - intros b Hb. rewrite (next_sleeps _ (advance now b) c1 h _ _ Hw1) by (apply is_after_early; lia).
    by rewrite tp_sub_advance by lia.
Qed.

(** *** Witnesses *)

(** The numbers of RFC 8489 (RTO 500 ms, Rc 7, Rm 16), with a caller that is 10 ms late each
    time it wakes up. *)
Lemma unanswered_request_witness : exists c1 c2 data trace,
  do_create (H := reference) 1 epoch sample_tid12 (mk_Request (path_to 1) [] [] None) (client_create settings_default) = Some (c1, Ok 0) /\
  run 16 (replicate 7 (fun d => d + 10000)) epoch c1 = Some (trace, c2) /\ m_tmap c2 = ∅ /\
  map (fun x => tp_value x.1) trace = [0; 510000; 1520000; 3530000; 7540000; 15550000; 31560000; 39570000] /\
  map snd trace = replicate 7 (SendData 0 0, Some data) ++ [(TransactionFailed 0 Timeout, None)].
Proof.
  destruct (do_create (H := reference) 1 epoch sample_tid12 (mk_Request (path_to 1) [] [] None) (client_create settings_default))
    as [[c1 [h|e]]|] eqn:E.
  - assert (h = 0) as -> by (apply (f_equal (fmap snd)) in E; vm_compute in E; by injection E as ->).
    assert (intervals (rto (m_rto_calc (client_create settings_default)) (path_to 1)) 7 16
      = [500000; 1000000; 2000000; 4000000; 8000000; 16000000; 8000000]) as Ei by (vm_compute; reflexivity).
    destruct (unanswered_request (C := reference) settings_default (client_create settings_default) c1 1 epoch sample_tid12
      (mk_Request (path_to 1) [] [] None) 0 7 16 (replicate 7 (fun d => d + 10000)) settings_default_ok (rtc_refl _ _) eq_refl eq_refl E
      eq_refl eq_refl) as (c2 & data & _ & Er & _ & _ & Em & _).
    + lia.
    + cbn [rq_path retransmission_multiplier retransmit c_settings client_create settings_default retransmit_default].
      rewrite Ei. repeat constructor; lia.
    + cbn [rq_path retransmission_multiplier retransmit c_settings client_create settings_default retransmit_default].
      rewrite Ei. repeat constructor; lia.
    + lia.
    + eexists c1, c2, data, _. split; [reflexivity|]. split; [exact Er|]. split; [exact Em|]. split; vm_compute; reflexivity.
  - apply (f_equal (fmap (fun x => is_ok x.2))) in E. vm_compute in E. discriminate E.
  - apply (f_equal (fmap (fun x => is_ok x.2))) in E. vm_compute in E. discriminate E.
Defined.

Lemma client_sent_next : exists e, client_next 1 epoch client_one = Some (client_sent, e).
Proof. unfold client_sent. destruct (client_next 1 epoch client_one) as [[c e]|] eqn:E; [by exists e|]. vm_compute in E. discriminate E. Qed.

Lemma client_sent_reachable : client_reachable (H := reference) settings_default client_sent.
Proof.
  destruct client_sent_next as [e E]. unfold client_reachable. transitivity client_one; [exact client_one_reachable|].
  apply rtc_once. by eapply cst_next.
Qed.

Lemma client_sent_transaction : (fun t => (t_tid t, t_maybe_auth t)) <$> m_tmap client_sent !! 0 = Some (sample_tid, None).
Proof. vm_compute. reflexivity. Qed.

(** The answer arrives twice, after 100 and 101 ms, and [next] is called afterwards. *)
Lemma answer_reported_per_copy_witness : exists c1 c2 c3 c4 e1 e2,
  response (H := reference) (advance epoch 100000) [] (Some sample_answer) client_sent = Some (c1, success) /\
  response (H := reference) (advance epoch 101000) [] (Some sample_answer) c1 = Some (c2, success) /\
  client_next (loop_measure (advance epoch 102000) c2) (advance epoch 102000) c2 = Some (c3, e1) /\ terminal 0 e1 /\
  client_next (loop_measure (advance epoch 102000) c3) (advance epoch 102000) c3 = Some (c4, e2) /\ terminal 0 e2.
Proof.
  pose proof client_sent_transaction as Et. destruct (m_tmap client_sent !! 0) as [t|] eqn:Em; [|discriminate Et].
  injection Et as E1 E2.
  destruct (answer_reported_per_copy reference_laws settings_default client_sent 0 t [] sample_answer (advance epoch 100000)
    settings_default_ok client_sent_reachable) as (c1 & e1 & R1 & _ & T1 & _ & H2).
  - vm_compute. reflexivity.
  - exact Em.
  - split; [reflexivity|by rewrite E1|by rewrite E2].
  - destruct (H2 (advance epoch 101000)) as (c2 & e2 & R2 & T2 & H3).
    destruct (H3 (advance epoch 102000) (advance epoch 102000)) as (c3 & c4 & N1 & N2).
    exists c1, c2, c3, c4, e1, e2. split; [exact R1|]. split; [exact R2|]. split; [exact N1|]. split; [exact T1|]. by split.
Defined.

(** A client that repeats after a 5xx error, with the wait [T]; its request is sent. *)
Definition settings_5xx (T : Duration) : Settings :=
  mk_Settings true (mk_RetransmitDefault None 7 16 (Some T) 4) rto_settings_default false.
Definition create_5xx (T : Duration) : option (Z * (ClientUDP * Result Handle)) :=
  create (H := reference) 1 1 counting 7 epoch (mk_Request (path_to 1) [] [] None) (client_create (settings_5xx T)).
Definition client_5xx (T : Duration) : ClientUDP :=
  match create_5xx T with
  | Some (_, (c, _)) => match client_next 1 epoch c with Some (c, _) => c | None => c end
  | None => client_create settings_default
  end.

Lemma client_5xx_reachable : client_reachable (H := reference) (settings_5xx 2000000) (client_5xx 2000000).
Proof.
  unfold client_5xx. destruct (create_5xx 2000000) as [[g [c r]]|] eqn:E; [|vm_compute in E; discriminate E].
  assert (client_reachable (H := reference) (settings_5xx 2000000) c) as Hc by (apply rtc_once; by eapply cst_create).
  destruct (client_next 1 epoch c) as [[c' e]|] eqn:E2; [|done].
  unfold client_reachable in *. transitivity c; [exact Hc|]. apply rtc_once. by eapply cst_next.
Qed.

Lemma client_5xx_transaction :
  (fun t => (t_tid t, t_maybe_auth t, m_5xx_count (t_rtx_algo t))) <$> m_tmap (client_5xx 2000000) !! 0 = Some (sample_tid, None, 0).
Proof. vm_compute. reflexivity. Qed.

Definition sample_5xx : Message :=
  mk_Message (mk_Header ERROR_RESPONSE BINDING sample_tid) (attribute_set_create [ErrorCodeAttribute 500 None] []) false None.

(** A server asks, after 100 ms, to wait for two seconds: the request is sent again at the old
    deadline, half a second after the first one. *)
Lemma server_error_wait_not_kept_witness : exists c1 c2 data,
  response (H := reference) (advance epoch 100000) [] (Some sample_5xx) (client_5xx 2000000) = Some (c1, success) /\
  run 3 [id] (advance epoch 100000) c1 = Some ([(advance epoch 500000, (SendData 0 0, Some data))], c2) /\
  m_tid_timeline c2 = [(advance epoch 2100000, 0)].
Proof.
  pose proof client_5xx_transaction as Et. destruct (m_tmap (client_5xx 2000000) !! 0) as [t|] eqn:Em; [|discriminate Et].
  injection Et as E1 E2 E3.
  destruct (server_error_wait_not_kept (C := reference) (settings_5xx 2000000) (client_5xx 2000000) 0 t [] sample_5xx
    (advance epoch 100000) 400000 2000000) as (c1 & R & _ & Hr & _).
  - unfold settings_ok, retransmit_ok. cbn. lia.
  - exact client_5xx_reachable.
  - split; [vm_compute; reflexivity|vm_compute; reflexivity|exact Em].
  - split; [reflexivity|by rewrite E1|by rewrite E2|vm_compute; reflexivity|exists 500, None; split; vm_compute; reflexivity|vm_compute; reflexivity].
  - vm_compute. reflexivity.
  - rewrite E3. vm_compute. reflexivity.
  - lia.
  - lia.
  - destruct (Hr ltac:(lia)) as (c2 & t2 & Er & [_ Htl _] & _). exists c1, c2, (t_msg_data t). split; [exact R|]. split; [exact Er|exact Htl].
Defined.
