(* ===== verification/Rtp.v ===== *)
(** * rtp/: the RTP packet parser

    [packet_parse] is [Packet::parse] of rtp_packet.cpp with its statistics, over the
    payload map of rtp_payload_map.hpp. [RtpWire] is the packet format of RFC 3550 as a
    relation between fields and bytes; the theorems show that the parser accepts exactly
    the packets of that format and padded packets whose padding count is zero, returns their
    fields, and counts every refusal. *)

From S2P Require Import Prelude Errors Craftpp Util.

(** ** rtp_clock_rate.hpp, rtp_payload_type.hpp, rtp_sequence.hpp, rtp_ssrc.hpp, rtp_timestamp.hpp *)

Record ClockRate : Set := mk_ClockRate { cr_count : Z }.

(** A payload type is only made by [PayloadType::from_uint8]. *)
Record PayloadType : Set := mk_PayloadType { pt_m_value : Z }.

#[export] Instance PayloadType_eq_dec : EqDecision PayloadType.
Proof. solve_decision. Defined.
#[export] Instance PayloadType_countable : Countable PayloadType.
Proof. apply (inj_countable' pt_m_value mk_PayloadType). by intros []. Defined.

Definition pt_value (p : PayloadType) : Z := u8 (pt_m_value p).

Definition pt_from_uint8 (pt : Z) : option PayloadType :=
  if pt <=? 127 then Some (mk_PayloadType pt) else None.

Record SequenceNumber : Set := mk_SequenceNumber { seq_value : Z }.
Definition seq_from_uint16 (v : Z) : SequenceNumber := mk_SequenceNumber v.

Record SSRC : Set := mk_SSRC { ssrc_value : Z }.
Definition ssrc_from_uint32 (v : Z) : SSRC := mk_SSRC v.

Record Timestamp : Set := mk_Timestamp { ts_value : Z; ts_rate : ClockRate }.
Definition ts_from_uint32 (v : Z) (c : ClockRate) : Timestamp := mk_Timestamp v c.

(** ** rtp_payload_map *)

Record PayloadMapItem : Set := mk_PayloadMapItem { clock_rate : ClockRate }.

Definition PayloadMap : Type := gmap PayloadType PayloadMapItem.

(** [m_items(l.begin(), l.end())]: an [unordered_map] keeps the first of two equal keys. *)
Definition payload_map_create (l : list (PayloadType * PayloadMapItem)) : PayloadMap :=
  fold_left (fun m kv => match m !! kv.1 with Some _ => m | None => <[kv.1 := kv.2]> m end) l ∅.

Definition rtp_clock_rate (m : PayloadMap) (pt : PayloadType) : option ClockRate :=
  match m !! pt with
  | Some item => Some (clock_rate item)
  | None => None
  end.

(** ** rtp_header.hpp, rtp_packet.hpp *)

Record Extension : Set := mk_Extension { profile_defined : Z; ext_data : Interval }.

Record Header : Set := mk_Header {
  marker : bool;
  payload_type : PayloadType;
  sequence : SequenceNumber;
  ssrc : SSRC;
  timestamp : Timestamp;
  csrcs : list SSRC;
  maybe_extension : option Extension
}.

Record Packet : Set := mk_Packet { header : Header; payload : Interval }.

(** [ParseStat]: a counter per member. *)
Inductive RtpCounter : Set :=
| rs_success | rs_error | rs_invalid_size | rs_invalid_version | rs_invalid_csrc
| rs_invalid_extension | rs_invalid_payload_type | rs_unknown_rtp_clock | rs_invalid_padding.

#[export] Instance RtpCounter_eq_dec : EqDecision RtpCounter.
Proof. solve_decision. Defined.

Definition RtpStat : Type := RtpCounter -> Z.
Definition rtp_stat_zero : RtpStat := fun _ => 0.

Definition rtp_inc (c : RtpCounter) (st : RtpStat) : RtpStat :=
  fun c' => if bool_decide (c' = c) then counter_inc (st c') else st c'.

(** [stat.c.inc(); stat.error.inc();] *)
Definition rtp_fail (c : RtpCounter) (st : RtpStat) : RtpStat := rtp_inc rs_error (rtp_inc c st).

(** ** details/rtp_header_details.hpp *)

Definition RTP_FIXED_HEADER_LEN : Z := 12.
Definition RTP_VERSION : Z := 2.
Definition RTP_VERSION_MASK : Z := 0xC0.
Definition RTP_VERSION_SHIFT : Z := 6.
Definition RTP_PADDING_MASK : Z := 0x20.
Definition RTP_EXTENSION_MASK : Z := 0x10.
Definition RTP_CC_MASK : Z := 0x0F.
Definition RTP_MARKER_MASK : Z := 0x80.
Definition RTP_PAYLOAD_TYPE_MASK : Z := 0x7F.
Definition RTP_SEQUENCE_NUMBER_OFFSET : Z := 2.
Definition RTP_TIMESTAMP_OFFSET : Z := 4.
Definition RTP_SSRC_OFFSET : Z := 8.

(** ** rtp_packet.cpp *)

Section Parse.
Context `{Craftpp}.

(** The loop over the contributing sources. *)
Fixpoint read_csrcs (vv : bytes) (n : nat) (i : Z) (acc : list SSRC) : SE RtpStat (list SSRC) :=
  match n with
  | O => mret acc
  | S n' =>
      csrc ← on_err (lift (require (read_u32be vv (RTP_FIXED_HEADER_LEN + i * 4))))
               (rtp_fail rs_invalid_csrc) (fun err => err);
      read_csrcs vv n' (i + 1) (acc ++ [ssrc_from_uint32 csrc])
  end.

(** The header extension at [ext_offset]: its size with the 4-octet extension header,
    and the extension. *)
Definition read_extension (vv : bytes) (ext_offset : Z) : SE RtpStat (Z * option Extension) :=
  ext_length ← on_err (lift (require (read_u16be vv (ext_offset + 2))))
                 (rtp_fail rs_invalid_extension) (fun _ => rtp_error re_invalid_extension_length);
  let ext_size := (ext_length + 1) * 4 in
  let ext_interval := mk_Interval (ext_offset + 4) (ext_size - 4) in
  if negb (contains vv ext_interval) then
    fail_with (rtp_fail rs_invalid_extension) (rtp_error re_invalid_extension_length)
  else
    len ← lift (require (read_u16be vv ext_offset));
    mret (ext_size, Some (mk_Extension len ext_interval)).

(** The number of octets that the last octet of a padded packet tells to ignore. *)
Definition read_padding (vv : bytes) (payload_with_padding_size : Z) : SE RtpStat Z :=
  if payload_with_padding_size =? 0 then
    fail_with (rtp_fail rs_invalid_padding) (rtp_error re_invalid_packet_padding)
  else
    size ← on_err (lift (require (read_u8 vv (zlen vv - 1))))
             (rtp_fail rs_invalid_padding) (fun _ => rtp_error re_invalid_packet_padding);
    if payload_with_padding_size <? size then
      fail_with (rtp_fail rs_invalid_padding) (rtp_error re_invalid_packet_padding)
    else mret size.

(** What [Packet::parse] knows when it reaches its assertion. *)
Record Prefix : Set := mk_Prefix {
  px_has_padding : bool;
  px_marker : bool;
  px_payload_type : PayloadType;
  px_rtp_clock : ClockRate;
  px_csrcs : list SSRC;
  px_extension : option Extension;
  px_payload_offset : Z
}.

(** [Packet::parse] up to its assertion. *)
Definition parse_prefix (vv : bytes) (ptmap : PayloadMap) : SE RtpStat Prefix :=
  if zlen vv <? RTP_FIXED_HEADER_LEN then
    fail_with (rtp_fail rs_invalid_size) (rtp_error re_packet_is_too_short)
  else
    let first_byte := assured_read_u8 vv 0 in
    let second_byte := assured_read_u8 vv 1 in
    if negb (Z.land first_byte RTP_VERSION_MASK =? Z.shiftl RTP_VERSION RTP_VERSION_SHIFT) then
      fail_with (rtp_fail rs_invalid_version) (rtp_error re_unknown_packet_version)
    else
      let has_padding := negb (Z.land first_byte RTP_PADDING_MASK =? 0) in
      let has_extension := negb (Z.land first_byte RTP_EXTENSION_MASK =? 0) in
      let num_cc := Z.land first_byte RTP_CC_MASK in
      csrcs ← read_csrcs vv (Z.to_nat num_cc) 0 [];
      let marker := negb (Z.land second_byte RTP_MARKER_MASK =? 0) in
      match pt_from_uint8 (Z.land second_byte RTP_PAYLOAD_TYPE_MASK) with
      | None => fail_with (rtp_fail rs_invalid_payload_type) (rtp_error re_invalid_payload_type)
      | Some payload_type =>
          match rtp_clock_rate ptmap payload_type with
          | None => fail_with (rtp_fail rs_unknown_rtp_clock) (rtp_error re_unknown_rtp_clock)
          | Some rtp_clock =>
              let ext_offset := num_cc * 4 + RTP_FIXED_HEADER_LEN in
              ext ← (if has_extension then read_extension vv ext_offset else mret (0, None));
              mret (mk_Prefix has_padding marker payload_type rtp_clock csrcs ext.2
                      (ext_offset + ext.1))
          end
      end.

(** [Packet::parse]. *)
Definition packet_parse (vv : bytes) (ptmap : PayloadMap) : SE RtpStat Packet :=
  px ← parse_prefix vv ptmap;
  let sequence_value := assured_read_u16be vv RTP_SEQUENCE_NUMBER_OFFSET in
  let timestamp_value := assured_read_u32be vv RTP_TIMESTAMP_OFFSET in
  let ssrc_value := assured_read_u32be vv RTP_SSRC_OFFSET in
  let payload_with_padding_size := zlen vv - px_payload_offset px in
  padding_size ← (if px_has_padding px then read_padding vv payload_with_padding_size else mret 0);
  let payload_size := payload_with_padding_size - padding_size in
  ok_with (rtp_inc rs_success)
    (mk_Packet
          (mk_Header (px_marker px) (px_payload_type px) (seq_from_uint16 sequence_value)
             (ssrc_from_uint32 ssrc_value) (ts_from_uint32 timestamp_value (px_rtp_clock px))
             (px_csrcs px) (px_extension px))
          (mk_Interval (px_payload_offset px) payload_size)).

End Parse.

(** ** The packet format of RFC 3550, section 5 *)

(** The fields of a packet. [rw_body] is what follows the header: the payload, and the
    padding when [rw_padded]. *)
Record RtpWire : Set := mk_RtpWire {
  rw_marker : bool;
  rw_pt : Z;
  rw_seq : Z;
  rw_ts : Z;
  rw_ssrc : Z;
  rw_csrcs : list Z;
  rw_ext : option (Z * bytes);
  rw_padded : bool;
  rw_body : bytes
}.

Definition wire_csrcs (w : RtpWire) : bytes := List.concat (map (be_bytes 4) (rw_csrcs w)).

Definition wire_ext (w : RtpWire) : bytes :=
  match rw_ext w with
  | Some (profile, data) => be_bytes 2 profile ++ be_bytes 2 (zlen data / 4) ++ data
  | None => []
  end.

Definition wire_first (w : RtpWire) : Z :=
  128 + 32 * bool2Z (rw_padded w) + 16 * bool2Z (bool_decide (is_Some (rw_ext w))) + zlen (rw_csrcs w).

Definition wire_second (w : RtpWire) : Z := 128 * bool2Z (rw_marker w) + rw_pt w.

Definition wire_bytes (w : RtpWire) : bytes :=
  [wire_first w; wire_second w] ++ be_bytes 2 (rw_seq w) ++ be_bytes 4 (rw_ts w) ++
  be_bytes 4 (rw_ssrc w) ++ wire_csrcs w ++ wire_ext w ++ rw_body w.

(** The number of octets at the end that do not belong to the payload. *)
Definition wire_padding (w : RtpWire) : Z :=
  if rw_padded w then byte_at (rw_body w) (zlen (rw_body w) - 1) else 0.

Definition wire_fields_wf (w : RtpWire) : Prop :=
  0 <= rw_pt w < 128 /\ fits 16 (rw_seq w) /\ fits 32 (rw_ts w) /\ fits 32 (rw_ssrc w) /\
  Forall (fits 32) (rw_csrcs w) /\ zlen (rw_csrcs w) < 16 /\
  match rw_ext w with
  | Some (profile, data) =>
      fits 16 profile /\ bytes_ok data /\ exists n, zlen data = 4 * n /\ n < 2 ^ 16
  | None => True
  end /\
  bytes_ok (rw_body w).

(** The padding of RFC 3550: one or more octets, the last of which counts them, itself
    included. *)
Definition rfc3550_padding (w : RtpWire) : Prop :=
  rw_padded w = true -> 1 <= wire_padding w <= zlen (rw_body w).

(** The fields of a packet of RFC 3550. *)
Definition rfc3550_wf (w : RtpWire) : Prop := wire_fields_wf w /\ rfc3550_padding w.

(** What the RFC does not allow and the parser accepts: a padded packet whose last octet
    counts no octets. *)
Definition zero_padding_count (w : RtpWire) : Prop :=
  wire_fields_wf w /\ rw_padded w = true /\ 0 < zlen (rw_body w) /\ wire_padding w = 0.

(** Both kinds together, the way the parser tests them. *)
Definition wire_wf (w : RtpWire) : Prop :=
  0 <= rw_pt w < 128 /\ fits 16 (rw_seq w) /\ fits 32 (rw_ts w) /\ fits 32 (rw_ssrc w) /\
  Forall (fits 32) (rw_csrcs w) /\ zlen (rw_csrcs w) < 16 /\
  match rw_ext w with
  | Some (profile, data) =>
      fits 16 profile /\ bytes_ok data /\ exists n, zlen data = 4 * n /\ n < 2 ^ 16
  | None => True
  end /\
  bytes_ok (rw_body w) /\
  (rw_padded w = true -> 0 < zlen (rw_body w)) /\ wire_padding w <= zlen (rw_body w).

(** The packet the parser should return: the fields, and where the extension and the
    payload lie in the bytes. *)
Definition wire_packet (w : RtpWire) (rate : ClockRate) : Packet :=
  let ext_offset := 12 + 4 * zlen (rw_csrcs w) in
  mk_Packet
    (mk_Header (rw_marker w) (mk_PayloadType (rw_pt w)) (mk_SequenceNumber (rw_seq w))
       (mk_SSRC (rw_ssrc w)) (mk_Timestamp (rw_ts w) rate) (map mk_SSRC (rw_csrcs w))
       ((fun e => mk_Extension e.1 (mk_Interval (ext_offset + 4) (zlen e.2))) <$> rw_ext w))
    (mk_Interval (ext_offset + zlen (wire_ext w)) (zlen (rw_body w) - wire_padding w)).

(** The bits of the first octet, the contributing sources and the offset of the payload,
    read from the bytes of a packet. *)
Definition num_cc (vv : bytes) : Z := byte_at vv 0 mod 16.
Definition has_x (vv : bytes) : bool := (byte_at vv 0 / 16) mod 2 =? 1.
Definition has_p (vv : bytes) : bool := (byte_at vv 0 / 32) mod 2 =? 1.
Definition u32_at (vv : bytes) (off : Z) : Z := be_val (slice vv off 4).
Definition u16_at (vv : bytes) (off : Z) : Z := be_val (slice vv off 2).
Definition csrcs_at (vv : bytes) (i : Z) (n : nat) : list Z :=
  map (fun k => u32_at vv (12 + 4 * (i + Z.of_nat k))) (seq 0 n).
Definition ext_at (vv : bytes) : Z := 12 + 4 * num_cc vv.
Definition ext_size_at (vv : bytes) : Z :=
  if has_x vv then 4 + 4 * u16_at vv (ext_at vv + 2) else 0.
Definition body_at (vv : bytes) : Z := ext_at vv + ext_size_at vv.
Definition padding_at (vv : bytes) : Z := if has_p vv then byte_at vv (zlen vv - 1) else 0.

(** Why a packet is refused, with the counter and the error. *)
Inductive rejection `{Craftpp} (ptmap : PayloadMap) (vv : bytes) : RtpCounter -> Error -> Prop :=
| rj_size : zlen vv < 12 ->
    rejection ptmap vv rs_invalid_size (rtp_error re_packet_is_too_short)
| rj_version : byte_at vv 0 / 64 <> 2 ->
    rejection ptmap vv rs_invalid_version (rtp_error re_unknown_packet_version)
| rj_csrc : zlen vv < ext_at vv ->
    rejection ptmap vv rs_invalid_csrc require_error
| rj_clock : ptmap !! mk_PayloadType (byte_at vv 1 mod 128) = None ->
    rejection ptmap vv rs_unknown_rtp_clock (rtp_error re_unknown_rtp_clock)
| rj_extension : has_x vv = true ->
    zlen vv < ext_at vv + 4 \/ zlen vv < body_at vv ->
    rejection ptmap vv rs_invalid_extension (rtp_error re_invalid_extension_length)
| rj_padding : has_p vv = true -> body_at vv = zlen vv \/ zlen vv - body_at vv < padding_at vv ->
    rejection ptmap vv rs_invalid_padding (rtp_error re_invalid_packet_padding).

(** The fields read from the bytes. *)
Definition packet_at (vv : bytes) (rate : ClockRate) : Packet :=
  mk_Packet
    (mk_Header (byte_at vv 1 / 128 =? 1) (mk_PayloadType (byte_at vv 1 mod 128))
       (mk_SequenceNumber (u16_at vv 2)) (mk_SSRC (u32_at vv 8)) (mk_Timestamp (u32_at vv 4) rate)
       (map mk_SSRC (csrcs_at vv 0 (Z.to_nat (num_cc vv))))
       (if has_x vv then
          Some (mk_Extension (u16_at vv (ext_at vv)) (mk_Interval (ext_at vv + 4) (ext_size_at vv - 4)))
        else None))
    (mk_Interval (body_at vv) (zlen vv - body_at vv - padding_at vv)).

Definition acceptable (ptmap : PayloadMap) (vv : bytes) (rate : ClockRate) : Prop :=
  12 <= zlen vv /\ byte_at vv 0 / 64 = 2 /\
  rtp_clock_rate ptmap (mk_PayloadType (byte_at vv 1 mod 128)) = Some rate /\
  body_at vv <= zlen vv /\ (has_p vv = true -> body_at vv < zlen vv) /\
  padding_at vv <= zlen vv - body_at vv.

(** ** Lemmas *)

Section Facts.
Context `{CL : CraftppLaws}.

Lemma first_byte_bits b : is_byte b ->
  (Z.land b RTP_VERSION_MASK =? Z.shiftl RTP_VERSION RTP_VERSION_SHIFT) = (b / 64 =? 2) /\
  negb (Z.land b RTP_PADDING_MASK =? 0) = ((b / 32) mod 2 =? 1) /\
  negb (Z.land b RTP_EXTENSION_MASK =? 0) = ((b / 16) mod 2 =? 1) /\
  Z.land b RTP_CC_MASK = b mod 16.
Proof.
  intros Hb.
  pose proof (forall_bytes (fun b =>
    Bool.eqb (Z.land b RTP_VERSION_MASK =? Z.shiftl RTP_VERSION RTP_VERSION_SHIFT) (b / 64 =? 2) &&
    Bool.eqb (negb (Z.land b RTP_PADDING_MASK =? 0)) ((b / 32) mod 2 =? 1) &&
    Bool.eqb (negb (Z.land b RTP_EXTENSION_MASK =? 0)) ((b / 16) mod 2 =? 1) &&
    (Z.land b RTP_CC_MASK =? b mod 16)) ltac:(vm_compute; reflexivity) b Hb) as E.
  rewrite !andb_true_iff, !eqb_true_iff, Z.eqb_eq in E. tauto.
Qed.

Lemma second_byte_bits b : is_byte b ->
  negb (Z.land b RTP_MARKER_MASK =? 0) = (b / 128 =? 1) /\
  pt_from_uint8 (Z.land b RTP_PAYLOAD_TYPE_MASK) = Some (mk_PayloadType (b mod 128)).
Proof.
  intros Hb.
  pose proof (forall_bytes (fun b =>
    Bool.eqb (negb (Z.land b RTP_MARKER_MASK =? 0)) (b / 128 =? 1) &&
    (Z.land b RTP_PAYLOAD_TYPE_MASK =? b mod 128)) ltac:(vm_compute; reflexivity) b Hb) as E.
  rewrite !andb_true_iff, !eqb_true_iff, Z.eqb_eq in E. destruct E as [E1 ->].
  split; [done|]. unfold pt_from_uint8. pose proof (Z.mod_pos_bound b 128 ltac:(lia)).
  destruct (Z.leb_spec (b mod 128) 127); [done|lia].
Qed.

Lemma csrcs_at_S vv i n : csrcs_at vv i (S n) = u32_at vv (12 + 4 * i) :: csrcs_at vv (i + 1) n.
Proof.
  unfold csrcs_at. cbn [seq map]. f_equal; [f_equal; lia|].
  rewrite <- seq_shift, map_map. apply map_ext. intros k. f_equal. lia.
Qed.

Lemma read_csrcs_closed vv n i acc st : 0 <= i -> 12 + 4 * i <= zlen vv ->
  read_csrcs vv n i acc st =
    if 12 + 4 * (i + Z.of_nat n) <=? zlen vv
    then (st, Ok (acc ++ map mk_SSRC (csrcs_at vv i n)))
    else (rtp_fail rs_invalid_csrc st, Err require_error).
Proof.
  revert i acc. induction n as [|n IH]; intros i acc Hi Hz.
  - cbn. bdestruct; [|lia]. by rewrite app_nil_r.
  - cbn [read_csrcs]. unfold RTP_FIXED_HEADER_LEN.
    replace (12 + i * 4) with (12 + 4 * i) by lia. rewrite read_u32be_spec by lia.
    destruct (Z.le_gt_cases (12 + 4 * i + 4) (zlen vv)) as [Hin|Hout].
    + rewrite checked_read_in by lia. etransitivity; [apply se_bind_ok; reflexivity|].
      rewrite IH by lia. rewrite csrcs_at_S, <- app_assoc.
      replace (i + 1 + Z.of_nat n) with (i + Z.of_nat (S n)) by lia. done.
    + rewrite checked_read_out by lia.
      etransitivity; [apply se_bind_err; reflexivity|]. bdestruct; [lia|done].
Qed.

Lemma read_extension_closed vv off st : 0 <= off -> off <= zlen vv -> bytes_ok vv ->
  read_extension vv off st =
    if (off + 4 <=? zlen vv) && (off + 4 + 4 * u16_at vv (off + 2) <=? zlen vv)
    then (st, Ok (4 + 4 * u16_at vv (off + 2),
                  Some (mk_Extension (u16_at vv off) (mk_Interval (off + 4) (4 * u16_at vv (off + 2))))))
    else (rtp_fail rs_invalid_extension st, Err (rtp_error re_invalid_extension_length)).
Proof.
  intros H0 Hz Hok. unfold read_extension. rewrite (read_u16be_spec vv (off + 2)) by lia.
  destruct (Z.leb_spec (off + 4) (zlen vv)) as [Hin|Hout]; cbn [andb].
  - rewrite checked_read_in by lia. etransitivity; [apply se_bind_ok; reflexivity|].
    fold (u16_at vv (off + 2)). set (n := u16_at vv (off + 2)). cbn zeta.
    assert (0 <= n) by (apply be_val_bounds; auto with fw).
    replace ((n + 1) * 4 - 4) with (4 * n) by lia.
    rewrite contains_spec; cbn [iv_offset iv_count]; [|lia..].
    destruct (Z.leb_spec (off + 4 + 4 * n) (zlen vv)) as [Hc|Hc]; cbn [negb]; [|done].
    rewrite read_u16be_spec, checked_read_in by lia.
    etransitivity; [apply se_bind_ok; reflexivity|].
    replace ((n + 1) * 4) with (4 + 4 * n) by lia. done.
  - rewrite checked_read_out by lia. apply se_bind_err. reflexivity.
Qed.

Lemma read_padding_closed vv size st : 0 <= size <= zlen vv -> bytes_ok vv ->
  read_padding vv size st =
    if (size =? 0) || (size <? byte_at vv (zlen vv - 1))
    then (rtp_fail rs_invalid_padding st, Err (rtp_error re_invalid_packet_padding))
    else (st, Ok (byte_at vv (zlen vv - 1))).
Proof.
  intros Hs Hok. unfold read_padding. destruct (Z.eqb_spec size 0); cbn [orb]; [done|].
  rewrite read_u8_spec, checked_read_in by lia. rewrite be_val_slice_1 by lia.
  etransitivity; [apply se_bind_ok; reflexivity|]. by destruct (Z.ltb_spec size (byte_at vv (zlen vv - 1))).
Qed.

Lemma num_cc_bounds vv : 0 <= num_cc vv < 16.
Proof. apply Z.mod_pos_bound. lia. Qed.

Lemma ext_size_nonneg vv : bytes_ok vv -> 0 <= ext_size_at vv.
Proof.
  intros Hok. unfold ext_size_at, u16_at. case_match; [|lia].
  pose proof (be_val_bounds (slice vv (ext_at vv + 2) 2) ltac:(auto with fw)). lia.
Qed.

(** What the parser knows at its assertion: in particular the assertion holds. *)
Lemma parse_prefix_outcome vv ptmap st : bytes_ok vv ->
  match parse_prefix vv ptmap st with
  | (st', Ok px) =>
      st' = st /\ 12 <= zlen vv /\ byte_at vv 0 / 64 = 2 /\ body_at vv <= zlen vv /\
      exists rate, rtp_clock_rate ptmap (mk_PayloadType (byte_at vv 1 mod 128)) = Some rate /\
      px = mk_Prefix (has_p vv) (byte_at vv 1 / 128 =? 1) (mk_PayloadType (byte_at vv 1 mod 128)) rate
             (csrcs (header (packet_at vv rate))) (maybe_extension (header (packet_at vv rate))) (body_at vv)
  | (st', Err e) => exists c, st' = rtp_fail c st /\ rejection ptmap vv c e
  end.
Proof.
  intros Hok. pose proof (num_cc_bounds vv) as Hcc. unfold parse_prefix, RTP_FIXED_HEADER_LEN.
  destruct (Z.ltb_spec (zlen vv) 12) as [Hs|Hs]; [cbn; eauto using rj_size|].
  rewrite !assured_read_u8_spec, !be_val_slice_1 by lia.
  destruct (first_byte_bits (byte_at vv 0) ltac:(auto with fw)) as (-> & -> & -> & ->).
  destruct (second_byte_bits (byte_at vv 1) ltac:(auto with fw)) as (-> & ->).
  destruct (Z.eqb_spec (byte_at vv 0 / 64) 2) as [Hv|Hv]; cbn [negb]; [|cbn; eauto using rj_version].
  cbn zeta. fold (num_cc vv) (has_p vv) (has_x vv).
  pose proof (read_csrcs_closed vv (Z.to_nat (num_cc vv)) 0 [] st ltac:(lia) ltac:(lia)) as Ec.
  replace (12 + 4 * (0 + Z.of_nat (Z.to_nat (num_cc vv)))) with (ext_at vv) in Ec
    by (unfold ext_at; lia).
  destruct (Z.leb_spec (ext_at vv) (zlen vv)) as [He|He].
  2:{ rewrite (se_bind_err _ _ _ _ _ Ec). eauto using rj_csrc. }
  rewrite (se_bind_ok _ _ _ _ _ Ec). clear Ec.
  destruct (rtp_clock_rate ptmap _) as [rate|] eqn:El.
  2:{ cbn. eexists; split; [done|]. constructor. unfold rtp_clock_rate in El. by case_match. }
  replace (num_cc vv * 4 + 12) with (ext_at vv) by (unfold ext_at; lia).
  assert (0 <= ext_at vv) by (unfold ext_at; lia).
  destruct (has_x vv) eqn:Ex.
  - pose proof (read_extension_closed vv (ext_at vv) st ltac:(lia) He Hok) as Ee.
    replace (ext_at vv + 4 + 4 * u16_at vv (ext_at vv + 2)) with (body_at vv) in Ee
      by (unfold body_at, ext_size_at; rewrite Ex; lia).
    destruct (Z.leb_spec (ext_at vv + 4) (zlen vv)) as [H1|H1]; cbn [andb] in Ee.
    2:{ rewrite (se_bind_err _ _ _ _ _ Ee). eauto using rj_extension. }
    destruct (Z.leb_spec (body_at vv) (zlen vv)) as [H2|H2].
    2:{ rewrite (se_bind_err _ _ _ _ _ Ee). eauto using rj_extension. }
    rewrite (se_bind_ok _ _ _ _ _ Ee). split_and!; try done. exists rate. split; [done|].
    unfold packet_at, body_at, ext_size_at. rewrite Ex. cbn. do 3 f_equal. f_equal. lia.
  - assert (body_at vv = ext_at vv) as Eb by (unfold body_at, ext_size_at; rewrite Ex; lia).
    cbn. split_and!; try done; [lia|]. exists rate. split; [done|].
    rewrite Eb. unfold packet_at. rewrite Ex. cbn. f_equal. lia.
Qed.

Lemma packet_parse_cases vv ptmap st : bytes_ok vv ->
  match packet_parse vv ptmap st with
  | (st', Ok p) => st' = rtp_inc rs_success st /\
      exists rate, acceptable ptmap vv rate /\ p = packet_at vv rate
  | (st', Err e) => exists c, st' = rtp_fail c st /\ rejection ptmap vv c e
  end.
Proof.
  intros Hok. unfold packet_parse. pose proof (parse_prefix_outcome vv ptmap st Hok) as Hp.
  destruct (parse_prefix vv ptmap st) as [st1 [px|e]] eqn:Epx.
  2:{ by rewrite (se_bind_err _ _ _ _ _ Epx). }
  rewrite (se_bind_ok _ _ _ _ _ Epx). destruct Hp as (-> & Hs & Hv & Hb & rate & Hr & ->).
  unfold RTP_SEQUENCE_NUMBER_OFFSET, RTP_TIMESTAMP_OFFSET, RTP_SSRC_OFFSET.
  rewrite assured_read_u16be_spec, !assured_read_u32be_spec by lia. cbn [px_has_padding px_payload_offset].
  pose proof (num_cc_bounds vv). pose proof (ext_size_nonneg vv Hok).
  assert (0 <= body_at vv) by (unfold body_at, ext_at; lia).
  destruct (has_p vv) eqn:Ep.
  - pose proof (read_padding_closed vv (zlen vv - body_at vv) st ltac:(lia) Hok) as Er.
    assert (padding_at vv = byte_at vv (zlen vv - 1)) as Epad by (unfold padding_at; by rewrite Ep).
    rewrite <- Epad in Er.
    destruct (Z.eqb_spec (zlen vv - body_at vv) 0); cbn [orb] in Er.
    { rewrite (se_bind_err _ _ _ _ _ Er). eexists; split; [done|]. constructor; [done|lia]. }
    destruct (Z.ltb_spec (zlen vv - body_at vv) (padding_at vv)) as [Hlt|Hge].
    { rewrite (se_bind_err _ _ _ _ _ Er). eexists; split; [done|]. constructor; [done|lia]. }
    rewrite (se_bind_ok _ _ _ _ _ Er). split; [done|]. exists rate. split; [|done].
    unfold acceptable. split_and!; try done; lia.
  - assert (padding_at vv = 0) as Epad by (unfold padding_at; by rewrite Ep).
    split; [done|]. exists rate. unfold acceptable, packet_at. rewrite Epad, Ep.
    split; [|done]. split_and!; try done; lia.
Qed.

(** The two outcomes exclude each other. *)
Lemma acceptable_not_rejected ptmap vv rate c e : bytes_ok vv ->
  acceptable ptmap vv rate -> ~ rejection ptmap vv c e.
Proof.
  intros Hok (Hs & Hv & Hr & Hb & Hp & Hpad) Hrej. pose proof (ext_size_nonneg vv Hok).
  unfold rtp_clock_rate in Hr. pose proof (be_val_bounds (slice vv (ext_at vv + 2) 2) ltac:(auto with fw)).
  inversion Hrej as [ | | | Hn | Hx Ho | Hx Ho]; subst; try (unfold body_at in *; lia).
  - by rewrite Hn in Hr.
  - unfold body_at, ext_size_at, u16_at in *. rewrite Hx in *. lia.
  - specialize (Hp Hx). lia.
Qed.

Lemma be_bytes_u16_at vv off : bytes_ok vv -> 0 <= off -> off + 2 <= zlen vv ->
  be_bytes 2 (u16_at vv off) = slice vv off 2.
Proof.
  intros. replace 2%nat with (length (slice vv off 2)).
  - apply be_bytes_be_val. auto with fw.
  - pose proof (zlen_slice vv off 2). unfold zlen in *. lia.
Qed.

Lemma be_bytes_u32_at vv off : bytes_ok vv -> 0 <= off -> off + 4 <= zlen vv ->
  be_bytes 4 (u32_at vv off) = slice vv off 4.
Proof.
  intros. replace 4%nat with (length (slice vv off 4)).
  - apply be_bytes_be_val. auto with fw.
  - pose proof (zlen_slice vv off 4). unfold zlen in *. lia.
Qed.

Lemma csrcs_at_bytes vv i n : bytes_ok vv -> 0 <= i -> 12 + 4 * (i + Z.of_nat n) <= zlen vv ->
  List.concat (map (be_bytes 4) (csrcs_at vv i n)) = slice vv (12 + 4 * i) (4 * Z.of_nat n).
Proof.
  intros Hok. revert i. induction n as [|n IH]; intros i Hi Hz; [done|].
  rewrite csrcs_at_S. cbn [map List.concat]. rewrite be_bytes_u32_at, IH by first [done | lia].
  replace (4 * Z.of_nat (S n)) with (4 + 4 * Z.of_nat n) by lia.
  rewrite slice_split by lia. f_equal; f_equal; lia.
Qed.

Lemma length_csrcs_at vv i n : length (csrcs_at vv i n) = n.
Proof. unfold csrcs_at. by rewrite length_map, length_seq. Qed.

Lemma u32_at_fits vv off : bytes_ok vv -> 0 <= off -> off + 4 <= zlen vv -> fits 32 (u32_at vv off).
Proof.
  intros. unfold fits, u32_at. pose proof (be_val_bounds (slice vv off 4) ltac:(auto with fw)) as Hb.
  by rewrite zlen_slice in Hb by lia.
Qed.

Lemma u16_at_fits vv off : bytes_ok vv -> 0 <= off -> off + 2 <= zlen vv -> fits 16 (u16_at vv off).
Proof.
  intros. unfold fits, u16_at. pose proof (be_val_bounds (slice vv off 2) ltac:(auto with fw)) as Hb.
  by rewrite zlen_slice in Hb by lia.
Qed.

(** The fields of an acceptable packet, as a wire description. *)
Definition wire_at (vv : bytes) : RtpWire :=
  mk_RtpWire (byte_at vv 1 / 128 =? 1) (byte_at vv 1 mod 128) (u16_at vv 2) (u32_at vv 4) (u32_at vv 8)
    (csrcs_at vv 0 (Z.to_nat (num_cc vv)))
    (if has_x vv then Some (u16_at vv (ext_at vv), slice vv (ext_at vv + 4) (ext_size_at vv - 4)) else None)
    (has_p vv) (slice vv (body_at vv) (zlen vv - body_at vv)).

Lemma wire_at_first vv : bytes_ok vv -> byte_at vv 0 / 64 = 2 ->
  wire_first (wire_at vv) = byte_at vv 0 /\ wire_second (wire_at vv) = byte_at vv 1.
Proof.
  intros Hok Hv. unfold wire_first, wire_second, wire_at. cbn [rw_padded rw_ext rw_csrcs rw_marker rw_pt].
  pose proof (num_cc_bounds vv).
  replace (zlen (csrcs_at vv 0 (Z.to_nat (num_cc vv)))) with (num_cc vv)
    by (unfold zlen; rewrite length_csrcs_at; lia).
  replace (bool_decide _) with (has_x vv).
  2:{ destruct (has_x vv); symmetry; [by apply bool_decide_true|]. apply bool_decide_false. by intros []. }
  unfold has_p, has_x, num_cc. split.
  - pose proof (forall_bytes (fun b => negb (b / 64 =? 2) || (128 + 32 * bool2Z ((b / 32) mod 2 =? 1) +
      16 * bool2Z ((b / 16) mod 2 =? 1) + b mod 16 =? b)) ltac:(vm_compute; reflexivity)
      (byte_at vv 0) ltac:(auto with fw)) as E.
    cbn beta in E. rewrite Hv in E. cbn [Z.eqb negb orb] in E. by apply Z.eqb_eq in E.
  - pose proof (forall_bytes (fun b => 128 * bool2Z (b / 128 =? 1) + b mod 128 =? b)
      ltac:(vm_compute; reflexivity) (byte_at vv 1) ltac:(auto with fw)) as E.
    by apply Z.eqb_eq in E.
Qed.

Lemma wire_at_bytes vv : bytes_ok vv -> 12 <= zlen vv -> byte_at vv 0 / 64 = 2 ->
  body_at vv <= zlen vv -> wire_bytes (wire_at vv) = vv.
Proof.
  intros Hok Hs Hv Hb. pose proof (num_cc_bounds vv). pose proof (ext_size_nonneg vv Hok) as Hes.
  destruct (wire_at_first vv Hok Hv) as [E0 E1]. unfold wire_bytes. rewrite E0, E1.
  unfold wire_csrcs. cbn [wire_at rw_seq rw_ts rw_ssrc rw_csrcs rw_body].
  rewrite be_bytes_u16_at, !be_bytes_u32_at, csrcs_at_bytes by first [done | unfold body_at, ext_at in *; lia].
  assert (wire_ext (wire_at vv) = slice vv (ext_at vv) (ext_size_at vv)) as ->.
  { unfold wire_ext, wire_at, body_at, ext_size_at in *. cbn [rw_ext].
    destruct (has_x vv); [|done]. set (n := u16_at vv (ext_at vv + 2)) in *.
    assert (0 <= ext_at vv) by (unfold ext_at; lia).
    assert (0 <= n) by (apply be_val_bounds; auto with fw).
    replace (4 + 4 * n - 4) with (4 * n) by lia.
    rewrite zlen_slice by lia. replace (4 * n / 4) with n by (rewrite Z.mul_comm, Z.div_mul; lia).
    unfold n at 1. rewrite !be_bytes_u16_at by first [done | lia].
    replace (4 + 4 * n) with (2 + (2 + 4 * n)) by lia. rewrite !slice_split by lia.
    do 3 f_equal. lia. }
  replace [byte_at vv 0; byte_at vv 1] with (slice vv 0 2).
  2:{ change 2 with (1 + 1) at 1. rewrite slice_split, !(slice_nth vv _ 0) by lia. done. }
  transitivity (slice vv 0 (zlen vv)); [|apply slice_all].
  replace (zlen vv) with (2 + (2 + (4 + (4 + (4 * num_cc vv + (ext_size_at vv + (zlen vv - body_at vv)))))))
    at 2 by (unfold body_at, ext_at; lia).
  rewrite !slice_split by (unfold body_at, ext_at in *; lia).
  rewrite Z2Nat.id by lia. unfold body_at, ext_at.
  repeat (f_equal; try lia).
Qed.

Lemma wire_at_wf ptmap vv rate : bytes_ok vv -> acceptable ptmap vv rate -> wire_wf (wire_at vv).
Proof.
  intros Hok (Hs & Hv & Hr & Hb & Hp & Hpad). pose proof (num_cc_bounds vv).
  pose proof (ext_size_nonneg vv Hok) as Hes. assert (12 <= ext_at vv) by (unfold ext_at; lia).
  assert (0 <= body_at vv) by (unfold body_at; lia).
  unfold wire_wf, wire_padding, wire_at. cbn [rw_pt rw_seq rw_ts rw_ssrc rw_csrcs rw_ext rw_body rw_padded].
  assert (zlen (slice vv (body_at vv) (zlen vv - body_at vv)) = zlen vv - body_at vv) as El
    by (apply zlen_slice; lia).
  rewrite El. split_and!; auto using u16_at_fits, u32_at_fits with fw lia;
    try (apply u16_at_fits || apply u32_at_fits; (done || lia)).
  - apply Z.mod_pos_bound. lia.
  - apply Z.mod_pos_bound. lia.
  - unfold csrcs_at. apply Forall_forall. intros x Hx%list_elem_of_In.
    apply in_map_iff in Hx as (k & <- & Hk%in_seq). apply u32_at_fits; [done|lia|].
    unfold body_at, ext_at in *. lia.
  - unfold zlen. rewrite length_csrcs_at. lia.
  - destruct (has_x vv) eqn:Ex; [|done].
    assert (ext_size_at vv = 4 + 4 * u16_at vv (ext_at vv + 2)) as E
      by (unfold ext_size_at; by rewrite Ex).
    assert (0 <= u16_at vv (ext_at vv + 2)) by (apply be_val_bounds; auto with fw).
    unfold body_at in *.
    pose proof (u16_at_fits vv (ext_at vv + 2) Hok ltac:(lia) ltac:(lia)) as Hf.
    split_and!; [apply u16_at_fits; (done || lia)|auto with fw|].
    exists (u16_at vv (ext_at vv + 2)). unfold fits in Hf. rewrite zlen_slice by lia. lia.
  - destruct (has_p vv) eqn:Ep; [|done]. intros _. specialize (Hp eq_refl). lia.
  - unfold padding_at in Hpad. destruct (has_p vv) eqn:Ep; [|lia]. specialize (Hp eq_refl).
    replace (byte_at (slice vv _ _) _) with (byte_at vv (zlen vv - 1)); [done|].
    rewrite <- !be_val_slice_1 by lia. unfold slice at 2. unfold slice.
    rewrite skipn_firstn_comm, drop_drop. f_equal.
    replace (Z.to_nat (body_at vv) + Z.to_nat (zlen vv - body_at vv - 1))%nat
      with (Z.to_nat (zlen vv - 1)) by lia.
    rewrite take_take. f_equal. lia.
Qed.

(** The packets of the parser are those of the RFC and the exception. *)
Lemma wire_wf_cases w : wire_wf w <-> rfc3550_wf w \/ zero_padding_count w.
Proof.
  assert (bytes_ok (rw_body w) -> 0 <= wire_padding w) as Hnn.
  { intros Hb. unfold wire_padding. destruct (rw_padded w); [|done].
    pose proof (byte_at_ok (rw_body w) (zlen (rw_body w) - 1) Hb) as Hb8. unfold is_byte in Hb8. lia. }
  pose proof (zlen_nonneg (rw_body w)).
  unfold wire_wf, rfc3550_wf, zero_padding_count, wire_fields_wf, rfc3550_padding. split.
  - intros (? & ? & ? & ? & ? & ? & ? & Hb & Hp & Hpad). specialize (Hnn Hb).
    destruct (Z.eq_dec (wire_padding w) 0) as [E0|E0]; [|left; split_and!; done || lia].
    destruct (rw_padded w) eqn:Ep; [|left; split; [split_and!; done || lia|intros [=]]].
    right. split_and!; (done || lia || auto).
  - intros [((? & ? & ? & ? & ? & ? & ? & Hb) & Hp)|((? & ? & ? & ? & ? & ? & ? & Hb) & Ep & Hl & E0)];
      split_and!; try done; try lia.
    + intros E. specialize (Hp E). lia.
    + destruct (rw_padded w) eqn:Ep; [specialize (Hp eq_refl); lia|].
      unfold wire_padding. rewrite Ep. lia.
Qed.

(** *** The fields of the bytes of a wire description *)

Lemma wire_lengths w : wire_wf w ->
  zlen (wire_csrcs w) = 4 * zlen (rw_csrcs w) /\
  zlen (wire_bytes w) = 12 + 4 * zlen (rw_csrcs w) + zlen (wire_ext w) + zlen (rw_body w).
Proof.
  intros _. assert (zlen (wire_csrcs w) = 4 * zlen (rw_csrcs w)) as E.
  { unfold wire_csrcs. induction (rw_csrcs w) as [|x l IH]; [done|].
    cbn [map List.concat]. rewrite zlen_app, zlen_cons, IH, zlen_be_bytes. lia. }
  split; [done|]. unfold wire_bytes. rewrite !zlen_app, E, !zlen_be_bytes, !zlen_cons, zlen_nil. lia.
Qed.

Lemma wire_octets w : wire_wf w ->
  byte_at (wire_bytes w) 0 = wire_first w /\ byte_at (wire_bytes w) 1 = wire_second w /\
  byte_at (wire_bytes w) 0 / 64 = 2 /\
  num_cc (wire_bytes w) = zlen (rw_csrcs w) /\
  has_x (wire_bytes w) = bool_decide (is_Some (rw_ext w)) /\
  has_p (wire_bytes w) = rw_padded w /\
  byte_at (wire_bytes w) 1 mod 128 = rw_pt w /\ (byte_at (wire_bytes w) 1 / 128 =? 1) = rw_marker w.
Proof.
  intros (Hpt & _ & _ & _ & _ & Hcc & _). pose proof (zlen_nonneg (rw_csrcs w)).
  unfold num_cc, has_x, has_p.
  change (byte_at (wire_bytes w) 0) with (wire_first w).
  change (byte_at (wire_bytes w) 1) with (wire_second w).
  unfold wire_first, wire_second. generalize dependent (zlen (rw_csrcs w)). intros cc ? ?.
  split_and!; try done;
    destruct (rw_padded w), (bool_decide (is_Some (rw_ext w))), (rw_marker w); cbn [bool2Z];
    repeat match goal with |- (?a =? ?b) = true => apply Z.eqb_eq
                         | |- (?a =? ?b) = false => apply Z.eqb_neq end;
    try (Z.div_mod_to_equations; lia).
Qed.

Lemma u16_at_app pre v post : fits 16 v ->
  u16_at (pre ++ be_bytes 2 v ++ post) (zlen pre) = v.
Proof. intros. unfold u16_at. rewrite slice_app by done. by apply be_val_be_bytes_small. Qed.

Lemma u32_at_app pre v post : fits 32 v ->
  u32_at (pre ++ be_bytes 4 v ++ post) (zlen pre) = v.
Proof. intros. unfold u32_at. rewrite slice_app by done. by apply be_val_be_bytes_small. Qed.

Lemma csrcs_at_app pre l post i : Forall (fits 32) l -> zlen pre = 12 + 4 * i ->
  csrcs_at (pre ++ List.concat (map (be_bytes 4) l) ++ post) i (length l) = l.
Proof.
  intros Hl. revert pre i. induction Hl as [|x l Hx Hl IH]; intros pre i E; [done|].
  cbn [length map List.concat]. rewrite csrcs_at_S, <- E, <- app_assoc, u32_at_app by done. f_equal.
  rewrite app_assoc. apply (IH (pre ++ be_bytes 4 x)). rewrite zlen_app, E, zlen_be_bytes. lia.
Qed.

Lemma wire_fixed_fields w : wire_wf w ->
  u16_at (wire_bytes w) 2 = rw_seq w /\ u32_at (wire_bytes w) 4 = rw_ts w /\
  u32_at (wire_bytes w) 8 = rw_ssrc w /\ csrcs_at (wire_bytes w) 0 (length (rw_csrcs w)) = rw_csrcs w.
Proof.
  intros (_ & Hs & Ht & Hss & Hc & _). unfold wire_bytes. split_and!.
  - by apply (u16_at_app [wire_first w; wire_second w]).
  - rewrite app_assoc. by apply (u32_at_app ([wire_first w; wire_second w] ++ be_bytes 2 (rw_seq w))).
  - rewrite 2!app_assoc.
    by apply (u32_at_app (([wire_first w; wire_second w] ++ be_bytes 2 (rw_seq w)) ++ be_bytes 4 (rw_ts w))).
  - rewrite 3!app_assoc. by apply csrcs_at_app.
Qed.

Lemma wire_ext_fields w : wire_wf w ->
  ext_size_at (wire_bytes w) = zlen (wire_ext w) /\
  (if has_x (wire_bytes w) then Some (mk_Extension (u16_at (wire_bytes w) (ext_at (wire_bytes w)))
      (mk_Interval (ext_at (wire_bytes w) + 4) (ext_size_at (wire_bytes w) - 4))) else None) =
  (fun e : Z * bytes => mk_Extension e.1 (mk_Interval (12 + 4 * zlen (rw_csrcs w) + 4) (zlen e.2))) <$> rw_ext w.
Proof.
  intros Hwf. destruct (wire_octets w Hwf) as (_ & _ & _ & Ecc & Ex & _).
  destruct (wire_lengths w Hwf) as (Elc & _).
  unfold ext_size_at. rewrite Ex. unfold ext_at. rewrite Ecc. unfold wire_ext.
  destruct Hwf as (_ & _ & _ & _ & _ & _ & He & _).
  destruct (rw_ext w) as [[prof data]|] eqn:Ew; [|done].
  rewrite (bool_decide_true _ (mk_is_Some _ _ eq_refl)).
  destruct He as (Hprof & _ & n & Hn & Hn16). pose proof (zlen_nonneg data).
  replace (zlen data / 4) with n by (rewrite Hn, Z.mul_comm, Z.div_mul; lia).
  set (pre := ((([wire_first w; wire_second w] ++ be_bytes 2 (rw_seq w)) ++ be_bytes 4 (rw_ts w)) ++
                be_bytes 4 (rw_ssrc w)) ++ wire_csrcs w).
  assert (wire_bytes w = pre ++ be_bytes 2 prof ++ be_bytes 2 n ++ data ++ rw_body w) as Eb.
  { unfold wire_bytes, wire_ext, pre. rewrite Ew.
    replace (zlen data / 4) with n by (rewrite Hn, Z.mul_comm, Z.div_mul; lia). by rewrite <- !app_assoc. }
  assert (zlen pre = 12 + 4 * zlen (rw_csrcs w)) as El.
  { unfold pre. rewrite !zlen_app, Elc, !zlen_be_bytes, !zlen_cons, zlen_nil. lia. }
  rewrite Eb, <- El.
  assert (u16_at (pre ++ be_bytes 2 prof ++ be_bytes 2 n ++ data ++ rw_body w) (zlen pre + 2) = n) as En.
  { rewrite app_assoc. replace (zlen pre + 2) with (zlen (pre ++ be_bytes 2 prof))
      by (rewrite zlen_app, zlen_be_bytes; lia).
    apply u16_at_app. unfold fits. lia. }
  rewrite En, u16_at_app by done. rewrite !zlen_app, !zlen_be_bytes, Hn. cbn. split; [lia|].
  do 3 f_equal. rewrite Hn. lia.
Qed.

Lemma wire_acceptable ptmap w rate : wire_wf w -> rtp_clock_rate ptmap (mk_PayloadType (rw_pt w)) = Some rate ->
  acceptable ptmap (wire_bytes w) rate /\ packet_at (wire_bytes w) rate = wire_packet w rate.
Proof.
  intros Hwf Hr. destruct (wire_octets w Hwf) as (E0 & E1 & Ev & Ecc & Ex & Ep & Ept & Em).
  destruct (wire_lengths w Hwf) as (Elc & El). destruct (wire_ext_fields w Hwf) as (Ees & Eext).
  destruct (wire_fixed_fields w Hwf) as (F1 & F2 & F3 & F4).
  destruct Hwf as (_ & _ & _ & _ & _ & _ & _ & Hbody & Hp & Hpad).
  pose proof (zlen_nonneg (rw_csrcs w)). pose proof (zlen_nonneg (wire_ext w)). pose proof (zlen_nonneg (rw_body w)).
  assert (ext_at (wire_bytes w) = 12 + 4 * zlen (rw_csrcs w)) as Eea by (unfold ext_at; lia).
  assert (body_at (wire_bytes w) = 12 + 4 * zlen (rw_csrcs w) + zlen (wire_ext w)) as Eb
    by (unfold body_at; lia).
  assert (padding_at (wire_bytes w) = wire_padding w) as Epad.
  { unfold padding_at, wire_padding. rewrite Ep. destruct (rw_padded w); [|done]. specialize (Hp eq_refl).
    unfold byte_at. rewrite El. unfold wire_bytes. rewrite !app_assoc, app_nth2.
    - f_equal. unfold zlen in *. rewrite !length_app, !length_be_bytes. cbn [length]. lia.
    - unfold zlen in *. rewrite !length_app, !length_be_bytes. cbn [length]. lia. }
  split.
  - unfold acceptable. rewrite Ept, Eb, Epad, El, Ep. split_and!; try done; try lia.
    intros H'. specialize (Hp H'). lia.
  - unfold packet_at, wire_packet. cbn zeta. rewrite Eext, F1, F2, F3, Em, Ept, Ecc, Eb, Epad, El.
    replace (Z.to_nat (zlen (rw_csrcs w))) with (length (rw_csrcs w)) by (unfold zlen; lia).
    rewrite F4. do 2 f_equal. lia.
Qed.

End Facts.

(** ** Properties *)

(** C21. The RTP parser and the packets of RFC 3550: [Packet::parse] succeeds on some bytes if
    and only if their payload type has a clock rate in the map and they are the encoding of
    the fields of a packet of the RFC (version 2, at most 15 contributing sources, an
    optional header extension of whole words, and, when padded, a last octet that counts
    at least itself and at most the octets after the header) or of one exception the RFC
    does not allow: a padded packet, not empty after the header, whose last octet is 0
    (it is then accepted as having no padding). On success the parser counts one success
    and returns those fields, with the intervals of the extension and of the payload
    without its padding. *)
Theorem packet_parse_iff_rfc3550 `{C : Craftpp} (CL : CraftppLaws C)
  (vv : bytes) (ptmap : PayloadMap) (st : RtpStat) (p : Packet) (Hok : bytes_ok vv) :
  packet_parse vv ptmap st = (rtp_inc rs_success st, Ok p) <->
  exists w rate, (rfc3550_wf w \/ zero_padding_count w) /\ vv = wire_bytes w /\
    rtp_clock_rate ptmap (mk_PayloadType (rw_pt w)) = Some rate /\ p = wire_packet w rate.
Proof.
  pose proof (packet_parse_cases vv ptmap st Hok) as Hc. split.
  - intros E. rewrite E in Hc. destruct Hc as (_ & rate & Ha & ->).
    pose proof (wire_at_wf ptmap vv rate Hok Ha) as Hwf. pose proof Ha as (Hs & Hv & Hr & Hb & _).
    exists (wire_at vv), rate. split_and!; try done.
    + by apply wire_wf_cases.
    + symmetry. by apply wire_at_bytes.
    + destruct (wire_acceptable ptmap (wire_at vv) rate Hwf Hr) as [_ <-].
      by rewrite wire_at_bytes.
  - intros (w & rate & Hwf%wire_wf_cases & -> & Hr & ->).
    destruct (wire_acceptable ptmap w rate Hwf Hr) as [Ha Ep].
    destruct (packet_parse _ _ st) as [st' [p|e]].
    + destruct Hc as (-> & rate' & (_ & _ & Hr' & _) & ->). destruct Ha as (_ & _ & Hr0 & _).
      rewrite Hr0 in Hr'. injection Hr' as <-. by rewrite Ep.
    + destruct Hc as (c & _ & Hrej). by destruct (acceptable_not_rejected _ _ _ _ _ Hok Ha Hrej).
Qed.

Definition sample_map : PayloadMap :=
  payload_map_create [(mk_PayloadType 96, mk_PayloadMapItem (mk_ClockRate 90000));
                      (mk_PayloadType 96, mk_PayloadMapItem (mk_ClockRate 8000))].

(** A padded packet with a contributing source, an extension of one word and a payload of
    two octets. *)
Definition sample_wire : RtpWire :=
  mk_RtpWire true 96 7 1000 0xCAFE [0xBEEF] (Some (0xABCD, [1; 2; 3; 4])) true [9; 8; 0; 2].

Lemma sample_wire_wf : wire_wf sample_wire.
Proof.
  unfold wire_wf, sample_wire, wire_padding, fits, is_byte. cbn -[Z.le Z.lt Z.pow].
  split_and!; try done; try lia; try (repeat constructor; done).
  exists 1. split; [done|lia].
Qed.

Lemma packet_parse_iff_rfc3550_witness :
  bytes_ok (wire_bytes sample_wire) /\
  packet_parse (H := reference) (wire_bytes sample_wire) sample_map rtp_stat_zero =
    (rtp_inc rs_success rtp_stat_zero, Ok (wire_packet sample_wire (mk_ClockRate 90000))) /\
  payload (wire_packet sample_wire (mk_ClockRate 90000)) = mk_Interval 24 2.
Proof.
  assert (bytes_ok (wire_bytes sample_wire)) as Hok.
  { vm_compute. repeat constructor; done. }
  split; [exact Hok|split; [|reflexivity]].
  apply (packet_parse_iff_rfc3550 reference_laws _ _ _ _ Hok).
  exists sample_wire, (mk_ClockRate 90000).
  split; [apply wire_wf_cases; exact sample_wire_wf|split; [reflexivity|split; reflexivity]].
Defined.

(** C22. Every outcome of [Packet::parse] is counted and explained: a success increments the
    success counter alone, and the header, the extension and the payload follow each other
    inside the packet; a failure increments the error counter and exactly the counter of a
    condition of the format that the packet violates, with that condition's error. The
    counter of invalid payload types is never incremented: a 7-bit payload type is valid. *)
Theorem packet_parse_outcome `{C : Craftpp} (CL : CraftppLaws C)
  (vv : bytes) (ptmap : PayloadMap) (st : RtpStat) (Hok : bytes_ok vv) :
  match packet_parse vv ptmap st with
  | (st', Ok p) =>
      st' = rtp_inc rs_success st /\
      let off := 12 + 4 * zlen (csrcs (header p)) in
      iv_offset (payload p) =
        match maybe_extension (header p) with
        | Some e => iv_offset (ext_data e) + iv_count (ext_data e)
        | None => off
        end /\
      (forall e, maybe_extension (header p) = Some e -> iv_offset (ext_data e) = off + 4 /\
        0 <= iv_count (ext_data e) /\ iv_count (ext_data e) mod 4 = 0) /\
      0 <= iv_count (payload p) /\ iv_offset (payload p) + iv_count (payload p) <= zlen vv <=
        iv_offset (payload p) + iv_count (payload p) + 255
  | (st', Err e) =>
      exists c, st' = rtp_fail c st /\ rejection ptmap vv c e /\ c <> rs_invalid_payload_type /\
      forall rate, ~ acceptable ptmap vv rate
  end.
Proof.
  pose proof (packet_parse_cases vv ptmap st Hok) as Hc.
  destruct (packet_parse vv ptmap st) as [st' [p|e]].
  - destruct Hc as (-> & rate & Ha & ->). split; [done|]. cbn zeta.
    pose proof (num_cc_bounds vv). destruct Ha as (Hs & Hv & Hr & Hb & Hp & Hpad).
    cbn [packet_at header csrcs payload maybe_extension iv_offset iv_count].
    assert (12 + 4 * zlen (map mk_SSRC (csrcs_at vv 0 (Z.to_nat (num_cc vv)))) = ext_at vv) as ->.
    { unfold ext_at, zlen. rewrite length_map, length_csrcs_at. lia. }
    assert (0 <= padding_at vv < 256) as Hpb.
    { unfold padding_at. destruct (has_p vv); [|lia]. by apply byte_at_ok. }
    assert (0 <= u16_at vv (ext_at vv + 2)) by (apply be_val_bounds; auto with fw).
    split_and!; try lia.
    + unfold body_at, ext_size_at. destruct (has_x vv); cbn; lia.
    + unfold ext_size_at. destruct (has_x vv); [|done]. intros e [= <-].
      cbn [ext_data iv_offset iv_count]. set (n := u16_at vv (ext_at vv + 2)) in *.
      replace (4 + 4 * n - 4) with (n * 4) by lia. rewrite Z.mod_mul by lia. lia.
  - destruct Hc as (c & -> & Hrej). exists c. split_and!; try done.
    + by intros ->; inversion Hrej.
    + intros rate Ha. by apply (acceptable_not_rejected _ _ _ _ _ Hok Ha Hrej).
Qed.

(** A packet whose padding count is larger than its body. *)
Lemma packet_parse_outcome_witness :
  packet_parse (H := reference) [160; 96; 0; 1; 0; 0; 0; 2; 0; 0; 0; 3; 4] sample_map rtp_stat_zero =
    (rtp_fail rs_invalid_padding rtp_stat_zero, Err (rtp_error re_invalid_packet_padding)) /\
  exists c, rtp_fail rs_invalid_padding rtp_stat_zero = rtp_fail c rtp_stat_zero /\
    c <> rs_invalid_payload_type.
Proof.
  assert (bytes_ok [160; 96; 0; 1; 0; 0; 0; 2; 0; 0; 0; 3; 4]) as Hok by (repeat constructor; done).
  assert (packet_parse (H := reference) [160; 96; 0; 1; 0; 0; 0; 2; 0; 0; 0; 3; 4] sample_map rtp_stat_zero =
    (rtp_fail rs_invalid_padding rtp_stat_zero, Err (rtp_error re_invalid_packet_padding))) as E by reflexivity.
  pose proof (packet_parse_outcome reference_laws _ sample_map rtp_stat_zero Hok) as H.
  rewrite E in H. split; [exact E|]. destruct H as (c & H1 & _ & H3 & _). exists c. split; assumption.
Defined.
