(* ===== verification/IceCandidate.v ===== *)
(** * ice/candidate: ICE candidates and their SDP attribute

    The fields of a candidate with their parsers, the priority formula, and
    [parse_sdp_attr], the parser of the attribute of RFC 8839. The theorems: the parser
    accepts exactly the lines of a grammar that contains the lines of the RFC (but for an
    empty last value, and the transports and types that the library does not know), with the
    meaning of each token; it always ends, and a line whose address is not recognised is
    reported as unsupported and not as an error; and priorities follow the formula of RFC
    8445. *)

From S2P Require Import Prelude Errors Craftpp Util Net.

(** ** ice_candidate_foundation.cpp *)

(** The loops over the characters of a string: all of them satisfy [ok], or the error. *)
Definition check_chars (ok : Z -> bool) (e : Error) (v : bytes) : MaybeError :=
  if forallb ok v then success else Err e.

(** A [Foundation] is its [m_value]. *)
Definition foundation_from_string (v : bytes) : Result bytes :=
  if (zlen v =? 0) || (32 <? zlen v) then Err (ice_error ie_invalid_foundation_length) else
  _ ← check_chars is_ice_char (ice_error ie_invalid_foundation_char) v;
  Ok v.

(** ** ice_candidate_component_id.cpp *)

(** A [ComponentId] is its [m_value]. *)
Definition component_id_from_unsigned (v : Z) : Result Z :=
  if (v =? 0) || (256 <? v) then Err (ice_error ie_invalid_component_id_value) else Ok v.

(** [std::atoi] of a string of digits. *)
Fixpoint atoi_loop (v : bytes) (r : Z) : Z :=
  match v with
  | [] => r
  | c :: v' => if is_DIGIT c then atoi_loop v' (10 * r + (c - 0x30)) else r
  end.
Definition atoi (v : bytes) : Z := atoi_loop v 0.

Definition component_id_from_string (v : bytes) : Result Z :=
  if (zlen v =? 0) || (3 <? zlen v) then Err (ice_error ie_invalid_component_id_length) else
  _ ← check_chars is_DIGIT (ice_error ie_invalid_component_id_char) v;
  Ok (u32 (atoi v)).

(** ** ice_candidate_priority.cpp *)

(** A [Priority] is its [m_value]. *)
Definition priority_from_uint32 (v : Z) : Result Z :=
  if v =? 0 then Err (ice_error ie_invalid_priority_value) else Ok v.

Fixpoint priority_digits (v : bytes) (result : Z) : Result Z :=
  match v with
  | [] => Ok result
  | c :: v' =>
      if negb (is_DIGIT c) then Err (ice_error ie_invalid_priority_value)
      else priority_digits v' (u64 (10 * result + c - 0x30))
  end.

Definition priority_from_string (v : bytes) : Result Z :=
  if (zlen v =? 0) || (10 <? zlen v) then Err (ice_error ie_invalid_priority_length) else
  result ← priority_digits v 0;
  if (result =? 0) || (2 ^ 32 - 1 <? result) then Err (ice_error ie_invalid_priority_value)
  else Ok (u32 result).

(** ** ice_candidate_transport_type.cpp *)

Inductive TransportType : Set := UDP.

Definition udp_str : bytes := s2b "udp".

Definition transport_type_to_string (t : TransportType) : bytes := match t with UDP => udp_str end.

(** ** ice_candidate_type.cpp *)

Inductive CandidateType : Set := HOST | SERVER_REFLEXIVE | PEER_REFLEXIVE | RELAYED.

#[export] Instance CandidateType_eq_dec : EqDecision CandidateType.
Proof. solve_decision. Defined.

Definition host_str : bytes := s2b "host".
Definition server_reflexive_str : bytes := s2b "srflx".
Definition peer_reflexive_str : bytes := s2b "prflx".
Definition relayed_str : bytes := s2b "relay".

Definition type_to_string (t : CandidateType) : bytes :=
  match t with
  | HOST => host_str
  | SERVER_REFLEXIVE => server_reflexive_str
  | PEER_REFLEXIVE => peer_reflexive_str
  | RELAYED => relayed_str
  end.

(** ** ice_candidate_preference.cpp *)

(** The three preferences are their [m_value], an [unsigned]. *)
Definition type_preference_recommended_for (t : CandidateType) : Z :=
  match t with HOST => 126 | SERVER_REFLEXIVE => 100 | PEER_REFLEXIVE => 110 | RELAYED => 0 end.

Definition type_preference_from_unsigned (v : Z) : Result Z :=
  if 126 <? v then Err (ice_error ie_invalid_type_preference_value) else Ok v.

Definition local_preference_from_unsigned (v : Z) : Result Z :=
  if 65535 <? v then Err (ice_error ie_invalid_local_preference_value) else Ok v.

Definition component_preference_recommended_for (id : Z) : Z := u32 (256 - id).

Definition component_preference_from_unsigned (v : Z) : Result Z :=
  if 256 <=? v then Err (ice_error ie_invalid_component_preference_value) else Ok v.

Record Preference : Set := mk_Preference { pref_type : Z; pref_local : Z; pref_component : Z }.

Definition to_priority (p : Preference) : Result Z :=
  priority_from_uint32
    (Z.lor (Z.lor (u32 (Z.shiftl (pref_type p) 24)) (u32 (Z.shiftl (pref_local p) 8))) (pref_component p)).

(** ** ice_candidate_address.hpp, ice_candidate_address.cpp *)

(** [ice::candidate::Address::Value]. *)
Inductive IceAddress : Set := IpAddress (ip : Address) | FqdnAddress (fqdn : bytes).

Definition as_fqdn (a : IceAddress) : option bytes :=
  match a with FqdnAddress f => Some f | IpAddress _ => None end.
Definition as_ip_address (a : IceAddress) : option Address :=
  match a with IpAddress ip => Some ip | FqdnAddress _ => None end.

Section Addresses.
Context `{Inet}.

Definition ice_address_from_string (v : bytes) : Result IceAddress :=
  bind_err (IpAddress <$> address_from_string v) (fun iperr =>
    bind_err (FqdnAddress <$> fqdn_from_string v) (fun _ => Err iperr)).

Definition ice_address_to_string (fuel : nat) (a : IceAddress) : option (Result bytes) :=
  match a with
  | IpAddress ip => address_to_string fuel ip
  | FqdnAddress f => Some (Ok f)
  end.

End Addresses.

(** ** ice_candidate.hpp, ice_candidate_sdp.hpp *)

Record Candidate : Set := mk_Candidate {
  c_address : IceAddress;
  c_port : Z;
  c_transport_type : TransportType;
  c_foundation : bytes;
  c_component : Z;
  c_priority : Z;
  c_type : CandidateType;
  c_maybe_related_address : option IceAddress;
  c_maybe_related_port : option Z
}.

(** [Supported::Extension]: the name and the value. *)
Record Extension : Set := mk_Extension { att_name : bytes; att_value : bytes }.

Inductive SDPAttrParseResult : Set :=
| Supported (candidate : Candidate) (extensions : list Extension)
| Unsupported (reason : bytes).

(** ** ice_candidate_sdp.cpp *)

Definition SP : Z := 0x20.
Definition sdp_prefix : bytes := s2b "candidate:".

Definition starts_with (v prefix : bytes) : bool := bool_decide (take (length prefix) v = prefix).

(** The local [advance]. *)
Definition sdp_advance (v : bytes) (sz : Z) : option bytes :=
  if zlen v <? sz then None else Some (drop (Z.to_nat sz) v).

(** The optional part: the variables that the loop assigns. *)
Record SdpTail : Set := mk_SdpTail {
  maybe_raddr : option (Result IceAddress);
  maybe_rport : option (Result Z);
  tail_extensions : list Extension
}.

Section Sdp.
Context `{Craftpp} `{Inet}.

(** [Error::message] of craftpp: the text of an error with its context. *)
Context (error_message : Error -> bytes).

Definition transport_type_from_string (v : bytes) : Result TransportType :=
  if eq_string v udp_str then Ok UDP
  else Err (add_context_error [s2b "transport type"; v] (ice_error ie_unknown_transport_type)).

Definition type_from_string (v : bytes) : Result CandidateType :=
  if eq_string v host_str then Ok HOST
  else if eq_string v server_reflexive_str then Ok SERVER_REFLEXIVE
  else if eq_string v peer_reflexive_str then Ok PEER_REFLEXIVE
  else if eq_string v relayed_str then Ok RELAYED
  else Err (add_context_error [s2b "candidate type"; v] (ice_error ie_unknown_candidate_type)).

(** [tstr.required_bind(f).add_context(ctx)]: the position moves whatever the result. *)
Definition required_field {A} (ctx : string) (f : bytes -> Result A) (tstr : TokenStream)
    : TokenStream * Result A :=
  let '(tstr, r) := ts_required_bind f tstr in (tstr, add_context [s2b ctx] r).

(** The [while (true)] loop; the fuel bounds its iterations. *)
Fixpoint sdp_loop (fuel : nat) (tstr : TokenStream) (tl : SdpTail) : option (Result SdpTail) :=
  match fuel with
  | O => None
  | S fuel' =>
      let '(tstr, maybe_att_name) := ts_optional tstr in
      match maybe_att_name with
      | None => Some (Ok tl)
      | Some name =>
          if bool_decide (name = s2b "raddr") then
            let '(tstr, r) := required_field "raddr" ice_address_from_string tstr in
            sdp_loop fuel' tstr (mk_SdpTail (Some r) (maybe_rport tl) (tail_extensions tl))
          else if bool_decide (name = s2b "rport") then
            let '(tstr, r) := required_field "rport" port_from_string tstr in
            sdp_loop fuel' tstr (mk_SdpTail (maybe_raddr tl) (Some r) (tail_extensions tl))
          else
            match ts_required tstr with
            | (_, Err e) => Some (Err e)
            | (tstr, Ok value) =>
                sdp_loop fuel' tstr
                  (mk_SdpTail (maybe_raddr tl) (maybe_rport tl) (tail_extensions tl ++ [mk_Extension name value]))
            end
      end
  end.

(** [Maybe<Result<T>>] to [Result<Maybe<T>>]. *)
Definition maybe_result {A} (m : option (Result A)) : Result (option A) :=
  match m with Some r => Some <$> r | None => Ok None end.

(** Lines 102 to 165, once every token is read. *)
Definition sdp_result (foundation_rv : Result bytes) (component_id_rv : Result Z)
    (transport_rv : Result TransportType) (priority_rv : Result Z) (connection_addr_rv : Result IceAddress)
    (port_rv : Result Z) (type_rv : Result CandidateType) (tl : SdpTail) : Result SDPAttrParseResult :=
  let combined :=
    let maybe_raddr_rv := maybe_result (maybe_raddr tl) in
    let maybe_rport_rv := maybe_result (maybe_rport tl) in
    match foundation_rv, component_id_rv, transport_rv, priority_rv, connection_addr_rv, port_rv, type_rv,
          maybe_raddr_rv, maybe_rport_rv with
    | Ok f, Ok cid, Ok t, Ok p, Ok addr, Ok port, Ok type, Ok raddr, Ok rport =>
        Ok (Supported (mk_Candidate addr port t f cid p type raddr rport) (tail_extensions tl))
    | _, _, _, _, _, _, _, _, _ =>
        Err (pick_error (err_list foundation_rv ++ err_list component_id_rv ++ err_list transport_rv ++
          err_list priority_rv ++ err_list connection_addr_rv ++ err_list port_rv ++ err_list type_rv ++
          err_list maybe_raddr_rv ++ err_list maybe_rport_rv))
    end in
  match any_is_err3 connection_addr_rv type_rv transport_rv with
  | Err error =>
      if is_err connection_addr_rv
         || error_is error (make_ice_error_code ie_unknown_candidate_type)
         || error_is error (make_ice_error_code ie_unknown_transport_type)
      then Ok (Unsupported (error_message error))
      else combined
  | Ok _ => combined
  end.

Definition parse_sdp_attr (fuel : nat) (inv : bytes) : option (Result SDPAttrParseResult) :=
  if negb (starts_with inv sdp_prefix) then Some (Err (ice_error ie_invalid_attr_prefix)) else
  match sdp_advance inv (zlen sdp_prefix) with
  | None => Some (Err (ice_error ie_invalid_attr_prefix))
  | Some v =>
      let tstr := token_stream (split_all v SP) in
      let '(tstr, foundation_rv) := required_field "foundation" foundation_from_string tstr in
      let '(tstr, component_id_rv) := required_field "component" component_id_from_string tstr in
      let '(tstr, transport_rv) := required_field "transport" transport_type_from_string tstr in
      let '(tstr, priority_rv) := required_field "priority" priority_from_string tstr in
      let '(tstr, connection_addr_rv) := required_field "address" ice_address_from_string tstr in
      let '(tstr, port_rv) := required_field "port" port_from_string tstr in
      let '(tstr, type_rv) :=
        (_ ← ts_required_token (s2b "typ"); ts_required_bind type_from_string) tstr in
      match sdp_loop fuel tstr (mk_SdpTail None None []) with
      | None => None
      | Some (Err e) => Some (Err e)
      | Some (Ok tl) =>
          Some (sdp_result foundation_rv component_id_rv transport_rv priority_rv connection_addr_rv port_rv type_rv tl)
      end
  end.

End Sdp.

(** ** Specification: the grammar of the lines and its meaning *)

(** [a*bDIGIT]. *)
Definition digits (a b : Z) (v : bytes) : Prop := a <= zlen v <= b /\ forallb is_DIGIT v = true.

Section Grammar.
Context `{Inet}.

(** A connection address: an IP address, as the system reads it, or else a domain name. *)
Definition denotes_address (v : bytes) (a : IceAddress) : Prop :=
  match a with
  | IpAddress ip => address_from_string v = Ok ip
  | FqdnAddress f => is_err (address_from_string v) = true /\ fqdn_domain v /\ f = v
  end.

Definition denotes_port (v : bytes) (p : Z) : Prop := digits 1 5 v /\ p = decimal v /\ p < 2 ^ 16.

(** The required tokens of a line and the fields that they give. *)
Record candidate_tokens (c : Candidate) (fnd cid transport prio addr port typ : bytes) : Prop := {
  ct_foundation : 1 <= zlen fnd <= 32 /\ forallb is_ice_char fnd = true /\ c_foundation c = fnd;
  ct_component : digits 1 3 cid /\ c_component c = decimal cid;
  ct_transport : map tolower transport = transport_type_to_string (c_transport_type c);
  ct_priority : digits 1 10 prio /\ c_priority c = decimal prio /\ 1 <= c_priority c < 2 ^ 32;
  ct_address : denotes_address addr (c_address c);
  ct_port : denotes_port port (c_port c);
  ct_type : map tolower typ = type_to_string (c_type c)
}.

(** The optional part: names and values in turn. *)
Definition flat_pairs (pairs : list (bytes * bytes)) : list bytes := flat_map (fun p => [p.1; p.2]) pairs.

(** The values given to a name, and the extensions, in order. *)
Definition values_of (name : bytes) (pairs : list (bytes * bytes)) : list bytes :=
  map snd (filter (fun p => p.1 = name) pairs).
Definition extensions_of (pairs : list (bytes * bytes)) : list Extension :=
  map (fun p => mk_Extension p.1 p.2) (filter (fun p => p.1 <> s2b "raddr" /\ p.1 <> s2b "rport") pairs).

(** The last value of a name counts; without one the field is absent. *)
Definition last_denotes {A} (R : bytes -> A -> Prop) (values : list bytes) (r : option A) : Prop :=
  match last values, r with
  | None, None => True
  | Some v, Some a => R v a
  | _, _ => False
  end.

End Grammar.

(** The text of a line with these tokens after [candidate:]. *)
Definition sdp_line (v : bytes) (tokens : list bytes) : Prop :=
  exists body, v = sdp_prefix ++ body /\ separated SP tokens body.

(** *** The extension attributes of the RFC *)

(** [token] of RFC 3261, and [VCHAR]. *)
Definition is_token_char (ch : Z) : bool :=
  is_ALPHA ch || is_DIGIT ch || bool_decide (ch ∈ s2b "-.!%*_+`'~").
Definition is_VCHAR (ch : Z) : bool := (0x21 <=? ch) && (ch <=? 0x7e).

(** [cand-extension], with a name that is not one of those of the optional fields; the
    value may be empty. *)
Definition rfc8839_extension (e : Extension) : Prop :=
  att_name e <> [] /\ forallb is_token_char (att_name e) = true /\
  att_name e <> s2b "raddr" /\ att_name e <> s2b "rport" /\ forallb is_VCHAR (att_value e) = true.

(** [[SP rel-addr] [SP rel-port] *(SP cand-extension)]: each at most once and in this order. *)
Definition rfc8839_tail (raddr rport : option bytes) (exts : list Extension) : list (bytes * bytes) :=
  from_option (fun a => [(s2b "raddr", a)]) [] raddr ++
  from_option (fun p => [(s2b "rport", p)]) [] rport ++
  map (fun e => (att_name e, att_value e)) exts.

(** ** Lemmas: the fields *)

Section Fields.
Context `{Craftpp} `{Inet}.

Lemma check_chars_bind {A} ok e v (a : A) r :
  (_ ← check_chars ok e v; Ok a) = Ok r <-> forallb ok v = true /\ r = a.
Proof. unfold check_chars. destruct (forallb ok v); cbn; split; [by intros [= ->]|by intros [_ ->]|done|by intros []]. Qed.

Lemma length_guard {A} (v : bytes) n e (x : Result A) r :
  (if (zlen v =? 0) || (n <? zlen v) then Err e else x) = Ok r <-> 1 <= zlen v <= n /\ x = Ok r.
Proof.
  pose proof (zlen_nonneg v). destruct (Z.eqb_spec (zlen v) 0), (Z.ltb_spec n (zlen v)); cbn [orb];
    (split; [try done|intros [? ?]; first [lia|done]]). intros ->. split; [lia|done].
Qed.

Lemma foundation_from_string_iff v f :
  foundation_from_string v = Ok f <-> 1 <= zlen v <= 32 /\ forallb is_ice_char v = true /\ f = v.
Proof. unfold foundation_from_string. rewrite length_guard, check_chars_bind. done. Qed.

Lemma atoi_loop_digits v : forall r, forallb is_DIGIT v = true ->
  atoi_loop v r = fold_left (fun r c => 10 * r + (c - 0x30)) v r.
Proof. induction v as [|c v IH]; intros r; cbn; [done|]. intros [-> ?]%andb_true_iff. by apply IH. Qed.

Lemma decimal_lt v n : digits 1 n v -> 0 <= decimal v < 10 ^ n.
Proof.
  intros [Hl Hd]. pose proof (decimal_bounds v (forallb_digits v Hd) 0 ltac:(lia)) as Hb. fold (decimal v) in Hb.
  assert (10 ^ zlen v <= 10 ^ n) by (apply Z.pow_le_mono_r; lia). lia.
Qed.

Lemma component_id_from_string_iff v n :
  component_id_from_string v = Ok n <-> digits 1 3 v /\ n = decimal v.
Proof.
  unfold component_id_from_string. rewrite length_guard, check_chars_bind. unfold digits.
  split; [intros (? & Hd & ->)|intros [[? Hd] ->]]; (split; [done|]); unfold atoi; rewrite atoi_loop_digits by done;
    pose proof (decimal_lt v 3 ltac:(split; done)); rewrite wrap_small by (unfold fits, decimal in *; lia); done.
Qed.

Lemma priority_digits_eq v : forall r, 0 <= r -> (r + 1) * 10 ^ zlen v <= 10 ^ 18 ->
  priority_digits v r = if forallb is_DIGIT v then Ok (fold_left (fun r c => 10 * r + (c - 0x30)) v r)
                        else Err (ice_error ie_invalid_priority_value).
Proof.
  induction v as [|c v IH]; intros r Hr Hb; [done|]. cbn [priority_digits forallb fold_left].
  destruct (is_DIGIT c) eqn:Hc; [|done]. cbn [negb andb]. unfold is_DIGIT in Hc.
  rewrite zlen_cons, Z.pow_add_r, Z.pow_1_r in Hb by lenlia. zl.
  assert (0 < 10 ^ zlen v) by (apply Z.pow_pos_nonneg; lenlia).
  rewrite wrap_small by (unfold fits; nia).
  rewrite IH by nia. by replace (10 * r + c - 48) with (10 * r + (c - 48)) by lia.
Qed.

Lemma priority_from_string_iff v n :
  priority_from_string v = Ok n <-> digits 1 10 v /\ n = decimal v /\ 1 <= n < 2 ^ 32.
Proof.
  unfold priority_from_string. rewrite length_guard. unfold digits.
  assert (1 <= zlen v <= 10 -> priority_digits v 0 =
    if forallb is_DIGIT v then Ok (decimal v) else Err (ice_error ie_invalid_priority_value)) as E.
  { intros ?. apply priority_digits_eq; [lia|]. assert (10 ^ zlen v <= 10 ^ 10) by (apply Z.pow_le_mono_r; lia). lia. }
  destruct (forallb is_DIGIT v) eqn:Hd; (split; [intros [Hl Hx]|intros ([Hl ?] & -> & Hn)]); try done; rewrite E in * by done; cbn [mbind result_bind] in *.
  - pose proof (decimal_lt v 10 ltac:(split; done)).
    destruct (Z.eqb_spec (decimal v) 0), (Z.ltb_spec (2 ^ 32 - 1) (decimal v)); cbn [orb] in Hx; try done.
    rewrite wrap_small in Hx by (unfold fits; lia). injection Hx as <-. split_and!; (done || lia).
  - split; [done|]. rewrite (proj2 (Z.eqb_neq _ _)), (proj2 (Z.ltb_ge _ _)) by lia. cbn [orb].
    by rewrite wrap_small by (unfold fits; lia).
  - done.
Qed.

Lemma port_from_string_iff v n : port_from_string v = Ok n <-> denotes_port v n.
Proof.
  rewrite port_from_string_eq. unfold valid_port, denotes_port, digits. split.
  - destruct (_ && _) eqn:E; [|done]. intros [= <-]. rewrite !andb_true_iff, !Z.leb_le in E. split_and!; (tauto || lia).
  - intros ([[? ?] Hd] & -> & ?). by rewrite Hd, !(proj2 (Z.leb_le _ _)) by lia.
Qed.

Lemma transport_type_from_string_iff v t :
  transport_type_from_string v = Ok t <-> map tolower v = transport_type_to_string t.
Proof.
  unfold transport_type_from_string. rewrite eq_string_spec. destruct t. change (map tolower udp_str) with udp_str.
  cbn [transport_type_to_string]. case_bool_decide; split; done.
Qed.

Lemma type_from_string_iff v t : type_from_string v = Ok t <-> map tolower v = type_to_string t.
Proof.
  unfold type_from_string. rewrite !eq_string_spec.
  change (map tolower host_str) with host_str. change (map tolower server_reflexive_str) with server_reflexive_str.
  change (map tolower peer_reflexive_str) with peer_reflexive_str. change (map tolower relayed_str) with relayed_str.
  destruct t; cbn [type_to_string]; (split; [repeat case_bool_decide; congruence|intros ->; reflexivity]).
Qed.

Lemma ice_address_from_string_iff v a : ice_address_from_string v = Ok a <-> denotes_address v a.
Proof.
  unfold ice_address_from_string, denotes_address. destruct (address_from_string v) as [ip|e];
    cbn [bind_err fmap result_fmap is_err is_ok negb].
  { destruct a; split; [congruence|congruence|done|by intros []]. }
  destruct (fqdn_from_string v) as [f|e'] eqn:Ef; cbn [bind_err fmap result_fmap].
  - apply fqdn_from_string_iff in Ef as [-> Hd]. destruct a; split; try done; [by intros [= ->]|by intros (_ & _ & ->)].
  - split; [done|]. destruct a as [|f]; [done|]. intros (_ & Hd & _).
    assert (fqdn_from_string v = Ok v) by by apply fqdn_from_string_iff. congruence.
Qed.

End Fields.

(** ** Lemmas: the optional part *)

(** Names and values in turn, and a last name without a value. *)
Lemma flat_pairs_cases (l : list bytes) :
  exists pairs, l = flat_pairs pairs \/ exists name, l = flat_pairs pairs ++ [name].
Proof.
  remember (length l) as n eqn:En. revert l En. induction (lt_wf n) as [n _ IH]. intros [|a [|b l]] ->.
  - exists []. by left.
  - exists []. right. by exists a.
  - destruct (IH (length l) ltac:(cbn; lia) l eq_refl) as (pairs & [->|[name ->]]); exists ((a, b) :: pairs); [by left|].
    right. by exists name.
Qed.

Lemma length_flat_pairs pairs : length (flat_pairs pairs) = (2 * length pairs)%nat.
Proof. unfold flat_pairs. induction pairs as [|p pairs IH]; cbn in *; lia. Qed.

Lemma flat_pairs_odd pairs pairs' name : flat_pairs pairs <> flat_pairs pairs' ++ [name].
Proof.
  revert pairs'. induction pairs as [|[a b] pairs IH]; intros [|[a' b'] pairs']; cbn; try done.
  intros [= _ _ E]. by apply IH in E.
Qed.

Lemma flat_pairs_inj pairs pairs' : flat_pairs pairs = flat_pairs pairs' -> pairs = pairs'.
Proof.
  revert pairs'. induction pairs as [|[a b] pairs IH]; intros [|[a' b'] pairs']; cbn; try done.
  intros [= -> -> E]. by rewrite (IH _ E).
Qed.

Section Parser.
Context `{Craftpp} `{Inet}.

Lemma ts_required_at toks k : ts_required (mk_TokenStream toks (min k (length toks))) =
  (mk_TokenStream toks (min (S k) (length toks)),
   match toks !! k with Some tok => Ok tok | None => Err (token_error te_no_required_token) end).
Proof.
  unfold ts_required. cbn [ts_data ts_pos]. destruct (Nat.lt_ge_cases k (length toks)) as [Hk|Hk].
  - rewrite !Nat.min_l by lia. destruct (lookup_lt_is_Some_2 toks k Hk) as [tok ->]. done.
  - rewrite !Nat.min_r by lia. by rewrite !(lookup_ge_None_2 toks) by lia.
Qed.

(** The [k]-th required token, read by [f]. *)
Definition token_field {A} (f : bytes -> Result A) (toks : list bytes) (k : nat) : Result A :=
  match toks !! k with Some tok => f tok | None => Err (token_error te_no_required_token) end.

Lemma ts_required_bind_at {A} (f : bytes -> Result A) toks k :
  ts_required_bind f (mk_TokenStream toks (min k (length toks))) =
  (mk_TokenStream toks (min (S k) (length toks)), token_field f toks k).
Proof.
  unfold ts_required_bind, mbind, se_bind, token_field. rewrite ts_required_at.
  by destruct (toks !! k).
Qed.

Lemma required_field_at {A} ctx (f : bytes -> Result A) toks k :
  required_field ctx f (mk_TokenStream toks (min k (length toks))) =
  (mk_TokenStream toks (min (S k) (length toks)), add_context [s2b ctx] (token_field f toks k)).
Proof. unfold required_field. by rewrite ts_required_bind_at. Qed.

(** One name and its value. *)
Definition tail_step (tl : SdpTail) (p : bytes * bytes) : SdpTail :=
  if bool_decide (p.1 = s2b "raddr") then
    mk_SdpTail (Some (add_context [s2b "raddr"] (ice_address_from_string p.2))) (maybe_rport tl) (tail_extensions tl)
  else if bool_decide (p.1 = s2b "rport") then
    mk_SdpTail (maybe_raddr tl) (Some (add_context [s2b "rport"] (port_from_string p.2))) (tail_extensions tl)
  else mk_SdpTail (maybe_raddr tl) (maybe_rport tl) (tail_extensions tl ++ [mk_Extension p.1 p.2]).

(** The loop at position [k]. *)
Definition loop_at (fuel : nat) (toks : list bytes) (k : nat) (tl : SdpTail) : option (Result SdpTail) :=
  sdp_loop fuel (mk_TokenStream toks (min k (length toks))) tl.

Lemma loop_at_nil fuel toks k tl : (length toks <= k)%nat -> loop_at (S fuel) toks k tl = Some (Ok tl).
Proof.
  intros Hk. unfold loop_at. cbn [sdp_loop]. unfold ts_optional. cbn [ts_data ts_pos].
  by rewrite lookup_ge_None_2 by lia.
Qed.

Lemma loop_at_cons fuel toks k name tl : toks !! k = Some name ->
  loop_at (S fuel) toks k tl =
    match toks !! S k with
    | Some value => loop_at fuel toks (S (S k)) (tail_step tl (name, value))
    | None =>
        let missing {A} ctx : Result A := add_context [s2b ctx] (Err (token_error te_no_required_token)) in
        if bool_decide (name = s2b "raddr") then
          loop_at fuel toks (S (S k)) (mk_SdpTail (Some (missing "raddr"%string)) (maybe_rport tl) (tail_extensions tl))
        else if bool_decide (name = s2b "rport") then
          loop_at fuel toks (S (S k)) (mk_SdpTail (maybe_raddr tl) (Some (missing "rport"%string)) (tail_extensions tl))
        else Some (Err (token_error te_no_required_token))
    end.
Proof.
  intros Hn. pose proof (lookup_lt_Some _ _ _ Hn) as Hk. unfold loop_at. cbn [sdp_loop]. unfold ts_optional.
  cbn [ts_data ts_pos]. rewrite (Nat.min_l k) by lia. rewrite Hn.
  replace (mk_TokenStream toks (S k)) with (mk_TokenStream toks (min (S k) (length toks))) by (f_equal; lia).
  rewrite !required_field_at, ts_required_at. unfold token_field, tail_step. cbn [fst snd].
  destruct (toks !! S k) as [value|]; repeat case_bool_decide; done.
Qed.

Lemma lookup_drop_cons {A} (l : list A) k x rest : drop k l = x :: rest -> l !! k = Some x /\ drop (S k) l = rest.
Proof.
  intros E. split.
  - pose proof (lookup_drop l k 0) as Hl. rewrite E, Nat.add_0_r in Hl. done.
  - change (S k) with (1 + k)%nat. rewrite Nat.add_comm, <- drop_drop, E. done.
Qed.

Lemma lookup_drop_nil {A} (l : list A) k : drop k l = [] -> l !! k = None /\ (length l <= k)%nat.
Proof.
  intros E. apply (f_equal length) in E. rewrite length_drop in E. cbn in E.
  split; [apply lookup_ge_None_2|]; lia.
Qed.

(** With every name followed by a value, the loop folds over the pairs. *)
Lemma loop_at_pairs toks pairs : forall fuel k tl, drop k toks = flat_pairs pairs ->
  (length pairs < fuel)%nat -> loop_at fuel toks k tl = Some (Ok (fold_left tail_step pairs tl)).
Proof.
  induction pairs as [|[n v] pairs IH]; intros [|fuel] k tl E Hf; cbn in Hf; try lia.
  - apply loop_at_nil. by apply lookup_drop_nil.
  - cbn in E. apply lookup_drop_cons in E as [E1 E]. apply lookup_drop_cons in E as [E2 E].
    rewrite (loop_at_cons fuel toks k n tl E1), E2. cbn [fold_left]. by apply IH; [|lia].
Qed.

(** A last name without a value is an error, of the loop or of the field it names. *)
Lemma loop_at_odd toks pairs name : forall fuel k tl, drop k toks = flat_pairs pairs ++ [name] ->
  (S (length pairs) < fuel)%nat ->
  loop_at fuel toks k tl = Some (Err (token_error te_no_required_token)) /\ name <> s2b "raddr" /\ name <> s2b "rport" \/
  exists tl', loop_at fuel toks k tl = Some (Ok tl') /\
    (default false (is_err <$> maybe_raddr tl') = true \/ default false (is_err <$> maybe_rport tl') = true).
Proof.
  induction pairs as [|[n v] pairs IH]; intros [|fuel] k tl E Hf; cbn in Hf; try lia.
  - cbn in E. apply lookup_drop_cons in E as [E1 E]. apply lookup_drop_nil in E as [E2 Hl].
    rewrite (loop_at_cons fuel toks k name tl E1), E2. destruct fuel as [|fuel]; [lia|].
    cbv zeta. rewrite !loop_at_nil by lia. repeat case_bool_decide; [right..|by left]; (eexists; split; [reflexivity|]); [by left|by right].
  - cbn in E. apply lookup_drop_cons in E as [E1 E]. apply lookup_drop_cons in E as [E2 E].
    rewrite (loop_at_cons fuel toks k n tl E1), E2. by apply IH; [|lia].
Qed.

(** *** What the fold collects *)

Lemma values_of_snoc name pairs p :
  values_of name (pairs ++ [p]) = values_of name pairs ++ (if bool_decide (p.1 = name) then [p.2] else []).
Proof. unfold values_of. rewrite filter_app, map_app. f_equal. cbn. case_bool_decide; by case_decide. Qed.

Lemma extensions_of_snoc pairs p :
  extensions_of (pairs ++ [p]) = extensions_of pairs ++
    (if bool_decide (p.1 = s2b "raddr") then [] else if bool_decide (p.1 = s2b "rport") then [] else [mk_Extension p.1 p.2]).
Proof.
  unfold extensions_of. rewrite filter_app, map_app. f_equal. unfold filter. cbn [list_filter].
  case_decide as Hd; repeat case_bool_decide; tauto.
Qed.

Lemma fold_tail_step pairs tl : fold_left tail_step pairs (mk_SdpTail None None []) = tl ->
  maybe_raddr tl = (fun v => add_context [s2b "raddr"] (ice_address_from_string v)) <$> last (values_of (s2b "raddr") pairs) /\
  maybe_rport tl = (fun v => add_context [s2b "rport"] (port_from_string v)) <$> last (values_of (s2b "rport") pairs) /\
  tail_extensions tl = extensions_of pairs.
Proof.
  intros <-. induction pairs as [|p pairs (IH1 & IH2 & IH3)] using rev_ind; [done|].
  rewrite fold_left_app, !values_of_snoc, extensions_of_snoc. cbn [fold_left].
  set (tl := fold_left tail_step pairs _) in *. unfold tail_step.
  assert (s2b "raddr" <> s2b "rport") as Hne by discriminate.
  destruct (bool_decide (p.1 = s2b "raddr")) eqn:Er; [|destruct (bool_decide (p.1 = s2b "rport")) eqn:Ep].
  - apply bool_decide_eq_true in Er. rewrite Er, (bool_decide_false (s2b "raddr" = s2b "rport")) by done.
    cbn [maybe_raddr maybe_rport tail_extensions]. rewrite !app_nil_r, last_snoc. done.
  - cbn [maybe_raddr maybe_rport tail_extensions]. rewrite !app_nil_r, last_snoc. done.
  - cbn [maybe_raddr maybe_rport tail_extensions]. rewrite !app_nil_r. by rewrite IH3.
Qed.

Lemma maybe_result_last {A} (f : bytes -> Result A) (R : bytes -> A -> Prop) ctx values r :
  (forall v a, f v = Ok a <-> R v a) ->
  maybe_result ((fun v => add_context ctx (f v)) <$> last values) = Ok r <-> last_denotes R values r.
Proof.
  intros Hf. unfold maybe_result, last_denotes. destruct (last values) as [v|]; cbn.
  - specialize (Hf v). destruct (f v) as [a|e]; cbn.
    + split; [intros [= <-]; by apply Hf|]. destruct r as [b|]; [|done]. intros Hb%Hf. congruence.
    + split; [done|]. destruct r as [b|]; [|done]. by intros ?%Hf.
  - destruct r; split; done.
Qed.

End Parser.

(** ** Lemmas: the whole line *)

Lemma starts_with_iff v : starts_with v sdp_prefix = true <-> exists body, v = sdp_prefix ++ body.
Proof.
  unfold starts_with. rewrite bool_decide_eq_true. split.
  - intros E. exists (drop (length sdp_prefix) v). by rewrite <- E at 1; rewrite take_drop.
  - intros [body ->]. by rewrite take_app_length.
Qed.

Lemma sdp_advance_prefix body : sdp_advance (sdp_prefix ++ body) (zlen sdp_prefix) = Some body.
Proof.
  unfold sdp_advance. rewrite zlen_app. pose proof (zlen_nonneg body).
  rewrite (proj2 (Z.ltb_ge _ _)) by lia. unfold zlen. by rewrite Nat2Z.id, drop_app_length.
Qed.

Lemma length_split_all sv sep : (length (split_all sv sep) <= length sv)%nat.
Proof.
  pose proof (split_all_spec sv sep) as H. induction H as [|sv Hne Hs|a b l Ha Hb IH]; cbn; [done| |].
  - destruct sv; [done|]. cbn. lia.
  - rewrite length_app. cbn. lia.
Qed.

Section Line.
Context `{Craftpp} `{Inet}.
Context (error_message : Error -> bytes).

(** The candidate type and the position of the optional part. *)
Definition type_field (toks : list bytes) : Result CandidateType * nat :=
  match toks !! 6%nat with
  | Some tok =>
      if bool_decide (tok = s2b "typ") then (token_field type_from_string toks 7, 8%nat)
      else (Err (add_context_error [s2b "expected"; s2b "typ"; s2b "received"; tok] (token_error te_expected_token_missed)), 7%nat)
  | None => (Err (token_error te_no_required_token), 7%nat)
  end.

Lemma type_field_at toks :
  (_ ← ts_required_token (s2b "typ"); ts_required_bind type_from_string) (mk_TokenStream toks (min 6 (length toks))) =
  (mk_TokenStream toks (min (type_field toks).2 (length toks)), (type_field toks).1).
Proof.
  unfold ts_required_token. unfold mbind at 1, se_bind at 1. rewrite ts_required_bind_at. unfold type_field, token_field at 1.
  destruct (toks !! 6%nat) as [tok|] eqn:E; [|done]. case_bool_decide; [|done]. cbn [success].
  unfold success. rewrite ts_required_bind_at. done.
Qed.

(** The result in terms of the tokens. *)
Definition fields_result (toks : list bytes) : SdpTail -> Result SDPAttrParseResult :=
  sdp_result error_message
    (add_context [s2b "foundation"] (token_field foundation_from_string toks 0))
    (add_context [s2b "component"] (token_field component_id_from_string toks 1))
    (add_context [s2b "transport"] (token_field transport_type_from_string toks 2))
    (add_context [s2b "priority"] (token_field priority_from_string toks 3))
    (add_context [s2b "address"] (token_field ice_address_from_string toks 4))
    (add_context [s2b "port"] (token_field port_from_string toks 5))
    (type_field toks).1.

Lemma parse_sdp_attr_tokens fuel body : let toks := split_all body SP in
  parse_sdp_attr error_message fuel (sdp_prefix ++ body) =
    match loop_at fuel toks (type_field toks).2 (mk_SdpTail None None []) with
    | None => None
    | Some (Err e) => Some (Err e)
    | Some (Ok tl) => Some (fields_result toks tl)
    end.
Proof.
  cbv zeta. unfold parse_sdp_attr. rewrite (proj2 (starts_with_iff _)) by by eexists. cbn [negb].
  rewrite sdp_advance_prefix. set (toks := split_all body SP).
  change (token_stream toks) with (mk_TokenStream toks (min 0 (length toks))).
  rewrite !required_field_at, type_field_at. done.
Qed.

Lemma parse_sdp_attr_no_prefix fuel v : starts_with v sdp_prefix = false ->
  parse_sdp_attr error_message fuel v = Some (Err (ice_error ie_invalid_attr_prefix)).
Proof. unfold parse_sdp_attr. by intros ->. Qed.

Lemma sdp_result_supported f cid t p a port ty tl c e :
  sdp_result error_message f cid t p a port ty tl = Ok (Supported c e) <->
  f = Ok (c_foundation c) /\ cid = Ok (c_component c) /\ t = Ok (c_transport_type c) /\ p = Ok (c_priority c) /\
  a = Ok (c_address c) /\ port = Ok (c_port c) /\ ty = Ok (c_type c) /\
  maybe_result (maybe_raddr tl) = Ok (c_maybe_related_address c) /\
  maybe_result (maybe_rport tl) = Ok (c_maybe_related_port c) /\ e = tail_extensions tl.
Proof.
  unfold sdp_result, any_is_err3. destruct a, ty, t; cbn [err_list app];
    try (split; [|by intros (_ & _ & ? & _ & ? & _ & ? & _)]);
    repeat (match goal with |- context [if ?b then _ else _] => destruct b end); try done;
    destruct f, cid, p, port; try done; try (split; [done|by intros (? & ? & ? & ? & ? & ? & ? & ?)]);
    destruct (maybe_result (maybe_raddr tl)), (maybe_result (maybe_rport tl)); try done;
    try (split; [done|by intros (? & ? & ? & ? & ? & ? & ? & ? & ? & ?)]).
  split.
  - intros [= <- <-]. done.
  - destruct c. cbn. by intros ([= ->] & [= ->] & [= ->] & [= ->] & [= ->] & [= ->] & [= ->] & [= ->] & [= ->] & ->).
Qed.

Lemma token_field_ok {A} (f : bytes -> Result A) toks k a :
  token_field f toks k = Ok a <-> exists tok, toks !! k = Some tok /\ f tok = Ok a.
Proof. unfold token_field. destruct (toks !! k) as [tok|]; [split; [by exists tok|by intros (? & [= <-] & ?)]|split; [done|by intros (? & ? & _)]]. Qed.

Lemma type_field_ok toks ty : (type_field toks).1 = Ok ty <->
  toks !! 6%nat = Some (s2b "typ") /\ exists tok, toks !! 7%nat = Some tok /\ map tolower tok = type_to_string ty.
Proof.
  unfold type_field. destruct (toks !! 6%nat) as [tok|]; [|split; [done|by intros []]].
  case_bool_decide as Ht; cbn [fst].
  - rewrite token_field_ok. subst tok. split; [intros (x & ? & ?%type_from_string_iff)|intros (_ & x & ? & ?)];
      [split; [done|]; by exists x|exists x; split; [done|]; by apply type_from_string_iff].
  - split; [done|]. intros [[= ->] _]. done.
Qed.

Lemma lookup_prefix {A} (toks : list A) (l : list A) : 
  (forall k x, l !! k = Some x -> toks !! k = Some x) -> toks = l ++ drop (length l) toks.
Proof.
  revert toks. induction l as [|x l IH]; intros toks Hl; [done|].
  destruct toks as [|y toks]; [by specialize (Hl 0%nat x eq_refl)|].
  pose proof (Hl 0%nat x eq_refl) as [= ->]. cbn. f_equal. apply IH. intros k. by apply (Hl (S k)).
Qed.

(** The loop always ends, whatever the tokens. *)
Lemma loop_ends toks k fuel tl : (length toks < fuel)%nat -> is_Some (loop_at fuel toks k tl).
Proof.
  intros Hf. destruct (flat_pairs_cases (drop k toks)) as (pairs & [E|[name E]]);
    pose proof (f_equal length E) as El; rewrite length_drop in El;
    pose proof (length_flat_pairs pairs) as Ep.
  - rewrite (loop_at_pairs toks pairs fuel k tl E) by lia. done.
  - rewrite length_app in El. cbn in El.
    destruct (loop_at_odd toks pairs name fuel k tl E ltac:(lia)) as [(-> & _)|(tl' & -> & _)]; done.
Qed.

End Line.

(** ** Properties *)

Section LineResult.
Context `{Craftpp} `{Inet}.
Context (error_message : Error -> bytes).

(** A line read in full: the fields, then the pairs. *)
Lemma fields_result_supported toks pairs c exts tl :
  fold_left tail_step pairs (mk_SdpTail None None []) = tl ->
  (type_field toks).2 = 8%nat ->
  fields_result error_message toks tl = Ok (Supported c exts) <->
  (exists fnd cid transport prio addr port typ,
     toks = [fnd; cid; transport; prio; addr; port; s2b "typ"; typ] ++ drop 8 toks /\
     candidate_tokens c fnd cid transport prio addr port typ) /\
  last_denotes denotes_address (values_of (s2b "raddr") pairs) (c_maybe_related_address c) /\
  last_denotes denotes_port (values_of (s2b "rport") pairs) (c_maybe_related_port c) /\
  exts = extensions_of pairs.
Proof.
  intros Hfold Hpos. destruct (fold_tail_step pairs tl Hfold) as (Er & Ep & Ee).
  unfold fields_result. rewrite sdp_result_supported, Er, Ep, Ee.
  rewrite (maybe_result_last _ _ _ _ _ ice_address_from_string_iff), (maybe_result_last _ _ _ _ _ port_from_string_iff).
  rewrite !add_context_ok, !token_field_ok, type_field_ok. split.
  - intros ((fnd & F0 & F1) & (cid & C0 & C1) & (tr & T0 & T1) & (prio & P0 & P1) & (addr & A0 & A1) &
      (port & Q0 & Q1) & (Y0 & typ & Y1 & Y2) & Hr & Hp & He).
    split; [|done]. exists fnd, cid, tr, prio, addr, port, typ. split.
    + apply lookup_prefix. intros k x Hk. do 8 (destruct k as [|k]; [injection Hk as <-; assumption|]). done.
    + apply foundation_from_string_iff in F1. apply component_id_from_string_iff in C1.
      apply transport_type_from_string_iff in T1. apply priority_from_string_iff in P1.
      apply ice_address_from_string_iff in A1. apply port_from_string_iff in Q1. split; done.
  - intros [(fnd & cid & tr & prio & addr & port & typ & -> & [F C T P A Q Y]) Hrest].
    split_and!; try (by apply Hrest); try (eexists; split; [reflexivity|]); try done.
    + by apply foundation_from_string_iff.
    + by apply component_id_from_string_iff.
    + by apply transport_type_from_string_iff.
    + by apply priority_from_string_iff.
    + by apply ice_address_from_string_iff.
    + by apply port_from_string_iff.
Qed.

(** A field of the optional part that is an error makes the result one. *)
Lemma fields_result_tail_error toks tl c exts :
  default false (is_err <$> maybe_raddr tl) = true \/ default false (is_err <$> maybe_rport tl) = true ->
  fields_result error_message toks tl <> Ok (Supported c exts).
Proof.
  unfold fields_result. rewrite sdp_result_supported.
  intros [Hx|Hx] (_ & _ & _ & _ & _ & _ & _ & Hr & Hp & _).
  - destruct (maybe_raddr tl) as [[?|?]|]; done.
  - destruct (maybe_rport tl) as [[?|?]|]; done.
Qed.

End LineResult.

Lemma parse_sdp_attr_supported `{C : Craftpp} `{I : Inet} (error_message : Error -> bytes)
  (fuel : nat) (v : bytes) (c : Candidate) (exts : list Extension) (Hf : (length v < fuel)%nat) :
  parse_sdp_attr error_message fuel v = Some (Ok (Supported c exts)) <->
  exists fnd cid transport prio addr port typ pairs,
    sdp_line v ([fnd; cid; transport; prio; addr; port; s2b "typ"; typ] ++ flat_pairs pairs) /\
    candidate_tokens c fnd cid transport prio addr port typ /\
    last_denotes denotes_address (values_of (s2b "raddr") pairs) (c_maybe_related_address c) /\
    last_denotes denotes_port (values_of (s2b "rport") pairs) (c_maybe_related_port c) /\
    exts = extensions_of pairs.
Proof.
  split.
  - intros E. destruct (starts_with v sdp_prefix) eqn:Ev; [|by rewrite parse_sdp_attr_no_prefix in E].
    apply starts_with_iff in Ev as [body ->]. rewrite parse_sdp_attr_tokens in E.
    pose proof (length_split_all body SP) as Hl. pose proof (proj1 (split_all_separated body SP _) eq_refl) as Hsep.
    set (toks := split_all body SP) in *. rewrite length_app in Hf.
    assert (exists tl, loop_at fuel toks (type_field toks).2 (mk_SdpTail None None []) = Some (Ok tl) /\
      fields_result error_message toks tl = Ok (Supported c exts)) as (tl & Hloop & E2).
    { destruct (loop_at _ _ _ _) as [[tl|e]|]; [|done..]. exists tl. split; [done|]. by injection E. }
    clear E. destruct (flat_pairs_cases (drop (type_field toks).2 toks)) as (pairs & [Ed|[name Ed]]);
      pose proof (f_equal length Ed) as El; rewrite ?length_app, length_drop, length_flat_pairs in El; cbn [length] in El.
    + rewrite (loop_at_pairs toks pairs fuel _ _ Ed) in Hloop by lia. injection Hloop as Hloop.
      assert ((type_field toks).2 = 8%nat) as E8.
      { unfold fields_result in E2. apply sdp_result_supported in E2 as (_ & _ & _ & _ & _ & _ & Hty & _).
        apply type_field_ok in Hty as [H6 _]. unfold type_field. rewrite H6. by rewrite bool_decide_true. }
      apply (fields_result_supported _ _ pairs) in E2 as [(fnd & cid & tr & prio & addr & port & typ & Et & Hc) Hrest];
        [|done..].
      exists fnd, cid, tr, prio, addr, port, typ, pairs. split; [|done]. exists body. split; [done|].
      rewrite <- Ed, E8, <- Et. done.
    + destruct (loop_at_odd toks pairs name fuel _ (mk_SdpTail None None []) Ed ltac:(lia)) as [(Hx & _)|(tl' & Hx & He)];
        rewrite Hx in Hloop; [done|]. injection Hloop as ->. by apply (fields_result_tail_error error_message toks tl c exts) in He.
  - intros (fnd & cid & tr & prio & addr & port & typ & pairs & (body & -> & Hsep) & Hc & Hrest).
    rewrite parse_sdp_attr_tokens. pose proof (length_split_all body SP) as Hl.
    apply split_all_separated in Hsep. rewrite Hsep in *. rewrite !length_app, length_flat_pairs in *. cbn [length] in Hl.
    set (toks := [fnd; cid; tr; prio; addr; port; s2b "typ"; typ] ++ flat_pairs pairs).
    assert ((type_field toks).2 = 8%nat) as E8 by (by unfold type_field; cbn; rewrite bool_decide_true).
    rewrite E8, (loop_at_pairs toks pairs fuel 8) by (done || lia). f_equal.
    apply (fields_result_supported _ _ pairs); [done..|]. split; [|done].
    exists fnd, cid, tr, prio, addr, port, typ. done.
Qed.

(** What the optional part of the RFC gives. *)
Lemma last_denotes_option {A} (R : bytes -> A -> Prop) v r :
  option_Forall2 R v r -> last_denotes R (from_option (fun a => [a]) [] v) r.
Proof. by intros [x y Hxy|]. Qed.

Lemma rfc8839_tail_values raddr rport exts : Forall rfc8839_extension exts ->
  values_of (s2b "raddr") (rfc8839_tail raddr rport exts) = from_option (fun a => [a]) [] raddr /\
  values_of (s2b "rport") (rfc8839_tail raddr rport exts) = from_option (fun p => [p]) [] rport /\
  extensions_of (rfc8839_tail raddr rport exts) = exts.
Proof.
  intros He. assert (forall name, name = s2b "raddr" \/ name = s2b "rport" ->
    values_of name (map (fun e => (att_name e, att_value e)) exts) = []) as Hv.
  { intros name Hn. unfold values_of. induction He as [|x l (_ & _ & Ha & Hp & _) _ IH]; [done|].
    cbn [map]. rewrite filter_cons_False; [done|]. cbn. destruct Hn as [->| ->]; congruence. }
  assert (extensions_of (map (fun e => (att_name e, att_value e)) exts) = exts) as Hx.
  { unfold extensions_of. clear Hv. induction He as [|x l (_ & _ & Ha & Hp & _) _ IH]; [done|].
    cbn [map]. rewrite filter_cons_True by (split; done). cbn [map]. rewrite IH. by destruct x. }
  pose proof (Hv _ (or_introl eq_refl)) as Hv1. pose proof (Hv _ (or_intror eq_refl)) as Hv2.
  unfold values_of, extensions_of, rfc8839_tail in *. rewrite !filter_app, !map_app, Hv1, Hv2, Hx.
  destruct raddr, rport; done.
Qed.

(** The parser ends. *)
Lemma parse_sdp_attr_total `{C : Craftpp} `{I : Inet} (error_message : Error -> bytes) (fuel : nat) (v : bytes) :
  (length v < fuel)%nat -> is_Some (parse_sdp_attr error_message fuel v).
Proof.
  intros Hf. destruct (starts_with v sdp_prefix) eqn:Ev; [|by eexists; apply parse_sdp_attr_no_prefix].
  apply starts_with_iff in Ev as [body ->]. rewrite parse_sdp_attr_tokens. rewrite length_app in Hf.
  pose proof (length_split_all body SP) as Hl.
  destruct (loop_ends (split_all body SP) (type_field (split_all body SP)).2 fuel (mk_SdpTail None None []) ltac:(lia)) as [[tl|e] ->];
    by eexists.
Qed.


Section Outcome.
Context `{CL : CraftppLaws} `{Inet}.
Context (error_message : Error -> bytes).

Lemma sdp_result_cases f cid t p a port ty tl :
  match sdp_result error_message f cid t p a port ty tl with
  | Ok (Unsupported _) => is_err a = true \/ exists error, error ∈ err_list ty ++ err_list t /\
      (m_code error = make_ice_error_code ie_unknown_candidate_type \/
       m_code error = make_ice_error_code ie_unknown_transport_type)
  | _ => is_err a = false
  end.
Proof.
  unfold sdp_result, any_is_err3. destruct a as [a|e].
  - change (err_list (Ok a) ++ ?l) with l. cbn [is_err is_ok negb orb].
    pose proof (pick_error_spec (err_list ty ++ err_list t)) as Hp.
    destruct (err_list ty ++ err_list t) as [|e0 es].
    + by repeat (case_match; try done).
    + destruct (error_is _ _ || error_is _ _) eqn:Eu.
      * right. exists (pick_error (e0 :: es)). split; [by apply Hp|].
        apply orb_true_iff in Eu. by rewrite !error_is_spec in Eu.
      * by repeat (case_match; try done).
  - cbn. by left.
Qed.

Lemma transport_field_error ctx toks e : e ∈ err_list (add_context ctx (token_field transport_type_from_string toks 2)) ->
  m_code e = make_token_error_code te_no_required_token \/
  m_code e = make_ice_error_code ie_unknown_transport_type /\
    exists tok, toks !! 2%nat = Some tok /\ map tolower tok <> udp_str.
Proof.
  unfold token_field. destruct (toks !! 2%nat) as [tok|].
  - destruct (transport_type_from_string tok) as [t|e'] eqn:E; [by intros ?%elem_of_nil|].
    intros ->%list_elem_of_singleton. right. rewrite add_context_code. split.
    + unfold transport_type_from_string in E. destruct (eq_string _ _); [done|]. injection E as <-. by rewrite add_context_code.
    + exists tok. split; [done|]. intros Ht. assert (transport_type_from_string tok = Ok UDP) by by apply transport_type_from_string_iff.
      congruence.
  - intros ->%list_elem_of_singleton. left. by rewrite add_context_code.
Qed.

Lemma type_field_error toks e : e ∈ err_list (type_field toks).1 ->
  m_code e = make_token_error_code te_no_required_token \/ m_code e = make_token_error_code te_expected_token_missed \/
  m_code e = make_ice_error_code ie_unknown_candidate_type /\
    exists tok, toks !! 7%nat = Some tok /\ forall t, map tolower tok <> type_to_string t.
Proof.
  unfold type_field. destruct (toks !! 6%nat) as [typ|]; [|intros ->%list_elem_of_singleton; by left].
  case_bool_decide; cbn [fst].
  - unfold token_field. destruct (toks !! 7%nat) as [tok|]; [|intros ->%list_elem_of_singleton; by left].
    destruct (type_from_string tok) as [t|e'] eqn:E; [by intros ?%elem_of_nil|].
    intros ->%list_elem_of_singleton. right. right. split.
    + unfold type_from_string in E. repeat (destruct (eq_string _ _); [done|]). injection E as <-. by rewrite add_context_code.
    + exists tok. split; [done|]. intros t Ht%type_from_string_iff. congruence.
  - intros ->%list_elem_of_singleton. right. left. by rewrite add_context_code.
Qed.

(** The fifth token is a connection address. *)
Definition address_recognised (toks : list bytes) : Prop :=
  exists tok a, toks !! 4%nat = Some tok /\ denotes_address tok a.

Lemma address_field_error ctx toks :
  is_err (add_context ctx (token_field ice_address_from_string toks 4)) = false <-> address_recognised toks.
Proof.
  rewrite is_err_add_context. unfold address_recognised. split.
  - destruct (token_field _ _ _) as [a|] eqn:E; [|done]. intros _.
    apply token_field_ok in E as (tok & ? & ?%ice_address_from_string_iff). by exists tok, a.
  - intros (tok & a & Ht & Ha%ice_address_from_string_iff).
    assert (token_field ice_address_from_string toks 4 = Ok a) as -> by (apply token_field_ok; by exists tok). done.
Qed.

(** The optional part ends with the name of an extension without its value. *)
Definition dangling_name (toks : list bytes) : Prop :=
  exists pairs name, drop (if decide (toks !! 6%nat = Some (s2b "typ")) then 8 else 7) toks = flat_pairs pairs ++ [name] /\
    name <> s2b "raddr" /\ name <> s2b "rport".

Lemma type_field_pos toks : (type_field toks).2 = (if decide (toks !! 6%nat = Some (s2b "typ")) then 8 else 7)%nat.
Proof.
  unfold type_field. destruct (toks !! 6%nat) as [tok|] eqn:E; case_decide as Hd; try done.
  - injection Hd as ->. by rewrite bool_decide_true.
  - rewrite bool_decide_false by congruence. done.
Qed.

Lemma loop_error_dangling fuel toks e : (length toks < fuel)%nat ->
  loop_at fuel toks (type_field toks).2 (mk_SdpTail None None []) = Some (Err e) ->
  dangling_name toks /\ e = token_error te_no_required_token.
Proof.
  intros Hf E. unfold dangling_name. rewrite <- type_field_pos.
  destruct (flat_pairs_cases (drop (type_field toks).2 toks)) as (pairs & [Ed|[name Ed]]);
    pose proof (f_equal length Ed) as El; rewrite ?length_app, length_drop, length_flat_pairs in El; cbn [length] in El.
  - by rewrite (loop_at_pairs toks pairs fuel _ _ Ed) in E by lia.
  - destruct (loop_at_odd toks pairs name fuel _ (mk_SdpTail None None []) Ed ltac:(lia)) as [(Hx & ? & ?)|(tl & Hx & _)];
      rewrite Hx in E; [|done]. injection E as <-. split; [|done]. by exists pairs, name.
Qed.

End Outcome.

(** C24. [parse_sdp_attr] ends on every string. A line without the prefix is refused. A line
    with it whose connection address is missing or not recognised is never an error, except
    when its last extension has a name without a value: it is [Unsupported]. And a line is
    [Unsupported] only when the address, the transport or the type is not recognised. *)
Theorem parse_sdp_attr_outcome `{CL : CraftppLaws} `{I : Inet} (error_message : Error -> bytes)
  (fuel : nat) (v : bytes) (Hf : (length v < fuel)%nat) :
  exists r, parse_sdp_attr error_message fuel v = Some r /\
  match r with
  | Ok (Supported _ _) => exists toks, sdp_line v toks /\ address_recognised toks
  | Ok (Unsupported _) => exists toks, sdp_line v toks /\
      (~ address_recognised toks \/
       (exists tok, toks !! 2%nat = Some tok /\ map tolower tok <> udp_str) \/
       (exists tok, toks !! 7%nat = Some tok /\ forall t, map tolower tok <> type_to_string t))
  | Err e => (e = ice_error ie_invalid_attr_prefix /\ forall toks, ~ sdp_line v toks) \/
      exists toks, sdp_line v toks /\
        (address_recognised toks \/ (dangling_name toks /\ e = token_error te_no_required_token))
  end.
Proof.
  destruct (starts_with v sdp_prefix) eqn:Ev.
  2:{ eexists. split; [by apply parse_sdp_attr_no_prefix|]. left. split; [done|]. intros toks (body & -> & _).
      assert (starts_with (sdp_prefix ++ body) sdp_prefix = true) by (apply starts_with_iff; by exists body). congruence. }
  apply starts_with_iff in Ev as [body ->]. rewrite parse_sdp_attr_tokens.
  pose proof (length_split_all body SP) as Hl. pose proof (proj1 (split_all_separated body SP _) eq_refl) as Hsep.
  set (toks := split_all body SP) in *. rewrite length_app in Hf.
  assert (sdp_line (sdp_prefix ++ body) toks) as Hline by (by exists body).
  destruct (loop_ends toks (type_field toks).2 fuel (mk_SdpTail None None []) ltac:(lia)) as [[tl|e] Hloop]; rewrite Hloop.
  2:{ eexists. split; [done|]. right. exists toks. split; [done|]. right. apply (loop_error_dangling fuel); [lia|done]. }
  eexists. split; [done|]. unfold fields_result.
  pose proof (sdp_result_cases error_message (add_context [s2b "foundation"] (token_field foundation_from_string toks 0))
    (add_context [s2b "component"] (token_field component_id_from_string toks 1))
    (add_context [s2b "transport"] (token_field transport_type_from_string toks 2))
    (add_context [s2b "priority"] (token_field priority_from_string toks 3))
    (add_context [s2b "address"] (token_field ice_address_from_string toks 4))
    (add_context [s2b "port"] (token_field port_from_string toks 5)) (type_field toks).1 tl) as Hc.
  destruct (sdp_result _ _ _ _ _ _ _ _) as [[c exts|msg]|e]; [..|right]; exists toks; (split; [done|]).
  - by eapply address_field_error.
  - destruct Hc as [Ha|(e & [He|He]%elem_of_app & Hcode)].
    + left. rewrite <- (address_field_error [s2b "address"]). congruence.
    + right. right. apply type_field_error in He as [E|[E|[_ ?]]]; [..|done]; rewrite E in Hcode; by destruct Hcode.
    + right. left. apply transport_field_error in He as [E|[_ ?]]; [|done]. rewrite E in Hcode. by destruct Hcode.
  - left. by eapply address_field_error.
Qed.

(** The ranges of the three parts of a priority. *)
Record preference_ok (p : Preference) : Prop := {
  po_type : 0 <= pref_type p <= 126;
  po_local : 0 <= pref_local p <= 65535;
  po_component : 0 <= pref_component p <= 255
}.

(** RFC 8445, section 5.1.2.1, with the component part given. *)
Definition rfc8445_priority (p : Preference) : Z :=
  2 ^ 24 * pref_type p + 2 ^ 8 * pref_local p + pref_component p.

Lemma to_priority_eq p : preference_ok p -> to_priority p = priority_from_uint32 (rfc8445_priority p).
Proof.
  intros [Ht Hl Hc]. unfold to_priority, rfc8445_priority. rewrite !wrap_small by (unfold fits; rewrite Z.shiftl_mul_pow2; lia).
  rewrite lor_shiftl_add by (rewrite ?Z.shiftl_mul_pow2; lia). rewrite Z.shiftl_mul_pow2 by lia.
  replace (pref_type p * 2 ^ 24 + pref_local p * 2 ^ 8) with (Z.shiftl (pref_type p * 2 ^ 16 + pref_local p) 8)
    by (rewrite Z.shiftl_mul_pow2; lia).
  rewrite lor_shiftl_add by lia. f_equal. lia.
Qed.

(** C25. [Preference::to_priority] is the formula of RFC 8445: for preferences in the ranges
    that their constructors enforce, the shifts and ors give
    2^24 * type + 2^8 * local + component, below 2^31, an error only for the three zeros, and
    priorities are ordered first by type, then by local preference, then by component. The
    recommended component preference is 256 minus the id and in its range exactly for the
    ids that [ComponentId::from_unsigned] admits; [ComponentId::from_string] admits others. *)
Theorem candidate_priority (p q : Preference) (Hp : preference_ok p) (Hq : preference_ok q) :
  to_priority p = (if rfc8445_priority p =? 0 then Err (ice_error ie_invalid_priority_value)
                   else Ok (rfc8445_priority p)) /\
  0 <= rfc8445_priority p < 2 ^ 31 /\
  (rfc8445_priority p < rfc8445_priority q <->
     pref_type p < pref_type q \/
     pref_type p = pref_type q /\ (pref_local p < pref_local q \/
       pref_local p = pref_local q /\ pref_component p < pref_component q)) /\
  forall s id, component_id_from_string s = Ok id ->
    let c := component_preference_recommended_for id in
    (component_preference_from_unsigned c = Ok c <-> component_id_from_unsigned id = Ok id) /\
    (component_id_from_unsigned id = Ok id -> c = 256 - id).
Proof.
  pose proof (to_priority_eq p Hp) as E. destruct Hp as [Ht Hl Hc], Hq as [Ht' Hl' Hc'].
  split_and!; [exact E|unfold rfc8445_priority; lia..|].
  intros s id [Hd ->]%component_id_from_string_iff. pose proof (decimal_lt s 3 Hd) as Hb. change (10 ^ 3) with 1000 in Hb.
  unfold component_preference_recommended_for, component_preference_from_unsigned, component_id_from_unsigned.
  destruct (Z.le_gt_cases (decimal s) 256) as [Hle|Hgt].
  - rewrite wrap_small by (unfold fits; lia). bdestruct; cbn [orb]; split; (split; (done || lia)) || (intros; (done || lia)).
  - replace (u32 (256 - decimal s)) with (2 ^ 32 + (256 - decimal s))
      by (unfold wrap; rewrite <- (Z.mod_small (2 ^ 32 + (256 - decimal s)) (2 ^ 32)) by lia; rewrite Z.add_mod, Z.mod_same, Z.add_0_l, Z.mod_mod by lia; done).
    bdestruct; try lia. cbn [orb]. split; [split|]; done.
Qed.

(** ** Witnesses *)

(** A system that reads two addresses. *)
#[local] Instance sample_inet : Inet := {|
  inet_pton family s :=
    match family with
    | AF_INET =>
        if bool_decide (s = s2b "192.0.2.3") then (1, [192; 0; 2; 3], 0)
        else if bool_decide (s = s2b "203.0.113.141") then (1, [203; 0; 113; 141], 0) else (0, [], 0)
    | AF_INET6 => (0, [], 0)
    end;
  inet_ntop family v size := (None, 0)
|}.

(** The server-reflexive candidate of RFC 8839, with an extension. *)
Definition sample_line : bytes :=
  s2b "candidate:2 1 UDP 1694498815 192.0.2.3 45664 typ srflx raddr 203.0.113.141 rport 8998 generation 0".
Definition sample_candidate : Candidate :=
  mk_Candidate (IpAddress (AddressV4 [192; 0; 2; 3])) 45664 UDP (s2b "2") 1 1694498815 SERVER_REFLEXIVE
    (Some (IpAddress (AddressV4 [203; 0; 113; 141]))) (Some 8998).

(** The text of an error: here, its context. *)
Definition sample_message (e : Error) : bytes := List.concat (m_context e).


(** A host name that is not a domain name: the line is to be ignored. *)
Lemma parse_sdp_attr_outcome_witness :
  exists msg, parse_sdp_attr (H := reference) sample_message 100 (s2b "candidate:1 1 UDP 1 -- 9 typ host") = Some (Ok (Unsupported msg)) /\
    exists toks, sdp_line (s2b "candidate:1 1 UDP 1 -- 9 typ host") toks.
Proof.
  destruct (parse_sdp_attr_outcome (CL := reference_laws) sample_message 100 (s2b "candidate:1 1 UDP 1 -- 9 typ host")
    ltac:(vm_compute; lia)) as ([[c exts|msg]|e] & E & Hr); [vm_compute in E; discriminate E| |vm_compute in E; discriminate E].
  exists msg. split; [exact E|]. destruct Hr as (toks & Hl & _). by exists toks.
Defined.

(** The first component of a host candidate on a machine with one address. *)
Lemma candidate_priority_witness :
  to_priority (mk_Preference (type_preference_recommended_for HOST) 65535 (component_preference_recommended_for 1))
  = Ok 2130706431.
Proof.
  destruct (candidate_priority (mk_Preference 126 65535 255) (mk_Preference 0 0 0)
    ltac:(split; cbn; lia) ltac:(split; cbn; lia)) as [E _].
  exact E.
Defined.
