(* ===== verification/NodeCrypto.v ===== *)
(** * node/openssl: the digest wrapper of the node bindings

    The same [MessageDigest] as crypto/openssl/openssl_hash.cpp, with an error category of
    its own, except for the loop of [calc]: it does not look at the result of [update]. The
    theorems: it provides the hash interface as long as OpenSSL does not fail, and what it
    returns when an update does. *)

From S2P Require Import Prelude Errors Craftpp Crypto.

Section NodeOpenSSL.
Context `{Craftpp} `{Evp}.

(** [crypto::node_openssl::make_error_code]. *)
Definition node_openssl_error (code : Z) : Error := error_of (mk_error_code code cat_node_openssl).

Definition node_md_init : SE MD_State unit := fun '(m_ctx, md) =>
  match m_ctx with
  | None => ((m_ctx, md), Err (error_of (mk_error_code ENOMEM cat_generic)))
  | Some ctx =>
      let '(ctx', rc, err) := EVP_DigestInit_ex ctx md in
      ((Some ctx', md), if negb (rc =? 1) then Err (node_openssl_error err) else success)
  end.

Definition node_md_update (view : bytes) : SE MD_State unit := fun '(m_ctx, md) =>
  match m_ctx with
  | None => ((m_ctx, md), Err (error_of (mk_error_code ENOMEM cat_generic))) (* not reached *)
  | Some ctx =>
      let '(ctx', rc, err) := EVP_DigestUpdate ctx view in
      ((Some ctx', md), if negb (rc =? 1) then Err (node_openssl_error err) else success)
  end.

Definition node_md_finalize : SE MD_State bytes := fun '(m_ctx, md) =>
  match m_ctx with
  | None => ((m_ctx, md), Err (error_of (mk_error_code ENOMEM cat_generic))) (* not reached *)
  | Some ctx =>
      let '(ctx', rc, err, v) := EVP_DigestFinal_ex ctx in
      ((Some ctx', md), if negb (rc =? 1) then Err (node_openssl_error err) else Ok v)
  end.

(** The loop over the chunks discards the result of [update]. *)
Fixpoint node_md_updates (input : list bytes) (st : MD_State) : MD_State :=
  match input with
  | [] => st
  | chunk :: input' => node_md_updates input' (node_md_update chunk st).1
  end.

Definition node_md_calc (input : list bytes) : SE MD_State bytes :=
  node_md_init ≫= fun _ => ((fun st => node_md_finalize (node_md_updates input st)) : SE MD_State bytes).

Definition node_sha1 (input : list bytes) : Result bytes := (node_md_calc input (EVP_MD_CTX_new, EVP_sha1)).2.
Definition node_md5 (input : list bytes) : Result bytes := (node_md_calc input (EVP_MD_CTX_new, EVP_md5)).2.

(** *** Updates that may fail *)

(** The digest context after the updates, whatever they report. *)
Definition ctx_after (ctx : EVP_MD_CTX) (input : list bytes) : EVP_MD_CTX :=
  fold_left (fun ctx v => (EVP_DigestUpdate ctx v).1.1) input ctx.

(** The error of the first update that fails. *)
Fixpoint update_error (ctx : EVP_MD_CTX) (input : list bytes) : option Z :=
  match input with
  | [] => None
  | v :: input' =>
      let '(ctx', rc, err) := EVP_DigestUpdate ctx v in
      if rc =? 1 then update_error ctx' input' else Some err
  end.

End NodeOpenSSL.

(** ** Lemmas *)

Section Lemmas.
Context `{CL : CraftppLaws} `{E : Evp}.

(** The bindings go on after a failure. *)
Lemma node_md_updates_eq input md : forall ctx, node_md_updates input (Some ctx, md) = (Some (ctx_after ctx input), md).
Proof.
  induction input as [|v input IH]; intros ctx; [done|]. cbn [node_md_updates ctx_after fold_left]. unfold node_md_update.
  destruct (EVP_DigestUpdate ctx v) as [[ctx1 rc] err]. apply IH.
Qed.

(** The library stops at the first one. *)
Lemma md_reduce_eq input md : forall ctx, exists st,
  reduce (fun (_ : unit) next => md_update next) input tt (Some ctx, md) =
    (st, match update_error ctx input with None => Ok tt | Some err => Err (openssl_error err) end) /\
  (update_error ctx input = None -> st = (Some (ctx_after ctx input), md)).
Proof.
  induction input as [|v input IH]; intros ctx; [rewrite reduce_nil; eexists; by split|]. rewrite reduce_cons. unfold md_update at 1.
  cbn [update_error ctx_after fold_left]. destruct (EVP_DigestUpdate ctx v) as [[ctx1 rc] err].
  destruct (Z.eqb_spec rc 1); cbn [negb]; [apply IH|]. eexists. by split.
Qed.

Lemma node_md_calc_eq input md ctx ctx1 err : EVP_MD_CTX_new = Some ctx -> EVP_DigestInit_ex ctx md = (ctx1, 1, err) ->
  (node_md_calc input (EVP_MD_CTX_new, md)).2 = (node_md_finalize (Some (ctx_after ctx1 input), md)).2.
Proof.
  intros -> Ei. unfold node_md_calc, mbind, se_bind, node_md_init. rewrite Ei, Z.eqb_refl. cbn [negb]. unfold success.
  by rewrite node_md_updates_eq.
Qed.

Lemma md_calc_eq input md ctx ctx1 err : EVP_MD_CTX_new = Some ctx -> EVP_DigestInit_ex ctx md = (ctx1, 1, err) ->
  (md_calc input (EVP_MD_CTX_new, md)).2 =
    match update_error ctx1 input with
    | None => (md_finalize (Some (ctx_after ctx1 input), md)).2
    | Some err => Err (openssl_error err)
    end.
Proof.
  intros -> Ei. unfold md_calc, mbind, se_bind, md_init. rewrite Ei, Z.eqb_refl. cbn [negb]. unfold success.
  destruct (md_reduce_eq input md ctx1) as (st & -> & Hst). destruct (update_error ctx1 input); [done|]. by rewrite Hst.
Qed.

Context (D : EVP_MD -> bytes -> bytes) (absorbed : EVP_MD_CTX -> EVP_MD -> bytes -> Prop) (EL : EvpLaws D absorbed).

Lemma ctx_after_absorbed input md : forall ctx b, absorbed ctx md b -> absorbed (ctx_after ctx input) md (b ++ List.concat input).
Proof.
  induction input as [|v input IH]; intros ctx b Hb; cbn [List.concat]; [by rewrite app_nil_r|]. rewrite app_assoc.
  cbn [ctx_after fold_left]. apply IH. by destruct (evp_update ctx md b v Hb) as (ctx' & err & -> & Hb').
Qed.

(** As long as OpenSSL does not fail the wrapper provides the hash interface too. *)
Lemma node_sha1_hash_laws (Hsize : forall b, zlen (D EVP_sha1 b) = SHA1_SIZE /\ bytes_ok (D EVP_sha1 b)) :
  HashLaws SHA1_SIZE node_sha1 (D EVP_sha1).
Proof.
  split; intros; [|apply Hsize..]. destruct (evp_new (D := D) (absorbed := absorbed)) as [ctx En].
  destruct (evp_init (D := D) ctx EVP_sha1) as (ctx1 & err & Ei & Hb). unfold node_sha1. rewrite (node_md_calc_eq _ _ ctx ctx1 err En Ei).
  destruct (evp_final (ctx_after ctx1 views) EVP_sha1 _ (ctx_after_absorbed views _ _ _ Hb)) as (ctx2 & e2 & Ef).
  unfold node_md_finalize. by rewrite Ef, Z.eqb_refl.
Qed.

End Lemmas.

(** ** Property *)

(** C34. The digest of the node bindings hides errors. When OpenSSL starts a digest, and the
    final call succeeds on the context that the updates left, [node_openssl::sha1] succeeds
    with what the final call returned, even if an update reported a failure; nothing is
    assumed of what a failed update does to the context. The [openssl::sha1] of the library
    returns the error of the first update that failed, and agrees with the bindings only if
    none did. *)
Theorem node_sha1_ignores_update_errors `{C : Craftpp} (CL : CraftppLaws C) `{E : Evp} (input : list bytes)
  (ctx ctx1 ctx2 : EVP_MD_CTX) (e1 e2 : Z) (v : bytes)
  (Hnew : EVP_MD_CTX_new = Some ctx) (Hinit : EVP_DigestInit_ex ctx EVP_sha1 = (ctx1, 1, e1))
  (Hfinal : EVP_DigestFinal_ex (ctx_after ctx1 input) = (ctx2, 1, e2, v)) :
  node_sha1 input = Ok v /\
  sha1 input = match update_error ctx1 input with None => Ok v | Some err => Err (openssl_error err) end.
Proof.
  unfold node_sha1, sha1. rewrite (node_md_calc_eq _ _ ctx ctx1 e1 Hnew Hinit), (md_calc_eq _ _ ctx ctx1 e1 Hnew Hinit).
  unfold node_md_finalize, md_finalize. rewrite Hfinal, Z.eqb_refl. split; [done|]. by destruct (update_error ctx1 input).
Qed.

(** A digest object whose update fails on one chunk. *)
Definition faulty_evp : Evp := {|
  EVP_MD_CTX := bytes; EVP_MD := unit; EVP_sha1 := tt; EVP_md5 := tt; EVP_MD_CTX_new := Some [];
  EVP_DigestInit_ex _ _ := ([], 1, 0);
  EVP_DigestUpdate ctx v := if bool_decide (v = [7]) then (ctx, 0, 5) else (ctx ++ v, 1, 0);
  EVP_DigestFinal_ex ctx := ([], 1, 0, sample_H ctx)
|}.

Lemma node_sha1_ignores_update_errors_witness :
  @node_sha1 faulty_evp [[1; 2]; [7]; [3]] = Ok (sample_H [1; 2; 3]) /\
  @sha1 reference faulty_evp [[1; 2]; [7]; [3]] = Err (openssl_error 5).
Proof.
  exact (node_sha1_ignores_update_errors reference_laws (E := faulty_evp) [[1; 2]; [7]; [3]] [] [] [] 0 0 (sample_H [1; 2; 3])
    eq_refl eq_refl eq_refl).
Defined.
