(* ===== verification/Napi.v ===== *)
(** * The interface of the node bindings to craftnapi, and the values of JavaScript

    The bindings of src/node call the craftnapi library, which is not part of the
    repository. The class [Craftnapi] lists the operations they call. [CraftnapiLaws] is the
    documented behaviour that the theorems rely on: each created value denotes a JavaScript
    value, and reading a value gives what it denotes. [reference_napi] implements the
    interface on the denotations, for the witnesses. *)

From S2P Require Import Prelude Errors Craftpp Net.

(** ** JavaScript values

    A string is its UTF-8 encoding and a number of the bindings is an integer. The order of
    the properties of an object is not observed. [JSInstance] is an object that wraps a native
    object, with its identity. *)

#[warnings="-register-all"]
Inductive JS : Type :=
| JSUndefined
| JSNull
| JSBoolean (b : bool)
| JSNumber (n : Z)
| JSBigInt (n : Z)
| JSString (s : bytes)
| JSBuffer (b : bytes)
| JSArray (l : list JS)
| JSObject (fields : gmap bytes JS)
| JSInstance (id : Z).

(** An object from its properties; [None] is a property that it does not have. *)
Definition js_fields (fields : list (bytes * option JS)) : gmap bytes JS :=
  list_to_map (omap (fun p => pair p.1 <$> p.2) fields).
Definition js_object_maybe (fields : list (string * option JS)) : JS :=
  JSObject (js_fields ((fun p => (s2b p.1, p.2)) <$> fields)).
Definition js_object (fields : list (string * JS)) : JS :=
  js_object_maybe ((fun p => (p.1, Some p.2)) <$> fields).

(** ** The operations of craftnapi *)

Class Craftnapi : Type := {
  Value : Type;
  Object : Type;
  (** The arguments and the receiver of a call: [info[i]], [info.this_arg]. *)
  CallbackInfo : Type;
  info_arg : CallbackInfo -> nat -> Result Value;
  this_arg : CallbackInfo -> Value;
  (** [Env] *)
  create_string : bytes -> Result Value;
  create_int32 : Z -> Result Value;
  create_uint32 : Z -> Result Value;
  create_bigint_uint64 : Z -> Result Value;
  create_boolean : bool -> Result Value;
  create_buffer : bytes -> Result Value;
  create_undefined : Result Value;
  create_null : Result Value;
  create_array : list (Result Value) -> Result Value;
  create_object : list (bytes * option (Result Value)) -> Result Object;
  create_class : forall (Callback : Type), bytes -> Callback -> list (bytes * Callback) -> Result Value;
  (** [Value] and [Object]; [object_value] is [Object::fmap_to_value]. *)
  object_value : Object -> Value;
  as_string : Value -> Result bytes;
  to_string : Value -> Result bytes;
  as_boolean : Value -> Result bool;
  as_int32 : Value -> Result Z;
  as_buffer : Value -> Result bytes;
  to_buffer : Value -> Result bytes;
  as_object : Value -> Result Object;
  to_object : Value -> Result Object;
  named_property : Object -> bytes -> Result Value;
  maybe_named_property : Object -> bytes -> Result (option Value);
  (** The native objects that JavaScript objects wrap. [object_wrap] gives an object a
      native one ([Object::wrap]), [object_unwrap] finds it, and [assign] is what a call through the reference
      that [object_unwrap] returned leaves there. *)
  Natives : Type -> Type;
  object_wrap : forall {T}, Object -> T -> SE (Natives T) Value;
  object_unwrap : forall {T}, Natives T -> Value -> Result T;
  assign : forall {T}, Value -> T -> Natives T -> Natives T
}.
Arguments create_class {_ Callback} name ctor methods.

(** [int32_t] of an integer. *)
Abbreviation i32 := (to_signed 32).

(** An entry of the list that [create_object] takes: a value, an object, or a [Maybe] of one. *)
Section Entries.
Context `{Craftnapi}.

Definition entry (name : string) (v : Result Value) : bytes * option (Result Value) := (s2b name, Some v).
Definition entry_object (name : string) (v : Result Object) : bytes * option (Result Value) :=
  (s2b name, Some (object_value <$> v)).
Definition entry_maybe (name : string) (v : option (Result Value)) : bytes * option (Result Value) := (s2b name, v).

End Entries.

(** ** The documented behaviour

    [denote] is the JavaScript value of a [Value]; [utf8 s] is the text that the engine makes
    of a byte string, which is [s] itself when [s] is ASCII. The environment is healthy:
    creating a value succeeds. *)

Section Laws.
Context `{N : Craftnapi} {denote : Value -> JS} {utf8 : bytes -> bytes}.

(** The result is a value that denotes [j]. *)
Definition makes (r : Result Value) (j : JS) : Prop := exists v, r = Ok v /\ denote v = j.

(** What [create_object] makes of an entry: a property, or nothing of [none()]. *)
Definition entry_makes (e : bytes * option (Result Value)) (f : bytes * option JS) : Prop :=
  e.1 = f.1 /\ match e.2, f.2 with
                | Some r, Some j => makes r j
                | None, None => True
                | _, _ => False
                end.

Class CraftnapiLaws : Prop := {
  utf8_ascii s : ascii_text s -> utf8 s = s;
  create_string_ok s : makes (create_string s) (JSString (utf8 s));
  create_int32_ok n : - 2 ^ 31 <= n < 2 ^ 31 -> makes (create_int32 n) (JSNumber n);
  create_uint32_ok n : fits 32 n -> makes (create_uint32 n) (JSNumber n);
  create_bigint_ok n : fits 64 n -> makes (create_bigint_uint64 n) (JSBigInt n);
  create_boolean_ok b : makes (create_boolean b) (JSBoolean b);
  create_buffer_ok b : makes (create_buffer b) (JSBuffer b);
  create_undefined_ok : makes create_undefined JSUndefined;
  create_null_ok : makes create_null JSNull;
  create_array_ok rs js : Forall2 makes rs js -> makes (create_array rs) (JSArray js);
  create_array_err rs e : Err e ∈ rs -> is_err (create_array rs) = true;
  create_object_ok es fs : NoDup es.*1 -> Forall2 entry_makes es fs ->
    makes (object_value <$> create_object es) (JSObject (js_fields fs));
  create_object_err es k e : (k, Some (Err e)) ∈ es -> is_err (create_object es) = true;
  (** Reading. *)
  as_string_ok v s : denote v = JSString s -> as_string v = Ok s;
  to_string_ok v s : denote v = JSString s -> to_string v = Ok s;
  as_boolean_ok v b : denote v = JSBoolean b -> as_boolean v = Ok b;
  as_int32_ok v n : denote v = JSNumber n -> - 2 ^ 31 <= n < 2 ^ 31 -> as_int32 v = Ok n;
  as_buffer_ok v b : denote v = JSBuffer b -> as_buffer v = Ok b;
  to_buffer_ok v b : denote v = JSBuffer b -> to_buffer v = Ok b;
  as_string_err v : (forall s, denote v <> JSString s) -> is_err (as_string v) = true;
  as_boolean_err v : (forall b, denote v <> JSBoolean b) -> is_err (as_boolean v) = true;
  as_buffer_err v : (forall b, denote v <> JSBuffer b) -> is_err (as_buffer v) = true;
  as_object_fields v fs : denote v = JSObject fs -> exists o, as_object v = Ok o /\ object_value o = v;
  to_object_fields v fs : denote v = JSObject fs -> exists o, to_object v = Ok o /\ object_value o = v;
  as_object_instance v id : denote v = JSInstance id -> exists o, as_object v = Ok o /\ object_value o = v;
  named_property_ok o fs k j : denote (object_value o) = JSObject fs -> fs !! k = Some j ->
    makes (named_property o k) j;
  maybe_named_property_some o fs k j : denote (object_value o) = JSObject fs -> fs !! k = Some j ->
    j <> JSUndefined -> exists v, maybe_named_property o k = Ok (Some v) /\ denote v = j;
  maybe_named_property_none o fs k : denote (object_value o) = JSObject fs -> fs !! k = None ->
    maybe_named_property o k = Ok None;
  (** Native objects. *)
  wrap_ok {T} o (t : T) ns id : denote (object_value o) = JSInstance id -> is_err (object_unwrap ns (object_value o)) = true ->
    exists ns' v, object_wrap o t ns = (ns', Ok v) /\ object_unwrap ns' (object_value o) = Ok t;
  unwrap_assign {T} v (t t' : T) ns : object_unwrap ns v = Ok t -> object_unwrap (assign v t' ns) v = Ok t'
}.

End Laws.
Arguments CraftnapiLaws N denote utf8 : clear implicits.
Arguments makes {N} denote r j.
Arguments entry_makes {N} denote e f.

(** ** A reference implementation: a value is what it denotes *)

Definition napi_error : Error := error_of (mk_error_code 1 (cat_external 1)).

(** The properties of an object from its entries, or the first error. *)
Fixpoint entries_ref (es : list (bytes * option (Result JS))) : Result (list (bytes * JS)) :=
  match es with
  | [] => Ok []
  | (k, Some r) :: es' => j ← r; js ← entries_ref es'; Ok ((k, j) :: js)
  | (_, None) :: es' => entries_ref es'
  end.

Fixpoint sequence_ref (rs : list (Result JS)) : Result (list JS) :=
  match rs with [] => Ok [] | r :: rs' => j ← r; js ← sequence_ref rs'; Ok (j :: js) end.

Definition field_ref (j : JS) (k : bytes) : option JS :=
  match j with JSObject fs => fs !! k | _ => None end.
Definition string_ref (j : JS) : Result bytes := match j with JSString s => Ok s | _ => Err napi_error end.
Definition buffer_ref (j : JS) : Result bytes := match j with JSBuffer b => Ok b | _ => Err napi_error end.
Definition object_ref (j : JS) : Result JS :=
  match j with JSObject _ | JSInstance _ => Ok j | _ => Err napi_error end.
Definition instance_ref (j : JS) : option Z := match j with JSInstance id => Some id | _ => None end.

Definition reference_napi : Craftnapi := {|
  Value := JS;
  Object := JS;
  CallbackInfo := list JS * JS;
  info_arg info i := match info.1 !! i with Some j => Ok j | None => Err napi_error end;
  this_arg info := info.2;
  create_string s := Ok (JSString s);
  create_int32 n := Ok (JSNumber n);
  create_uint32 n := Ok (JSNumber n);
  create_bigint_uint64 n := Ok (JSBigInt n);
  create_boolean b := Ok (JSBoolean b);
  create_buffer b := Ok (JSBuffer b);
  create_undefined := Ok JSUndefined;
  create_null := Ok JSNull;
  create_array rs := JSArray <$> sequence_ref rs;
  create_object es := (fun js => JSObject (list_to_map js)) <$> entries_ref es;
  create_class _ _ _ _ := Ok JSUndefined;
  object_value j := j;
  as_string := string_ref;
  to_string := string_ref;
  as_boolean j := match j with JSBoolean b => Ok b | _ => Err napi_error end;
  as_int32 j := match j with JSNumber n => Ok (i32 n) | _ => Err napi_error end;
  as_buffer := buffer_ref;
  to_buffer := buffer_ref;
  as_object := object_ref;
  to_object := object_ref;
  named_property j k := Ok (default JSUndefined (field_ref j k));
  maybe_named_property j k := Ok (field_ref j k);
  Natives := gmap Z;
  object_wrap T j t ns := match instance_ref j with
                   | Some id => (<[id := t]> ns, Ok j)
                   | None => (ns, Err napi_error)
                   end;
  object_unwrap T ns j := match instance_ref j with
                   | Some id => match ns !! id with Some t => Ok t | None => Err napi_error end
                   | None => Err napi_error
                   end;
  assign T j t ns := match instance_ref j with Some id => <[id := t]> ns | None => ns end
|}.

Lemma i32_small n : - 2 ^ 31 <= n < 2 ^ 31 -> i32 n = n.
Proof.
  intros Hn. unfold to_signed. cbv zeta. unfold wrap. change (32 - 1) with 31.
  destruct (Z.ltb_spec n 0) as [Hneg|Hpos].
  - assert (n mod 2 ^ 32 = n + 2 ^ 32) as -> by (symmetry; apply (Z.mod_unique _ _ (-1)); lia).
    destruct (Z.ltb_spec (n + 2 ^ 32) (2 ^ 31)); lia.
  - rewrite Z.mod_small by lia. destruct (Z.ltb_spec n (2 ^ 31)); lia.
Qed.

Lemma i32_bounds n : - 2 ^ 31 <= i32 n < 2 ^ 31.
Proof.
  unfold to_signed. cbv zeta. unfold wrap. pose proof (Z.mod_pos_bound n (2 ^ 32) ltac:(lia)). change (32 - 1) with 31.
  destruct (Z.ltb_spec (n mod 2 ^ 32) (2 ^ 31)); lia.
Qed.
#[export] Hint Resolve i32_bounds : fw.

#[export] Instance reference_napi_laws : CraftnapiLaws reference_napi id id.
Proof.
  split; try (intros; by eexists); try (intros; cbn in *; by simplify_eq).
  - intros rs js Hrs. enough (sequence_ref rs = Ok js) as E by (exists (JSArray js); cbn; by rewrite E).
    induction Hrs as [|r j rs js (v & -> & E) _ IH]; [done|]. cbn. rewrite IH. cbn. by rewrite <- E.
  - intros rs e Hin. cbn. enough (is_err (sequence_ref rs) = true) as E by (by destruct (sequence_ref rs)).
    induction rs as [|r rs IH]; [by apply elem_of_nil in Hin|]. cbn. destruct r as [j|]; [|done].
    apply elem_of_cons in Hin as [?|Hin]; [done|]. specialize (IH Hin). cbn. by destruct (sequence_ref rs).
  - intros es fs _ Hes. eexists. split; [|reflexivity]. cbn. unfold js_fields.
    enough (entries_ref es = Ok (omap (fun p => pair p.1 <$> p.2) fs)) as -> by done.
    induction Hes as [|[k [r|]] [k' [j|]] es fs [E Hr] _ IH]; cbn in *; try done. subst.
    destruct Hr as (v & -> & E). rewrite IH. cbn in *. by rewrite <- E.
  - intros es k e Hin. cbn. enough (is_err (entries_ref es) = true) as E by (by destruct (entries_ref es)).
    induction es as [|[k' [[j|e']|]] es IH]; [by apply elem_of_nil in Hin|..]; cbn; [|done|];
      apply elem_of_cons in Hin as [?|Hin]; try done; specialize (IH Hin); [|done].
    by destruct (entries_ref es).
  - intros v n E Hn. cbn in *. rewrite E. by rewrite i32_small.
  - intros v H. cbn. destruct v; try done. by destruct (H s).
  - intros v H. cbn. destruct v; try done. by destruct (H b).
  - intros v H. cbn. destruct v; try done. by destruct (H b).
  - intros v fs E. exists v. cbn in *. by rewrite E.
  - intros v fs E. exists v. cbn in *. by rewrite E.
  - intros v id E. exists v. cbn in *. by rewrite E.
  - intros o fs k j E Hk. exists j. cbn in *. rewrite E. cbn. by rewrite Hk.
  - intros o fs k j E Hk _. exists j. cbn in *. rewrite E. cbn. by rewrite Hk.
  - intros o fs k E Hk. cbn in *. rewrite E. cbn. by rewrite Hk.
  - intros T o t ns id E _. cbn in *. rewrite E. cbn. eexists _, _. split; [done|]. by rewrite lookup_insert_eq.
  - intros T v t t' ns. cbn. destruct (instance_ref v) as [id|]; [|done]. by rewrite lookup_insert_eq.
Qed.

(** ** Lemmas for the bindings *)

Lemma s2b_ascii s : forallb (fun c => (0 <? c) && (c <? 128)) (s2b s) = true -> ascii_text (s2b s).
Proof.
  unfold ascii_text. induction (s2b s) as [|c l IH]; cbn; [constructor|].
  intros [Hc Hl]%andb_true_iff. constructor; [lia|auto].
Qed.

Lemma js_fields_lookup fields k j : NoDup fields.*1 -> (k, Some j) ∈ fields -> js_fields fields !! k = Some j.
Proof.
  intros Hnd Hin. unfold js_fields. apply elem_of_list_to_map_1.
  - clear Hin. induction fields as [|[k' [j'|]] fields IH]; cbn in *; [constructor| |by inversion Hnd; auto].
    inversion Hnd as [|? ? Hni Hnd']; subst. constructor; [|by apply IH].
    intros (p & E & Hp)%list_elem_of_fmap. apply list_elem_of_omap in Hp as ([k2 [j2|]] & Hp & E2); [|done].
    cbn in E2. injection E2 as <-. apply Hni. apply list_elem_of_fmap. cbn in E. subst. by exists (k2, Some j2).
  - apply list_elem_of_omap. by exists (k, Some j).
Qed.

Section Makes.
Context `{NL : CraftnapiLaws}.

Lemma makes_bind r j (f : Value -> Result Value) k : makes denote r j ->
  (forall v, denote v = j -> makes denote (f v) k) -> makes denote (r ≫= f) k.
Proof. intros (v & -> & E) Hf. by apply Hf. Qed.

Lemma makes_literal s : forallb (fun c => (0 <? c) && (c <? 128)) (s2b s) = true ->
  makes denote (create_string (s2b s)) (JSString (s2b s)).
Proof.
  intros Hs. rewrite <- (utf8_ascii (s2b s)) at 2 by by apply s2b_ascii. apply create_string_ok.
Qed.

Lemma makes_int32 n : makes denote (create_int32 (i32 n)) (JSNumber (i32 n)).
Proof. apply create_int32_ok, i32_bounds. Qed.

(** An entry and the property of that name. *)
Definition entry_gives (e : bytes * option (Result Value)) (p : string * option JS) : Prop :=
  entry_makes denote e (s2b p.1, p.2).

Lemma entry_gives_value name r j : makes denote r j -> entry_gives (entry name r) (name, Some j).
Proof. by split. Qed.

Lemma entry_gives_object name r j : makes denote (object_value <$> r) j ->
  entry_gives (entry_object name r) (name, Some j).
Proof. by split. Qed.

Lemma entry_gives_maybe {A} name (m : option A) f g : (forall x, m = Some x -> makes denote (f x) (g x)) ->
  entry_gives (entry_maybe name (f <$> m)) (name, g <$> m).
Proof. intros Hf. split; [done|]. destruct m as [x|]; cbn; [by apply Hf|done]. Qed.

Lemma create_object_makes es fields : NoDup es.*1 -> Forall2 entry_gives es fields ->
  makes denote (object_value <$> create_object es) (js_object_maybe fields).
Proof. intros Hnd Hes. apply create_object_ok; [done|]. by apply Forall2_fmap_r. Qed.

End Makes.

(** An object with literal keys: one goal per property that is not found by the hints. *)
Create HintDb napi.
#[export] Hint Resolve create_boolean_ok create_buffer_ok create_null_ok create_undefined_ok create_string_ok
  makes_int32 create_int32_ok create_uint32_ok create_bigint_ok : napi.
#[export] Hint Extern 1 (makes _ (create_string (s2b _)) _) => (apply makes_literal; reflexivity) : napi.

Ltac object :=
  apply create_object_makes; [by apply (bool_decide_unpack _); vm_compute|];
  repeat lazymatch goal with
  | |- Forall2 _ (_ :: _) _ => apply Forall2_cons_2
  | |- Forall2 _ [] _ => apply Forall2_nil_2
  end;
  try first [apply entry_gives_value | apply entry_gives_object | apply entry_gives_maybe; intros ? ?];
  eauto with napi.
