(* ===== verification/NodeMessage.v ===== *)
(** * node/node_stun/node_stun_header, node_stun_message: STUN messages as JavaScript objects

    Each function builds a value through the interface of Napi.v. The specification is the
    JavaScript object of a message, [js_message]; the theorems show that the object built
    for a well-formed message is that object, and that a message of a method other than
    Binding gives an error. *)

From stdpp Require Import pretty.
From S2P Require Import Prelude Errors Craftpp Util Net StunBase StunCrc StunAttr StunAttrSet StunMessage Napi.
#[local] Open Scope Z_scope.

Section NodeMessage.
Context `{Craftpp} `{Inet} `{Craftnapi}.

(** The iterations allowed to [Address::to_string]. *)
Context (fuel : nat).

(** ** node_stun_header.cpp *)

Definition stun_class (cls : Class) : Result Value :=
  match cls with
  | REQUEST => create_string (s2b "request")
  | INDICATION => create_string (s2b "indication")
  | SUCCESS_RESPONSE => create_string (s2b "success_response")
  | ERROR_RESPONSE => create_string (s2b "error_response")
  end.

Definition stun_method (method : Z) : Result Value :=
  if method =? method_binding then create_string (s2b "binding")
  else Err (node_stun_error nse_unknown_stun_method).

Definition stun_transaction_id (id : bytes) : Result Value := create_buffer id.

Definition header_to_craftnapi (hdr : Header) : Result Object :=
  add_context [s2b "stun header"]
    (create_object [entry "class" (stun_class (h_cls hdr));
                    entry "method" (stun_method (h_method hdr));
                    entry "transaction" (stun_transaction_id (h_transaction_id hdr))]).

(** ** node_stun_message.cpp *)

(** The lambda of [xor_mapped]. *)
Definition xor_mapped_to_craftnapi (tid : bytes) (v : XoredAddress * Z) : option (Result Object) :=
  str ← address_to_string fuel (xaddr_to_address v.1 tid);
  Some (addr ← str;
        create_object [entry "addr" (create_string addr); entry "port" (create_int32 v.2)]).

Definition error_code_to_craftnapi (v : Z * option bytes) : Result Object :=
  create_object [entry "code" (create_int32 (i32 v.1)); entry "reason" (create_string (default [] v.2))].

Definition stun_attributes (tid : bytes) (attrs : AttributeSet) : option (Result Object) :=
  xor_mapped_rv ← match xor_mapped attrs with
                  | Some v => r ← xor_mapped_to_craftnapi tid v; Some (Some r)
                  | None => Some None
                  end;
  Some (create_object [
    entry_maybe "username" (create_string <$> username attrs);
    entry_maybe "software" (create_string <$> software attrs);
    entry_maybe "xor_mapped" (fmap (M := Result) object_value <$> xor_mapped_rv);
    entry_maybe "priority" (create_uint32 <$> priority attrs);
    entry_maybe "ice-controlling" (create_bigint_uint64 <$> ice_controlling attrs);
    entry_maybe "ice-controlled" (create_bigint_uint64 <$> ice_controlled attrs);
    entry_maybe "use-candidate" (if has_use_candidate attrs then Some (create_boolean true) else None);
    entry_maybe "error_code" ((fun v => object_value <$> error_code_to_craftnapi v) <$> error_code_attr attrs)]).

Definition message_to_craftnapi (msg : Message) : option (Result Object) :=
  attributes ← stun_attributes (h_transaction_id (header msg)) (attribute_set msg);
  Some (add_context [s2b "stun message"]
    (create_object [entry_object "header" (header_to_craftnapi (header msg));
                    entry "is_rfc3489" (create_boolean (is_rfc3489 msg));
                    entry_object "attributes" attributes])).

(** The callback [message_parse]. *)
Definition node_message_parse (ci : CallbackInfo) : option (Result Value) :=
  let msg_rv : Result Message :=
    view ← (arg ← info_arg ci 0; as_buffer arg); (message_parse view parse_stat_zero).2 in
  match msg_rv with
  | Err e => Some (Err e)
  | Ok msg => fmap (M := Result) object_value <$> message_to_craftnapi msg
  end.

End NodeMessage.

(** ** Specification: the JavaScript object of a message *)

Section Spec.
Context `{Craftpp} (text : Address -> bytes) (utf8 : bytes -> bytes).

Definition class_name (cls : Class) : string :=
  match cls with
  | REQUEST => "request" | INDICATION => "indication"
  | SUCCESS_RESPONSE => "success_response" | ERROR_RESPONSE => "error_response"
  end.

(** The transport address with its text. *)
Definition js_endpoint (a : Address) (port : Z) : JS :=
  js_object [("addr", JSString (text a)); ("port", JSNumber port)]%string.

Definition js_header (hd : Header) : JS :=
  js_object [("class", JSString (s2b (class_name (h_cls hd)))); ("method", JSString (s2b "binding"));
             ("transaction", JSBuffer (h_transaction_id hd))]%string.

Definition js_attributes (tid : bytes) (s : AttributeSet) : JS :=
  js_object_maybe [
    ("username", (fun v => JSString (utf8 v)) <$> username s);
    ("software", (fun v => JSString (utf8 v)) <$> software s);
    ("xor_mapped", (fun v => js_endpoint (xaddr_to_address v.1 tid) v.2) <$> xor_mapped s);
    ("priority", JSNumber <$> priority s);
    ("ice-controlling", JSBigInt <$> ice_controlling s);
    ("ice-controlled", JSBigInt <$> ice_controlled s);
    ("use-candidate", if has_use_candidate s then Some (JSBoolean true) else None);
    ("error_code", (fun v => js_object [("code", JSNumber (i32 v.1)); ("reason", JSString (utf8 (default [] v.2)))])
                     <$> error_code_attr s)]%string.

Definition js_message (m : Message) : JS :=
  js_object [("header", js_header (header m)); ("is_rfc3489", JSBoolean (is_rfc3489 m));
             ("attributes", js_attributes (h_transaction_id (header m)) (attribute_set m))]%string.

End Spec.

(** ** Lemmas *)

(** A value that an accessor returns is well-formed. *)
Lemma get_wf {A} type (as_T : AttributeValue -> option A) s x : attribute_set_wf s -> get type as_T s = Some x ->
  exists v, as_T v = Some x /\ attribute_value_wf v.
Proof.
  intros Hwf E. unfold get, as_find in E. destruct (m_map s !! type) as [a|] eqn:Ea; [|done].
  cbn in E. exists (a_value a). split; [done|]. by apply (wf_map s Hwf type a).
Qed.

Lemma xaddr_to_address_wf `{CraftppLaws} x tid : xaddr_wf x -> bytes_ok tid -> address_wf (xaddr_to_address x tid).
Proof.
  unfold address_wf, xaddr_wf, xaddr_to_address, zlen. intros Hx Ht. destruct x as [v|v]; destruct Hx as [Hl Hok].
  - rewrite xor_magic_length by lia. auto using xor_magic_ok.
  - rewrite xor_v6_length by lia. auto using xor_v6_ok.
Qed.

Lemma xor_mapped_wf s x port : attribute_set_wf s -> xor_mapped s = Some (x, port) -> xaddr_wf x /\ fits 16 port.
Proof. intros Hwf E. destruct (get_wf _ _ _ _ Hwf E) as ([] & Ev & Hv); try done. by injection Ev as -> ->. Qed.

Section Lemmas.
Context `{CL : CraftppLaws} `{I : Inet} {text : Address -> bytes} `{IL : !InetLaws I text} `{NL : CraftnapiLaws}.

Lemma create_string_ascii s : ascii_text s -> makes denote (create_string s) (JSString s).
Proof. intros Hs. rewrite <- (utf8_ascii s Hs) at 2. apply create_string_ok. Qed.

Lemma makes_port port : fits 16 port -> makes denote (create_int32 port) (JSNumber port).
Proof. intros Hp. apply create_int32_ok. unfold fits in Hp. lia. Qed.

Lemma makes_endpoint a port : address_wf a -> fits 16 port ->
  makes denote (object_value <$> create_object [entry "addr" (create_string (text a)); entry "port" (create_int32 port)])
    (js_endpoint text a port).
Proof. intros Ha Hp. object; [by apply create_string_ascii, text_ascii|by apply makes_port]. Qed.

Lemma stun_class_makes cls : makes denote (stun_class cls) (JSString (s2b (class_name cls))).
Proof. by destruct cls; apply makes_literal. Qed.

Lemma makes_add_context ctx (r : Result Object) j :
  makes denote (object_value <$> r) j -> makes denote (object_value <$> add_context ctx r) j.
Proof. destruct r as [o|e]; [done|]. by intros (v & E & _). Qed.

Lemma header_makes hd : h_method hd = BINDING -> makes denote (object_value <$> header_to_craftnapi hd) (js_header hd).
Proof.
  intros Hm. apply makes_add_context. object.
  - apply stun_class_makes.
  - unfold stun_method. rewrite Hm. by apply makes_literal.
Qed.

Lemma header_other_method hd : h_method hd <> BINDING -> is_err (header_to_craftnapi hd) = true.
Proof.
  intros Hm. unfold header_to_craftnapi, add_context.
  enough (is_err (create_object [entry "class" (stun_class (h_cls hd)); entry "method" (stun_method (h_method hd));
    entry "transaction" (stun_transaction_id (h_transaction_id hd))]) = true) as E by (by destruct (create_object _)).
  apply (create_object_err _ (s2b "method") (node_stun_error nse_unknown_stun_method)).
  replace (stun_method (h_method hd)) with (Err (A := Value) (node_stun_error nse_unknown_stun_method)); [right; left|].
  unfold stun_method, method_binding. destruct (Z.eqb_spec (h_method hd) BINDING); done.
Qed.

Lemma error_code_makes v : makes denote (object_value <$> error_code_to_craftnapi v)
  (js_object [("code", JSNumber (i32 v.1)); ("reason", JSString (utf8 (default [] v.2)))]%string).
Proof. object. Qed.

Context (fuel : nat) (Hfuel : (0 < fuel)%nat).

Lemma xor_mapped_makes tid v : bytes_ok tid -> xaddr_wf v.1 -> fits 16 v.2 -> exists r,
  xor_mapped_to_craftnapi fuel tid v = Some r /\
  makes denote (object_value <$> r) (js_endpoint text (xaddr_to_address v.1 tid) v.2).
Proof.
  intros Ht Hx Hp. pose proof (xaddr_to_address_wf v.1 tid Hx Ht) as Ha.
  unfold xor_mapped_to_craftnapi. rewrite (address_to_string_text text) by done.
  eexists. split; [done|]. by apply makes_endpoint.
Qed.

Lemma stun_attributes_makes tid s : bytes_ok tid -> attribute_set_wf s -> exists r,
  stun_attributes fuel tid s = Some r /\ makes denote (object_value <$> r) (js_attributes text utf8 tid s).
Proof.
  intros Ht Hs.
  assert (exists xm, match xor_mapped s with
                     | Some v => r ← xor_mapped_to_craftnapi fuel tid v; Some (Some r)
                     | None => Some None
                     end = Some xm /\
      entry_makes denote (entry_maybe "xor_mapped" (fmap (M := Result) object_value <$> xm))
        (s2b "xor_mapped", (fun v => js_endpoint text (xaddr_to_address v.1 tid) v.2) <$> xor_mapped s)) as (xm & E & Hxm).
  { destruct (xor_mapped s) as [[x port]|] eqn:Ex; [|by exists None].
    destruct (xor_mapped_wf s x port Hs Ex) as [Hx Hp].
    destruct (xor_mapped_makes tid (x, port) Ht Hx Hp) as (r & -> & Hr). by exists (Some r). }
  unfold stun_attributes. rewrite E. eexists. split; [reflexivity|]. clear E.
  object.
  1-3: destruct (get_wf _ _ _ _ Hs ltac:(eassumption)) as ([] & Ev & Hv); try done; injection Ev as <-; cbn in Hv; eauto with napi.
  - by destruct (has_use_candidate s); [apply entry_gives_value, create_boolean_ok|].
  - apply error_code_makes.
Qed.

(** Every message that can be read back from its header, with a well-formed set. *)
Lemma message_makes m : header_readable (header m) (is_rfc3489 m) -> attribute_set_wf (attribute_set m) -> exists r,
  message_to_craftnapi fuel m = Some r /\
  if h_method (header m) =? BINDING then makes denote (object_value <$> r) (js_message text utf8 m) else is_err r = true.
Proof.
  intros [(Hm & Ht & _) _] Hs. destruct (stun_attributes_makes _ _ Ht Hs) as (ar & E & Har).
  unfold message_to_craftnapi. rewrite E. eexists. split; [reflexivity|]. clear E.
  destruct (Z.eqb_spec (h_method (header m)) BINDING) as [Eb|Eb].
  - apply makes_add_context. object. by apply header_makes.
  - pose proof (header_other_method _ Eb) as He. destruct (header_to_craftnapi (header m)) as [o|e] eqn:Eh; [done|].
    set (es := [_; _; _]). assert (is_err (create_object es) = true) as Ho
      by (apply (create_object_err _ (s2b "header") e); unfold es; left).
    by destruct (create_object es).
Qed.

End Lemmas.

(** ** Property *)

(** C31. [message_parse] of the bindings gives JavaScript the message that [Message::parse]
    reads. For any buffer: when the parse fails, the call throws that error; when it
    succeeds with a Binding message, the call returns an object with the class, the method,
    the transaction id, whether it is an RFC 3489 message, and a property for each of these
    attributes that the message has: USERNAME, SOFTWARE, XOR-MAPPED-ADDRESS (the address in
    text and the port), PRIORITY, ICE-CONTROLLING and ICE-CONTROLLED (the 64-bit tie
    breakers as BigInt), USE-CANDIDATE and ERROR-CODE (the code and the reason). The bindings
    give no property for the other attributes (MAPPED-ADDRESS, ALTERNATE-SERVER,
    UNKNOWN-ATTRIBUTES, MESSAGE-INTEGRITY, FINGERPRINT, and those the library does not
    know). For a message of another method the call throws. It always ends. *)
Theorem node_message_parse_js `{C : Craftpp} (CL : CraftppLaws C) `{I : Inet} (text : Address -> bytes) (IL : InetLaws I text)
  `{N : Craftnapi} (denote : Value -> JS) (utf8 : bytes -> bytes) (NL : CraftnapiLaws N denote utf8)
  (fuel : nat) (Hfuel : (0 < fuel)%nat) (ci : CallbackInfo) (v : Value) (vv : bytes)
  (Harg : info_arg ci 0 = Ok v) (Hv : denote v = JSBuffer vv) (Hok : bytes_ok vv) :
  exists r, node_message_parse fuel ci = Some r /\
    match (message_parse vv parse_stat_zero).2 with
    | Err e => r = Err e
    | Ok m => if h_method (header m) =? BINDING then makes denote r (js_message text utf8 m) else is_err r = true
    end.
Proof.
  unfold node_message_parse. rewrite Harg. cbn [mbind result_bind]. rewrite (as_buffer_ok v vv Hv). cbn [mbind result_bind].
  pose proof (message_parse_outcome_lemma vv parse_stat_zero Hok) as Hp.
  destruct (message_parse vv parse_stat_zero) as [st [m|e]]; cbn [snd]; [|by eexists].
  destruct Hp as [_ Hm]. destruct (message_makes fuel Hfuel m (mw_header _ _ Hm) (mw_set _ _ Hm)) as (r & -> & Hr).
  eexists. split; [reflexivity|]. destruct (h_method (header m) =? BINDING); [done|]. by destruct r.
Qed.

(** A Binding request without attributes. *)
Definition plain_request : bytes := [0; 1; 0; 0; 0x21; 0x12; 0xA4; 0x42; 1; 2; 3; 4; 5; 6; 7; 8; 9; 10; 11; 12].

Lemma node_message_parse_js_witness : exists r m,
  @node_message_parse reference hex_inet reference_napi 1 ([JSBuffer plain_request], JSUndefined) = Some r /\
  (message_parse (H := reference) plain_request parse_stat_zero).2 = Ok m /\
  makes (N := reference_napi) id r (js_message (H := reference) address_hex_text id m).
Proof.
  destruct (node_message_parse_js reference_laws address_hex_text hex_inet_laws (N := reference_napi) id id reference_napi_laws 1 ltac:(lia)
    ([JSBuffer plain_request], JSUndefined) (JSBuffer plain_request) plain_request eq_refl eq_refl) as (r & E & Hr).
  - unfold plain_request. repeat constructor; unfold is_byte; lia.
  - destruct (message_parse (H := reference) plain_request parse_stat_zero).2 as [m|e] eqn:Em.
    + exists r, m. split; [exact E|]. split; [reflexivity|].
      assert (h_method (header m) = BINDING) as Eb.
      { apply (f_equal (fun x => match x with Ok m => h_method (header m) | Err _ => 0 end)) in Em. vm_compute in Em. exact (eq_sym Em). }
      rewrite Eb in Hr. exact Hr.
    + apply (f_equal is_ok) in Em. vm_compute in Em. discriminate Em.
Defined.
