(* ===== verification/NodeIce.v ===== *)
(** * node/node_ice/node_ice_candidate: ICE candidates as JavaScript objects

    [ice_candidate_parse] gives JavaScript an object with two properties: [result], the
    candidate or null, and [error], null or why the line is not supported. The specification
    is [js_candidate]; the theorem ties the callback to the grammar of IceCandidate.v. *)

From S2P Require Import Prelude Errors Craftpp Util Net IceCandidate Napi NodeMessage.

Section NodeIce.
Context `{Craftpp} `{Inet} `{Craftnapi}.

(** The iterations allowed to [Address::to_string]; [Error::message] of craftpp. *)
Context (fuel : nat) (error_message : Error -> bytes).

(** The lambda [ice_addr_to_string]. *)
Definition ice_addr_to_craftnapi (addr : IceAddress) : option (Result Value) :=
  str ← ice_address_to_string fuel addr; Some (s ← str; create_string s).

(** The lambda [ext_to_obj]. *)
Definition ext_to_obj (ext : Extension) : Result Value :=
  object_value <$> create_object [entry "name" (create_string (att_name ext)); entry "value" (create_string (att_value ext))].

Definition ice_candidate_to_object (c : Candidate) (extensions : list Extension) : option (Result Object) :=
  host_rv ← ice_addr_to_craftnapi (c_address c);
  raddr_rv ← match c_maybe_related_address c with
             | Some addr => r ← ice_addr_to_craftnapi addr; Some (Some r)
             | None => Some None
             end;
  Some (create_object [
    entry_object "result" (create_object [
      entry "host" host_rv;
      entry "port" (create_int32 (c_port c));
      entry "type" (create_string (type_to_string (c_type c)));
      entry "transport" (create_string (transport_type_to_string (c_transport_type c)));
      entry "foundation" (create_string (c_foundation c));
      entry "component" (create_int32 (i32 (c_component c)));
      entry_maybe "raddr" raddr_rv;
      entry_maybe "rport" (create_int32 <$> c_maybe_related_port c);
      entry "extensions" (create_array (map ext_to_obj extensions))]);
    entry "error" create_null]).

(** The callback [ice_candidate_parse]; the length of the string bounds the loop of the parser. *)
Definition ice_candidate_parse (ci : CallbackInfo) : option (Result Value) :=
  let str_rv : Result bytes := arg ← info_arg ci 0; to_string arg in
  match str_rv with
  | Err e => Some (Err e)
  | Ok str =>
      result_rv ← parse_sdp_attr error_message (S (length str)) str;
      match result_rv with
      | Err e => Some (Err e)
      | Ok (Supported candidate extensions) =>
          fmap (M := Result) object_value <$> ice_candidate_to_object candidate extensions
      | Ok (Unsupported value) =>
          Some (object_value <$> create_object [entry "result" create_null; entry "error" (create_string value)])
      end
  end.

End NodeIce.

(** ** Specification *)

Section Spec.
Context (text : Address -> bytes) (utf8 : bytes -> bytes).

Definition js_ice_address (a : IceAddress) : JS :=
  match a with IpAddress ip => JSString (text ip) | FqdnAddress f => JSString (utf8 f) end.

Definition js_extension (e : Extension) : JS :=
  js_object [("name", JSString (utf8 (att_name e))); ("value", JSString (utf8 (att_value e)))]%string.

Definition js_candidate (c : Candidate) (extensions : list Extension) : JS :=
  js_object_maybe [
    ("host", Some (js_ice_address (c_address c)));
    ("port", Some (JSNumber (c_port c)));
    ("type", Some (JSString (type_to_string (c_type c))));
    ("transport", Some (JSString (transport_type_to_string (c_transport_type c))));
    ("foundation", Some (JSString (c_foundation c)));
    ("component", Some (JSNumber (c_component c)));
    ("raddr", js_ice_address <$> c_maybe_related_address c);
    ("rport", JSNumber <$> c_maybe_related_port c);
    ("extensions", Some (JSArray (map js_extension extensions)))]%string.

End Spec.

(** The same candidate with another priority. *)
Definition with_priority (p : Z) (c : Candidate) : Candidate :=
  mk_Candidate (c_address c) (c_port c) (c_transport_type c) (c_foundation c) (c_component c) p (c_type c)
    (c_maybe_related_address c) (c_maybe_related_port c).

(** A candidate whose fields are as the parser leaves them. *)
Record candidate_ok (c : Candidate) : Prop := {
  co_address ip : c_address c = IpAddress ip -> address_wf ip;
  co_raddr ip : c_maybe_related_address c = Some (IpAddress ip) -> address_wf ip;
  co_port : fits 16 (c_port c);
  co_rport p : c_maybe_related_port c = Some p -> fits 16 p;
  co_foundation : ascii_text (c_foundation c);
  co_component : 0 <= c_component c < 1000
}.

(** ** Lemmas *)

Lemma decimal_fits v n : forallb is_DIGIT v = true -> zlen v <= n -> 0 <= decimal v < 10 ^ n.
Proof.
  intros Hv Hn. pose proof (decimal_bounds v (forallb_digits v Hv) 0 ltac:(lia)) as Hb.
  fold (decimal v) in Hb. rewrite Z.add_0_l, Z.mul_1_l in Hb. pose proof (zlen_nonneg v).
  assert (10 ^ zlen v <= 10 ^ n) by (apply Z.pow_le_mono_r; lia). lia.
Qed.

Lemma ice_chars_ascii v : forallb is_ice_char v = true -> ascii_text v.
Proof.
  unfold ascii_text. induction v as [|c v IH]; cbn; [constructor|]. intros [Hc Hv]%andb_true_iff. constructor; [|auto].
  unfold is_ice_char, is_ALPHA, is_DIGIT in Hc. rewrite !orb_true_iff, !andb_true_iff in Hc. lia.
Qed.

Section Lemmas.
Context `{C : Craftpp} `{I : Inet} {text : Address -> bytes} `{IL : !InetLaws I text} `{NL : CraftnapiLaws}.

Lemma denotes_address_wf v ip : denotes_address v (IpAddress ip) -> address_wf ip.
Proof. intros Hd. by eapply (address_from_string_wf text). Qed.

Lemma denotes_port_fits v p : denotes_port v p -> fits 16 p.
Proof. intros ([Hl Hd] & -> & Hp). pose proof (decimal_fits v 5 Hd ltac:(lia)). unfold fits. lia. Qed.

Lemma last_denotes_some {A} (R : bytes -> A -> Prop) values r x : last_denotes R values r -> r = Some x -> exists v, R v x.
Proof. unfold last_denotes. destruct (last values); [|by intros Hr ->]. intros Hr ->. eauto. Qed.

(** What the parser accepts is such a candidate. *)
Lemma parsed_candidate_ok (error_message : Error -> bytes) fuel s c exts : (length s < fuel)%nat ->
  parse_sdp_attr error_message fuel s = Some (Ok (Supported c exts)) -> candidate_ok c.
Proof.
  intros Hf E. apply parse_sdp_attr_supported in E as (fnd & cid & tr & prio & addr & port & typ & pairs & _ & Ht & Hra & Hrp & _); [|done].
  destruct Ht as [(_ & Hfnd & Ef) ([Hcl Hcd] & Ec) _ _ Ha Hport _]. split.
  - intros ip Eip. rewrite Eip in Ha. by eapply denotes_address_wf.
  - intros ip Eip. destruct (last_denotes_some _ _ _ _ Hra Eip) as [v Hv]. by eapply denotes_address_wf.
  - by eapply denotes_port_fits.
  - intros p Ep. destruct (last_denotes_some _ _ _ _ Hrp Ep) as [v Hv]. by eapply denotes_port_fits.
  - rewrite Ef. by apply ice_chars_ascii.
  - rewrite Ec. apply (decimal_fits cid 3 Hcd). lia.
Qed.

Context (fuel : nat) (Hfuel : (0 < fuel)%nat).

Lemma ice_addr_makes a : (forall ip, a = IpAddress ip -> address_wf ip) ->
  exists r, ice_addr_to_craftnapi fuel a = Some r /\ makes denote r (js_ice_address text utf8 a).
Proof.
  intros Ha. unfold ice_addr_to_craftnapi. destruct a as [ip|f]; cbn [ice_address_to_string js_ice_address].
  - rewrite (address_to_string_text text) by auto. eexists. split; [reflexivity|]. cbn [mbind result_bind].
    by apply create_string_ascii, text_ascii, Ha.
  - eexists. split; [reflexivity|]. apply create_string_ok.
Qed.

Lemma extensions_make exts : Forall2 (makes denote) (map ext_to_obj exts) (map (js_extension utf8) exts).
Proof.
  induction exts as [|e exts IH]; cbn [map]; [constructor|]. apply Forall2_cons_2; [|done].
  unfold ext_to_obj, js_extension. object.
Qed.

Lemma candidate_makes c exts : candidate_ok c -> exists r, ice_candidate_to_object fuel c exts = Some r /\
  makes denote (object_value <$> r)
    (js_object [("result", js_candidate text utf8 c exts); ("error", JSNull)]%string).
Proof.
  intros [Ha Hra Hp Hrp Hf Hc]. destruct (ice_addr_makes (c_address c) Ha) as (hr & E1 & Hh).
  assert (exists rr, match c_maybe_related_address c with
                     | Some addr => r ← ice_addr_to_craftnapi fuel addr; Some (Some r)
                     | None => Some None
                     end = Some rr /\
    entry_gives (denote := denote) (entry_maybe "raddr" rr) ("raddr", js_ice_address text utf8 <$> c_maybe_related_address c)%string)
    as (rr & E2 & Hr).
  { destruct (c_maybe_related_address c) as [a|]; [|by exists None].
    destruct (ice_addr_makes a) as (r & -> & Hm); [intros ip ->; by apply Hra|]. by exists (Some r). }
  unfold ice_candidate_to_object. rewrite E1. cbn [mbind option_bind]. rewrite E2. eexists. split; [reflexivity|]. clear E1 E2.
  object. unfold js_candidate. object.
  - by apply makes_port.
  - by destruct (c_type c); apply makes_literal.
  - by destruct (c_transport_type c); apply makes_literal.
  - by apply create_string_ascii.
  - rewrite i32_small by lia. apply create_int32_ok. lia.
  - by apply makes_port, Hrp.
  - by apply create_array_ok, extensions_make.
Qed.

End Lemmas.

(** ** Property *)

(** C32. [ice_candidate_parse] gives JavaScript what the SDP parser reads, but for the
    priority. For any string the call ends. A line of the grammar (see parse_sdp_attr_iff)
    gives an object whose [error] is null and whose [result] has the properties host (the
    address in text or the domain name), port, type and transport (in their canonical
    spelling), foundation, component, raddr and rport if the line has them, and extensions,
    all of them in order. The priority that was read is dropped: candidates that differ in
    it alone give the same object. A line that is not supported gives [result] null and the
    reason in [error], and a malformed line throws the parser's error. *)
Theorem node_ice_candidate_js `{C : Craftpp} (CL : CraftppLaws C) `{I : Inet} (text : Address -> bytes) (IL : InetLaws I text)
  `{N : Craftnapi} (denote : Value -> JS) (utf8 : bytes -> bytes) (NL : CraftnapiLaws N denote utf8)
  (error_message : Error -> bytes) (fuel : nat) (Hfuel : (0 < fuel)%nat) (ci : CallbackInfo) (v : Value) (s : bytes)
  (Harg : info_arg ci 0 = Ok v) (Hv : denote v = JSString s) :
  exists rv r, parse_sdp_attr error_message (S (length s)) s = Some rv /\
    ice_candidate_parse fuel error_message ci = Some r /\
    match rv with
    | Ok (Supported c exts) => makes denote r (js_object [("result", js_candidate text utf8 c exts); ("error", JSNull)]%string) /\
        forall p, js_candidate text utf8 (with_priority p c) exts = js_candidate text utf8 c exts
    | Ok (Unsupported reason) => makes denote r (js_object [("result", JSNull); ("error", JSString (utf8 reason))]%string)
    | Err e => r = Err e
    end.
Proof.
  destruct (parse_sdp_attr_total error_message (S (length s)) s ltac:(lia)) as [rv E]. exists rv.
  unfold ice_candidate_parse. rewrite Harg. cbn [mbind result_bind]. rewrite (to_string_ok v s Hv), E. cbn [mbind option_bind].
  destruct rv as [[c exts|reason]|e].
  - destruct (candidate_makes fuel Hfuel c exts) as (r & -> & Hr); [by eapply parsed_candidate_ok; [|exact E]; lia|].
    eexists. split; [done|]. split; [reflexivity|]. by split.
  - eexists. split; [done|]. split; [reflexivity|]. object.
  - by eexists.
Qed.

Definition m_context_text (e : Error) : bytes := List.concat (m_context e).

(** The line "candidate:1 1 UDP 2 <address> 9 typ host", its address as the sample system
    writes it. *)
Definition node_sample_line : bytes :=
  s2b "candidate:1 1 UDP 2 " ++ address_hex_text (AddressV4 [16; 0; 2; 3]) ++ s2b " 9 typ host".

Lemma node_ice_candidate_js_witness : exists r c,
  @ice_candidate_parse reference hex_inet reference_napi 1 m_context_text ([JSString node_sample_line], JSUndefined) = Some r /\
  makes (N := reference_napi) id r (js_object [("result", js_candidate address_hex_text id c []); ("error", JSNull)]%string) /\
  c_address c = IpAddress (AddressV4 [16; 0; 2; 3]) /\ c_port c = 9.
Proof.
  destruct (node_ice_candidate_js reference_laws address_hex_text hex_inet_laws (N := reference_napi) id id reference_napi_laws
    m_context_text 1 ltac:(lia) ([JSString node_sample_line], JSUndefined) (JSString node_sample_line) node_sample_line
    eq_refl eq_refl) as (rv & r & E & Er & Hr).
  vm_compute in E. injection E as <-. eexists r, _. split; [exact Er|]. split; [exact (proj1 Hr)|]. split; reflexivity.
Defined.
