(* ===== verification/NodeServer.v ===== *)
(** * node/node_stun/node_stun_server_stateless: the stateless server as a JavaScript class

    An instance of the class wraps a [Stateless]; its methods [process] and [addUser] convert
    their arguments, call the server, and convert the result. The theorems: a server created
    and given users by JavaScript holds exactly their credentials and answers accordingly, so that the
    properties of StunServer.v apply to it, and [process] returns what the server answers. *)

From S2P Require Import Prelude Errors Craftpp Util Net Crypto NodeCrypto StunBase StunCrc StunAttr StunAttrSet StunMessage StunServer Napi NodeMessage.

Section NodeServer.
Context `{Craftpp} `{Inet} `{Evp} `{Craftnapi} `{MapOrder}.

(** The iterations allowed to [Address::to_string]. *)
Context (fuel : nat).

(** A method of the class: it reads and updates the native objects, and its loops may need
    more fuel. *)
Definition Method : Type := CallbackInfo -> Natives Stateless -> option (Natives Stateless * Result Value).

(** [constructor]: the settings have their defaults. *)
Definition server_constructor : Method := fun info ns =>
  Some match as_object (this_arg info) with
       | Ok obj => object_wrap obj (stateless_create node_sha1 None) ns
       | Err e => (ns, Err e)
       end.

Definition extract_rinfo (v : Value) : Result Endpoint :=
  let v_as_obj := as_object v in
  let addr_rv := add_context [s2b "rinfo.address"]
    (obj ← v_as_obj; v ← named_property obj (s2b "address"); str ← as_string v; address_from_string str) in
  let port_rv := add_context [s2b "rinfo.port"]
    (obj ← v_as_obj; v ← named_property obj (s2b "port"); as_int32 v) in
  combine2 (fun addr port => Ok (UdpEndpoint addr (u16 port))) addr_rv port_rv.

(** The [std::visit] of [process_message]. *)
Definition process_result_to_craftnapi (result : ProcessResult) : option (Result Value) :=
  match result with
  | Ignore None => Some (object_value <$> create_object [
      entry "result" (create_string (s2b "ignore")); entry_maybe "message" None])
  | Ignore (Some msg) =>
      msg_rv ← message_to_craftnapi fuel msg;
      Some (object_value <$> create_object [
        entry "result" (create_string (s2b "ignore")); entry_object "message" msg_rv])
  | ProcessError error => Some (Err error)
  | Respond response _ maybe_integrity =>
      Some (object_value <$> create_object [
        entry "result" (create_string (s2b "respond"));
        entry "data" (bytevec ← message_build response maybe_integrity; create_buffer bytevec)])
  end.

Definition process_message : Method := fun info ns =>
  let buffer_rv := add_context [s2b "buffer (1st parameter)"] (arg ← info_arg info 0; as_buffer arg) in
  let rinfo_rv := add_context [s2b "remote info (2nd parameter)"] (arg ← info_arg info 1; extract_rinfo arg) in
  let obj_rvv := add_context [s2b "object unwrap"] (object_unwrap ns (this_arg info)) in
  match buffer_rv, rinfo_rv, obj_rvv with
  | Ok message, Ok endpoint, Ok server =>
      let '(server, result) := process server endpoint message in
      let ns := assign (this_arg info) server ns in
      pair ns <$> process_result_to_craftnapi result
  | _, _, _ => Some (ns, Err (pick_error (err_list buffer_rv ++ err_list rinfo_rv ++ err_list obj_rvv)))
  end.

(** [None] is also the undefined behaviour of [Password::short_term] (Crypto.v). *)
Definition node_add_user : Method := fun info ns =>
  let username_rv := add_context [s2b "username (1st parameter)"] (arg ← info_arg info 0; as_string arg) in
  password_rv ← add_context [s2b "password (2nd parameter)"] <$>
    bind_ub (arg ← info_arg info 1; as_string arg) (fun str => short_term str node_sha1);
  let obj_rvv := add_context [s2b "object unwrap"] (object_unwrap ns (this_arg info)) in
  Some (combine3_se (fun username password server ns =>
          (assign (this_arg info) (add_user username password server) ns, create_undefined))
        username_rv password_rv obj_rvv ns).

Definition server_stateless_class (name : bytes) : Result Value :=
  add_context [s2b "stateless stun server class"; name]
    (create_class name server_constructor [(s2b "process", process_message); (s2b "addUser", node_add_user)]).

End NodeServer.

(** ** Specification *)

Section Spec.
Context `{Craftpp} `{MapOrder} `{N : Craftnapi} (denote : Value -> JS) (utf8 : bytes -> bytes) (text : Address -> bytes).

(** What a call of [process] returns for a result of the server. *)
Definition returns_result (r : Result Value) (result : ProcessResult) : Prop :=
  match result with
  | Ignore None => makes denote r (js_object [("result", JSString (s2b "ignore"))]%string)
  | Ignore (Some m) =>
      if h_method (header m) =? BINDING
      then makes denote r (js_object [("result", JSString (s2b "ignore")); ("message", js_message text utf8 m)]%string)
      else is_err r = true
  | ProcessError error => r = Err error
  | Respond response _ maybe_integrity =>
      match message_build response maybe_integrity with
      | Ok data => makes denote r (js_object [("result", JSString (s2b "respond")); ("data", JSBuffer data)]%string)
      | Err _ => is_err r = true
      end
  end.

(** [dgram] describes the sender of a datagram by an object with at least these properties. *)
Definition rinfo (v : Value) (a : Address) (port : Z) : Prop :=
  exists fields, denote v = JSObject fields /\ fields !! s2b "address" = Some (JSString (text a)) /\
    fields !! s2b "port" = Some (JSNumber port).

(** A JavaScript program's calls on an instance. *)
Inductive ServerCall : Type :=
| CallAddUser (name password : bytes)
| CallProcess (data : bytes) (a : Address) (port : Z).

Definition call_method `{Inet} `{Evp} (fuel : nat) (call : ServerCall) : Method :=
  match call with
  | CallAddUser _ _ => node_add_user
  | CallProcess _ _ _ => process_message fuel
  end.

(** The receiver and the arguments of a call. *)
Definition call_info (this : Value) (call : ServerCall) (info : CallbackInfo) : Prop :=
  this_arg info = this /\
  exists v0 v1, info_arg info 0 = Ok v0 /\ info_arg info 1 = Ok v1 /\
    match call with
    | CallAddUser name password => denote v0 = JSString name /\ denote v1 = JSString password /\ zlen password <= 64
    | CallProcess data a port => denote v0 = JSBuffer data /\ bytes_ok data /\ rinfo v1 a port /\ address_wf a /\ fits 16 port
    end.

(** The calls in order, with what each returns. *)
Fixpoint run_calls `{Inet} `{Evp} (fuel : nat) (calls : list (ServerCall * CallbackInfo)) (ns : Natives Stateless)
    : option (Natives Stateless * list (Result Value)) :=
  match calls with
  | [] => Some (ns, [])
  | (call, info) :: calls' =>
      '(ns, r) ← call_method fuel call info ns;
      '(ns, rs) ← run_calls fuel calls' ns;
      Some (ns, r :: rs)
  end.

(** What the calls return, one after the other: [undefined] for [addUser], and for [process]
    the answer of a server with the credentials added so far. *)
Fixpoint answers (serving : list (bytes * bytes) -> Stateless -> Prop) (creds : list (bytes * bytes))
    (calls : list (ServerCall * CallbackInfo)) (rs : list (Result Value)) : Prop :=
  match calls, rs with
  | [], [] => True
  | (CallAddUser name password, _) :: calls', r :: rs' =>
      makes denote r JSUndefined /\ answers serving (creds ++ [(name, password)]) calls' rs'
  | (CallProcess data a port, _) :: calls', r :: rs' =>
      (exists srv, serving creds srv /\ returns_result r (process srv (UdpEndpoint a port) data).2) /\
      answers serving creds calls' rs'
  | _, _ => False
  end.

(** The users that the calls add, in order. *)
Definition call_creds (calls : list (ServerCall * CallbackInfo)) : list (bytes * bytes) :=
  omap (fun p => match p.1 with CallAddUser name password => Some (name, password) | _ => None end) calls.

End Spec.

(** ** Lemmas *)

Section Lemmas.
Context `{CL : CraftppLaws} `{I : Inet} {text : Address -> bytes} `{IL : !InetLaws I text} `{NL : CraftnapiLaws} `{E : Evp} `{O : MapOrder}.
Context (fuel : nat) (Hfuel : (0 < fuel)%nat).

Lemma property_reads {A} v fields key j (f : Value -> Result A) x : denote v = JSObject fields -> fields !! s2b key = Some j ->
  (forall w, denote w = j -> f w = Ok x) ->
  (obj ← as_object v; w ← named_property obj (s2b key); f w) = Ok x.
Proof.
  intros Hv Hk Hf. destruct (as_object_fields v fields Hv) as (o & -> & Eo). cbn [mbind result_bind].
  destruct (named_property_ok o fields (s2b key) j) as (w & -> & Ew); [by rewrite Eo|done|]. by apply Hf.
Qed.

Lemma extract_rinfo_ok v a port : rinfo denote text v a port -> address_wf a -> fits 16 port ->
  extract_rinfo v = Ok (UdpEndpoint a port).
Proof.
  intros (fields & Hv & Ha & Hp) Hwf Hport. unfold extract_rinfo. unfold fits in Hport.
  rewrite (proj2 (add_context_ok [s2b "rinfo.address"] _ a)).
  - rewrite (proj2 (add_context_ok [s2b "rinfo.port"] _ port)).
    + cbn. by rewrite wrap_small.
    + apply (property_reads v fields "port" _ _ _ Hv Hp). intros w Ew. apply as_int32_ok; [done|]. lia.
  - apply (property_reads v fields "address" _ _ _ Hv Ha). intros w Ew. rewrite (as_string_ok w (text a)) by done.
    cbn [mbind result_bind]. by apply (address_from_string_text text).
Qed.

Lemma object_value_err (r : Result Object) : is_err r = true -> is_err (object_value <$> r) = true.
Proof. by destruct r. Qed.

Lemma process_result_returns result : (forall m, result = Ignore (Some m) ->
    header_readable (header m) (is_rfc3489 m) /\ attribute_set_wf (attribute_set m)) ->
  exists r, process_result_to_craftnapi fuel result = Some r /\ returns_result denote utf8 text r result.
Proof.
  intros Hm. destruct result as [rsp q integ|[m|]|e]; cbn [process_result_to_craftnapi returns_result].
  - eexists. split; [reflexivity|]. destruct (message_build rsp integ) as [data|e]; cbn [mbind result_bind].
    + object.
    + apply object_value_err, (create_object_err _ (s2b "data") e). right. left.
  - destruct (Hm m eq_refl) as [Hh Hs]. destruct (message_makes fuel Hfuel m Hh Hs) as (r & -> & Hr).
    eexists. split; [reflexivity|]. destruct (h_method (header m) =? BINDING); [object|].
    destruct r as [o|e]; [done|]. apply object_value_err, (create_object_err _ (s2b "message") e). right. left.
  - eexists. split; [reflexivity|]. change (js_object [("result", JSString (s2b "ignore"))]%string) with
      (js_object_maybe [("result", Some (JSString (s2b "ignore"))); ("message", None)]%string). object. done.
  - by eexists.
Qed.

(** The message of an ignored datagram is the one that was parsed. *)
Lemma process_ignored srv ep data m : bytes_ok data -> (process srv ep data).2 = Ignore (Some m) -> message_wf data m.
Proof.
  intros Hok. unfold process. cbn [snd]. pose proof (message_parse_outcome_lemma data (m_stat srv) Hok) as Hp.
  destruct (message_parse data (m_stat srv)) as [st [q|e]]; cbn [fst snd]; [|done]. destruct Hp as [_ Hq].
  enough (forall s, process_request s ep q data = Ignore (Some m) -> q = m) as Hr.
  { destruct (bool_decide (h_cls (header q) = REQUEST)); [|by intros [= <-]]. by intros <-%Hr. }
  intros s. unfold process_request. destruct (negb _); [done|]. destruct (negb _); [done|].
  assert (forall name, (check_auth s q data name).1 <> Some (Ignore (Some m))) as Hc.
  { intros name. unfold check_auth. destruct (m_users s !! name); [|done].
    destruct (message_is_valid _ _ _) as [[[]|]|]; done. }
  destruct (username (attribute_set q)) as [name|].
  - specialize (Hc name). destruct (check_auth s q data name) as [[r|] i]; cbn [fst snd] in *; [by intros ->|].
    unfold success_response. destruct (negb _); [by intros [= <-]|done].
  - cbn [fst snd]. unfold success_response. destruct (negb _); [by intros [= <-]|done].
Qed.

Lemma process_message_ok info v0 v1 ns srv data a port :
  info_arg info 0 = Ok v0 -> denote v0 = JSBuffer data -> bytes_ok data ->
  info_arg info 1 = Ok v1 -> rinfo denote text v1 a port -> address_wf a -> fits 16 port ->
  object_unwrap ns (this_arg info) = Ok srv ->
  let p := process srv (UdpEndpoint a port) data in
  exists r, process_message fuel info ns = Some (assign (this_arg info) p.1 ns, r) /\
    returns_result denote utf8 text r p.2.
Proof.
  intros E0 Hv0 Hok E1 Hv1 Ha Hp Hs. cbv zeta. unfold process_message. rewrite E0, E1, Hs. cbn [mbind result_bind].
  rewrite (as_buffer_ok v0 data Hv0), (extract_rinfo_ok v1 a port) by done. cbn [add_context map_err].
  destruct (process_result_returns (process srv (UdpEndpoint a port) data).2) as (r & Er & Hr).
  - intros m Em. pose proof (process_ignored _ _ _ _ Hok Em) as Hm. split; [apply (mw_header _ _ Hm)|apply (mw_set _ _ Hm)].
  - exists r. split; [|done]. destruct (process srv (UdpEndpoint a port) data) as [srv' res]. cbn [fst snd] in *. by rewrite Er.
Qed.

(** *** The credentials of an instance *)

Context (D : EVP_MD -> bytes -> bytes) {HL : HashLaws SHA1_SIZE node_sha1 (D EVP_sha1)}.
#[local] Abbreviation node_serves := (serves node_sha1 (D EVP_sha1) None).

Lemma credential_app creds n K name :
  credential (creds ++ [(n, K)]) name =
    match credential creds name with Some K' => Some K' | None => if decide (name = n) then Some K else None end.
Proof. induction creds as [|[n' K'] creds IH]; [done|]. cbn. rewrite IH. by destruct (decide (name = n')). Qed.

Lemma add_user_serves creds n K srv : node_serves creds srv ->
  node_serves (creds ++ [(n, K)]) (add_user n (password_of (D EVP_sha1) K) srv).
Proof.
  intros [Hs Hf Hu]. pose proof (Hu n) as Hn. unfold add_user. destruct (m_users srv !! n) as [p|] eqn:En; split; try done; intros name;
    rewrite credential_app; cbn [m_users].
  - rewrite Hu. destruct (credential creds name) eqn:Ec; [done|]. destruct (decide (name = n)) as [->|]; [|done].
    by rewrite Ec in Hn.
  - destruct (decide (name = n)) as [->|Hne].
    + rewrite lookup_insert_eq. by destruct (credential creds n).
    + rewrite lookup_insert_ne by done. rewrite Hu. by destruct (credential creds name).
Qed.

Lemma process_serves creds srv ep data : node_serves creds srv -> node_serves creds (process srv ep data).1.
Proof. by intros [Hs Hf Hu]. Qed.

Lemma node_add_user_ok info ns srv v0 v1 name K : info_arg info 0 = Ok v0 -> denote v0 = JSString name ->
  info_arg info 1 = Ok v1 -> denote v1 = JSString K -> zlen K <= 64 -> object_unwrap ns (this_arg info) = Ok srv ->
  node_add_user info ns =
    Some (assign (this_arg info) (add_user name (password_of (D EVP_sha1) K) srv) ns, create_undefined).
Proof.
  intros E0 Hv0 E1 Hv1 HK Hs. unfold node_add_user. rewrite E0, E1, Hs. cbn [mbind result_bind].
  rewrite (as_string_ok v0 name), (as_string_ok v1 K) by done. cbn [bind_ub].
  by rewrite (short_term_ok node_sha1 (D EVP_sha1)) by done.
Qed.

(** One call on an instance. *)
Lemma call_serves creds this call info ns srv : call_info denote text this call info ->
  object_unwrap ns this = Ok srv -> node_serves creds srv ->
  exists ns' r srv', call_method fuel call info ns = Some (ns', r) /\ object_unwrap ns' this = Ok srv' /\
    node_serves (creds ++ call_creds [(call, info)]) srv' /\
    answers denote utf8 text node_serves creds [(call, info)] [r].
Proof.
  intros (<- & v0 & v1 & E0 & E1 & Hc) Hu Hs. destruct call as [name K|data a port]; cbn [call_method].
  - destruct Hc as (Hv0 & Hv1 & HK). rewrite (node_add_user_ok info ns srv v0 v1 name K) by done.
    eexists _, _, _. split; [reflexivity|]. split; [by eapply unwrap_assign|]. split; [by apply add_user_serves|].
    split; [apply create_undefined_ok|done].
  - destruct Hc as (Hv0 & Hok & Hv1 & Ha & Hp).
    destruct (process_message_ok info v0 v1 ns srv data a port E0 Hv0 Hok E1 Hv1 Ha Hp Hu) as (r & -> & Hr).
    eexists _, _, _. split; [reflexivity|]. split; [by eapply unwrap_assign|].
    rewrite (app_nil_r creds : creds ++ call_creds [(CallProcess data a port, info)] = creds).
    split; [by apply process_serves|]. split; [by exists srv|done].
Qed.

Lemma run_calls_serves calls : forall creds this ns srv, Forall (fun p => call_info denote text this p.1 p.2) calls ->
  object_unwrap ns this = Ok srv -> node_serves creds srv ->
  exists ns' rs srv', run_calls fuel calls ns = Some (ns', rs) /\ object_unwrap ns' this = Ok srv' /\
    node_serves (creds ++ call_creds calls) srv' /\ answers denote utf8 text node_serves creds calls rs.
Proof.
  induction calls as [|[call info] calls IH]; intros creds this ns srv Hc Hu Hs; cbn [run_calls].
  - eexists _, _, srv. split; [reflexivity|]. split; [done|]. cbn. by rewrite app_nil_r.
  - apply Forall_cons in Hc as [Hc1 Hc]. cbn [fst snd] in Hc1.
    destruct (call_serves creds this call info ns srv Hc1 Hu Hs) as (ns1 & r & srv1 & -> & Hu1 & Hs1 & Hr).
    destruct (IH _ this ns1 srv1 Hc Hu1 Hs1) as (ns2 & rs & srv2 & E2 & Hu2 & Hs2 & Hrs). cbn [mbind option_bind]. rewrite E2.
    eexists _, _, srv2. split; [reflexivity|]. split; [done|]. rewrite <- app_assoc in Hs2.
    destruct call as [name K|data a port]; cbn [answers] in Hr |- *; destruct Hr as [Hr _]; (split; [exact Hs2|split; [exact Hr|]]);
      [exact Hrs|].
    by rewrite (app_nil_r creds : creds ++ call_creds [(CallProcess data a port, info)] = creds) in Hrs.
Qed.

Lemma server_constructor_ok info ns id : denote (this_arg info) = JSInstance id ->
  is_err (object_unwrap ns (this_arg info)) = true ->
  exists ns' v srv, server_constructor info ns = Some (ns', Ok v) /\ object_unwrap ns' (this_arg info) = Ok srv /\ node_serves [] srv.
Proof.
  intros Hd Hu. destruct (as_object_instance _ _ Hd) as (o & Eas & Eo). unfold server_constructor. rewrite Eas. rewrite <- Eo in Hd, Hu |- *.
  destruct (wrap_ok o (stateless_create node_sha1 None) ns id Hd Hu) as (ns' & v & -> & Hw).
  by eexists ns', v, _.
Qed.

End Lemmas.

(** ** Properties *)

(** C9. [process] of the JavaScript class is the server's [process] on the same bytes. For
    an instance that wraps a server, a buffer and the description of the sender as dgram
    gives it (the address in text, the port), the call hands the server those bytes with the
    sender's endpoint, keeps what the server becomes, and returns the server's answer: the
    object of an ignored datagram with its message, the encoded response, or the error as an
    exception. An ignored message of a method other than Binding makes the call throw. *)
Theorem node_process_js `{C : Craftpp} (CL : CraftppLaws C) `{I : Inet} (text : Address -> bytes) (IL : InetLaws I text)
  `{N : Craftnapi} (denote : Value -> JS) (utf8 : bytes -> bytes) (NL : CraftnapiLaws N denote utf8) `{O : MapOrder}
  (fuel : nat) (Hfuel : (0 < fuel)%nat) (info : CallbackInfo) (ns : Natives Stateless) (srv : Stateless)
  (v0 v1 : Value) (data : bytes) (a : Address) (port : Z)
  (E0 : info_arg info 0 = Ok v0) (Hv0 : denote v0 = JSBuffer data) (Hok : bytes_ok data)
  (E1 : info_arg info 1 = Ok v1) (Hv1 : rinfo denote text v1 a port) (Ha : address_wf a) (Hp : fits 16 port)
  (Hs : object_unwrap ns (this_arg info) = Ok srv) :
  exists ns' r, process_message fuel info ns = Some (ns', r) /\
    object_unwrap ns' (this_arg info) = Ok (process srv (UdpEndpoint a port) data).1 /\
    returns_result denote utf8 text r (process srv (UdpEndpoint a port) data).2.
Proof.
  destruct (process_message_ok fuel Hfuel info v0 v1 ns srv data a port E0 Hv0 Hok E1 Hv1 Ha Hp Hs) as (r & E & Hr).
  eexists _, r. split; [exact E|]. split; [by eapply unwrap_assign|exact Hr].
Qed.

(** C8. A JavaScript program that creates a server and adds users holds a server with exactly
    their credentials, and every call is answered accordingly. After the constructor on a
    new instance, and any sequence of [addUser] and [process] calls with well-formed
    arguments and passwords of at most 64 bytes, the instance wraps a server which [serves]
    the names and passwords of the [addUser] calls, in order (the first password of a name
    counts); each [addUser] returned undefined, and each [process] the answer of a server
    that [serves] the credentials added before it, which process_verdict determines. No
    call runs out of fuel. A longer password is undefined behaviour of the code
    ([PadKey::from_key]). *)
Theorem node_server_serves `{C : Craftpp} (CL : CraftppLaws C) `{I : Inet} (text : Address -> bytes) (IL : InetLaws I text)
  `{N : Craftnapi} (denote : Value -> JS) (utf8 : bytes -> bytes) (NL : CraftnapiLaws N denote utf8) `{O : MapOrder}
  `{E : Evp} (D : EVP_MD -> bytes -> bytes) (absorbed : EVP_MD_CTX -> EVP_MD -> bytes -> Prop) (EL : EvpLaws D absorbed)
  (Hsize : forall b, zlen (D EVP_sha1 b) = SHA1_SIZE /\ bytes_ok (D EVP_sha1 b))
  (fuel : nat) (Hfuel : (0 < fuel)%nat) (info : CallbackInfo) (ns : Natives Stateless) (id : Z)
  (calls : list (ServerCall * CallbackInfo))
  (Hid : denote (this_arg info) = JSInstance id) (Hnew : is_err (object_unwrap ns (this_arg info)) = true)
  (Hcalls : Forall (fun p => call_info denote text (this_arg info) p.1 p.2) calls) :
  exists ns1 v ns2 rs srv, server_constructor info ns = Some (ns1, Ok v) /\
    run_calls fuel calls ns1 = Some (ns2, rs) /\ object_unwrap ns2 (this_arg info) = Ok srv /\
    serves node_sha1 (D EVP_sha1) None (call_creds calls) srv /\
    answers denote utf8 text (serves node_sha1 (D EVP_sha1) None) [] calls rs.
Proof.
  pose proof (node_sha1_hash_laws D absorbed EL Hsize) as HL.
  destruct (server_constructor_ok D info ns id Hid Hnew) as (ns1 & v & srv1 & E1 & Hu1 & Hs1).
  destruct (run_calls_serves fuel Hfuel D calls [] _ ns1 srv1 Hcalls Hu1 Hs1) as (ns2 & rs & srv & E2 & Hu2 & Hs2 & Hrs).
  by exists ns1, v, ns2, rs, srv.
Qed.

(** *** Witnesses *)

Definition sample_instance : JS := JSInstance 0.
Definition sample_rinfo : JS :=
  js_object [("address", JSString (address_hex_text (AddressV4 [192; 0; 2; 1]))); ("port", JSNumber 32853)]%string.
Definition process_info : list JS * JS := ([JSBuffer plain_request; sample_rinfo], sample_instance).
Definition add_user_info : list JS * JS := ([JSString [97]; JSString [1; 2]], sample_instance).

Lemma plain_request_ok : bytes_ok plain_request.
Proof. unfold plain_request. repeat constructor; unfold is_byte; lia. Qed.

Lemma sample_address_wf : address_wf (AddressV4 [192; 0; 2; 1]).
Proof. split; [reflexivity|]. repeat constructor; unfold is_byte; lia. Qed.

Lemma sample_rinfo_ok : @rinfo reference_napi id address_hex_text sample_rinfo (AddressV4 [192; 0; 2; 1]) 32853.
Proof. eexists. split; [reflexivity|]. split; reflexivity. Qed.

(** The bytes of a response. *)
Definition answer_bytes `{Craftpp} `{MapOrder} (result : ProcessResult) : option bytes :=
  match result with
  | Respond rsp _ integ => match message_build rsp integ with Ok data => Some data | Err _ => None end
  | _ => None
  end.

Lemma returns_answer `{Craftpp} `{MapOrder} `{N : Craftnapi} denote utf8 text r result data :
  returns_result denote utf8 text r result -> answer_bytes result = Some data ->
  makes denote r (js_object [("result", JSString (s2b "respond")); ("data", JSBuffer data)]%string).
Proof.
  destruct result as [rsp q integ|m|e]; cbn [returns_result answer_bytes]; try done.
  destruct (message_build rsp integ); [|done]. by intros Hr [= <-].
Qed.

Lemma plain_answer : is_Some (answer_bytes (H := reference)
  (process (H := reference) (stateless_create sample_hash None) (UdpEndpoint (AddressV4 [192; 0; 2; 1]) 32853) plain_request).2).
Proof. apply (bool_decide_unpack _). vm_compute. exact I. Qed.

(** A server without users answers a plain request; the JavaScript caller gets the bytes. *)
Lemma node_process_js_witness : exists ns' r data,
  @process_message reference hex_inet reference_napi key_order 1 process_info
    ({[ 0 := stateless_create sample_hash None ]} : gmap Z Stateless) = Some (ns', r) /\
  r = Ok (js_object [("result", JSString (s2b "respond")); ("data", JSBuffer data)]%string).
Proof.
  destruct (node_process_js reference_laws address_hex_text hex_inet_laws (N := reference_napi) id id reference_napi_laws (O := key_order)
    1 ltac:(lia) process_info {[ 0 := stateless_create sample_hash None ]} (stateless_create sample_hash None)
    (JSBuffer plain_request) sample_rinfo plain_request (AddressV4 [192; 0; 2; 1]) 32853
    eq_refl eq_refl plain_request_ok eq_refl sample_rinfo_ok sample_address_wf ltac:(split; [lia|reflexivity]) eq_refl)
    as (ns' & r & E & _ & Hr).
  destruct plain_answer as [data Hd]. destruct (returns_answer _ _ _ _ _ _ Hr Hd) as (v & -> & Hv).
  exists ns', (Ok v), data. split; [exact E|]. by rewrite <- Hv.
Defined.

(** A server with a user, and a request. *)
Lemma node_server_serves_witness : exists ns1 v ns2 rs srv,
  @server_constructor sample_evp reference_napi ([], sample_instance) (∅ : gmap Z Stateless) = Some (ns1, Ok v) /\
  @run_calls reference key_order reference_napi hex_inet sample_evp 1
    [(CallAddUser [97] [1; 2], add_user_info); (CallProcess plain_request (AddressV4 [192; 0; 2; 1]) 32853, process_info)] ns1
    = Some (ns2, rs) /\
  m_users srv !! [97] = Some (password_of sample_H [1; 2]) /\
  (exists r1 r2, rs = [r1; r2] /\ makes (N := reference_napi) id r1 JSUndefined).
Proof.
  destruct (node_server_serves reference_laws address_hex_text hex_inet_laws (N := reference_napi) id id reference_napi_laws (O := key_order)
    (E := sample_evp) (fun _ => sample_H) _ sample_evp_laws
    ltac:(intros b; split; [apply (zlen_be_bytes 20)|apply be_bytes_ok]) 1 ltac:(lia) ([], sample_instance) (∅ : gmap Z Stateless) 0
    [(CallAddUser [97] [1; 2], add_user_info); (CallProcess plain_request (AddressV4 [192; 0; 2; 1]) 32853, process_info)]
    eq_refl) as (ns1 & v & ns2 & rs & srv & E1 & E2 & _ & Hs & Hr).
  - reflexivity.
  - apply Forall_cons; split; [split; [reflexivity|]; eexists _, _; split_and!; try reflexivity; done|].
    apply Forall_singleton. split; [reflexivity|]. eexists _, _. split; [reflexivity|]. split; [reflexivity|]. cbn [snd fst].
    split; [reflexivity|]. split; [apply plain_request_ok|]. split; [apply sample_rinfo_ok|]. split; [apply sample_address_wf|].
    split; [lia|reflexivity].
  - exists ns1, v, ns2, rs, srv. split; [exact E1|]. split; [exact E2|]. split; [apply (sv_users _ _ _ _ _ Hs)|].
    destruct rs as [|r1 [|r2 [|r3 rs]]]; [contradiction|destruct Hr as [_ []]| |destruct Hr as (_ & _ & [])].
    exists r1, r2. split; [reflexivity|apply Hr].
Defined.
