(* ===== verification/NodeClient.v ===== *)
(** * node/node_stun/node_stun_client_udp*: the STUN client as a JavaScript class

    An instance of the class wraps a [ClientUDP]. The constructor reads the settings, [create]
    a request with its credentials, [response] a datagram; [next] converts an effect into a
    JavaScript object. The specification is the object of an effect, [returns_effect]; the
    theorems show what each method returns on every client that JavaScript can reach, and
    the whole Binding transaction between JavaScript programs. *)

From stdpp Require Import pretty.
From S2P Require Import Prelude Errors Craftpp Util Clock Net Crypto NodeCrypto StunBase StunCrc StunAttr StunAttrSet StunMessage StunServer StunRto StunRtx StunClient StunClientCalls Binding Napi NodeMessage NodeServer.
#[local] Open Scope Z_scope.

Section NodeClient.
Context `{Craftpp} `{Inet} `{Evp} `{Craftnapi} `{MapOrder}.

(** The iterations allowed to [Address::to_string]; [Error::message] of craftpp. *)
Context (fuel : nat) (error_message : Error -> bytes).

(** ** node_stun_client_udp_handle.hpp, node_stun_client_udp_effects.cpp *)

Definition client_udp_handle_to_craftnapi (hnd : Handle) : Result Value :=
  object_value <$> create_object [entry "value" (create_int32 (i32 hnd))].

(** The [message_view] refers to a transaction of the client [c]; [None] when it dangles. *)
Definition send_data_to_craftnapi (c : ClientUDP) (message_view : Handle) : option (Result Object) :=
  data ← t_msg_data <$> m_tmap c !! message_view;
  Some (create_object [entry "type" (create_string (s2b "send_data")); entry "message" (create_buffer data)]).

Definition transaction_ok_to_craftnapi (result : Endpoint) (response : Message) (round_trip : option Duration)
    : option (Result Object) :=
  addr_rv ← address_to_string fuel (endpoint_address result);
  response_rv ← message_to_craftnapi fuel response;
  Some (create_object [
    entry "type" (create_string (s2b "transaction_ok"));
    entry_object "result" (create_object [
      entry "addr" (s ← addr_rv; create_string s); entry "port" (create_int32 (endpoint_port result))]);
    entry_object "response" response_rv;
    entry_maybe "rtt_us" ((fun rtt => create_int32 (i32 rtt)) <$> round_trip)]).

(** The strings of [transaction_failed_reason_to_craftnapi]; [std::to_string] of an unsigned. *)
Definition failed_reason_string (reason : Reason) : bytes :=
  match reason with
  | UnknownComprehensionRequiredAttribute _ => s2b "unknown comprehension required attribute"
  | UnknownAttributeReported _ => s2b "unknown required attribute reported"
  | AlternateServer _ => s2b "alternate server"
  | ErrorCode code reason_phrase =>
      s2b "stun error: " ++ s2b (pretty code) ++ s2b ": " ++ default [] reason_phrase
  | ReasonError code => s2b "error: " ++ error_message code
  | Timeout => s2b "timeout"
  end.

Definition transaction_failed_reason_to_craftnapi (reason : Reason) : Result Value :=
  create_string (failed_reason_string reason).

Definition transaction_failed_to_craftnapi (handle : Handle) (reason : Reason) : Result Object :=
  create_object [entry "type" (create_string (s2b "transaction_fail"));
                 entry "handle" (client_udp_handle_to_craftnapi handle);
                 entry "reason" (transaction_failed_reason_to_craftnapi reason)].

(** [duration_cast<milliseconds>] truncates; [adj] rounds up to the next whole millisecond. *)
Definition sleep_to_craftnapi (sleep : Duration) : Result Object :=
  let ms := Z.quot sleep 1000 in
  let adj := if sleep =? ms * 1000 then 0 else 1 in
  create_object [entry "type" (create_string (s2b "sleep")); entry "timeout_ms" (create_int32 (i32 (ms + adj)))].

Definition client_udp_effect_to_craftnapi (c : ClientUDP) (effect : Effect) : option (Result Object) :=
  match effect with
  | SendData _ message_view => send_data_to_craftnapi c message_view
  | TransactionOk _ result response round_trip => transaction_ok_to_craftnapi result response round_trip
  | TransactionFailed handle reason => Some (transaction_failed_to_craftnapi handle reason)
  | Sleep sleep => Some (sleep_to_craftnapi sleep)
  | Idle => Some (create_object [entry "type" (create_string (s2b "idle"))])
  end.

(** ** node_stun_client_udp_settings.cpp *)

Definition client_udp_settings_from_craftnapi (obj : Object) : Result Settings :=
  let maybe_use_fingerprint_rv : Result (option bool) :=
    add_context [s2b "use_fingerprint attibute"]
      (maybe_v ← maybe_named_property obj (s2b "use_fingerprint");
       match maybe_v with Some v => Some <$> as_boolean v | None => Ok None end) in
  add_context [s2b "stun udp client settings"]
    match maybe_use_fingerprint_rv with
    | Ok maybe_use_fingerprint =>
        let result := settings_default in
        Ok (mk_Settings (default (StunRtx.use_fingerprint result) maybe_use_fingerprint) (retransmit result)
              (rto_calc_settings result) (allow_unauthenticated_alternate result))
    | Err e => Err (pick_error [e])
    end.

(** ** node_stun_client_udp_auth.cpp *)

(** [None] is the undefined behaviour of [Password::short_term] (Crypto.v). *)
Definition parse_auth (obj : Object) : option (Result Auth) :=
  let username_rv := add_context [s2b "username attribute"]
    (val ← named_property obj (s2b "username"); as_string val) in
  password_rv ← add_context [s2b "password attribute"] <$>
    bind_ub (val ← named_property obj (s2b "password"); as_string val) (fun str => short_term str node_sha1);
  Some (add_context [s2b "authenticaiton"]
    (combine2 (fun username password => Ok (mk_Auth username (mk_IntegrityData password node_sha1)))
       username_rv password_rv)).

(** ** node_stun_client_udp.cpp *)

Definition request_from_craftnapi (obj : Object) : option (Result Request) :=
  let source_rv := add_context [s2b "source field"]
    (v ← named_property obj (s2b "source"); str ← to_string v; address_from_string str) in
  let target_rv := add_context [s2b "target field"]
    (v ← named_property obj (s2b "target"); str ← to_string v; address_from_string str) in
  maybe_auth_rv ← add_context [s2b "auth field"] <$>
    bind_ub (maybe_named_property obj (s2b "auth")) (fun maybe_val =>
      match maybe_val with
      | Some val => bind_ub (to_object val) (fun obj =>
          auth_rv ← parse_auth obj; Some (fmap (M := Result) Some auth_rv))
      | None => Some (Ok None)
      end);
  Some (add_context [s2b "request"]
    (combine3 (fun src dst maybe_auth => Ok (mk_Request (mk_Path src dst) [] [] maybe_auth))
       source_rv target_rv maybe_auth_rv)).

(** The wrapped clients, and the state of the generator that [random()] of the C library
    advances. *)
Context {G : Type} (random : G -> G * Z).
Definition World : Type := Natives ClientUDP * G.

(** A method of the class, called when [steady_clock_now()] is [now]. *)
Definition ClientMethod : Type := Timepoint -> CallbackInfo -> World -> option (World * Result Value).

Definition client_constructor : ClientMethod := fun _ info '(ns, g) =>
  let settings_rv := v ← info_arg info 0; obj ← to_object v; client_udp_settings_from_craftnapi obj in
  let '(ns, r) := combine2_se (fun obj settings => object_wrap obj (client_create settings))
                    (as_object (this_arg info)) settings_rv ns in
  Some ((ns, g), r).

(** [draws] bounds how often the client asks for another transaction id. *)
Context (draws : nat).

Definition node_create : ClientMethod := fun now info '(ns, g) =>
  request_rv ← bind_ub (v ← info_arg info 0; to_object v) request_from_craftnapi;
  let client_rv := object_unwrap ns (this_arg info) in
  match client_rv, request_rv with
  | Ok client, Ok req =>
      '(g, (client, hnd_rv)) ← create draws (S (size (m_tmap client))) random g now req client;
      let r := hnd ← hnd_rv; client_udp_handle_to_craftnapi hnd in
      Some ((assign (this_arg info) client ns, g), add_context [s2b "create request"] r)
  | _, _ => Some ((ns, g), add_context [s2b "create request"]
                    (Err (pick_error (err_list client_rv ++ err_list request_rv))))
  end.

Definition node_next : ClientMethod := fun now info '(ns, g) =>
  match object_unwrap ns (this_arg info) with
  | Ok client =>
      '(client, effect) ← client_next (loop_measure now client) now client;
      r ← client_udp_effect_to_craftnapi client effect;
      Some ((assign (this_arg info) client ns, g), fmap (M := Result) object_value r)
  | Err e => Some ((ns, g), Err e)
  end.

(** The result of the client's [response] is discarded. *)
Definition node_response : ClientMethod := fun now info '(ns, g) =>
  let this_rv := object_unwrap ns (this_arg info) in
  let resp_rv := v ← info_arg info 0; to_buffer v in
  match this_rv, resp_rv with
  | Ok client, Ok resp =>
      '(client, _) ← response now resp None client;
      Some ((assign (this_arg info) client ns, g), create_undefined)
  | _, _ => Some ((ns, g), Err (pick_error (err_list this_rv ++ err_list resp_rv)))
  end.

Definition client_udp_class (name : bytes) : Result Value :=
  create_class name client_constructor
    [(s2b "create", node_create); (s2b "next", node_next); (s2b "response", node_response)].

End NodeClient.

(** ** Specification *)

Section Spec.
Context `{Craftpp} `{N : Craftnapi} (denote : Value -> JS) (utf8 : bytes -> bytes) (text : Address -> bytes)
  (error_message : Error -> bytes).

Definition js_handle (hnd : Handle) : JS := js_object [("value", JSNumber (i32 hnd))]%string.

(** The whole milliseconds that a duration takes. *)
Definition whole_ms (d : Duration) : Z := - (- d / 1000).

(** What a call of [next] returns for an effect of the client [c]; a message of a method
    other than Binding cannot be described. *)
Definition returns_effect (c : ClientUDP) (r : Result Value) (e : Effect) : Prop :=
  match e with
  | SendData _ hnd => exists t, m_tmap c !! hnd = Some t /\
      makes denote r (js_object [("type", JSString (s2b "send_data")); ("message", JSBuffer (t_msg_data t))]%string)
  | TransactionOk _ ep msg rtt =>
      if h_method (header msg) =? BINDING then
        makes denote r (js_object_maybe [
          ("type", Some (JSString (s2b "transaction_ok")));
          ("result", Some (js_endpoint text (endpoint_address ep) (endpoint_port ep)));
          ("response", Some (js_message text utf8 msg));
          ("rtt_us", (fun rtt => JSNumber (i32 rtt)) <$> rtt)]%string)
      else is_err r = true
  | TransactionFailed hnd reason =>
      makes denote r (js_object [("type", JSString (s2b "transaction_fail")); ("handle", js_handle hnd);
        ("reason", JSString (utf8 (failed_reason_string error_message reason)))]%string)
  | Sleep d => makes denote r (js_object [("type", JSString (s2b "sleep")); ("timeout_ms", JSNumber (i32 (whole_ms d)))]%string)
  | Idle => makes denote r (js_object [("type", JSString (s2b "idle"))]%string)
  end.

(** An effect whose parts can be described. *)
Definition describable (e : Effect) : Prop :=
  match e with
  | TransactionOk _ ep msg _ => address_wf (endpoint_address ep) /\ fits 16 (endpoint_port ep) /\
      header_readable (header msg) (is_rfc3489 msg) /\ attribute_set_wf (attribute_set msg)
  | Sleep d => 0 < d
  | _ => True
  end.

(** The argument of [create]: the two addresses in text, and the credentials. *)
Definition js_credentials (auth : JS) (cred : option (bytes * bytes)) : Prop :=
  match cred with
  | Some (name, K) => exists fields, auth = JSObject fields /\ fields !! s2b "username" = Some (JSString name) /\
      fields !! s2b "password" = Some (JSString K)
  | None => False
  end.
(** Credentials whose password the code can use. *)
Definition usable_password (cred : option (bytes * bytes)) : bool :=
  match cred with Some (_, K) => zlen K <=? 64 | None => true end.
Definition js_request (v : Value) (source target : Address) (cred : option (bytes * bytes)) : Prop :=
  exists fields, denote v = JSObject fields /\
    fields !! s2b "source" = Some (JSString (text source)) /\ fields !! s2b "target" = Some (JSString (text target)) /\
    match fields !! s2b "auth" with Some auth => js_credentials auth cred | None => cred = None end.

End Spec.

(** ** Lemmas: the conversions *)

Lemma whole_ms_quot d : 0 < d -> Z.quot d 1000 + (if d =? Z.quot d 1000 * 1000 then 0 else 1) = whole_ms d.
Proof.
  intros Hd. unfold whole_ms. rewrite Z.quot_div_nonneg by lia.
  pose proof (Z_div_mod_eq_full d 1000). pose proof (Z.mod_pos_bound d 1000 ltac:(lia)).
  pose proof (Z_div_mod_eq_full (- d) 1000). pose proof (Z.mod_pos_bound (- d) 1000 ltac:(lia)).
  destruct (Z.eqb_spec d (d / 1000 * 1000)); lia.
Qed.

Section Conversions.
Context `{CL : CraftppLaws} `{I : Inet} {text : Address -> bytes} `{IL : !InetLaws I text} `{NL : CraftnapiLaws} `{E : Evp} `{O : MapOrder}.
Context (fuel : nat) (Hfuel : (0 < fuel)%nat) (error_message : Error -> bytes).

Lemma handle_makes hnd : makes denote (client_udp_handle_to_craftnapi hnd) (js_handle hnd).
Proof. unfold client_udp_handle_to_craftnapi, js_handle. object. Qed.

Lemma effect_returns c e : describable e ->
  match e with SendData _ hnd => is_Some (m_tmap c !! hnd) | _ => True end ->
  exists r, client_udp_effect_to_craftnapi fuel error_message c e = Some r /\
    returns_effect denote utf8 text error_message c (object_value <$> r) e.
Proof.
  intros Hd Hs. destruct e as [h hnd|h ep msg rtt|h reason|d|]; cbn [client_udp_effect_to_craftnapi returns_effect describable] in *.
  - destruct Hs as [t Ht]. unfold send_data_to_craftnapi. rewrite Ht. eexists. split; [reflexivity|].
    exists t. split; [done|]. object.
  - destruct Hd as (Ha & Hp & Hh & Hw). unfold transaction_ok_to_craftnapi. rewrite (address_to_string_text text) by done.
    cbn [mbind option_bind]. destruct (message_makes fuel Hfuel msg Hh Hw) as (mr & -> & Hm). cbn [mbind option_bind].
    eexists. split; [reflexivity|]. destruct (h_method (header msg) =? BINDING).
    + object. by apply makes_endpoint.
    + destruct mr as [o|e]; [done|]. apply object_value_err, (create_object_err _ (s2b "response") e). do 2 right. left.
  - eexists. split; [reflexivity|]. object. apply handle_makes.
  - eexists. split; [reflexivity|]. unfold sleep_to_craftnapi. rewrite <- (whole_ms_quot d Hd). object.
  - eexists. split; [reflexivity|]. object.
Qed.

End Conversions.

(** ** Lemmas: the clients that JavaScript can reach *)

Section Reachable.
Context `{Craftpp} `{MapOrder}.

(** A call of one of the operations as the methods make it: [response] without a parsed
    message, on a buffer. *)
Inductive node_client_step : ClientUDP -> ClientUDP -> Prop :=
| ncs_create G draws fuel (rand : G -> G * Z) g g' now rq c c' r :
    create draws fuel rand g now rq c = Some (g', (c', r)) -> node_client_step c c'
| ncs_response now view c c' r : bytes_ok view -> response now view None c = Some (c', r) -> node_client_step c c'
| ncs_next fuel now c c' e : client_next fuel now c = Some (c', e) -> node_client_step c c'.

Definition node_reachable (s : Settings) (c : ClientUDP) : Prop := rtc node_client_step (client_create s) c.

Lemma node_client_step_client c c' : node_client_step c c' -> client_step c c'.
Proof. intros []; by econstructor. Qed.

Lemma node_steps_client c c' : rtc node_client_step c c' -> rtc client_step c c'.
Proof. intros Hs. induction Hs; [done|]. eapply rtc_l; [by apply node_client_step_client|done]. Qed.

Lemma next_loop_describable now : forall fuel c c', next_loop fuel now c = Some c' ->
  Forall describable (m_effects c) -> Forall describable (m_effects c').
Proof.
  assert (forall c c', next_step now c = Some c' -> Forall describable (m_effects c) -> Forall describable (m_effects c')) as Hst.
  { intros c c'. unfold next_step. destruct (pq_top _) as [top|]; [|done]. destruct (is_after _ _); [done|].
    destruct (m_tmap _ !! _) as [t|]; [|by intros [= <-]].
    destruct (ra_next now _) as [algo [next|]]; intros [= <-] Hd; cbn; apply Forall_app_2; by repeat constructor. }
  induction fuel as [|fuel IH]; intros c c'; cbn [next_loop];
    (destruct (next_step now c) as [c1|] eqn:E1; [|by intros [= <-]]); [done|]. eauto.
Qed.

Lemma next_effect_describable now c : Forall describable (m_effects c) ->
  Forall describable (m_effects (next_effect now c).1) /\
  match (next_effect now c).2 with Sleep _ => True | e => describable e end.
Proof.
  intros Hd. unfold next_effect. destruct (m_effects c) as [|e rest] eqn:Ee.
  { destruct (pq_top _); cbn; by rewrite Ee. }
  apply Forall_cons in Hd as [He Hr]. cbn [snd]. split; [|by destruct e].
  assert (forall h, m_effects (cleanup h (with_effects (fun _ => rest) c)) = rest) as Hc
    by (intros h; unfold cleanup; by destruct (m_tmap _ !! h)).
  destruct e; cbn [fst]; by rewrite ?Hc.
Qed.

Lemma mapped_wf s a port : attribute_set_wf s -> mapped s = Some (a, port) -> address_wf a /\ fits 16 port.
Proof. intros Hs Hg. destruct (get_wf _ _ _ _ Hs Hg) as ([] & Ev & Hw); try done. by injection Ev as -> ->. Qed.

Lemma handle_success_describable now t msg view c c' r : CraftppLaws _ -> message_wf view msg ->
  handle_success_response now t msg c = Some (c', r) -> Forall describable (m_effects c) -> Forall describable (m_effects c').
Proof.
  intros CL Hm. pose proof (mw_header _ _ Hm) as Hh. pose proof (mw_set _ _ Hm) as Hs. unfold handle_success_response.
  destruct (negb _); [intros [= <- _] Hd; apply Forall_app_2; by repeat constructor|].
  destruct (if t_rtx_count t =? 0 then _ else _) as [rtt [calc|]]; [|done]. cbn [mbind option_bind].
  destruct (xor_mapped (attribute_set msg)) as [[x port]|] eqn:Ex; [|destruct (mapped (attribute_set msg)) as [[a port]|] eqn:Em];
    intros [= <- _] Hd; cbn; apply Forall_app_2; try done; apply Forall_singleton; cbn [describable endpoint_address endpoint_port].
  - destruct (xor_mapped_wf _ _ _ Hs Ex) as [Hx Hp]. split; [|by split]. apply xaddr_to_address_wf; [done|].
    by destruct Hh as [(_ & ? & _) _].
  - by destruct (mapped_wf _ _ _ Hs Em).
  - done.
Qed.

Lemma handle_error_describable now hnd t msg c : Forall describable (m_effects c) ->
  Forall describable (m_effects (handle_error_response now hnd t msg c).1).
Proof.
  intros Hd. assert (forall e c0, m_effects c0 = m_effects c -> describable e -> Forall describable (m_effects (emplace_effect e c0))) as Hf
    by (intros e c0 E0 He; cbn; rewrite E0; apply Forall_app_2; [done|by apply Forall_singleton]).
  unfold handle_error_response. cbv beta zeta.
  destruct (negb _); [by apply Hf|]. destruct (error_code_attr _) as [[code reason]|]; [|by apply Hf].
  destruct (is_alternate_server msg); [destruct (alternate_server _) as [[a p]|]; by apply Hf|].
  destruct (code / 100 =? 3); [by apply Hf|]. destruct (code / 100 =? 4); [destruct (if _ =? _ then _ else _); by apply Hf|].
  destruct (code / 100 =? 5); [|done]. destruct (process_5xx now (t_rtx_algo t)) as [algo []]; [by apply Hf|exact Hd].
Qed.

Lemma node_client_step_describable c c' : CraftppLaws _ -> client_wf c -> node_client_step c c' ->
  Forall describable (m_effects c) -> Forall describable (m_effects c').
Proof.
  intros CL Hwf Hs Hd. destruct Hs as [G draws fuel rand g g' now rq c c' r E|now view c c' r Hok E|fuel now c c' e E].
  - apply create_do_create in E as (tid & _ & E). destruct (do_create_effects _ _ _ _ _ _ _ E) as [->|[h ->]]; [done|].
    apply Forall_app_2; [done|by repeat constructor].
  - destruct (response_cases now view None c) as [(c2 & r2 & E2 & [st ->])|(msg & hnd & t & c1 & [st ->] & Hp & _ & _ & _ & Hc)];
      [rewrite E in E2; by injection E2 as -> _|].
    pose proof (message_parse_outcome_lemma view (cs_parse (c_stat c)) Hok) as Hm.
    destruct (message_parse view (cs_parse (c_stat c))) as [st' rv]. cbn [snd] in Hp. subst rv. destruct Hm as [_ Hm].
    destruct Hc as [[_ E2]|[_ E2]]; rewrite E in E2.
    + eapply (handle_success_describable now t msg view (with_stat (fun _ => st) c)); eauto.
    + pose proof (handle_error_describable now hnd t msg (with_stat (fun _ => st) c) Hd) as H1.
      injection E2 as E2. by rewrite <- E2 in H1.
  - unfold client_next in E. destruct (next_loop fuel now c) as [c1|] eqn:El; [|done]. cbn in E. injection E as E.
    pose proof (next_effect_describable now c1 (next_loop_describable now _ _ _ El Hd)) as [H1 _]. by rewrite E in H1.
Qed.

Lemma node_reachable_ok s c : CraftppLaws _ -> settings_ok s -> node_reachable s c ->
  client_wf c /\ Forall describable (m_effects c).
Proof.
  intros CL Hs Hr. pose proof (client_create_wf s Hs) as Hw. assert (Forall describable (m_effects (client_create s))) as Hd by constructor.
  revert Hw Hd. unfold node_reachable in Hr. induction Hr as [c|c1 c2 c3 Hst _ IH]; [done|]. intros Hw Hd.
  apply IH; [eapply client_step_wf; [done|by apply node_client_step_client]|by eapply node_client_step_describable].
Qed.

End Reachable.

(** ** Lemmas: the methods *)

Section Methods.
Context `{CL : CraftppLaws} `{I : Inet} {text : Address -> bytes} `{IL : !InetLaws I text} `{NL : CraftnapiLaws} `{O : MapOrder}.
Context (fuel : nat) (Hfuel : (0 < fuel)%nat) (error_message : Error -> bytes) {G : Type}.

Lemma client_next_describable now c c' e : client_next (loop_measure now c) now c = Some (c', e) ->
  Forall describable (m_effects c) -> match e with Sleep _ => True | e => describable e end.
Proof.
  unfold client_next. destruct (next_loop _ now c) as [c1|] eqn:El; [|done]. cbn. intros [= E] Hd.
  pose proof (next_effect_describable now c1 (next_loop_describable now _ _ _ El Hd)) as [_ H1]. rewrite E in H1. by destruct e.
Qed.

(** Not a view that dangles, and not a deadline half the clock's range away. *)
Definition effect_readable (c : ClientUDP) (e : Effect) : Prop :=
  match e with SendData _ hnd => is_Some (m_tmap c !! hnd) | Sleep d => 0 < d | _ => True end.

Lemma node_next_ok now info ns (g : G) c c' e : object_unwrap ns (this_arg info) = Ok c ->
  client_next (loop_measure now c) now c = Some (c', e) -> Forall describable (m_effects c) -> effect_readable c' e ->
  exists ns' r, node_next fuel error_message now info (ns, g) = Some ((ns', g), r) /\
    object_unwrap ns' (this_arg info) = Ok c' /\ returns_effect denote utf8 text error_message c' r e.
Proof.
  intros Hu En Hd Hr. pose proof (client_next_describable now c c' e En Hd) as Hde. unfold node_next. rewrite Hu, En.
  cbn [mbind option_bind]. destruct (effect_returns fuel Hfuel error_message c' e) as (r & -> & Hret).
  - by destruct e.
  - by destruct e.
  - eexists _, _. split; [reflexivity|]. split; [by eapply unwrap_assign|done].
Qed.

(** *** The arguments of [create] and of the constructor *)

Context `{E : Evp} (D : EVP_MD -> bytes -> bytes) {HL : HashLaws SHA1_SIZE node_sha1 (D EVP_sha1)}.

Lemma string_property fields o key s : denote (object_value o) = JSObject fields -> fields !! s2b key = Some (JSString s) ->
  exists v, named_property o (s2b key) = Ok v /\ as_string v = Ok s /\ to_string v = Ok s.
Proof.
  intros Ho Hk. destruct (named_property_ok o fields (s2b key) _ Ho Hk) as (v & E1 & Ev). exists v.
  split; [done|]. split; [by apply as_string_ok|by apply to_string_ok].
Qed.

(** A longer password is a dangling view. *)
Lemma parse_auth_js o auth cred : denote (object_value o) = auth -> js_credentials auth cred ->
  (auth_rv ← parse_auth o; Some (fmap (M := Result) Some auth_rv)) =
  if usable_password cred then Some (Ok (auth_of node_sha1 (D EVP_sha1) cred)) else None.
Proof.
  intros Ho Hc. destruct cred as [[name K]|]; [|done]. destruct Hc as (fields & -> & Hn & Hp).
  destruct (string_property fields o "username" name Ho Hn) as (v1 & E1 & S1 & _).
  destruct (string_property fields o "password" K Ho Hp) as (v2 & E2 & S2 & _).
  unfold parse_auth. rewrite E1, E2. cbn [mbind result_bind]. rewrite S1, S2. cbn [bind_ub].
  rewrite (short_term_eq node_sha1 (D EVP_sha1)). cbn [usable_password]. by destruct (zlen K <=? 64).
Qed.

Lemma address_property fields o key a : denote (object_value o) = JSObject fields ->
  fields !! s2b key = Some (JSString (text a)) -> address_wf a ->
  (v ← named_property o (s2b key); str ← to_string v; address_from_string str) = Ok a.
Proof.
  intros Ho Hk Ha. destruct (string_property fields o key _ Ho Hk) as (v & -> & _ & Ev). cbn [mbind result_bind].
  rewrite Ev. cbn [mbind result_bind]. by apply (address_from_string_text text).
Qed.

Lemma request_js v source target cred : js_request denote text v source target cred -> address_wf source -> address_wf target ->
  bind_ub (to_object v) request_from_craftnapi =
  if usable_password cred
  then Some (Ok (mk_Request (mk_Path source target) [] [] (auth_of node_sha1 (D EVP_sha1) cred))) else None.
Proof.
  intros (fields & Hv & Hs & Ht & Hauth) Ha Hb. destruct (to_object_fields v fields Hv) as (o & -> & Eo). cbn [bind_ub].
  assert (denote (object_value o) = JSObject fields) as Ho by by rewrite Eo.
  unfold request_from_craftnapi.
  rewrite (proj2 (add_context_ok _ _ _) (address_property fields o "source" source Ho Hs Ha)).
  rewrite (proj2 (add_context_ok _ _ _) (address_property fields o "target" target Ho Ht Hb)).
  set (auth_rv := bind_ub (maybe_named_property o (s2b "auth")) _).
  assert (auth_rv = if usable_password cred then Some (Ok (auth_of node_sha1 (D EVP_sha1) cred)) else None) as ->;
    [|by destruct (usable_password cred)].
  unfold auth_rv. destruct (fields !! s2b "auth") as [auth|] eqn:Ea.
  - assert (auth <> JSUndefined) as Hne by (intros ->; destruct cred as [[]|]; [by destruct Hauth as (? & ? & _)|done]).
    destruct (maybe_named_property_some o fields _ auth Ho Ea Hne) as (w & -> & Ew). cbn [bind_ub].
    assert (exists fs, auth = JSObject fs) as [fs ->] by (destruct cred as [[]|]; [|done]; destruct Hauth as (fs & -> & _); by exists fs).
    destruct (to_object_fields w fs Ew) as (o2 & -> & Eo2). cbn [bind_ub].
    apply (parse_auth_js o2 (JSObject fs)); [by rewrite Eo2|done].
  - by rewrite (maybe_named_property_none o fields _ Ho Ea), Hauth.
Qed.

(** The settings that an argument gives, if it is acceptable. *)
Definition settings_with (use_fingerprint : bool) : Settings :=
  mk_Settings use_fingerprint (retransmit settings_default) (rto_calc_settings settings_default)
    (allow_unauthenticated_alternate settings_default).

Lemma settings_ok_of o fields : denote (object_value o) = JSObject fields ->
  match fields !! s2b "use_fingerprint" with
  | None => client_udp_settings_from_craftnapi o = Ok settings_default
  | Some (JSBoolean b) => client_udp_settings_from_craftnapi o = Ok (settings_with b)
  | Some JSUndefined => True
  | Some _ => is_err (client_udp_settings_from_craftnapi o) = true
  end.
Proof.
  intros Ho. unfold client_udp_settings_from_craftnapi. destruct (fields !! s2b "use_fingerprint") as [j|] eqn:Ek.
  2:{ by rewrite (maybe_named_property_none o fields _ Ho Ek). }
  assert (j = JSUndefined \/ j <> JSUndefined) as [->|Hne] by (destruct j; first [by left|by right]); [done|].
  destruct (maybe_named_property_some o fields _ j Ho Ek Hne) as (v & -> & Ev). cbn [mbind result_bind].
  assert ((forall b, j <> JSBoolean b) -> is_err (add_context [s2b "stun udp client settings"]
    match add_context [s2b "use_fingerprint attibute"] (Some <$> as_boolean v) with
    | Ok m => Ok (mk_Settings (default (StunRtx.use_fingerprint settings_default) m) (retransmit settings_default)
                    (rto_calc_settings settings_default) (allow_unauthenticated_alternate settings_default))
    | Err e => Err (pick_error [e])
    end) = true) as Herr.
  { intros Hj. assert (is_err (as_boolean v) = true) as He by (apply as_boolean_err; by rewrite Ev). by destruct (as_boolean v). }
  destruct j; try done; try by apply Herr. by rewrite (as_boolean_ok v b Ev).
Qed.

End Methods.

(** ** Properties *)

(** C16. [next] of the JavaScript class hands over exactly the client's next effect. On every
    client that the methods can reach, [next] ends, and the object it returns describes the
    effect that [ClientUDP::next] reports: the bytes to send, the result of a transaction
    with its address, response and round trip, the failure with its handle and reason, how
    many whole milliseconds to sleep, or nothing to do; the client moves on as it does in
    C++. Two effects are excepted: a [SendData] whose view dangles, and a [TransactionOk] for
    a message of a method other than Binding, for which [next] throws after the effect was
    removed from the queue. *)
Theorem node_next_js `{C : Craftpp} (CL : CraftppLaws C) `{I : Inet} (text : Address -> bytes) (IL : InetLaws I text)
  `{N : Craftnapi} (denote : Value -> JS) (utf8 : bytes -> bytes) (NL : CraftnapiLaws N denote utf8) `{O : MapOrder}
  (error_message : Error -> bytes) (fuel : nat) (Hfuel : (0 < fuel)%nat)
  (settings : Settings) (c : ClientUDP) (Hset : settings_ok settings) (Hc : node_reachable settings c)
  (now : Timepoint) (info : CallbackInfo) (ns : Natives ClientUDP) {G : Type} (g : G)
  (Hu : object_unwrap ns (this_arg info) = Ok c) :
  exists c' e, client_next (loop_measure now c) now c = Some (c', e) /\ effect_ok now c' e /\
    (effect_readable c' e -> exists ns' r, node_next fuel error_message now info (ns, g) = Some ((ns', g), r) /\
       object_unwrap ns' (this_arg info) = Ok c' /\ returns_effect denote utf8 text error_message c' r e).
Proof.
  destruct (node_reachable_ok settings c CL Hset Hc) as [Hw Hd].
  destruct (next_loop_total now (loop_measure now c) c Hw ltac:(lia)) as (c1 & E & Hw1 & Hn).
  pose proof (next_effect_ok now c1 Hw1 Hn) as Hok. exists (next_effect now c1).1, (next_effect now c1).2.
  assert (client_next (loop_measure now c) now c = Some ((next_effect now c1).1, (next_effect now c1).2)) as En
    by (unfold client_next; rewrite E; cbn; f_equal; apply surjective_pairing).
  split; [done|]. split; [done|]. intros Hr. by apply (node_next_ok fuel Hfuel error_message now info ns g c).
Qed.

(** C33. The sleep that JavaScript is told is the shortest that suffices. When [next] reports
    that the nearest deadline is [d] microseconds away, for less than 2^31 - 1 milliseconds,
    [timeout_ms] is a positive 32-bit number, less than a millisecond above [d]; the deadline
    is due at every clock reading [timeout_ms] milliseconds later or after that (until half
    of the clock's range behind the deadline), and it is not due at any reading up to
    [timeout_ms] - 1 milliseconds later: the caller neither wakes up early nor spins. *)
Theorem node_sleep_suffices `{N : Craftnapi} (denote : Value -> JS) (utf8 : bytes -> bytes) (NL : CraftnapiLaws N denote utf8)
  (now deadline : Timepoint) (d : Duration)
  (Hafter : is_after deadline now = true) (Hd : d = tp_sub deadline now) (Hpos : 0 < d < (2 ^ 31 - 1) * 1000) :
  exists ms, makes denote (object_value <$> sleep_to_craftnapi d)
      (js_object [("type", JSString (s2b "sleep")); ("timeout_ms", JSNumber ms)]%string) /\
    0 < ms < 2 ^ 31 /\ d <= 1000 * ms < d + 1000 /\
    (forall x, 1000 * ms <= x < d + 2 ^ 63 -> is_after deadline (advance now x) = false) /\
    (forall x, 0 <= x <= 1000 * (ms - 1) -> is_after deadline (advance now x) = true).
Proof.
  exists (whole_ms d). pose proof (Z_div_mod_eq_full (- d) 1000) as H1. pose proof (Z.mod_pos_bound (- d) 1000 ltac:(lia)) as H2.
  unfold whole_ms. split.
  { unfold sleep_to_craftnapi. cbv zeta. rewrite whole_ms_quot by lia. unfold whole_ms. rewrite i32_small by lia. object. apply create_int32_ok. lia. }
  assert (forall x, is_after deadline (advance now x) = (half_range <? (x - d) mod 2 ^ 64)) as Hx.
  { intros x. unfold is_after. rewrite advance_value. f_equal. unfold wrap. rewrite Zminus_mod_idemp_l.
    assert (d = (tp_value deadline - tp_value now) mod 2 ^ 64) as ->.
    { rewrite tp_sub_eq in Hd. unfold to_signed, wrap in Hd. cbv zeta in Hd.
      pose proof (Z.mod_pos_bound (tp_value deadline - tp_value now) (2 ^ 64) ltac:(lia)).
      destruct (Z.ltb_spec ((tp_value deadline - tp_value now) mod 2 ^ 64) (2 ^ (64 - 1))); lia. }
    rewrite Zminus_mod_idemp_r. f_equal. lia. }
  split_and!; try lia; intros x Hxb; rewrite Hx.
  - rewrite Z.mod_small by lia. apply Z.ltb_ge. rewrite half_range_eq. lia.
  - rewrite <- (Z_mod_plus_full _ 1). rewrite Z.mod_small by lia. apply Z.ltb_lt. rewrite half_range_eq. lia.
Qed.

(** The constructor of the JavaScript client reads its one setting. For an object of
    settings, a new instance wraps a client without transactions: with the default settings
    when [use_fingerprint] is absent, and with [use_fingerprint] as given when it is a
    boolean; a value of any other kind makes the constructor throw, and no client is
    created. *)
Theorem node_client_constructor_js `{C : Craftpp} (CL : CraftppLaws C)
  `{N : Craftnapi} (denote : Value -> JS) (utf8 : bytes -> bytes) (NL : CraftnapiLaws N denote utf8)
  (now : Timepoint) (info : CallbackInfo) (ns : Natives ClientUDP) {G : Type} (g : G) (v : Value) (fields : gmap bytes JS) (id : Z)
  (Harg : info_arg info 0 = Ok v) (Hv : denote v = JSObject fields)
  (Hid : denote (this_arg info) = JSInstance id) (Hnew : is_err (object_unwrap ns (this_arg info)) = true) :
  match fields !! s2b "use_fingerprint" with
  | None => exists ns' w, client_constructor now info (ns, g) = Some ((ns', g), Ok w) /\
      object_unwrap ns' (this_arg info) = Ok (client_create settings_default)
  | Some (JSBoolean b) => exists ns' w, client_constructor now info (ns, g) = Some ((ns', g), Ok w) /\
      object_unwrap ns' (this_arg info) = Ok (client_create (settings_with b))
  | Some JSUndefined => True
  | Some _ => exists e, client_constructor now info (ns, g) = Some ((ns, g), Err e)
  end.
Proof.
  destruct (to_object_fields v fields Hv) as (o & Eo & Ev). rewrite <- Ev in Hv. pose proof (settings_ok_of o fields Hv) as Hs.
  destruct (as_object_instance _ _ Hid) as (t & Et & Eto). rewrite <- Eto in Hid, Hnew.
  assert (forall s, client_udp_settings_from_craftnapi o = Ok s -> exists ns' w,
    client_constructor now info (ns, g) = Some ((ns', g), Ok w) /\ object_unwrap ns' (this_arg info) = Ok (client_create s)) as Hok.
  { intros s E. destruct (wrap_ok t (client_create s) ns id Hid Hnew) as (ns' & w & Ew & Hu). exists ns', w.
    unfold client_constructor. rewrite Harg, Et. cbn [mbind result_bind]. rewrite Eo. cbn [mbind result_bind]. rewrite E.
    cbn [combine2_se]. rewrite Ew. rewrite <- Eto. by split. }
  assert (is_err (client_udp_settings_from_craftnapi o) = true -> exists e,
    client_constructor now info (ns, g) = Some ((ns, g), Err e)) as Herr.
  { intros E. unfold client_constructor. rewrite Harg, Et. cbn [mbind result_bind]. rewrite Eo. cbn [mbind result_bind].
    destruct (client_udp_settings_from_craftnapi o) as [s|e]; [done|]. cbn [combine2_se]. by eexists. }
  destruct (fields !! s2b "use_fingerprint") as [[]|]; auto.
Qed.

(** *** Witnesses *)

Definition sample_error_message (e : Error) : bytes := List.concat (m_context e).
Definition settings_info : list JS * JS := ([js_object [("use_fingerprint", JSBoolean false)]%string], sample_instance).

Lemma unwrap_sample {T} (t : T) : object_unwrap (Craftnapi := reference_napi) ({[ 0 := t ]} : gmap Z T) sample_instance = Ok t.
Proof. reflexivity. Qed.

(** A client with one request to send. *)
Lemma node_next_js_witness : exists ns' r c' e,
  client_next (loop_measure epoch client_one) epoch client_one = Some (c', e) /\
  @node_next reference hex_inet reference_napi 1 sample_error_message Z epoch ([], sample_instance)
    ({[ 0 := client_one ]} : gmap Z ClientUDP, 5) = Some ((ns', 5), r) /\
  returns_effect (H := reference) (N := reference_napi) id id address_hex_text sample_error_message c' r e.
Proof.
  destruct (node_next_js reference_laws address_hex_text hex_inet_laws (N := reference_napi) id id reference_napi_laws (O := key_order)
    sample_error_message 1 ltac:(lia) settings_default client_one settings_default_ok) with (now := epoch)
    (info := ([] : list JS, sample_instance)) (ns := {[ 0 := client_one ]} : gmap Z ClientUDP) (G := Z) (g := 5) as (c' & e & E1 & _ & Hr).
  - apply rtc_once. destruct client_one_created as (g & r & E). by econstructor.
  - apply unwrap_sample.
  - assert (effect_readable c' e) as He.
    { assert (e = SendData 0 0) as ->.
      { apply (f_equal (fmap snd)) in E1. vm_compute in E1. by injection E1. }
      cbn [effect_readable]. destruct (m_tmap c' !! 0) as [t|] eqn:Et; [by eexists|].
      apply (f_equal (fmap (fun x => match m_tmap x.1 !! 0 with Some _ => true | None => false end))) in E1.
      cbn [fmap option_fmap option_map fst] in E1. rewrite Et in E1. vm_compute in E1. discriminate E1. }
    destruct (Hr He) as (ns' & r & E2 & _ & Hret). exists ns', r, c', e. split; [exact E1|]. split; [exact E2|exact Hret].
Defined.

(** 1500 microseconds are two milliseconds. *)
Lemma node_sleep_suffices_witness : exists ms,
  makes (N := reference_napi) id (object_value <$> sleep_to_craftnapi 1500)
    (js_object [("type", JSString (s2b "sleep")); ("timeout_ms", JSNumber ms)]%string) /\
  is_after (advance epoch 1500) (advance epoch (1000 * ms)) = false.
Proof.
  destruct (node_sleep_suffices (N := reference_napi) id id reference_napi_laws epoch (advance epoch 1500) 1500)
    as (ms & Hm & _ & Hb & Hd & _); [reflexivity|reflexivity|lia|]. exists ms. split; [exact Hm|]. apply Hd. lia.
Defined.

Lemma node_client_constructor_js_witness : exists ns' w,
  @client_constructor reference reference_napi Z epoch settings_info (∅ : gmap Z ClientUDP, 5) = Some ((ns', 5), Ok w) /\
  object_unwrap (Craftnapi := reference_napi) ns' sample_instance = Ok (client_create (settings_with false)).
Proof.
  exact (node_client_constructor_js reference_laws (N := reference_napi) id id reference_napi_laws epoch settings_info
    (∅ : gmap Z ClientUDP) 5 _ _ 0 eq_refl eq_refl eq_refl eq_refl).
Defined.
