(* ===== verification/NodeBinding.v ===== *)
(** * The Binding transaction between JavaScript programs

    The client of NodeClient.v and the server of NodeServer.v, connected by JavaScript
    buffers: [create] and [next] of one program, [process] of the other, and [response] and
    [next] of the first on what [process] returned. *)

From S2P Require Import Prelude Errors Craftpp Util Clock Net Crypto NodeCrypto StunBase StunCrc StunAttr StunAttrSet StunMessage StunServer StunRto StunRtx StunClient StunClientCalls Binding Napi NodeMessage NodeServer NodeClient.

(** ** Lemmas *)

Section Tid.
Context `{CL : CraftppLaws}.

Lemma random_words_ok {G} (r : G -> G * Z) n : forall g, bytes_ok (random_words r n g).2 /\ zlen (random_words r n g).2 = 4 * Z.of_nat n.
Proof.
  induction n as [|n IH]; intros g; cbn [random_words]; [split; [constructor|reflexivity]|].
  destruct (r g) as [g1 v]. specialize (IH g1). destruct (random_words r n g1) as [g2 rest]. cbn [snd] in *.
  destruct IH as [Hok Hl]. split; [apply Forall_app_2; [apply mem_bytes_ok|done]|].
  rewrite zlen_app, Hl. unfold zlen. rewrite length_mem_bytes. lia.
Qed.

Lemma tid_generate_ok {G} (r : G -> G * Z) g g' tid : tid_generate r g = (g', tid) -> zlen tid = 12 /\ bytes_ok tid.
Proof.
  intros E. destruct (random_words_ok r (Z.to_nat (TRANSACTION_ID_SIZE / 4)) g) as [H1 H2].
  unfold tid_generate in E. rewrite E in H1, H2. by split.
Qed.

(** [random()] of the C library returns 31-bit numbers, so that a transaction id of the
    bindings has three bits that never vary: the top bit of each of its three words. *)
Lemma node_tid_top_bits {G} (random : G -> G * Z) g g' tid : (forall g, fits 31 (random g).2) ->
  tid_generate random g = (g', tid) ->
  load_u32 (slice tid 0 4) < 2 ^ 31 /\ load_u32 (slice tid 4 4) < 2 ^ 31 /\ load_u32 (slice tid 8 4) < 2 ^ 31.
Proof.
  intros Hr. assert (forall v, fits 31 v -> load_u32 (mem_bytes 4 (u32 v)) < 2 ^ 31) as Hl.
  { intros v Hv. unfold fits in Hv. rewrite wrap_small by (unfold fits; lia). unfold load_u32, mem_bytes.
    destruct host_is_big_endian; rewrite ?rev_involutive, be_val_be_bytes_small by (cbn; lia); lia. }
  unfold tid_generate. change (Z.to_nat (TRANSACTION_ID_SIZE / 4)) with 3%nat. cbn [random_words].
  pose proof (Hr g) as H1. destruct (random g) as [g1 v1]. pose proof (Hr g1) as H2. destruct (random g1) as [g2 v2].
  pose proof (Hr g2) as H3. destruct (random g2) as [g3 v3]. cbn [snd] in *. intros [= <- <-].
  pose proof (length_mem_bytes 4 (u32 v1)) as L1. pose proof (length_mem_bytes 4 (u32 v2)) as L2.
  pose proof (length_mem_bytes 4 (u32 v3)) as L3.
  rewrite (slice_prefix (mem_bytes 4 (u32 v1))) by (unfold zlen; lia).
  rewrite (slice_app (mem_bytes 4 (u32 v1)) (mem_bytes 4 (u32 v2))) by (unfold zlen; lia).
  rewrite app_assoc, (slice_app (mem_bytes 4 (u32 v1) ++ mem_bytes 4 (u32 v2)) (mem_bytes 4 (u32 v3)))
    by (unfold zlen; rewrite ?length_app; lia).
  auto.
Qed.

End Tid.

(** How the methods call [response]: on the bytes of a buffer. *)
Definition js_given (view : bytes) (maybe_msg : option Message) : Prop := maybe_msg = None /\ bytes_ok view.

Lemma js_calls_steps `{C : Craftpp} `{O : MapOrder} c es c' : client_calls js_given c es c' -> rtc node_client_step c c'.
Proof.
  induction 1 as [|G draws fuel rand g g' now rq c c1 c2 es r Hcr _ IH|now view o c c1 c2 es r [-> Hok] Hr _ IH|fuel now c c1 c2 e es Hn _ IH];
    [done|eapply rtc_l; [|exact IH]; by econstructor..].
Qed.

Section Exchange.
Context `{CL : CraftppLaws} `{I : Inet} {text : Address -> bytes} `{IL : !InetLaws I text} `{NL : CraftnapiLaws} `{OL : MapOrderLaws}.
Context `{E : Evp} (D : EVP_MD -> bytes -> bytes) {HL : HashLaws SHA1_SIZE node_sha1 (D EVP_sha1)}.
Context (fuel : nat) (Hfuel : (0 < fuel)%nat) (error_message : Error -> bytes) {G : Type} (random : G -> G * Z).

#[local] Abbreviation mac := (rfc2104_hmac (D EVP_sha1)).
#[local] Abbreviation auth := (auth_of node_sha1 (D EVP_sha1)).

(** The credentials without the bound on the password. *)
Lemma registered_name (cred : option (bytes * bytes)) creds :
  (forall name K, cred = Some (name, K) -> bytes_ok name /\ zlen name <= 513 /\ zlen K <= 64 /\ credential creds name = Some K) ->
  forall name K, cred = Some (name, K) -> bytes_ok name /\ zlen name <= 513 /\ credential creds name = Some K.
Proof. intros Hcred name K Ec. by destruct (Hcred name K Ec) as (? & ? & _ & ?). Qed.

(** The bytes of the request of a client. *)
Definition request_bytes (c : ClientUDP) (tid : bytes) (cred : option (bytes * bytes)) : bytes :=
  let q := request_message (use_fingerprint (c_settings c)) tid cred in
  message_bytes (header q) (attribute_set q) (mac <$> (snd <$> cred)).

Lemma node_create_ok draws now info ns g g' tid c v source target cred creds :
  object_unwrap ns (this_arg info) = Ok c -> client_wf c -> m_effects c = [] ->
  Z.of_nat (size (m_tmap c)) < 2 ^ 32 -> info_arg info 0 = Ok v -> js_request denote text v source target cred ->
  address_wf source -> address_wf target -> (0 < draws)%nat -> tid_generate random g = (g', tid) ->
  m_tid_to_handle c !! tid = None ->
  (forall name K, cred = Some (name, K) -> bytes_ok name /\ zlen name <= 513 /\ zlen K <= 64 /\ credential creds name = Some K) ->
  exists ns1 r hnd c1 t, node_create random draws now info (ns, g) = Some ((ns1, g'), r) /\ makes denote r (js_handle hnd) /\
    object_unwrap ns1 (this_arg info) = Ok c1 /\ node_client_step c c1 /\ client_wf c1 /\
    m_effects c1 = [SendData hnd hnd] /\ m_tmap c1 !! hnd = Some t /\ t_msg_data t = request_bytes c tid cred /\
    t_tid t = tid /\ t_maybe_auth t = auth cred /\ t_create_time t = now /\ t_rtx_count t = 0.
Proof.
  intros Hu Hwf He Hsz Harg Hreq Hsrc Htgt Hdraws Htid Hnew Hcred. destruct (tid_generate_ok _ _ _ _ Htid) as [Hl Hok].
  assert (usable_password cred = true) as HK.
  { destruct cred as [[name K]|]; [|done]. apply Z.leb_le. by destruct (Hcred name K eq_refl) as (_ & _ & ? & _). }
  pose proof (request_message_client creds (use_fingerprint (c_settings c)) tid cred Hl Hok (registered_name _ _ Hcred)) as Hq.
  pose proof (message_layout node_sha1 (D EVP_sha1) _ (snd <$> cred) (cq_buildable _ _ _ Hq)) as Hdata.
  destruct (do_create_request node_sha1 (D EVP_sha1) now tid (mk_Path source target) cred c _ Hwf Hnew Hsz Hdata)
    as (c1 & hnd & Hcr & Hw1 & He1 & t & Ht & Hm & Ht1 & Ht2 & Ht3 & Ht4).
  assert (create draws (S (size (m_tmap c))) random g now (mk_Request (mk_Path source target) [] [] (auth cred)) c
    = Some (g', (c1, Ok hnd))) as Ecr.
  { destruct draws as [|draws]; [lia|]. cbn [create]. by rewrite Htid, Hnew, Hcr. }
  pose proof (request_js D v source target cred Hreq Hsrc Htgt) as Erq. rewrite HK in Erq.
  destruct (handle_makes hnd) as (w & Ew & Hw). eexists _, (Ok w), hnd, c1, t. split.
  { unfold node_create. rewrite Harg, Hu. cbn [mbind result_bind]. rewrite Erq. cbn [mbind option_bind].
    rewrite Ecr. cbn [mbind option_bind result_bind]. by rewrite Ew. }
  split; [by exists w|]. split; [by eapply unwrap_assign|]. split; [by econstructor|]. split; [done|].
  by rewrite He1, He.
Qed.

(** The server's answer to those bytes, for the JavaScript caller. *)
Lemma node_server_answers settings c tid cred creds srv addr port :
  zlen tid = 12 -> bytes_ok tid ->
  (forall name K, cred = Some (name, K) -> bytes_ok name /\ zlen name <= 513 /\ credential creds name = Some K) ->
  serves node_sha1 (D EVP_sha1) settings creds srv -> address_wf addr -> fits 16 port ->
  exists rsp q, message_buildable rsp /\ is_success_response settings (UdpEndpoint addr port) q rsp /\
    (exists ka, attribute_set rsp = attribute_set_create ka []) /\ header q = mk_Header REQUEST BINDING tid /\ is_rfc3489 q = false /\
    forall infoS v0 v1 sns, object_unwrap sns (this_arg infoS) = Ok srv ->
      info_arg infoS 0 = Ok v0 -> denote v0 = JSBuffer (request_bytes c tid cred) ->
      info_arg infoS 1 = Ok v1 -> rinfo denote text v1 addr port ->
      exists sns' r, process_message fuel infoS sns = Some (sns', r) /\
        makes denote r (js_object [("result", JSString (s2b "respond"));
          ("data", JSBuffer (message_bytes (header rsp) (attribute_set rsp) (mac <$> (snd <$> cred))))]%string).
Proof.
  intros Hl Hok Hcred Hs Ha Hp.
  pose proof (request_message_client creds (use_fingerprint (c_settings c)) tid cred Hl Hok Hcred) as Hq.
  destruct (process_client_request node_sha1 (D EVP_sha1) settings creds srv (UdpEndpoint addr port) _ cred Hs Hq)
    as (rsp & q & Hr & Eh & Er & Hsp & fp & Hset).
  assert (message_buildable rsp) as Hrb.
  { pose proof (mb_header _ (cq_buildable _ _ _ Hq)) as Hh. rewrite (cq_rfc _ _ _ Hq) in Hh.
    apply (success_response_buildable settings (UdpEndpoint addr port) q); try done; first [by rewrite Eh|by exists fp]. }
  exists rsp, q. split; [done|]. split; [done|]. split; [by rewrite Hset; eexists|]. split; [by rewrite Eh|]. split; [done|].
  intros infoS v0 v1 sns Hu E0 Hv0 E1 Hv1.
  destruct (process_message_ok fuel Hfuel infoS v0 v1 sns srv _ addr port E0 Hv0) as (r & Ep & Hret); try done.
  { apply (message_bytes_ok node_sha1 (D EVP_sha1)), (cq_buildable _ _ _ Hq). }
  eexists _, r. split; [exact Ep|]. unfold request_bytes in Hret. rewrite Hr in Hret. cbn [returns_result] in Hret.
  by rewrite (message_layout node_sha1 (D EVP_sha1) rsp (snd <$> cred) Hrb) in Hret.
Qed.

(** [next] keeps the data of every transaction until its end is reported. *)
Lemma next_loop_data now h : forall n c c', next_loop n now c = Some c' ->
  t_msg_data <$> m_tmap c' !! h = t_msg_data <$> m_tmap c !! h.
Proof.
  assert (forall c c', next_step now c = Some c' -> t_msg_data <$> m_tmap c' !! h = t_msg_data <$> m_tmap c !! h) as Hst.
  { intros c c'. unfold next_step. destruct (pq_top _) as [[tp k]|]; [|done]. destruct (is_after _ _); [done|]. cbn [fst snd].
    change (m_tmap (with_timeline pq_pop c)) with (m_tmap c). destruct (m_tmap c !! k) as [t|] eqn:Ek; [|by intros [= <-]].
    destruct (ra_next now _) as [algo [next|]]; intros [= <-]; cbn; rewrite lookup_insert;
      (destruct (decide (k = h)) as [->|]; [by rewrite Ek|done]). }
  induction n as [|n IH]; intros c c'; cbn [next_loop];
    (destruct (next_step now c) as [c1|] eqn:E1; [|by intros [= <-]]); [done|].
  intros E2. rewrite (IH _ _ E2). by apply Hst.
Qed.

Lemma node_next_sends now info ns g c hnd data : object_unwrap ns (this_arg info) = Ok c -> client_wf c ->
  Forall describable (m_effects c) -> m_effects c = [SendData hnd hnd] -> t_msg_data <$> m_tmap c !! hnd = Some data ->
  exists ns' r c', node_next fuel error_message now info (ns, g : G) = Some ((ns', g), r) /\
    object_unwrap ns' (this_arg info) = Ok c' /\ client_calls js_given c [SendData hnd hnd] c' /\
    makes denote r (js_object [("type", JSString (s2b "send_data")); ("message", JSBuffer data)]%string).
Proof.
  intros Hu Hwf Hd He Hdata. destruct (client_next_front now (loop_measure now c) c _ [] Hwf He ltac:(lia)) as (c' & En & _).
  assert (t_msg_data <$> m_tmap c' !! hnd = Some data) as Hdata'.
  { unfold client_next in En. destruct (next_loop _ now c) as [c1|] eqn:El; [|done]. cbn in En. injection En as En.
    destruct (next_loop_effects now _ c c1 Hwf El) as [es Hes]. rewrite He in Hes. unfold next_effect in En. rewrite Hes in En.
    cbn in En. injection En as <-. cbn. by rewrite (next_loop_data now hnd _ _ _ El). }
  destruct (m_tmap c' !! hnd) as [t|] eqn:Et; [|done]. injection Hdata' as <-.
  destruct (node_next_ok fuel Hfuel error_message now info ns g c c' (SendData hnd hnd)) as (ns' & r & E1 & Hu' & Hr); try done.
  { by eexists. }
  exists ns', r, c'. split; [done|]. split; [done|].
  split; [by eapply calls_next, calls_end|]. destruct Hr as (t' & Et' & Hr).
  rewrite Et in Et'. by injection Et' as <-.
Qed.

(** The answer of the server reaches the client. *)
Lemma node_response_ok settings addr port q tid cred rsp later info ns g c hnd t v :
  object_unwrap ns (this_arg info) = Ok c -> client_wf c -> Forall describable (m_effects c) -> m_effects c = [] ->
  message_buildable rsp -> is_success_response settings (UdpEndpoint addr port) q rsp ->
  (exists ka, attribute_set rsp = attribute_set_create ka []) -> header q = mk_Header REQUEST BINDING tid -> is_rfc3489 q = false ->
  address_wf addr -> zlen tid = 12 -> bytes_ok tid ->
  m_tmap c !! hnd = Some t -> t_tid t = tid -> t_maybe_auth t = auth cred ->
  info_arg info 0 = Ok v -> denote v = JSBuffer (message_bytes (header rsp) (attribute_set rsp) (mac <$> (snd <$> cred))) ->
  exists ns' r, node_response later info (ns, g : G) = Some ((ns', g), r) /\ makes denote r JSUndefined /\
    forall now info', this_arg info' = this_arg info -> exists ns2 r2 m, 
      node_next fuel error_message now info' (ns', g) = Some ((ns2, g), r2) /\
      makes denote r2 (js_object_maybe [
        ("type", Some (JSString (s2b "transaction_ok"))); ("result", Some (js_endpoint text addr port));
        ("response", Some (js_message text utf8 m));
        ("rtt_us", if (t_rtx_count t =? 0)%Z then Some (JSNumber (i32 (tp_sub later (t_create_time t)))) else None)]%string).
Proof.
  intros Hu Hwf Hd He Hrb Hsp Hset Eh Er Ha Hl Hok Ht Htid Hauth Harg Hv.
  destruct (response_to_answer node_sha1 (D EVP_sha1) settings addr port q tid cred rsp later c hnd t)
    as (c' & m & Eresp & Hw' & He' & Hm); try done. rewrite He in He'. cbn [app] in He'.
  assert (node_client_step c c') as Hst by (eapply ncs_response; [apply (message_bytes_ok node_sha1 (D EVP_sha1)), Hrb|exact Eresp]).
  pose proof (node_client_step_describable c c' CL Hwf Hst Hd) as Hd'.
  assert (node_response later info (ns, g) = Some ((assign (this_arg info) c' ns, g), create_undefined)) as E1.
  { unfold node_response. rewrite Hu, Harg. cbn [mbind result_bind]. rewrite (to_buffer_ok v _ Hv). by rewrite Eresp. }
  eexists _, _. split; [exact E1|]. split; [apply create_undefined_ok|]. intros now info' Hthis.
  destruct (client_next_front now (loop_measure now c') c' _ [] Hw' He' ltac:(lia)) as (c2 & En & _).
  edestruct (node_next_ok fuel Hfuel error_message now info' (assign (this_arg info) c' ns) g c' c2) as (ns2 & r2 & E2 & _ & Hr2);
    [rewrite Hthis; by eapply unwrap_assign|exact En|exact Hd'|exact Logic.I|].
  exists ns2, r2, m. split; [exact E2|]. cbn [returns_effect] in Hr2. rewrite Hm in Hr2. cbn in Hr2.
  by destruct (t_rtx_count t =? 0).
Qed.

End Exchange.

(** ** Property *)

(** C5. JavaScript programs that pass buffers learn addresses. The client's program calls
    [create] with two addresses and, if it likes, a registered name of at most 513 bytes and
    its password of at most 64 (a longer password is undefined behaviour of the code), on a
    client with nothing left to report; the next call of [next], at any time, returns the
    encoding of the Binding request, signed with the password ([request_bytes]), to be sent.
    Given these bytes and the sender's address, the server's [process] returns a response.
    The client's program may then call the client in any way, until it has collected every
    effect but not the end of this transaction: when it hands the response to [response],
    the next call of [next] returns the transaction's end with the client's own address, as
    text, and port, the response, and the microseconds since the creation, as a 32-bit
    number, exactly when one of the collected effects sent the request (it is sent at most
    2^32 times). No call throws. *)
Theorem node_binding_transaction `{C : Craftpp} (CL : CraftppLaws C) `{I : Inet} (text : Address -> bytes) (IL : InetLaws I text)
  `{N : Craftnapi} (denote : Value -> JS) (utf8 : bytes -> bytes) (NL : CraftnapiLaws N denote utf8)
  `{O : MapOrder} (OL : MapOrderLaws O) `{E : Evp} (D : EVP_MD -> bytes -> bytes) (HL : HashLaws SHA1_SIZE node_sha1 (D EVP_sha1))
  (fuel draws : nat) (Hfuel : (0 < fuel)%nat /\ (0 < draws)%nat) (error_message : Error -> bytes) {G : Type} (random : G -> G * Z)
  (settings : Settings) (c : ClientUDP) (server_settings : option bool) (creds : list (bytes * bytes)) (srv : Stateless)
  (now : Timepoint) (info : CallbackInfo) (ns : Natives ClientUDP) (g g' : G) (tid : bytes) (v : Value)
  (source target : Address) (cred : option (bytes * bytes)) (addr : Address) (port : Z)
  (Hset : settings_ok settings) (Hc : node_reachable settings c) (He : m_effects c = [])
  (Hsz : Z.of_nat (size (m_tmap c)) < 2 ^ 32) (Hu : object_unwrap ns (this_arg info) = Ok c)
  (Hg : tid_generate random g = (g', tid)) (Hnew : m_tid_to_handle c !! tid = None)
  (Harg : info_arg info 0 = Ok v) (Hreq : js_request denote text v source target cred)
  (Hwfs : address_wf source /\ address_wf target)
  (Hcred : forall name K, cred = Some (name, K) ->
     bytes_ok name /\ zlen name <= 513 /\ zlen K <= 64 /\ credential creds name = Some K)
  (Hs : serves node_sha1 (D EVP_sha1) server_settings creds srv) (Ha : address_wf addr) (Hp : fits 16 port) :
  exists ns1 r1 hnd c1 answer,
    node_create random draws now info (ns, g) = Some ((ns1, g'), r1) /\ makes denote r1 (js_handle hnd) /\
    object_unwrap ns1 (this_arg info) = Ok c1 /\
    (forall now2 info2, this_arg info2 = this_arg info -> exists ns2 r2 c2,
       node_next fuel error_message now2 info2 (ns1, g') = Some ((ns2, g'), r2) /\
       object_unwrap ns2 (this_arg info) = Ok c2 /\ client_calls js_given c1 [SendData hnd hnd] c2 /\
       makes denote r2 (js_object [("type", JSString (s2b "send_data")); ("message", JSBuffer (request_bytes D c tid cred))]%string)) /\
    (forall infoS sns v0 v1, object_unwrap sns (this_arg infoS) = Ok srv ->
       info_arg infoS 0 = Ok v0 -> denote v0 = JSBuffer (request_bytes D c tid cred) -> info_arg infoS 1 = Ok v1 -> rinfo denote text v1 addr port ->
       exists sns' r, process_message fuel infoS sns = Some (sns', r) /\
         makes denote r (js_object [("result", JSString (s2b "respond")); ("data", JSBuffer answer)]%string)) /\
    (forall info3 ns3 g3 es c3 v3 later, client_calls js_given c1 es c3 -> unfinished hnd es -> m_effects c3 = [] ->
       Z.of_nat (sent hnd es) <= 2 ^ 32 ->
       object_unwrap ns3 (this_arg info3) = Ok c3 -> info_arg info3 0 = Ok v3 -> denote v3 = JSBuffer answer ->
       exists ns4 r4, node_response later info3 (ns3, g3 : G) = Some ((ns4, g3), r4) /\ makes denote r4 JSUndefined /\
         forall now5 info5, this_arg info5 = this_arg info3 -> exists ns5 r5 m,
           node_next fuel error_message now5 info5 (ns4, g3) = Some ((ns5, g3), r5) /\
           makes denote r5 (js_object_maybe [
             ("type", Some (JSString (s2b "transaction_ok"))); ("result", Some (js_endpoint text addr port));
             ("response", Some (js_message text utf8 m));
             ("rtt_us", if bool_decide (sent hnd es = 1%nat) then Some (JSNumber (i32 (tp_sub later now))) else None)]%string)).
Proof.
  destruct Hfuel as [Hfuel Hdraws]. destruct Hwfs as [Hsrc Htgt]. destruct (node_reachable_ok settings c CL Hset Hc) as [Hwf Hd].
  destruct (tid_generate_ok _ _ _ _ Hg) as [Hl Hok].
  destruct (node_create_ok D fuel Hfuel random draws now info ns g g' tid c v source target cred creds)
    as (ns1 & r1 & hnd & c1 & t1 & Ecr & Hr1 & Hu1 & Hst & Hw1 & He1 & Ht1 & Hm1 & Htid1 & Hauth1 & Hnow1 & H01); try done.
  assert (t_msg_data <$> m_tmap c1 !! hnd = Some (request_bytes D c tid cred)) as Hdata by (rewrite Ht1; cbn; by rewrite Hm1).
  pose proof (node_client_step_describable c c1 CL Hwf Hst Hd) as Hd1.
  destruct (node_server_answers D fuel Hfuel server_settings c tid cred creds srv addr port Hl Hok (registered_name _ _ Hcred) Hs Ha Hp)
    as (rsp & q & Hrb & Hsp & Hka & Eh & Er & Hans).
  eexists ns1, r1, hnd, c1, _. split; [exact Ecr|]. split; [done|]. split; [done|]. split.
  { intros now2 info2 Hthis. rewrite <- Hthis.
    destruct (node_next_sends fuel Hfuel error_message now2 info2 ns1 g' c1 hnd (request_bytes D c tid cred)
      ltac:(by rewrite Hthis) Hw1 Hd1 He1 Hdata) as (ns2 & r2 & c2 & H1 & H2 & H3 & H4). by exists ns2, r2, c2. }
  split; [intros infoS sns v0 v1; by apply Hans|].
  intros info3 ns3 g3 es c3 v3 later Hcalls Hun He3 Hlt Hu3 Harg3 Hv3. pose proof (js_calls_steps _ _ _ Hcalls) as Hrun.
  destruct (rtx_count_once hnd js_given c c1 es c3 t1) as (t3 & Ht3 & Htid3 & Hauth3 & Hnow3 & Hcount);
    [done|by rewrite He, He1|done..|by rewrite He3, app_nil_r|]. rewrite He, He3, app_nil_r in Hcount.
  change (S (sent hnd [])) with 1%nat in Hcount. rewrite <- Hcount, <- Hnow1, <- Hnow3.
  assert (node_reachable settings c3) as Hr3.
  { unfold node_reachable in *. transitivity c; [exact Hc|]. by eapply rtc_l. }
  destruct (node_reachable_ok settings c3 CL Hset Hr3) as [Hw3 Hd3].
  apply (node_response_ok D fuel Hfuel error_message server_settings addr port q tid cred rsp later info3 ns3 g3 c3 hnd t3 v3);
    congruence || done.
Qed.

(** *** Witness *)

Definition node_hash : HashFunc := @node_sha1 sample_evp.

#[export] Instance node_hash_laws : HashLaws SHA1_SIZE node_hash sample_H.
Proof.
  apply (node_sha1_hash_laws (E := sample_evp) (fun _ => sample_H) _ sample_evp_laws).
  intros b. split; [apply (zlen_be_bytes 20)|apply be_bytes_ok].
Qed.

Definition create_arg : JS :=
  js_object [("source", JSString (address_hex_text (AddressV4 [192; 0; 2; 1])));
             ("target", JSString (address_hex_text (AddressV4 [192; 0; 2; 9])));
             ("auth", js_object [("username", JSString [97]); ("password", JSString [1; 2])])]%string.

#[local] Abbreviation sample_create := (@node_create reference hex_inet sample_evp reference_napi key_order Z counting 1 epoch
  ([create_arg], sample_instance) ({[ 0 := client_create settings_default ]} : gmap Z ClientUDP, 5)).
#[local] Abbreviation sample_next := (@node_next reference hex_inet reference_napi 1 sample_error_message Z).

(** After [create] and [next] of a new client nothing is left to collect. *)
Lemma collected world1 r1 world2 r2 c2 : sample_create = Some (world1, r1) ->
  sample_next epoch ([], sample_instance) world1 = Some (world2, r2) ->
  object_unwrap (Craftnapi := reference_napi) world2.1 sample_instance = Ok c2 -> m_effects c2 = [].
Proof.
  intros E1 E2 E3.
  assert (match sample_create with
          | Some (w1, _) => match sample_next epoch ([], sample_instance) w1 with
                            | Some (w2, _) => match object_unwrap (Craftnapi := reference_napi) w2.1 sample_instance with
                                              | Ok c => m_effects c = [] | Err _ => False end
                            | None => False end
          | None => False end) as Hall by (vm_compute; reflexivity).
  by rewrite E1, E2, E3 in Hall.
Qed.

(** A new client, a server that knows the user, and the sender's address: the client's
    program learns its address 40 ms later. *)
Lemma node_binding_transaction_witness : exists world1 r1 world2 r2 data sns r3 answer world4 world5 r5 m,
  sample_create = Some (world1, r1) /\ is_ok r1 = true /\
  sample_next epoch ([], sample_instance) world1 = Some (world2, Ok r2) /\
  r2 = js_object [("type", JSString (s2b "send_data")); ("message", JSBuffer data)]%string /\
  @process_message reference hex_inet reference_napi key_order 1 ([JSBuffer data; sample_rinfo], sample_instance)
    ({[ 0 := server_of node_hash sample_H None sample_creds ]} : gmap Z Stateless) = Some (sns, Ok r3) /\
  r3 = js_object [("result", JSString (s2b "respond")); ("data", JSBuffer answer)]%string /\
  @node_response reference reference_napi Z (advance epoch 40000) ([JSBuffer answer], sample_instance) world2
    = Some (world4, Ok JSUndefined) /\
  sample_next (advance epoch 40000) ([], sample_instance) world4 = Some (world5, Ok r5) /\
  r5 = js_object [("type", JSString (s2b "transaction_ok"));
    ("result", js_endpoint address_hex_text (AddressV4 [192; 0; 2; 1]) 32853);
    ("response", js_message (H := reference) address_hex_text id m); ("rtt_us", JSNumber 40000)]%string.
Proof.
  destruct (node_binding_transaction reference_laws address_hex_text hex_inet_laws (N := reference_napi) id id reference_napi_laws
    key_order_laws (E := sample_evp) (fun _ => sample_H) node_hash_laws 1 1 ltac:(lia) sample_error_message counting
    settings_default (client_create settings_default) None sample_creds (server_of node_hash sample_H None sample_creds)
    epoch ([create_arg], sample_instance) ({[ 0 := client_create settings_default ]} : gmap Z ClientUDP) 5
    (tid_generate (H := reference) counting 5).1 (tid_generate (H := reference) counting 5).2 create_arg
    (AddressV4 [192; 0; 2; 1]) (AddressV4 [192; 0; 2; 9]) sample_cred (AddressV4 [192; 0; 2; 1]) 32853
    settings_default_ok) as (ns1 & r1 & hnd & c1 & answer & E1 & (w1 & Hr1 & _) & _ & Hn & Hs & Hrsp).
  - apply rtc_refl.
  - reflexivity.
  - reflexivity.
  - reflexivity.
  - apply surjective_pairing.
  - reflexivity.
  - reflexivity.
  - eexists. split; [reflexivity|]. split; [reflexivity|]. split; [reflexivity|]. eexists. split; [reflexivity|]. by split.
  - split; (split; [reflexivity|]; repeat constructor; unfold is_byte; lia).
  - intros name K [= <- <-]. split; [repeat constructor; unfold is_byte; lia|]. split; [done|]. split; [done|reflexivity].
  - apply server_of_serves.
  - apply sample_address_wf.
  - split; [lia|reflexivity].
  - match type of Hn with context [JSBuffer ?d] => set (data := d) in * end.
    destruct (Hn epoch ([], sample_instance) eq_refl) as (ns2 & r2 & c2 & E2 & Hu2 & Hcalls & (w2 & Hr2 & Hw2)).
    destruct (Hs ([JSBuffer data; sample_rinfo], sample_instance)
      ({[ 0 := server_of node_hash sample_H None sample_creds ]} : gmap Z Stateless) (JSBuffer data) sample_rinfo
      (unwrap_sample _) eq_refl eq_refl eq_refl sample_rinfo_ok) as (sns & r3 & E3 & (w3 & Hr3 & Hw3)).
    pose proof (collected _ _ _ _ _ E1 E2 Hu2) as Hnil.
    destruct (Hrsp ([JSBuffer answer], sample_instance) ns2 (tid_generate (H := reference) counting 5).1 [SendData hnd hnd] c2 (JSBuffer answer)
      (advance epoch 40000) Hcalls) as (ns4 & r4 & E4 & (w4 & Hr4 & Hw4) & Hend); try reflexivity; try assumption.
    + constructor; [|constructor]. intros Hf. exact Hf.
    + rewrite sent_one. cbn [is_send]. rewrite Z.eqb_refl. discriminate.
    + destruct (Hend (advance epoch 40000) ([], sample_instance) eq_refl) as (ns5 & r5 & m & E5 & (w5 & Hr5 & Hw5)).
      rewrite sent_one in Hw5. cbn [is_send] in Hw5. rewrite Z.eqb_refl in Hw5.
      subst r1 r2 r3 r4 r5. change (w4 = JSUndefined) in Hw4. subst w4.
      eexists _, (Ok w1), _, w2, data, sns, w3, answer, _, _, w5, m. split; [exact E1|]. split; [reflexivity|]. split; [exact E2|].
      split; [exact Hw2|]. split; [exact E3|]. split; [exact Hw3|]. split; [exact E4|]. split; [exact E5|exact Hw5].
Defined.
