(* ===== verification/NodeRun.v ===== *)
(** * The event loop of a JavaScript client

    A JavaScript program drives the client class of NodeClient.v: it calls [next], looks at
    the property [type] of what it gets, and sets a timer when that is "sleep". The theorem
    carries the runs of StunClientRun.v over to such programs: what they see of a request
    that nobody answers. *)

From S2P Require Import Prelude Errors Craftpp Util Clock Net Crypto NodeCrypto StunBase StunCrc StunAttr StunAttrSet StunMessage StunServer StunRto StunRtx StunClient StunClientCalls Binding StunClientRun Napi NodeMessage NodeServer NodeClient NodeBinding.
#[local] Open Scope Z_scope.

(** ** The program *)

Definition js_property (j : JS) (name : string) : option JS :=
  match j with JSObject fields => fields !! s2b name | _ => None end.

(** What the program does with an object that [next] returned. *)
Inductive Reaction : Type := Waits (ms : Z) | Stops | Acts.

Definition reaction (j : JS) : Reaction :=
  match js_property j "type", js_property j "timeout_ms" with
  | Some (JSString type), timeout =>
      if bool_decide (type = s2b "idle") then Stops
      else if bool_decide (type = s2b "sleep")
           then match timeout with Some (JSNumber ms) => Waits ms | _ => Acts end
           else Acts
  | _, _ => Acts
  end.

Section NodeRun.
Context `{Craftpp} `{Inet} `{N : Craftnapi} (fuel : nat) (error_message : Error -> bytes) (denote : Value -> JS) {G : Type}.

(** The objects that the program acts on, with the time of each; an exception is one. A timer
    of [ms] milliseconds fires [extra !! i] microseconds late, the i-th time. *)
Fixpoint node_run (n : nat) (extra : list Duration) (now : Timepoint) (info : CallbackInfo) (w : World (G := G))
    : option (list (Timepoint * Result Value) * World (G := G)) :=
  match n with
  | O => None
  | S n' =>
      '(w, r) ← node_next fuel error_message now info w;
      match (match r with Ok v => reaction (denote v) | Err _ => Acts end), extra with
      | Stops, _ | Waits _, [] => Some ([], w)
      | Waits ms, l :: extra' => node_run n' extra' (advance now (1000 * ms + l)) info w
      | Acts, _ => '(rs, w) ← node_run n' extra now info w; Some ((now, r) :: rs, w)
      end
  end.

End NodeRun.

(** How long the program sleeps when C++ asks for [d]. *)
Definition timer (l : Duration) (d : Duration) : Duration := 1000 * i32 (whole_ms d) + l.

(** ** Lemmas *)

Lemma js_object_property fields name j : NoDup ((fun p => s2b p.1) <$> fields) -> (name, Some j) ∈ fields ->
  js_property (js_object_maybe fields) name = Some j.
Proof.
  intros Hnd Hin. unfold js_property, js_object_maybe. apply js_fields_lookup.
  - by rewrite <- list_fmap_compose.
  - apply list_elem_of_fmap. by exists (name, Some j).
Qed.

(** What JavaScript gets for the two kinds of effects of an unanswered request. *)
Definition js_send_data (data : bytes) : JS :=
  js_object [("type", JSString (s2b "send_data")); ("message", JSBuffer data)]%string.
Definition js_timeout (h : Handle) : JS :=
  js_object [("type", JSString (s2b "transaction_fail")); ("handle", js_handle h); ("reason", JSString (s2b "timeout"))]%string.

Section Simulation.
Context `{CL : CraftppLaws} `{I : Inet} {text : Address -> bytes} `{IL : !InetLaws I text} `{NL : CraftnapiLaws} `{O : MapOrder}.
Context (fuel : nat) (Hfuel : (0 < fuel)%nat) (error_message : Error -> bytes) {G : Type}.

(** The program reacts to an effect as the caller in C++ does. *)
Definition reacts (r : Result Value) (e : Effect) : Prop :=
  (match r with Ok v => reaction (denote v) | Err _ => Acts end) =
  match e with Idle => Stops | Sleep d => Waits (i32 (whole_ms d)) | _ => Acts end.

Lemma returns_reacts c r e : returns_effect denote utf8 text error_message c r e -> reacts r e.
Proof.
  unfold reacts. destruct e as [h hnd|h ep msg rtt|h reason|d|]; cbn [returns_effect].
  - intros (t & _ & v & -> & ->). unfold js_object, reaction.
    by rewrite (js_object_property _ "type" (JSString (s2b "send_data"))) by (by apply (bool_decide_unpack _); vm_compute) || by left.
  - destruct (_ =? _); [|by destruct r]. intros (v & -> & ->). unfold reaction.
    rewrite (js_object_property _ "type" (JSString (s2b "transaction_ok"))); [done| |left]. by apply (bool_decide_unpack _); vm_compute.
  - intros (v & -> & ->). unfold js_object, reaction.
    rewrite (js_object_property _ "type" (JSString (s2b "transaction_fail"))); [done| |left]. by apply (bool_decide_unpack _); vm_compute.
  - intros (v & -> & ->). unfold js_object, reaction.
    rewrite (js_object_property _ "type" (JSString (s2b "sleep"))); [| |left]; [|by apply (bool_decide_unpack _); vm_compute].
    rewrite (js_object_property _ "timeout_ms" (JSNumber (i32 (whole_ms d)))); [done| |right; left]. by apply (bool_decide_unpack _); vm_compute.
  - intros (v & -> & ->). unfold js_object, reaction.
    rewrite (js_object_property _ "type" (JSString (s2b "idle"))); [done| |left]. by apply (bool_decide_unpack _); vm_compute.
Qed.

(** What the program sees at [x], when the caller in C++ sees [y]. *)
Definition seen_alike (x : Timepoint * Result Value) (y : Timepoint * (Effect * option bytes)) : Prop :=
  x.1 = y.1 /\ exists c, returns_effect denote utf8 text error_message c x.2 y.2.1 /\ effect_data c y.2.1 = y.2.2.

Lemma readable_effect c e : readable c e = true -> effect_readable c e.
Proof. destruct e; try done; cbn; [by intros ?%bool_decide_eq_true|by intros ?%Z.ltb_lt]. Qed.

(** The program's loop simulates the caller's. *)
Lemma node_run_run settings info (g : G) : settings_ok settings -> forall n extra now ns c es c', node_reachable settings c ->
  object_unwrap ns (this_arg info) = Ok c -> run n (map timer extra) now c = Some (es, c') ->
  exists ns' rs, node_run fuel error_message denote n extra now info (ns, g) = Some (rs, (ns', g)) /\
    object_unwrap ns' (this_arg info) = Ok c' /\ Forall2 seen_alike rs es.
Proof.
  intros Hset. induction n as [|n IH]; intros extra now ns c es c' Hc Hu; [done|]. cbn [run node_run].
  destruct (client_next _ now c) as [[c1 e]|] eqn:En; [|done]. cbn [mbind option_bind].
  destruct (readable c1 e) eqn:Hr; [|done]. destruct (node_reachable_ok settings c CL Hset Hc) as [_ Hd].
  destruct (node_next_ok fuel Hfuel error_message now info ns g c c1 e Hu En Hd (readable_effect _ _ Hr)) as (ns1 & r & -> & Hu1 & Hret).
  assert (node_reachable settings c1) as Hc1 by (eapply rtc_r; [exact Hc|by econstructor]).
  pose proof (returns_reacts _ _ _ Hret) as Hre. unfold reacts in Hre. cbn [mbind option_bind]. rewrite Hre.
  destruct e; [..|destruct extra as [|l extra]|]; cbn [map]; try (intros [= <- <-]; by exists ns1, []); [..|by apply IH].
  all: destruct (run n (map timer extra) now c1) as [[es1 c2]|] eqn:Er; [|done]; cbn [mbind option_bind]; intros [= <- <-];
    destruct (IH extra now ns1 c1 es1 c2 Hc1 Hu1 Er) as (ns2 & rs & -> & Hu2 & Hrs); cbn [mbind option_bind];
    eexists ns2, _; split; [reflexivity|]; split; [done|]; constructor; [|done]; split; [done|]; by exists c1.
Qed.

Lemma seen_send_data x t h data : seen_alike x (t, (SendData h h, Some data)) -> x.1 = t /\ makes denote x.2 (js_send_data data).
Proof.
  intros (Ht & c & (tr & Etr & Hm) & Hdata). split; [done|]. cbn [snd fst effect_data] in Hdata. rewrite Etr in Hdata.
  by injection Hdata as <-.
Qed.

Lemma seen_timeout x t h : seen_alike x (t, (TransactionFailed h Timeout, None)) -> x.1 = t /\ makes denote x.2 (js_timeout h).
Proof.
  intros (Ht & c & Hm & _). split; [done|]. cbn [snd fst returns_effect failed_reason_string] in Hm.
  by rewrite utf8_ascii in Hm by by apply s2b_ascii.
Qed.

Lemma seen_unanswered h data : forall k ts rs, length ts = S k ->
  Forall2 seen_alike rs (zip ts (replicate k (SendData h h, Some data) ++ [(TransactionFailed h Timeout, None)])) ->
  map fst rs = ts /\ Forall2 (makes denote) (map snd rs) (replicate k (js_send_data data) ++ [js_timeout h]).
Proof.
  induction k as [|k IH]; intros [|t ts] rs Hl; try done; cbn [replicate app zip_with].
  - destruct ts; [|done]. intros (x & rs' & Hx & Hn%Forall2_nil_inv_r & ->)%Forall2_cons_inv_r. subst rs'.
    apply seen_timeout in Hx as [<- Hx]. split; [done|]. by constructor.
  - intros (x & rs' & Hx & Hrs & ->)%Forall2_cons_inv_r. apply seen_send_data in Hx as [<- Hx].
    destruct (IH ts rs' ltac:(by injection Hl) Hrs) as [<- Hm]. split; [done|]. by constructor.
Qed.

(** A call of [create] that does not throw. *)
Lemma node_create_inv `{E : Evp} (D : EVP_MD -> bytes -> bytes) `{HL : !HashLaws SHA1_SIZE node_sha1 (D EVP_sha1)}
  (random : G -> G * Z) draws now info ns g ns1 g1 c arg source target cred v :
  object_unwrap ns (this_arg info) = Ok c -> info_arg info 0 = Ok arg -> js_request denote text arg source target cred ->
  address_wf source -> address_wf target -> node_create random draws now info (ns, g) = Some ((ns1, g1), Ok v) ->
  exists tid rq h c1, do_create (S (size (m_tmap c))) now tid rq c = Some (c1, Ok h) /\ rq_path rq = mk_Path source target /\
    denote v = js_handle h /\ object_unwrap ns1 (this_arg info) = Ok c1 /\ node_client_step c c1.
Proof.
  intros Hu Harg Hreq Hs Ht. pose proof (request_js D arg source target cred Hreq Hs Ht) as Erq. unfold node_create. rewrite Harg, Hu.
  cbn [mbind result_bind]. rewrite Erq. destruct (usable_password cred); [|done]. cbn [mbind option_bind].
  destruct (create _ _ _ _ _ _ _) as [[g2 [c1 hr]]|] eqn:Ec; [|done]. cbn [mbind option_bind]. intros [= <- <- Ev].
  destruct (create_do_create _ _ _ _ _ _ _ _ _ Ec) as (tid & _ & Ed). destruct hr as [h|e]; [|done].
  destruct (handle_makes h) as (w & Ew & Hw). cbn [mbind result_bind] in Ev. rewrite Ew in Ev. injection Ev as <-.
  exists tid, (mk_Request (mk_Path source target) [] [] (auth_of node_sha1 (D EVP_sha1) cred)), h, c1.
  split; [done|]. split; [done|]. split; [done|]. split; [by eapply unwrap_assign|]. by econstructor.
Qed.

End Simulation.

Lemma default_intervals RTO : 0 < RTO < 2 ^ 25 * 1000 -> Forall (fun d => 0 < d <= (2 ^ 31 - 1) * 1000) (intervals RTO 7 16).
Proof.
  intros Hr. apply Forall_forall. intros d Hin. apply list_elem_of_fmap in Hin as (k & -> & Hk%elem_of_seq). unfold interval.
  destruct k as [|k']; [lia|]. set (k := S k') in *. destruct (decide (S k = 7%nat)); [lia|]. pose proof (Z.pow_le_mono_r 2 (Z.of_nat k) 5 ltac:(lia) ltac:(lia)).
  pose proof (Z.pow_pos_nonneg 2 (Z.of_nat k) ltac:(lia) ltac:(lia)). nia.
Qed.

(** The timers that JavaScript sets are long enough. *)
Lemma timer_long_enough l d : 0 < d <= (2 ^ 31 - 1) * 1000 -> 0 <= l < 2 ^ 62 -> d <= timer l d < d + 2 ^ 63.
Proof.
  intros Hd Hl. unfold timer, whole_ms. pose proof (Z_div_mod_eq_full (- d) 1000). pose proof (Z.mod_pos_bound (- d) 1000 ltac:(lia)).
  rewrite i32_small by lia. lia.
Qed.

Lemma timers_long_enough ds extra : length extra = length ds -> Forall (fun d => 0 < d <= (2 ^ 31 - 1) * 1000) ds ->
  Forall (fun l => 0 <= l < 2 ^ 62) extra -> long_enough ds (map timer extra).
Proof.
  revert extra. induction ds as [|d ds IH]; intros [|l extra] Hl Hd He; try done.
  apply Forall_cons in Hd as [Hd Hds], He as [He Hes]. constructor; [by apply timer_long_enough|]. apply IH; [by injection Hl|done..].
Qed.

Lemma slept_timers ds : Forall (fun d => 0 < d <= (2 ^ 31 - 1) * 1000) ds -> forall extra,
  slept ds (map timer extra) = zip_with (fun d l => 1000 * whole_ms d + l) ds extra.
Proof.
  intros Hd. induction Hd as [|d ds Hd _ IH]; [done|]. intros [|l extra]; [done|]. unfold slept in *. cbn [map zip_with].
  rewrite IH. f_equal. unfold timer, whole_ms. pose proof (Z_div_mod_eq_full (- d) 1000).
  pose proof (Z.mod_pos_bound (- d) 1000 ltac:(lia)). by rewrite i32_small by lia.
Qed.

Lemma length_wakeups ds : forall t, length (wakeups t ds) = length ds.
Proof. induction ds as [|d ds IH]; intros t; [done|]. cbn. by rewrite IH. Qed.

(** ** Property *)

(** C15. A JavaScript program whose request nobody answers. On a client with the
    retransmission that the constructor sets and nothing to do, whose retransmit timeout for
    the path is below nine hours, [create] of two addresses returned a handle. The program
    then calls [next] in a loop, and sets a timer whenever the object's [type] is "sleep",
    for its [timeout_ms]; each timer may fire late. Then the program gets seven times the
    object to send the same bytes, and then the object of the transaction's failure with
    that handle, because of a timeout, and "idle" ends the loop. The first sending is at
    once; each further object comes when the timer of the whole milliseconds of an interval
    of RFC 8489 (RTO, 2 RTO, ..., 32 RTO, and 16 RTO at last) has fired after the previous
    sending. No call throws, and the client has forgotten the transaction. *)
Theorem node_unanswered_request `{C : Craftpp} (CL : CraftppLaws C) `{I : Inet} (text : Address -> bytes) (IL : InetLaws I text)
  `{N : Craftnapi} (denote : Value -> JS) (utf8 : bytes -> bytes) (NL : CraftnapiLaws N denote utf8) `{O : MapOrder}
  `{E : Evp} (D : EVP_MD -> bytes -> bytes) (HL : HashLaws SHA1_SIZE node_sha1 (D EVP_sha1))
  (fuel draws n : nat) (Hfuel : (0 < fuel)%nat) (Hn : (15 < n)%nat) (error_message : Error -> bytes)
  {G : Type} (random : G -> G * Z) (settings : Settings) (c : ClientUDP) (now : Timepoint) (info info2 : CallbackInfo)
  (ns ns1 : Natives ClientUDP) (g g1 : G) (arg v : Value) (source target : Address) (cred : option (bytes * bytes)) (extra : list Duration)
  (Hset : settings_ok settings) (Hc : node_reachable settings c) (He : m_effects c = []) (Htl : m_tid_timeline c = [])
  (Hrtx : retransmit settings = retransmit_default) (Hu : object_unwrap ns (this_arg info) = Ok c)
  (Harg : info_arg info 0 = Ok arg) (Hreq : js_request denote text arg source target cred)
  (Hwfs : address_wf source /\ address_wf target)
  (Hcr : node_create random draws now info (ns, g) = Some ((ns1, g1), Ok v))
  (Hthis : this_arg info2 = this_arg info)
  (Hrto : 0 < rto (m_rto_calc c) (mk_Path source target) < 2 ^ 25 * 1000)
  (Hextra : length extra = 7%nat /\ Forall (fun l => 0 <= l < 2 ^ 62) extra) :
  let RTO := rto (m_rto_calc c) (mk_Path source target) in
  exists h data ns2 rs c2, denote v = js_handle h /\
    node_run fuel error_message denote n extra now info2 (ns1, g1) = Some (rs, (ns2, g1)) /\
    map fst rs = now :: wakeups now (zip_with (fun d l => 1000 * whole_ms d + l) (intervals RTO 7 16) extra) /\
    Forall2 (makes denote) (map snd rs) (replicate 7 (js_send_data data) ++ [js_timeout h]) /\
    object_unwrap ns2 (this_arg info) = Ok c2 /\ m_effects c2 = [] /\ m_tid_timeline c2 = [] /\ m_tmap c2 = ∅.
Proof.
  cbv zeta. destruct Hwfs as [Hs Ht]. destruct (id Hextra) as [Hl Hex].
  destruct (node_create_inv D random draws now info ns g ns1 g1 c arg source target cred v Hu Harg Hreq Hs Ht Hcr)
    as (tid & rq & h & c1 & Hdo & Hp & Hv & Hu1 & Hst).
  destruct (node_reachable_ok settings c CL Hset Hc) as [Hwf _].
  pose proof (client_reachable_settings settings c (node_steps_client _ _ Hc)) as Ec. rewrite <- Hp in *. set (RTO := rto (m_rto_calc c) (rq_path rq)) in *. pose proof (default_intervals RTO Hrto) as Hiv.
  assert (retransmission_multiplier (retransmit (c_settings c)) = 16) as Em by by rewrite Ec, Hrtx.
  assert (long_enough (intervals RTO 7 16) (map timer extra)) as Hlong by (by apply timers_long_enough).
  destruct (run_created c c1 _ now tid rq h 7 n (map timer extra) Hwf He Htl Hdo) as (c2 & data & _ & Er & He2 & Htl2 & Em2 & _);
    try rewrite Em; try (by rewrite Ec, Hrtx); [lia| |done|lia|].
  { eapply Forall_impl; [exact Hiv|]. cbn. lia. }
  rewrite Em in Er. fold RTO in Er.
  assert (node_reachable settings c1) as Hc1 by (eapply rtc_r; [exact Hc|exact Hst]).
  rewrite <- Hthis in Hu1. destruct (node_run_run fuel Hfuel error_message settings info2 g1 Hset n extra now ns1 c1 _ c2 Hc1 Hu1 Er)
    as (ns2 & rs & Erun & Hu2 & Hrs).
  exists h, data, ns2, rs, c2. rewrite <- Hthis. split; [done|]. split; [done|].
  rewrite slept_timers in Hrs by done. apply (seen_unanswered error_message) in Hrs as [Hts Hms].
  - by split_and!.
  - cbn [length]. by rewrite length_wakeups, length_zip_with, (proj1 Hextra).
Qed.

(** *** Witness *)

(** A signed request of a new client (RTO 500 ms); every timer fires half a millisecond late. *)
Lemma node_unanswered_request_witness : exists ns1 g1 v h data ns2 rs,
  @node_create reference hex_inet sample_evp reference_napi key_order Z counting 1 epoch ([create_arg], sample_instance)
    ({[ 0 := client_create settings_default ]} : gmap Z ClientUDP, 5) = Some ((ns1, g1), Ok v) /\ v = js_handle h /\
  @node_run reference hex_inet reference_napi 1 sample_error_message id Z 16 (replicate 7 500) epoch ([], sample_instance) (ns1, g1)
    = Some (rs, (ns2, g1)) /\
  map (fun x => tp_value x.1) rs = [0; 500500; 1501000; 3501500; 7502000; 15502500; 31503000; 39503500] /\
  Forall2 (makes (N := reference_napi) id) (map snd rs) (replicate 7 (js_send_data data) ++ [js_timeout h]).
Proof.
  destruct (@node_create reference hex_inet sample_evp reference_napi key_order Z counting 1 epoch ([create_arg], sample_instance)
    ({[ 0 := client_create settings_default ]} : gmap Z ClientUDP, 5)) as [[[ns1 g1] [v|e]]|] eqn:Ecr.
  - destruct (node_unanswered_request reference_laws address_hex_text hex_inet_laws (N := reference_napi) id id reference_napi_laws
      (O := key_order) (E := sample_evp) (fun _ => sample_H) node_hash_laws 1 1 16 ltac:(lia) ltac:(lia) sample_error_message counting
      settings_default (client_create settings_default) epoch ([create_arg], sample_instance) ([], sample_instance)
      ({[ 0 := client_create settings_default ]} : gmap Z ClientUDP) ns1 5 g1 create_arg v
      (AddressV4 [192; 0; 2; 1]) (AddressV4 [192; 0; 2; 9]) sample_cred (replicate 7 500) settings_default_ok)
      as (h & data & ns2 & rs & c2 & Hv & Erun & Hts & Hms & _).
    + apply rtc_refl.
    + reflexivity.
    + reflexivity.
    + reflexivity.
    + reflexivity.
    + reflexivity.
    + eexists. split; [reflexivity|]. split; [reflexivity|]. split; [reflexivity|]. eexists. split; [reflexivity|]. by split.
    + split; (split; [reflexivity|]; repeat constructor; unfold is_byte; lia).
    + exact Ecr.
    + reflexivity.
    + split; vm_compute; reflexivity.
    + split; [reflexivity|]. repeat constructor; lia.
    + exists ns1, g1, v, h, data, ns2, rs. split; [reflexivity|]. split; [exact Hv|]. split; [exact Erun|]. split; [|exact Hms].
      rewrite <- (map_map fst tp_value), Hts. vm_compute. reflexivity.
  - apply (f_equal (fmap (fun x => is_ok x.2))) in Ecr. vm_compute in Ecr. discriminate Ecr.
  - apply (f_equal (fmap (fun x => is_ok x.2))) in Ecr. vm_compute in Ecr. discriminate Ecr.
Defined.
